(** * Signalforge container: the resolution engine, embedded and verified

    A shallow embedding of the C sources of the dependency-injection
    container (src/container.c, src/autowire.c, src/compiler.c,
    src/factory.c, src/fast_lookup.c, src/binding.c,
    src/reflection_cache.c, src/simd.h), followed by the properties of the
    design document that are checked against it.

    The host language runtime (class table, string hashes, object
    construction, invocation of constructors and closures) is not part of
    the repository: it is a parameter of the development, the class
    [Zend] below. *)

From Stdlib Require Import ZArith List Ascii String Bool Lia.
From stdpp Require Import base option list gmap strings fin_maps.
Import ListNotations.

From Stdlib Require Strings.Byte.
Set Warnings "-register-all".

(** ** Values of the host *)

(** SUCCESS / FAILURE of the Zend API. *)
Inductive status : Set := SUCCESS | FAILURE.

(** A [zval].  An object is recorded by the class it was created from and
    the arguments its constructor was invoked with: this is what the engine
    hands to the object materializer, and the only thing it decides. *)
Inductive zval : Type :=
| IS_UNDEF
| IS_NULL
| IS_LONG (n : Z)
| IS_STRING (s : string)
| IS_ARRAY (elems : list (string * zval))
| IS_CLOSURE (closure_id : nat)
| IS_OBJECT (class_name : string) (ctor_args : list zval).

(** Classes of the exceptions that can be pending in [EG(exception)]. *)
Inductive exception_ce : Set :=
| sf_not_found_exception_ce
| sf_circular_dependency_exception_ce
| zend_ce_throwable (name : string).

(** A thrown exception.  Throwing while another exception is pending puts
    the new one in front and keeps the old one as [previous]. *)
Inductive zend_exception : Set :=
| Exception (ce : exception_ce) (message : string)
            (previous : option zend_exception).


Definition exception_message (e : zend_exception) : string :=
  match e with Exception _ m _ => m end.

Definition exception_previous (e : zend_exception) : option zend_exception :=
  match e with Exception _ _ p => p end.

Definition zend_throw_exception (pending : option zend_exception)
    (ce : exception_ce) (message : string) : option zend_exception :=
  Some (Exception ce message pending).

(** Unsigned 32-bit truncation, as on assignment to a [uint32_t]. *)
Definition uint32 (x : Z) : Z := (x mod 2 ^ 32)%Z.

(** ** Reflection data supplied by the host (zend_class_entry) *)

Record zend_arg_info := {
  arg_name : string;
  arg_type_is_set : bool;           (* ZEND_TYPE_IS_SET *)
  arg_type_name : option string;    (* ZEND_TYPE_HAS_NAME / ZEND_TYPE_NAME *)
  arg_type_allow_null : bool;       (* ZEND_TYPE_ALLOW_NULL *)
  arg_is_variadic : bool            (* ZEND_ARG_IS_VARIADIC *)
}.

Record zend_function := {
  arg_info : list zend_arg_info;    (* num_args = length arg_info *)
  required_num_args : nat
}.

Record zend_class_entry := {
  ce_name : string;
  ce_not_instantiable : bool;
      (* ce_flags & (ZEND_ACC_INTERFACE | ZEND_ACC_ABSTRACT | ZEND_ACC_TRAIT) *)
  constructor : option zend_function
}.

(** What is invoked through [zend_call_function]. *)
Inductive callable : Type :=
| CallConstructor (ce : zend_class_entry)
| CallClosure (closure_id : nat).

(** Outcome of [zend_call_function]: the callee returned a value (SUCCESS),
    the callee threw (the call still reports SUCCESS and leaves the
    exception pending), or the call itself reported FAILURE. *)
Inductive call_outcome : Type :=
| Returned (retval : zval)
| Threw (ce : exception_ce) (message : string)
| CallFailed.

(** The host runtime. *)
Class Zend := {
  ZSTR_H : string -> Z;                                  (* zend_ulong hash *)
  SF_HAS_SIMD : bool;                                    (* simd.h *)
  zend_lookup_class : string -> option zend_class_entry;
  object_init_ex : zend_class_entry -> status;
  zend_call_function : callable -> list zval -> call_outcome
}.

(** ** src/fast_lookup.h, src/fast_lookup.c *)

Definition SF_GROUP_SIZE : nat := 16.
Definition SF_MAX_GROUPS : nat := 16.
Definition SF_CTRL_EMPTY : Z := 128.     (* 0x80 *)
Definition SF_CTRL_DELETED : Z := 254.   (* 0xFE *)

Definition SF_HASH_FINGERPRINT (h : Z) : Z := Z.land h 127.

(** One slot of a group: [ctrl[i]], [keys[i]], [values[i]]. *)
Record sf_lookup_slot := {
  ctrl : Z;                 (* uint8_t *)
  key : option string;      (* NULL or the owned key *)
  value : zval
}.

Record sf_fast_lookup := {
  groups : list (list sf_lookup_slot);
  num_groups : nat;
  count : Z;                (* uint32_t *)
  capacity : Z
}.

Definition empty_slot : sf_lookup_slot :=
  {| ctrl := SF_CTRL_EMPTY; key := None; value := IS_UNDEF |}.

Definition sf_fast_lookup_create (n : nat) : sf_fast_lookup :=
  let n := if (n =? 0)%nat || (SF_MAX_GROUPS <? n)%nat then 4%nat else n in
  {| groups := repeat (repeat empty_slot SF_GROUP_SIZE) n;
     num_groups := n;
     count := 0;
     capacity := Z.of_nat (n * SF_GROUP_SIZE) |}.

Definition sf_fast_lookup_clear (lookup : sf_fast_lookup) : sf_fast_lookup :=
  {| groups :=
       map (map (fun s =>
                   if (ctrl s <? SF_CTRL_EMPTY)%Z then empty_slot
                   else {| ctrl := SF_CTRL_EMPTY; key := key s;
                           value := value s |}))
           (groups lookup);
     num_groups := num_groups lookup;
     count := 0;
     capacity := capacity lookup |}.

(** [group->ctrl[i] == fingerprint && group->keys[i] &&
     zend_string_equals(group->keys[i], key)] *)
Definition slot_matches (fp : Z) (k : string) (s : sf_lookup_slot) : bool :=
  (ctrl s =? fp)%Z &&
  match key s with Some k' => String.eqb k' k | None => false end.

Definition group_index (h : Z) (n : nat) : nat :=
  Z.to_nat (Z.shiftr h 7 mod Z.of_nat n).

Definition next_group (g n : nat) : nat := ((g + 1) mod n)%nat.

(** The scan of one group in [sf_fast_lookup_find]. *)
Fixpoint find_in_group (fp : Z) (k : string) (slots : list sf_lookup_slot)
    : option zval :=
  match slots with
  | [] => None
  | s :: rest =>
      if slot_matches fp k s then Some (value s)
      else find_in_group fp k rest
  end.

(** The probing loop of [sf_fast_lookup_find]: [left] iterations remain. *)
Fixpoint find_probe (lookup : sf_fast_lookup) (fp : Z) (k : string)
    (left : nat) (g : nat) : option zval :=
  match left with
  | O => None
  | S left' =>
      let g := next_group g (num_groups lookup) in
      match find_in_group fp k (default [] (groups lookup !! g)) with
      | Some v => Some v
      | None => find_probe lookup fp k left' g
      end
  end.

Definition sf_fast_lookup_find `{Zend} (lookup : sf_fast_lookup)
    (k : string) : option zval :=
  let h := ZSTR_H k in
  let fp := SF_HASH_FINGERPRINT h in
  let g := group_index h (num_groups lookup) in
  match find_in_group fp k (default [] (groups lookup !! g)) with
  | Some v => Some v
  | None => find_probe lookup fp k (num_groups lookup - 1) g
  end.

(** The scan of one group in [sf_fast_lookup_insert]; the boolean tells
    whether a new slot was taken ([count++]). *)
Fixpoint insert_in_group (fp : Z) (k : string) (v : zval)
    (slots : list sf_lookup_slot) : option (list sf_lookup_slot * bool) :=
  match slots with
  | [] => None
  | s :: rest =>
      if (SF_CTRL_DELETED <=? ctrl s)%Z then
        Some ({| ctrl := fp; key := Some k; value := v |} :: rest, true)
      else if slot_matches fp k s then
        Some ({| ctrl := ctrl s; key := key s; value := v |} :: rest, false)
      else
        match insert_in_group fp k v rest with
        | Some (rest', fresh) => Some (s :: rest', fresh)
        | None => None
        end
  end.

Fixpoint insert_probe (lookup : sf_fast_lookup) (fp : Z) (k : string)
    (v : zval) (left : nat) (g : nat) : status * sf_fast_lookup :=
  match left with
  | O => (FAILURE, lookup)
  | S left' =>
      match insert_in_group fp k v (default [] (groups lookup !! g)) with
      | Some (slots, fresh) =>
          (SUCCESS,
           {| groups := <[g := slots]> (groups lookup);
              num_groups := num_groups lookup;
              count := if fresh then uint32 (count lookup + 1)
                       else count lookup;
              capacity := capacity lookup |})
      | None =>
          insert_probe lookup fp k v left' (next_group g (num_groups lookup))
      end
  end.

Definition sf_fast_lookup_insert `{Zend} (lookup : sf_fast_lookup)
    (k : string) (v : zval) : status * sf_fast_lookup :=
  if (capacity lookup * 7 / 8 <=? count lookup)%Z then (FAILURE, lookup)
  else
    let h := ZSTR_H k in
    insert_probe lookup (SF_HASH_FINGERPRINT h) k v (num_groups lookup)
                 (group_index h (num_groups lookup)).

(** The scan of one group in [sf_fast_lookup_remove]. *)
Fixpoint remove_in_group (fp : Z) (k : string)
    (slots : list sf_lookup_slot) : option (list sf_lookup_slot) :=
  match slots with
  | [] => None
  | s :: rest =>
      if slot_matches fp k s then
        Some ({| ctrl := SF_CTRL_DELETED; key := None; value := IS_UNDEF |}
              :: rest)
      else
        match remove_in_group fp k rest with
        | Some rest' => Some (s :: rest')
        | None => None
        end
  end.

Fixpoint remove_probe (lookup : sf_fast_lookup) (fp : Z) (k : string)
    (left : nat) (g : nat) : sf_fast_lookup :=
  match left with
  | O => lookup
  | S left' =>
      match remove_in_group fp k (default [] (groups lookup !! g)) with
      | Some slots =>
          {| groups := <[g := slots]> (groups lookup);
             num_groups := num_groups lookup;
             count := uint32 (count lookup - 1);
             capacity := capacity lookup |}
      | None =>
          remove_probe lookup fp k left' (next_group g (num_groups lookup))
      end
  end.

Definition sf_fast_lookup_remove `{Zend} (lookup : sf_fast_lookup)
    (k : string) : sf_fast_lookup :=
  let h := ZSTR_H k in
  remove_probe lookup (SF_HASH_FINGERPRINT h) k (num_groups lookup)
               (group_index h (num_groups lookup)).

(** ** src/container.h, src/container.c: resolution context *)

(** [stack[i]] with [hashes[i]] for [i < depth]; the bottom of the stack
    comes first.  [hashes] is an array of [uint32_t]. *)
Record sf_resolution_context := {
  frames : list (string * Z);
  ctx_capacity : Z
}.

Definition stack (ctx : sf_resolution_context) : list string :=
  map fst (frames ctx).

Definition depth (ctx : sf_resolution_context) : nat := length (frames ctx).

Definition sf_resolution_context_create : sf_resolution_context :=
  {| frames := []; ctx_capacity := 8 |}.

(** The scalar loop: [ctx->hashes[i] == h &&
    zend_string_equals(ctx->stack[i], abstract)], where [h] is the
    [zend_ulong] hash and [hashes[i]] the stored [uint32_t]. *)
Fixpoint has_scalar (h : Z) (abstract : string) (fs : list (string * Z))
    : bool :=
  match fs with
  | [] => false
  | (s, hs) :: rest =>
      if (hs =? h)%Z && String.eqb s abstract then true
      else has_scalar h abstract rest
  end.

(** simd.h, one lane of [sf_simd_cmpeq_i32] and [sf_simd_movemask_i32]. *)
Definition sf_simd_cmpeq_i32 (a b : Z) : Z :=
  if (a =? b)%Z then 4294967295%Z else 0%Z.

Fixpoint movemask_from (i : Z) (lanes : list Z) : Z :=
  match lanes with
  | [] => 0
  | v :: rest =>
      Z.lor (if (Z.land v 2147483648 =? 0)%Z then 0
             else Z.shiftl 15 (i * 4))
            (movemask_from (i + 1) rest)
  end.

Definition sf_simd_movemask_i32 (lanes : list Z) : Z := movemask_from 0 lanes.

(** The inner loop over the four lanes of one block. *)
Fixpoint block_match (mask : Z) (abstract : string) (j : Z)
    (block : list (string * Z)) : bool :=
  match block with
  | [] => false
  | (s, _) :: rest =>
      if negb (Z.land mask (Z.shiftl 15 (j * 4)) =? 0)%Z
         && String.eqb s abstract
      then true
      else block_match mask abstract (j + 1) rest
  end.

(** The SIMD loop: blocks of four hashes compared with [(uint32_t)h], then
    the scalar loop on the remaining 0 to 3 entries. *)
Fixpoint has_simd (h : Z) (abstract : string) (fs : list (string * Z))
    : bool :=
  match fs with
  | f0 :: f1 :: f2 :: f3 :: rest =>
      let block := [f0; f1; f2; f3] in
      let cmp := map (fun f => sf_simd_cmpeq_i32 (snd f) (uint32 h)) block in
      let mask := sf_simd_movemask_i32 cmp in
      if negb (mask =? 0)%Z && block_match mask abstract 0 block then true
      else has_simd h abstract rest
  | _ => has_scalar h abstract fs
  end.

Definition sf_resolution_context_has `{Zend} (ctx : sf_resolution_context)
    (abstract : string) : bool :=
  match frames ctx with
  | [] => false
  | fs =>
      if SF_HAS_SIMD then has_simd (ZSTR_H abstract) abstract fs
      else has_scalar (ZSTR_H abstract) abstract fs
  end.

Definition sf_resolution_context_push `{Zend} (ctx : sf_resolution_context)
    (abstract : string) : status * sf_resolution_context :=
  if sf_resolution_context_has ctx abstract then (FAILURE, ctx)
  else
    (SUCCESS,
     {| frames := frames ctx ++ [(abstract, uint32 (ZSTR_H abstract))];
        ctx_capacity :=
          if (ctx_capacity ctx <=? Z.of_nat (depth ctx))%Z
          then uint32 (ctx_capacity ctx * 2) else ctx_capacity ctx |}).

Definition sf_resolution_context_pop (ctx : sf_resolution_context)
    : sf_resolution_context :=
  {| frames := removelast (frames ctx); ctx_capacity := ctx_capacity ctx |}.

(** ** src/binding.h, src/reflection_cache.h, src/factory.h *)

Inductive sf_scope : Set :=
| SF_SCOPE_TRANSIENT | SF_SCOPE_SINGLETON | SF_SCOPE_INSTANCE.

Record sf_binding := {
  abstract : string;
  concrete : zval;
  instance : zval;
  scope : sf_scope;
  resolved : bool
}.

(** [binding->resolved = v] *)
Definition set_resolved (v : bool) (b : sf_binding) : sf_binding :=
  {| abstract := abstract b; concrete := concrete b; instance := instance b;
     scope := scope b; resolved := v |}.

Record sf_contextual_binding := {
  cb_concrete : string;
  cb_abstract : string;
  implementation : zval
}.

Record sf_param_info := {
  type_hint : option string;
  name : string;
  is_nullable : bool;
  has_default : bool;
  is_variadic : bool
}.

(** [param_count] is the length of [params]. *)
Record sf_class_meta := {
  class_name : string;
  params : list sf_param_info;
  is_instantiable : bool
}.

Definition param_count (meta : sf_class_meta) : nat := length (params meta).

(** The four template functions a factory can point to. *)
Inductive sf_factory_fn : Set :=
| factory_template_0deps_fn
| factory_template_1dep_fn
| factory_template_2deps_fn
| factory_template_ndeps_fn.

(** [dep_count] is the length of [dep_names]. *)
Record sf_factory := {
  f_class_name : string;
  f_ce : zend_class_entry;
  factory_fn : option sf_factory_fn;
  dep_names : list string;
  is_singleton : bool;
  has_constructor : bool
}.

Definition dep_count (f : sf_factory) : nat := length (dep_names f).

(** ** src/container.h: the container *)

Record sf_container := {
  fast_cache : sf_fast_lookup;
  instances : gmap string zval;
  bindings : gmap string sf_binding;
  context : sf_resolution_context;
  reflection_cache : gmap string sf_class_meta;
  compiled_factories : gmap string sf_factory;
  compilation_enabled : bool;
  cache_loaded : bool;
  cache_dirty : bool;
  contextual_bindings : gmap string sf_contextual_binding;
  aliases : gmap string string;
  tags : gmap string (list zval)
}.

Definition sf_container_create : sf_container :=
  {| fast_cache := sf_fast_lookup_create 4;
     instances := ∅;
     bindings := ∅;
     context := sf_resolution_context_create;
     reflection_cache := ∅;
     compiled_factories := ∅;
     compilation_enabled := false;
     cache_loaded := false;
     cache_dirty := false;
     contextual_bindings := ∅;
     aliases := ∅;
     tags := ∅ |}.

(** Field updates. *)
Definition set_fast_cache (v : sf_fast_lookup) (c : sf_container) :=
  {| fast_cache := v; instances := instances c; bindings := bindings c;
     context := context c; reflection_cache := reflection_cache c;
     compiled_factories := compiled_factories c;
     compilation_enabled := compilation_enabled c;
     cache_loaded := cache_loaded c; cache_dirty := cache_dirty c;
     contextual_bindings := contextual_bindings c; aliases := aliases c;
     tags := tags c |}.

Definition set_instances (v : gmap string zval) (c : sf_container) :=
  {| fast_cache := fast_cache c; instances := v; bindings := bindings c;
     context := context c; reflection_cache := reflection_cache c;
     compiled_factories := compiled_factories c;
     compilation_enabled := compilation_enabled c;
     cache_loaded := cache_loaded c; cache_dirty := cache_dirty c;
     contextual_bindings := contextual_bindings c; aliases := aliases c;
     tags := tags c |}.

Definition set_bindings (v : gmap string sf_binding) (c : sf_container) :=
  {| fast_cache := fast_cache c; instances := instances c; bindings := v;
     context := context c; reflection_cache := reflection_cache c;
     compiled_factories := compiled_factories c;
     compilation_enabled := compilation_enabled c;
     cache_loaded := cache_loaded c; cache_dirty := cache_dirty c;
     contextual_bindings := contextual_bindings c; aliases := aliases c;
     tags := tags c |}.

Definition set_context (v : sf_resolution_context) (c : sf_container) :=
  {| fast_cache := fast_cache c; instances := instances c;
     bindings := bindings c; context := v;
     reflection_cache := reflection_cache c;
     compiled_factories := compiled_factories c;
     compilation_enabled := compilation_enabled c;
     cache_loaded := cache_loaded c; cache_dirty := cache_dirty c;
     contextual_bindings := contextual_bindings c; aliases := aliases c;
     tags := tags c |}.

Definition set_reflection_cache (v : gmap string sf_class_meta)
    (c : sf_container) :=
  {| fast_cache := fast_cache c; instances := instances c;
     bindings := bindings c; context := context c; reflection_cache := v;
     compiled_factories := compiled_factories c;
     compilation_enabled := compilation_enabled c;
     cache_loaded := cache_loaded c; cache_dirty := cache_dirty c;
     contextual_bindings := contextual_bindings c; aliases := aliases c;
     tags := tags c |}.

Definition set_compiled_factories (v : gmap string sf_factory)
    (c : sf_container) :=
  {| fast_cache := fast_cache c; instances := instances c;
     bindings := bindings c; context := context c;
     reflection_cache := reflection_cache c; compiled_factories := v;
     compilation_enabled := compilation_enabled c;
     cache_loaded := cache_loaded c; cache_dirty := cache_dirty c;
     contextual_bindings := contextual_bindings c; aliases := aliases c;
     tags := tags c |}.

Definition set_compilation_enabled (v : bool) (c : sf_container) :=
  {| fast_cache := fast_cache c; instances := instances c;
     bindings := bindings c; context := context c;
     reflection_cache := reflection_cache c;
     compiled_factories := compiled_factories c; compilation_enabled := v;
     cache_loaded := cache_loaded c; cache_dirty := cache_dirty c;
     contextual_bindings := contextual_bindings c; aliases := aliases c;
     tags := tags c |}.

Definition set_cache_loaded (v : bool) (c : sf_container) :=
  {| fast_cache := fast_cache c; instances := instances c;
     bindings := bindings c; context := context c;
     reflection_cache := reflection_cache c;
     compiled_factories := compiled_factories c;
     compilation_enabled := compilation_enabled c;
     cache_loaded := v; cache_dirty := cache_dirty c;
     contextual_bindings := contextual_bindings c; aliases := aliases c;
     tags := tags c |}.

Definition set_cache_dirty (v : bool) (c : sf_container) :=
  {| fast_cache := fast_cache c; instances := instances c;
     bindings := bindings c; context := context c;
     reflection_cache := reflection_cache c;
     compiled_factories := compiled_factories c;
     compilation_enabled := compilation_enabled c;
     cache_loaded := cache_loaded c; cache_dirty := v;
     contextual_bindings := contextual_bindings c; aliases := aliases c;
     tags := tags c |}.

Definition set_contextual_bindings (v : gmap string sf_contextual_binding)
    (c : sf_container) :=
  {| fast_cache := fast_cache c; instances := instances c;
     bindings := bindings c; context := context c;
     reflection_cache := reflection_cache c;
     compiled_factories := compiled_factories c;
     compilation_enabled := compilation_enabled c;
     cache_loaded := cache_loaded c; cache_dirty := cache_dirty c;
     contextual_bindings := v; aliases := aliases c; tags := tags c |}.

Definition set_aliases (v : gmap string string) (c : sf_container) :=
  {| fast_cache := fast_cache c; instances := instances c;
     bindings := bindings c; context := context c;
     reflection_cache := reflection_cache c;
     compiled_factories := compiled_factories c;
     compilation_enabled := compilation_enabled c;
     cache_loaded := cache_loaded c; cache_dirty := cache_dirty c;
     contextual_bindings := contextual_bindings c; aliases := v;
     tags := tags c |}.

Definition set_tags (v : gmap string (list zval)) (c : sf_container) :=
  {| fast_cache := fast_cache c; instances := instances c;
     bindings := bindings c; context := context c;
     reflection_cache := reflection_cache c;
     compiled_factories := compiled_factories c;
     compilation_enabled := compilation_enabled c;
     cache_loaded := cache_loaded c; cache_dirty := cache_dirty c;
     contextual_bindings := contextual_bindings c; aliases := aliases c;
     tags := v |}.

(** ** src/container.c: alias resolution *)

(** [while ((alias = zend_hash_find(&c->aliases, abstract)) && depth++ < 10)
      abstract = Z_STR_P(alias);]
    [left] is [10 - depth]. *)
Fixpoint resolve_alias_loop (al : gmap string string) (left : nat)
    (abstract : string) : string :=
  match al !! abstract with
  | None => abstract
  | Some target =>
      match left with
      | O => abstract
      | S left' => resolve_alias_loop al left' target
      end
  end.

Definition sf_resolve_alias (c : sf_container) (abstract : string) : string :=
  resolve_alias_loop (aliases c) 10 abstract.

(** ** Engine state *)

(** The container together with the executor global [EG(exception)]. *)
Record world := {
  cont : sf_container;
  EG_exception : option zend_exception
}.

Definition on_container (f : sf_container -> sf_container) (w : world)
    : world :=
  {| cont := f (cont w); EG_exception := EG_exception w |}.

Definition throw (ce : exception_ce) (message : string) (w : world) : world :=
  {| cont := cont w;
     EG_exception := zend_throw_exception (EG_exception w) ce message |}.

Definition exception_pending (w : world) : bool :=
  match EG_exception w with Some _ => true | None => false end.

(** A [HashTable *parameters]: NULL, or a PHP array with string keys. *)
Definition parameters_t : Type := option (list (string * zval)).

Fixpoint zend_hash_find_array (arr : list (string * zval)) (k : string)
    : option zval :=
  match arr with
  | [] => None
  | (k', v) :: rest =>
      if String.eqb k' k then Some v else zend_hash_find_array rest k
  end.

(** What a call of the engine returns: the status, the [result] zval and
    the state it leaves.  [None] stands for a call that has not returned
    within the recursion budget. *)
Definition outcome : Type := option (status * zval * world).

(** ** src/container.c: registration *)

Definition sf_binding_create (abstract : string) (concrete : zval)
    (scope : sf_scope) : sf_binding :=
  {| abstract := abstract; concrete := concrete; instance := IS_UNDEF;
     scope := scope; resolved := false |}.

Definition sf_container_bind (c : sf_container) (abstract : string)
    (concrete : zval) (scope : sf_scope) : sf_container :=
  let abstract := sf_resolve_alias c abstract in
  set_bindings
    (<[abstract := sf_binding_create abstract concrete scope]> (bindings c)) c.

Definition sf_container_instance `{Zend} (c : sf_container)
    (abstract : string) (inst : zval) : sf_container :=
  let abstract := sf_resolve_alias c abstract in
  let c := set_instances (<[abstract := inst]> (instances c)) c in
  let c :=
    set_fast_cache (snd (sf_fast_lookup_insert (fast_cache c) abstract inst))
                   c in
  let c := set_cache_dirty true c in
  sf_container_bind c abstract inst SF_SCOPE_INSTANCE.

Definition sf_container_alias (c : sf_container) (abstract alias : string)
    : sf_container :=
  set_aliases (<[alias := abstract]> (aliases c)) c.

(** The composite key ["concrete:abstract"]. *)
Definition contextual_key (concrete abstract : string) : string :=
  concrete +:+ ":" +:+ abstract.

Definition sf_container_get_contextual_binding (c : sf_container)
    (concrete : option string) (abstract : string)
    : option sf_contextual_binding :=
  match concrete with
  | None => None
  | Some r => contextual_bindings c !! contextual_key r abstract
  end.

Definition sf_container_add_contextual_binding (c : sf_container)
    (concrete abstract : string) (impl : zval) : sf_container :=
  set_contextual_bindings
    (<[contextual_key concrete abstract :=
         {| cb_concrete := concrete; cb_abstract := abstract;
            implementation := impl |}]> (contextual_bindings c)) c.

(** ** src/reflection_cache.c *)

Definition build_param (required : nat) (i : nat) (arg : zend_arg_info)
    : sf_param_info :=
  {| type_hint := if arg_type_is_set arg then arg_type_name arg else None;
     name := arg_name arg;
     is_nullable := arg_type_is_set arg && arg_type_allow_null arg;
     has_default := (required <=? i)%nat;
     is_variadic := arg_is_variadic arg |}.

Definition sf_cache_build (class_name : string) (ce : zend_class_entry)
    : sf_class_meta :=
  if ce_not_instantiable ce then
    {| class_name := class_name; params := []; is_instantiable := false |}
  else
    match constructor ce with
    | None =>
        {| class_name := class_name; params := []; is_instantiable := true |}
    | Some ctor =>
        {| class_name := class_name;
           params := imap (build_param (required_num_args ctor))
                          (arg_info ctor);
           is_instantiable := true |}
    end.

Definition sf_cache_get (class_name : string)
    (cache : gmap string sf_class_meta) : option sf_class_meta :=
  cache !! class_name.

(** [zend_hash_add_ptr]: an entry already present is kept. *)
Definition sf_cache_put (class_name : string) (meta : sf_class_meta)
    (cache : gmap string sf_class_meta) : gmap string sf_class_meta :=
  match cache !! class_name with
  | Some _ => cache
  | None => <[class_name := meta]> cache
  end.

(** ** src/compiler.c: the compiler API *)

Definition SF_MAX_COMPILED_DEPS : nat := 8.

Definition sf_compiler_can_compile (meta : sf_class_meta) : bool :=
  is_instantiable meta
  && (param_count meta <=? SF_MAX_COMPILED_DEPS)%nat
  && forallb (fun p => match type_hint p with
                       | Some _ => true
                       | None => has_default p
                       end) (params meta).

(** The counting loop of [sf_compiler_compile_class]; [None] when a
    required parameter has no type hint. *)
Fixpoint count_deps (ps : list sf_param_info) : option nat :=
  match ps with
  | [] => Some O
  | p :: rest =>
      match type_hint p with
      | Some _ => S <$> count_deps rest
      | None => if has_default p then Some O else None
      end
  end.

Definition select_template (dep_count : nat) : sf_factory_fn :=
  match dep_count with
  | 0 => factory_template_0deps_fn
  | 1 => factory_template_1dep_fn
  | 2 => factory_template_2deps_fn
  | _ => factory_template_ndeps_fn
  end.

Definition sf_compiler_compile_class (meta : sf_class_meta)
    (ce : zend_class_entry) (is_singleton : bool) : option sf_factory :=
  if negb (sf_compiler_can_compile meta) then None
  else
    match count_deps (params meta) with
    | None => None
    | Some n =>
        Some {| f_class_name := class_name meta;
                f_ce := ce;
                factory_fn := Some (select_template n);
                dep_names := omap type_hint (take n (params meta));
                is_singleton := is_singleton;
                has_constructor :=
                  match constructor ce with Some _ => true | None => false end
             |}
    end.

(** ** The recursive core: src/autowire.c, src/compiler.c, src/factory.c,
       src/container.c

    [sf_container_make] and [sf_factory_call] call each other through
    autowiring and through the factory templates.  The bodies are written
    once, over the two functions they call back ([make_rec] and
    [factory_call_rec]); the knot is tied below by recursion on a budget
    that bounds the nesting depth of these calls. *)

Section Frames.
Context `{Zend}.
Variable make_rec :
  world -> string -> parameters_t -> option string -> outcome.
Variable factory_call_rec : sf_factory -> world -> parameters_t -> outcome.

(** *** src/autowire.c *)

Definition not_resolvable_dependency_message (p : sf_param_info)
    (hint class : string) : string :=
  "Unable to resolve dependency '" +:+ hint +:+ "' for parameter '"
  +:+ name p +:+ "' of class '" +:+ class +:+ "'".

Definition not_resolvable_parameter_message (p : sf_param_info)
    (class : string) : string :=
  "Unable to resolve parameter '" +:+ name p +:+ "' of class '" +:+ class
  +:+ "' (no type hint or default value)".

(** The loop of [sf_autowire_build_args_direct] from parameter [i] on:
    [ps] are the parameters still to visit, [built] the arguments
    [arg_buffer[0 .. actual_count-1]].  The result is the built arguments,
    or [None] for the return value -1. *)
Fixpoint build_args_loop (class : string) (parameters : parameters_t)
    (requester : string) (ps : list sf_param_info) (built : list zval)
    (w : world) : option (option (list zval) * world) :=
  match ps with
  | [] => Some (Some built, w)
  | p :: rest =>
      match parameters ≫= (fun arr => zend_hash_find_array arr (name p)) with
      | Some provided =>
          build_args_loop class parameters requester rest
                          (built ++ [provided]) w
      | None =>
          match type_hint p with
          | Some hint =>
              match make_rec w hint None (Some requester) with
              | None => None
              | Some (SUCCESS, arg, w1) =>
                  build_args_loop class parameters requester rest
                                  (built ++ [arg]) w1
              | Some (FAILURE, _, w1) =>
                  if exception_pending w1 then Some (None, w1)
                  else if is_nullable p then
                    build_args_loop class parameters requester rest
                                    (built ++ [IS_NULL]) w1
                  else if has_default p then Some (Some built, w1)
                  else
                    Some (None,
                          throw sf_not_found_exception_ce
                            (not_resolvable_dependency_message p hint class)
                            w1)
              end
          | None =>
              if has_default p then Some (Some built, w)
              else if is_variadic p then Some (Some built, w)
              else
                Some (None,
                      throw sf_not_found_exception_ce
                        (not_resolvable_parameter_message p class) w)
          end
      end
  end.

Definition sf_autowire_build_args_direct (meta : sf_class_meta)
    (parameters : parameters_t) (w : world) (requester : string)
    : option (option (list zval) * world) :=
  build_args_loop (class_name meta) parameters requester (params meta) [] w.

(** The pending exception after [zend_call_function]. *)
Definition after_call (o : call_outcome) (w : world) : world :=
  match o with
  | Threw ce message => throw ce message w
  | _ => w
  end.

(** The opportunistic compilation at the end of [sf_autowire_resolve]. *)
Definition jit_compile (class_name : string) (meta : sf_class_meta)
    (ce : zend_class_entry) (c : sf_container) : sf_container :=
  if compilation_enabled c then
    match compiled_factories c !! class_name with
    | Some _ => c
    | None =>
        match sf_compiler_compile_class meta ce false with
        | Some factory =>
            set_compiled_factories
              (<[class_name := factory]> (compiled_factories c)) c
        | None => c
        end
    end
  else c.

(** "Get or build cached metadata". *)
Definition fetch_metadata (class_name : string) (ce : zend_class_entry)
    (w : world) : sf_class_meta * world :=
  match sf_cache_get class_name (reflection_cache (cont w)) with
  | Some meta => (meta, w)
  | None =>
      let meta := sf_cache_build class_name ce in
      (meta,
       on_container
         (fun c => set_reflection_cache
                     (sf_cache_put class_name meta (reflection_cache c)) c) w)
  end.

(** "Create the object", "Call constructor if one exists" and the
    opportunistic compilation, once the arguments are built. *)
Definition autowire_construct (class_name : string) (meta : sf_class_meta)
    (ce : zend_class_entry) (args : list zval) (w : world) : outcome :=
  match object_init_ex ce with
  | FAILURE =>
      Some (FAILURE, IS_UNDEF,
            throw sf_not_found_exception_ce
                  ("Unable to instantiate class '" +:+ class_name +:+ "'") w)
  | SUCCESS =>
      match constructor ce with
      | Some _ =>
          let o := zend_call_function (CallConstructor ce) args in
          match o with
          | CallFailed => Some (FAILURE, IS_UNDEF, w)
          | _ =>
              Some (SUCCESS, IS_OBJECT (ce_name ce) args,
                    on_container (jit_compile class_name meta ce)
                                 (after_call o w))
          end
      | None =>
          Some (SUCCESS, IS_OBJECT (ce_name ce) [],
                on_container (jit_compile class_name meta ce) w)
      end
  end.

Definition sf_autowire_resolve (class_name : string)
    (parameters : parameters_t) (w : world) : outcome :=
  match zend_lookup_class class_name with
  | None =>
      Some (FAILURE, IS_UNDEF,
            throw sf_not_found_exception_ce
                  ("Class '" +:+ class_name +:+ "' not found") w)
  | Some ce =>
      if ce_not_instantiable ce then
        Some (FAILURE, IS_UNDEF,
              throw sf_not_found_exception_ce
                    ("Class '" +:+ class_name +:+ "' is not instantiable") w)
      else
        let '(meta, w) := fetch_metadata class_name ce w in
        if negb (is_instantiable meta) then
          Some (FAILURE, IS_UNDEF,
                throw sf_not_found_exception_ce
                      ("Class '" +:+ class_name +:+ "' is not instantiable")
                      w)
        else
          match sf_autowire_build_args_direct meta parameters w class_name
          with
          | None => None
          | Some (None, w) => Some (FAILURE, IS_UNDEF, w)
          | Some (Some args, w) =>
              autowire_construct class_name meta ce args w
          end
  end.

(** *** src/compiler.c: dependency fast path and factory templates *)

Definition sf_resolve_dep_fast (w : world) (dep_name : string) : outcome :=
  match instances (cont w) !! dep_name with
  | Some cached => Some (SUCCESS, cached, w)
  | None =>
      match compiled_factories (cont w) !! dep_name with
      | Some dep_factory =>
          match factory_fn dep_factory with
          | Some _ => factory_call_rec dep_factory w None
          | None => make_rec w dep_name None None
          end
      | None => make_rec w dep_name None None
      end
  end.

(** [if (factory->is_singleton) zend_hash_update(&c->instances,
     factory->class_name, &copy)] *)
Definition cache_if_singleton (factory : sf_factory) (obj : zval) (w : world)
    : world :=
  if is_singleton factory then
    on_container
      (fun c => set_instances (<[f_class_name factory := obj]> (instances c))
                              c) w
  else w.

Definition factory_template_0deps (factory : sf_factory) (w : world)
    : outcome :=
  match object_init_ex (f_ce factory) with
  | FAILURE => Some (FAILURE, IS_UNDEF, w)
  | SUCCESS =>
      let obj := IS_OBJECT (ce_name (f_ce factory)) [] in
      if has_constructor factory then
        (* zend_call_method_with_0_params, then [if (EG(exception))] *)
        let w :=
          after_call (zend_call_function (CallConstructor (f_ce factory)) [])
                     w in
        if exception_pending w then Some (FAILURE, IS_UNDEF, w)
        else Some (SUCCESS, obj, cache_if_singleton factory obj w)
      else Some (SUCCESS, obj, cache_if_singleton factory obj w)
  end.

(** The block "Create the object / Call constructor / Cache if singleton"
    of the templates with dependencies:
    [if (call_ret == FAILURE || EG(exception))]. *)
Definition construct_with (factory : sf_factory) (deps : list zval)
    (w : world) : outcome :=
  match object_init_ex (f_ce factory) with
  | FAILURE => Some (FAILURE, IS_UNDEF, w)
  | SUCCESS =>
      if has_constructor factory then
        let o := zend_call_function (CallConstructor (f_ce factory)) deps in
        let w := after_call o w in
        let obj := IS_OBJECT (ce_name (f_ce factory)) deps in
        match o with
        | CallFailed => Some (FAILURE, IS_UNDEF, w)
        | _ =>
            if exception_pending w then Some (FAILURE, IS_UNDEF, w)
            else Some (SUCCESS, obj, cache_if_singleton factory obj w)
        end
      else
        let obj := IS_OBJECT (ce_name (f_ce factory)) [] in
        Some (SUCCESS, obj, cache_if_singleton factory obj w)
  end.

(** [factory->dep_names[i]] is read without a bound check; a factory whose
    template reads past its dependency array has no defined behaviour and
    yields no result here. *)
Definition factory_template_1dep (factory : sf_factory) (w : world)
    : outcome :=
  match dep_names factory with
  | d0 :: _ =>
      match sf_resolve_dep_fast w d0 with
      | None => None
      | Some (FAILURE, _, w) => Some (FAILURE, IS_UNDEF, w)
      | Some (SUCCESS, dep, w) => construct_with factory [dep] w
      end
  | _ => None
  end.

Definition factory_template_2deps (factory : sf_factory) (w : world)
    : outcome :=
  match dep_names factory with
  | d0 :: d1 :: _ =>
      match sf_resolve_dep_fast w d0 with
      | None => None
      | Some (FAILURE, _, w) => Some (FAILURE, IS_UNDEF, w)
      | Some (SUCCESS, dep0, w) =>
          match sf_resolve_dep_fast w d1 with
          | None => None
          | Some (FAILURE, _, w) => Some (FAILURE, IS_UNDEF, w)
          | Some (SUCCESS, dep1, w) => construct_with factory [dep0; dep1] w
          end
      end
  | _ => None
  end.

(** The loop "Resolve all dependencies" of [factory_template_ndeps]. *)
Fixpoint resolve_deps_loop (names : list string) (deps : list zval)
    (w : world) : option (option (list zval) * world) :=
  match names with
  | [] => Some (Some deps, w)
  | d :: rest =>
      match sf_resolve_dep_fast w d with
      | None => None
      | Some (FAILURE, _, w) => Some (None, w)
      | Some (SUCCESS, dep, w) => resolve_deps_loop rest (deps ++ [dep]) w
      end
  end.

Definition factory_template_ndeps (factory : sf_factory) (w : world)
    : outcome :=
  match resolve_deps_loop (dep_names factory) [] w with
  | None => None
  | Some (None, w) => Some (FAILURE, IS_UNDEF, w)
  | Some (Some deps, w) => construct_with factory deps w
  end.

(** *** src/factory.c: [sf_factory_call] *)

Definition sf_factory_call_frame (factory : sf_factory) (w : world)
    (parameters : parameters_t) : outcome :=
  match factory_fn factory with
  | None => Some (FAILURE, IS_UNDEF, w)
  | Some factory_template_0deps_fn => factory_template_0deps factory w
  | Some factory_template_1dep_fn => factory_template_1dep factory w
  | Some factory_template_2deps_fn => factory_template_2deps factory w
  | Some factory_template_ndeps_fn => factory_template_ndeps factory w
  end.

(** *** src/container.c: [sf_resolve_concrete] and [sf_container_make] *)

Definition sf_container_ce_name : string := "Signalforge\Container\Container".

Definition sf_resolve_concrete (w : world) (abstract : string)
    (concrete : zval) (parameters : parameters_t) (requester : option string)
    : outcome :=
  match concrete with
  | IS_CLOSURE id =>
      let args := [IS_OBJECT sf_container_ce_name [];
                   IS_ARRAY (default [] parameters)] in
      let o := zend_call_function (CallClosure id) args in
      match o with
      | Returned v => Some (SUCCESS, v, w)
      | Threw _ _ => Some (SUCCESS, IS_UNDEF, after_call o w)
      | CallFailed => Some (FAILURE, IS_UNDEF, w)
      end
  | IS_STRING class => sf_autowire_resolve class parameters w
  | v => Some (SUCCESS, v, w)
  end.

(** The loop that builds the message of the circular-dependency error. *)
Fixpoint chain_loop (first : bool) (names : list string) : string :=
  match names with
  | [] => ""
  | s :: rest =>
      (if first then "" else " -> ") +:+ s +:+ chain_loop false rest
  end.

Definition circular_dependency_message (ctx : sf_resolution_context)
    (abstract : string) : string :=
  "Circular dependency detected: " +:+ chain_loop true (stack ctx)
  +:+ " -> " +:+ abstract.

(** [c->compilation_enabled && !requester], then the factory found under
    [abstract] when it has a [factory_fn]. *)
Definition compiled_factory_for (c : sf_container) (abstract : string)
    (requester : option string) : option sf_factory :=
  if compilation_enabled c then
    match requester with
    | Some _ => None
    | None =>
        match compiled_factories c !! abstract with
        | Some factory =>
            match factory_fn factory with
            | Some _ => Some factory
            | None => None
            end
        | None => None
        end
    end
  else None.

(** [requester && zend_hash_num_elements(&c->contextual_bindings) > 0],
    then [sf_container_get_contextual_binding]. *)
Definition applicable_contextual_binding (c : sf_container)
    (requester : option string) (abstract : string)
    : option sf_contextual_binding :=
  match requester with
  | Some _ =>
      if (0 <? size (contextual_bindings c))%nat then
        sf_container_get_contextual_binding c requester abstract
      else None
  | None => None
  end.

Definition pop_context (w : world) : world :=
  on_container (fun c => set_context (sf_resolution_context_pop (context c)) c)
               w.

(** [sf_resolution_context_pop(c->context); return ret;] *)
Definition pop_and_return (r : outcome) : outcome :=
  match r with
  | Some (ret, v, w) => Some (ret, v, pop_context w)
  | None => None
  end.

(** "Singleton? Cache it for next time". *)
Definition cache_singleton (abstract : string) (result : zval)
    (c : sf_container) : sf_container :=
  let c := set_instances (<[abstract := result]> (instances c)) c in
  let c :=
    set_fast_cache
      (snd (sf_fast_lookup_insert (fast_cache c) abstract result)) c in
  let c := set_cache_dirty true c in
  set_bindings
    (alter (set_resolved true) abstract (bindings c)) c.

Definition is_undef (v : zval) : bool :=
  match v with IS_UNDEF => true | _ => false end.

Definition sf_container_make_frame (w : world) (abstract : string)
    (parameters : parameters_t) (requester : option string) : outcome :=
  let w := on_container (set_cache_loaded true) w in
  let abstract := sf_resolve_alias (cont w) abstract in
  match sf_fast_lookup_find (fast_cache (cont w)) abstract with
  | Some cached => Some (SUCCESS, cached, w)
  | None =>
  match instances (cont w) !! abstract with
  | Some cached => Some (SUCCESS, cached, w)
  | None =>
  match compiled_factory_for (cont w) abstract requester with
  | Some factory => factory_call_rec factory w parameters
  | None =>
  match sf_resolution_context_push (context (cont w)) abstract with
  | (FAILURE, _) =>
      Some (FAILURE, IS_UNDEF,
            throw sf_circular_dependency_exception_ce
                  (circular_dependency_message (context (cont w)) abstract) w)
  | (SUCCESS, ctx) =>
      let w := on_container (set_context ctx) w in
      match applicable_contextual_binding (cont w) requester abstract with
      | Some ctx_binding =>
          pop_and_return
            (sf_resolve_concrete w abstract (implementation ctx_binding)
                                 parameters requester)
      | None =>
          match bindings (cont w) !! abstract with
          | Some binding =>
              match scope binding, is_undef (instance binding) with
              | SF_SCOPE_INSTANCE, false =>
                  Some (SUCCESS, instance binding, pop_context w)
              | _, _ =>
                  match sf_resolve_concrete w abstract (concrete binding)
                                            parameters requester with
                  | None => None
                  | Some (FAILURE, v, w) => Some (FAILURE, v, pop_context w)
                  | Some (SUCCESS, v, w) =>
                      match scope binding with
                      | SF_SCOPE_SINGLETON =>
                          Some (SUCCESS, v,
                                pop_context
                                  (on_container (cache_singleton abstract v)
                                                w))
                      | _ => Some (SUCCESS, v, pop_context w)
                      end
                  end
              end
          | None =>
              pop_and_return (sf_autowire_resolve abstract parameters w)
          end
      end
  end end end end.

End Frames.

(** Tying the knot: [engine fuel] gives [sf_container_make] and
    [sf_factory_call] for calls nested at most [fuel] deep. *)
Fixpoint engine `{Zend} (fuel : nat)
    : (world -> string -> parameters_t -> option string -> outcome)
      * (sf_factory -> world -> parameters_t -> outcome) :=
  match fuel with
  | O => (fun _ _ _ _ => None, fun _ _ _ => None)
  | S n =>
      let e := engine n in
      (sf_container_make_frame (fst e) (snd e),
       sf_factory_call_frame (fst e) (snd e))
  end.

Definition sf_container_make `{Zend} (fuel : nat) (w : world)
    (abstract : string) (parameters : parameters_t)
    (requester : option string) : outcome :=
  fst (engine fuel) w abstract parameters requester.

Definition sf_factory_call `{Zend} (fuel : nat) (factory : sf_factory)
    (w : world) (parameters : parameters_t) : outcome :=
  snd (engine fuel) factory w parameters.

(** ** src/container.c: queries, tags, forgetting, src/compiler.c:
       [sf_compiler_compile_all] *)

Definition sf_container_has `{Zend} (c : sf_container) (abstract : string)
    : bool :=
  let abstract := sf_resolve_alias c abstract in
  match bindings c !! abstract with
  | Some _ => true
  | None =>
      match zend_lookup_class abstract with
      | Some ce => negb (ce_not_instantiable ce)
      | None => false
      end
  end.

Definition sf_container_bound (c : sf_container) (abstract : string) : bool :=
  let abstract := sf_resolve_alias c abstract in
  match bindings c !! abstract with Some _ => true | None => false end.

Definition sf_container_resolved (c : sf_container) (abstract : string)
    : bool :=
  let abstract := sf_resolve_alias c abstract in
  match instances c !! abstract with
  | Some _ => true
  | None =>
      match bindings c !! abstract with
      | Some binding => resolved binding
      | None => false
      end
  end.

Definition is_string (v : zval) : bool :=
  match v with IS_STRING _ => true | _ => false end.

Definition sf_container_tag (c : sf_container) (abstracts : list zval)
    (tag : string) : sf_container :=
  let tag_array := default [] (tags c !! tag) in
  set_tags (<[tag := tag_array ++ List.filter is_string abstracts]> (tags c))
           c.

(** The loop of [sf_container_tagged] over the entries of the tag. *)
Fixpoint tagged_loop `{Zend} (fuel : nat) (items : list zval)
    (result : list zval) (w : world) : option (list zval * world) :=
  match items with
  | [] => Some (result, w)
  | IS_STRING item :: rest =>
      match sf_container_make fuel w item None None with
      | None => None
      | Some (SUCCESS, resolved, w) =>
          tagged_loop fuel rest (result ++ [resolved]) w
      | Some (FAILURE, _, w) => tagged_loop fuel rest result w
      end
  | _ :: rest => tagged_loop fuel rest result w
  end.

(** [sf_container_tagged]: the status, the [result] array and the state. *)
Definition sf_container_tagged `{Zend} (fuel : nat) (w : world) (tag : string)
    : option (status * list zval * world) :=
  match tags (cont w) !! tag with
  | None => Some (SUCCESS, [], w)
  | Some tag_array =>
      match tagged_loop fuel tag_array [] w with
      | Some (result, w) => Some (SUCCESS, result, w)
      | None => None
      end
  end.

Definition sf_container_forget_instance `{Zend} (c : sf_container)
    (abstract : string) : sf_container :=
  let abstract := sf_resolve_alias c abstract in
  let c := set_instances (delete abstract (instances c)) c in
  let c := set_fast_cache (sf_fast_lookup_remove (fast_cache c) abstract) c in
  set_bindings (alter (set_resolved false) abstract (bindings c)) c.

Definition sf_container_forget_instances (c : sf_container) : sf_container :=
  let c := set_instances ∅ c in
  let c := set_fast_cache (sf_fast_lookup_clear (fast_cache c)) c in
  set_bindings (set_resolved false <$> bindings c) c.

(** One iteration of the loop of [sf_compiler_compile_all]. *)
Definition compile_binding `{Zend} (abstract : string) (binding : sf_binding)
    (acc : sf_container * nat) : sf_container * nat :=
  let '(c, compiled_count) := acc in
  match concrete binding, scope binding with
  | IS_STRING class_name, (SF_SCOPE_TRANSIENT | SF_SCOPE_SINGLETON) =>
      match zend_lookup_class class_name with
      | None => acc
      | Some ce =>
          let '(meta, c) :=
            match sf_cache_get class_name (reflection_cache c) with
            | Some meta => (meta, c)
            | None =>
                let meta := sf_cache_build class_name ce in
                (meta,
                 set_reflection_cache
                   (sf_cache_put class_name meta (reflection_cache c)) c)
            end in
          if negb (is_instantiable meta) then (c, compiled_count)
          else
            let is_singleton :=
              match scope binding with
              | SF_SCOPE_SINGLETON => true
              | _ => false
              end in
            match sf_compiler_compile_class meta ce is_singleton with
            | Some factory =>
                (set_compiled_factories
                   (<[abstract := factory]> (compiled_factories c)) c,
                 S compiled_count)
            | None => (c, compiled_count)
            end
      end
  | _, _ => acc
  end.

Definition sf_compiler_compile_all `{Zend} (container : sf_container)
    : sf_container * nat :=
  let '(c, compiled_count) :=
    map_fold compile_binding (container, O) (bindings container) in
  (set_compilation_enabled true c, compiled_count).

(** ** src/container.c: flushing and the compiled state;
       src/reflection_cache.c: [sf_cache_clear] *)

Definition sf_cache_clear (cache : gmap string sf_class_meta)
    : gmap string sf_class_meta := ∅.

(** [sf_container_flush] cleans every table and disables compilation; the
    resolution context and the two cache flags are not touched. *)
Definition sf_container_flush (c : sf_container) : sf_container :=
  {| fast_cache := sf_fast_lookup_clear (fast_cache c);
     instances := ∅;
     bindings := ∅;
     context := context c;
     reflection_cache := sf_cache_clear (reflection_cache c);
     compiled_factories := ∅;
     compilation_enabled := false;
     cache_loaded := cache_loaded c;
     cache_dirty := cache_dirty c;
     contextual_bindings := ∅;
     aliases := ∅;
     tags := ∅ |}.

Definition sf_container_is_compiled (c : sf_container) : bool :=
  compilation_enabled c.

Definition sf_container_clear_compiled (c : sf_container) : sf_container :=
  set_compilation_enabled false (set_compiled_factories ∅ c).

(** ** signalforge_container.c: the methods of Container and of
       ContextualBuilder

    The methods act on the container of the request, which
    [sf_get_global_container] returns. *)

(** [sf_do_bind]: no concrete, or a null one, binds the abstract to
    itself. *)
Definition sf_do_bind (c : sf_container) (abstract : string)
    (concrete : option zval) (scope : sf_scope) : sf_container :=
  let concrete :=
    match concrete with
    | None | Some IS_NULL => IS_STRING abstract
    | Some v => v
    end in
  sf_container_bind c abstract concrete scope.

Definition Container_bind (c : sf_container) (abstract : string)
    (concrete : option zval) : sf_container :=
  sf_do_bind c abstract concrete SF_SCOPE_TRANSIENT.

Definition Container_singleton (c : sf_container) (abstract : string)
    (concrete : option zval) : sf_container :=
  sf_do_bind c abstract concrete SF_SCOPE_SINGLETON.

(** [Container::make]: the return value is null when [sf_container_make]
    fails. *)
Definition Container_make `{Zend} (fuel : nat) (w : world)
    (abstract : string) (parameters : parameters_t)
    : option (zval * world) :=
  match sf_container_make fuel w abstract parameters None with
  | None => None
  | Some (FAILURE, _, w) => Some (IS_NULL, w)
  | Some (SUCCESS, v, w) => Some (v, w)
  end.

Definition Container_get `{Zend} (fuel : nat) (w : world) (id : string)
    : option (zval * world) :=
  match sf_container_make fuel w id None None with
  | None => None
  | Some (FAILURE, _, w) => Some (IS_NULL, w)
  | Some (SUCCESS, v, w) => Some (v, w)
  end.

Definition sf_container_exception_ce : exception_ce :=
  zend_ce_throwable "Signalforge\Container\ContainerException".

(** The state a ContextualBuilder keeps between [when], [needs] and
    [give]. *)
Record sf_contextual_builder_object := {
  builder_concrete : string;
  builder_abstract : option string
}.

Definition Container_when (concrete : string) : sf_contextual_builder_object :=
  {| builder_concrete := concrete; builder_abstract := None |}.

Definition ContextualBuilder_needs (builder : sf_contextual_builder_object)
    (abstract : string) : sf_contextual_builder_object :=
  {| builder_concrete := builder_concrete builder;
     builder_abstract := Some abstract |}.

Definition ContextualBuilder_give (builder : sf_contextual_builder_object)
    (impl : zval) (w : world) : world :=
  match builder_abstract builder with
  | None =>
      throw sf_container_exception_ce "needs() must be called before give()" w
  | Some abstract =>
      on_container
        (fun c => sf_container_add_contextual_binding
                    c (builder_concrete builder) abstract impl) w
  end.

(** ** src/pool.h, src/pool.c: the pool of argument buffers

    The blocks of a pool are allocated once, by [sf_buffer_pool_init], and
    stay allocated; two of them are the same pointer exactly when they are
    the same block of the same pool.  A block is therefore written
    [Buffer size i], for [buffers[i]] of the pool whose blocks hold [size]
    values. *)

Definition SF_POOL_SIZE_8 : nat := 4.
Definition SF_POOL_SIZE_16 : nat := 2.
Definition SF_POOL_SIZE_32 : nat := 1.

Inductive buffer : Set := Buffer (size : nat) (index : nat).

(** [capacity] is the length of [in_use]. *)
Record sf_buffer_pool := {
  in_use : list bool;
  buffer_size : nat
}.

Record sf_pool_manager := {
  pool_8 : sf_buffer_pool;
  pool_16 : sf_buffer_pool;
  pool_32 : sf_buffer_pool;
  initialized : bool
}.

Definition sf_buffer_pool_init (capacity buffer_size : nat) : sf_buffer_pool :=
  {| in_use := repeat false capacity; buffer_size := buffer_size |}.

Definition sf_pool_init (mgr : sf_pool_manager) : sf_pool_manager :=
  if initialized mgr then mgr
  else
    {| pool_8 := sf_buffer_pool_init SF_POOL_SIZE_8 8;
       pool_16 := sf_buffer_pool_init SF_POOL_SIZE_16 16;
       pool_32 := sf_buffer_pool_init SF_POOL_SIZE_32 32;
       initialized := true |}.

(** The loop of [sf_buffer_pool_acquire] from index [i] on: the index of
    the first block that is not in use. *)
Fixpoint acquire_from (i : nat) (flags : list bool) : option nat :=
  match flags with
  | [] => None
  | used :: rest => if used then acquire_from (S i) rest else Some i
  end.

Definition sf_buffer_pool_acquire (pool : sf_buffer_pool)
    : option buffer * sf_buffer_pool :=
  match acquire_from 0 (in_use pool) with
  | Some i =>
      (Some (Buffer (buffer_size pool) i),
       {| in_use := <[i := true]> (in_use pool);
          buffer_size := buffer_size pool |})
  | None => (None, pool)
  end.

(** The loop of [sf_buffer_pool_release]: [pool->buffers[i] == buffer]
    holds for the block [i] of this pool only. *)
Definition sf_buffer_pool_release (pool : sf_buffer_pool) (b : buffer)
    : sf_buffer_pool :=
  match b with
  | Buffer size i =>
      if (size =? buffer_size pool)%nat && (i <? length (in_use pool))%nat
      then {| in_use := <[i := false]> (in_use pool);
              buffer_size := buffer_size pool |}
      else pool
  end.

Definition set_pool_8 (p : sf_buffer_pool) (mgr : sf_pool_manager) :=
  {| pool_8 := p; pool_16 := pool_16 mgr; pool_32 := pool_32 mgr;
     initialized := initialized mgr |}.

Definition set_pool_16 (p : sf_buffer_pool) (mgr : sf_pool_manager) :=
  {| pool_8 := pool_8 mgr; pool_16 := p; pool_32 := pool_32 mgr;
     initialized := initialized mgr |}.

Definition set_pool_32 (p : sf_buffer_pool) (mgr : sf_pool_manager) :=
  {| pool_8 := pool_8 mgr; pool_16 := pool_16 mgr; pool_32 := p;
     initialized := initialized mgr |}.

Definition sf_pool_acquire (mgr : sf_pool_manager) (size : nat)
    : option buffer * sf_pool_manager :=
  let mgr := sf_pool_init mgr in
  if (size <=? 8)%nat then
    let '(b, p) := sf_buffer_pool_acquire (pool_8 mgr) in
    (b, set_pool_8 p mgr)
  else if (size <=? 16)%nat then
    let '(b, p) := sf_buffer_pool_acquire (pool_16 mgr) in
    (b, set_pool_16 p mgr)
  else if (size <=? 32)%nat then
    let '(b, p) := sf_buffer_pool_acquire (pool_32 mgr) in
    (b, set_pool_32 p mgr)
  else (None, mgr).

(** [buffer] is NULL or a block. *)
Definition sf_pool_release (mgr : sf_pool_manager) (b : option buffer)
    (size : nat) : sf_pool_manager :=
  match b with
  | None => mgr
  | Some b =>
      if negb (initialized mgr) then mgr
      else if (size <=? 8)%nat then
        set_pool_8 (sf_buffer_pool_release (pool_8 mgr) b) mgr
      else if (size <=? 16)%nat then
        set_pool_16 (sf_buffer_pool_release (pool_16 mgr) b) mgr
      else if (size <=? 32)%nat then
        set_pool_32 (sf_buffer_pool_release (pool_32 mgr) b) mgr
      else mgr
  end.

(** The manager of the process before its first use: zero-filled. *)
Definition sf_global_pool : sf_pool_manager :=
  {| pool_8 := {| in_use := []; buffer_size := 0 |};
     pool_16 := {| in_use := []; buffer_size := 0 |};
     pool_32 := {| in_use := []; buffer_size := 0 |};
     initialized := false |}.

Definition sf_pool_get_manager (global : sf_pool_manager) : sf_pool_manager :=
  sf_pool_init global.

(** The flag [in_use[i]] of a block, in the pool it belongs to. *)
Definition in_use_of (mgr : sf_pool_manager) (b : buffer) : option bool :=
  match b with
  | Buffer size i =>
      if (size =? 8)%nat then in_use (pool_8 mgr) !! i
      else if (size =? 16)%nat then in_use (pool_16 mgr) !! i
      else if (size =? 32)%nat then in_use (pool_32 mgr) !! i
      else None
  end.

Definition block_size (b : buffer) : nat :=
  match b with Buffer size _ => size end.

(** An initialized manager has the block sizes [sf_pool_init] gave it. *)
Definition pools_sized (mgr : sf_pool_manager) : Prop :=
  initialized mgr = true ->
  buffer_size (pool_8 mgr) = 8%nat
  /\ buffer_size (pool_16 mgr) = 16%nat
  /\ buffer_size (pool_32 mgr) = 32%nat.

(** The block size of the pool that serves a request of [size] values;
    0 when none does. *)
Definition size_class (size : nat) : nat :=
  if (size <=? 8)%nat then 8
  else if (size <=? 16)%nat then 16
  else if (size <=? 32)%nat then 32
  else 0.

(** ** src/cache_file.h, src/cache_file.c: the file of cached singletons

    A file is the list of its bytes; a stream open for writing is the
    bytes written so far, a stream open for reading the bytes still to
    read.  [fwrite(ptr, size, 1, fp)] and [fread(ptr, size, 1, fp)]
    transfer one item of [size] bytes and return the number of items
    transferred: none for an item of size 0, and none for a read that
    runs into the end of the file.  The [uint32_t] fields are written in
    the byte order of the host, little-endian as the header says of the
    magic number.  The serializer of the host and the outcome of opening a
    file for writing are parameters; warnings are not recorded. *)

Class Storage := {
  php_var_serialize : zval -> list Byte.byte;
  php_var_unserialize : list Byte.byte -> option zval;
  (** whether [fopen(path, "wb")] returns a stream *)
  fopen_wb : string -> bool
}.

Definition SF_CACHE_MAGIC : Z := 0x4E434653.
Definition SF_CACHE_VERSION : Z := 1.

Definition byte_of_Z (z : Z) : Byte.byte :=
  default Byte.x00 (Byte.of_N (Z.to_N (z mod 256))).

Definition Z_of_byte (b : Byte.byte) : Z := Z.of_N (Byte.to_N b).

(** The four bytes of a [uint32_t], lowest first. *)
Definition uint32_bytes (x : Z) : list Byte.byte :=
  [byte_of_Z x; byte_of_Z (Z.shiftr x 8); byte_of_Z (Z.shiftr x 16);
   byte_of_Z (Z.shiftr x 24)].

Definition uint32_of_bytes (bs : list Byte.byte) : Z :=
  fold_right (fun b acc => Z_of_byte b + 256 * acc)%Z 0%Z bs.

(** [fwrite(item, size, 1, fp) == 1] *)
Definition fwrite (item : list Byte.byte) (fp : list Byte.byte)
    : option (list Byte.byte) :=
  match item with
  | [] => None
  | _ => Some (fp ++ item)
  end.

(** [fread(buf, size, 1, fp) == 1]: the item read and the rest of the
    stream. *)
Definition fread (size : nat) (fp : list Byte.byte)
    : option (list Byte.byte * list Byte.byte) :=
  if (size =? 0)%nat then None
  else if (length fp <? size)%nat then None
  else Some (take size fp, drop size fp).

(** [Z_TYPE_P(val) == IS_OBJECT]; a closure is an object of the host. *)
Definition Z_TYPE_is_object (v : zval) : bool :=
  match v with
  | IS_OBJECT _ _ | IS_CLOSURE _ => true
  | _ => false
  end.

(** [zend_hash_add]: an entry already present is kept. *)
Definition zend_hash_add (ht : gmap string zval) (k : string) (v : zval)
    : gmap string zval :=
  match ht !! k with
  | Some _ => ht
  | None => <[k := v]> ht
  end.

Definition sf_cache_exists (fs : gmap string (list Byte.byte))
    (path : string) : bool :=
  match fs !! path with
  | None => false
  | Some fp =>
      match fread 4 fp with
      | Some (magic, _) => (uint32_of_bytes magic =? SF_CACHE_MAGIC)%Z
      | None => false
      end
  end.

(** The loop "Write each service" of [sf_cache_save], over the entries of
    the table in iteration order: the status and the bytes in the file
    when the loop ends or gives up. *)
Fixpoint save_services `{Storage} (entries : list (string * zval))
    (fp : list Byte.byte) : status * list Byte.byte :=
  match entries with
  | [] => (SUCCESS, fp)
  | (key, val) :: rest =>
      if negb (Z_TYPE_is_object val) then save_services rest fp
      else
        let key_len := uint32 (Z.of_nat (String.length key)) in
        match fwrite (uint32_bytes key_len) fp with
        | None => (FAILURE, fp)
        | Some fp1 =>
            match fwrite (take (Z.to_nat key_len) (list_byte_of_string key))
                         fp1 with
            | None => (FAILURE, fp1)
            | Some fp2 =>
                let buf := php_var_serialize val in
                if (length buf =? 0)%nat then (FAILURE, fp2)
                else
                  let val_len := uint32 (Z.of_nat (length buf)) in
                  match fwrite (uint32_bytes val_len) fp2 with
                  | None => (FAILURE, fp2)
                  | Some fp3 =>
                      match fwrite (take (Z.to_nat val_len) buf) fp3 with
                      | None => (FAILURE, fp3)
                      | Some fp4 => save_services rest fp4
                      end
                  end
            end
        end
  end.

(** [sf_cache_save]: the status and the file system it leaves.  [instances]
    is the table in iteration order. *)
Definition sf_cache_save `{Storage} (path : string)
    (instances : list (string * zval)) (fs : gmap string (list Byte.byte))
    : status * gmap string (list Byte.byte) :=
  match instances with
  | [] => (SUCCESS, fs)
  | _ =>
      if negb (fopen_wb path) then (FAILURE, fs)
      else
        let count :=
          uint32 (Z.of_nat (length (List.filter
                                      (fun e => Z_TYPE_is_object (snd e))
                                      instances))) in
        match fwrite (uint32_bytes SF_CACHE_MAGIC) [] with
        | None => (FAILURE, <[path := []]> fs)
        | Some fp1 =>
            match fwrite (uint32_bytes SF_CACHE_VERSION) fp1 with
            | None => (FAILURE, <[path := fp1]> fs)
            | Some fp2 =>
                match fwrite (uint32_bytes count) fp2 with
                | None => (FAILURE, <[path := fp2]> fs)
                | Some fp3 =>
                    let '(ret, fp) := save_services instances fp3 in
                    (ret, <[path := fp]> fs)
                end
            end
        end
  end.

(** The loop "Read each service" of [sf_cache_load]: [left] services remain
    to be read. *)
Fixpoint load_services `{Storage} (left : nat) (fp : list Byte.byte)
    (instances : gmap string zval) : status * gmap string zval :=
  match left with
  | O => (SUCCESS, instances)
  | S left' =>
      match fread 4 fp with
      | None => (FAILURE, instances)
      | Some (key_len, fp) =>
          match fread (Z.to_nat (uint32_of_bytes key_len)) fp with
          | None => (FAILURE, instances)
          | Some (key_buf, fp) =>
              match fread 4 fp with
              | None => (FAILURE, instances)
              | Some (val_len, fp) =>
                  match fread (Z.to_nat (uint32_of_bytes val_len)) fp with
                  | None => (FAILURE, instances)
                  | Some (val_buf, fp) =>
                      match php_var_unserialize val_buf with
                      | None => (FAILURE, instances)
                      | Some unserialized =>
                          load_services left' fp
                            (zend_hash_add instances
                               (string_of_list_byte key_buf) unserialized)
                      end
                  end
              end
          end
      end
  end.

Definition sf_cache_load `{Storage} (path : string)
    (instances : gmap string zval) (fs : gmap string (list Byte.byte))
    : status * gmap string zval :=
  match fs !! path with
  | None => (FAILURE, instances)
  | Some fp =>
      match fread 4 fp with
      | None => (FAILURE, instances)
      | Some (magic, fp) =>
          if negb (uint32_of_bytes magic =? SF_CACHE_MAGIC)%Z
          then (FAILURE, instances)
          else
            match fread 4 fp with
            | None => (FAILURE, instances)
            | Some (version, fp) =>
                if negb (uint32_of_bytes version =? SF_CACHE_VERSION)%Z
                then (FAILURE, instances)
                else
                  match fread 4 fp with
                  | None => (FAILURE, instances)
                  | Some (count, fp) =>
                      load_services (Z.to_nat (uint32_of_bytes count)) fp
                                    instances
                  end
            end
      end
  end.

(** An entry that [sf_cache_save] writes and [sf_cache_load] reads back:
    the name is not empty, the name and the serialized value are shorter
    than [2^32] bytes, and the value survives the serializer. *)
Definition storable `{Storage} (e : string * zval) : Prop :=
  Z_TYPE_is_object (snd e) = true ->
  (0 < String.length (fst e))%nat
  /\ (Z.of_nat (String.length (fst e)) < 2 ^ 32)%Z
  /\ (0 < length (php_var_serialize (snd e)))%nat
  /\ (Z.of_nat (length (php_var_serialize (snd e))) < 2 ^ 32)%Z
  /\ php_var_unserialize (php_var_serialize (snd e)) = Some (snd e).

(** The objects of a table added one after the other by [zend_hash_add]. *)
Definition add_objects (entries : list (string * zval))
    (instances : gmap string zval) : gmap string zval :=
  fold_left (fun ht e => zend_hash_add ht (fst e) (snd e))
            (List.filter (fun e => Z_TYPE_is_object (snd e)) entries)
            instances.

(** The bytes of one service in the file, and of the whole file. *)
Definition service_bytes `{Storage} (e : string * zval) : list Byte.byte :=
  if Z_TYPE_is_object (snd e) then
    uint32_bytes (Z.of_nat (String.length (fst e)))
    ++ list_byte_of_string (fst e)
    ++ uint32_bytes (Z.of_nat (length (php_var_serialize (snd e))))
    ++ php_var_serialize (snd e)
  else [].

Definition cache_file_bytes `{Storage} (entries : list (string * zval))
    : list Byte.byte :=
  uint32_bytes SF_CACHE_MAGIC ++ uint32_bytes SF_CACHE_VERSION
  ++ uint32_bytes
       (Z.of_nat (length (List.filter (fun e => Z_TYPE_is_object (snd e))
                                      entries)))
  ++ flat_map service_bytes entries.

(** ** src/simd.h on control bytes, and the SIMD scan of
       [sf_fast_lookup_find]

    A vector of sixteen bytes is the list of its lanes. *)

Definition sf_simd_load_i8x16 (ptr : list Z) : list Z := take 16 ptr.

Definition sf_simd_set1_i8 (value : Z) : list Z := repeat value 16.

Definition sf_simd_cmpeq_i8 (a b : list Z) : list Z :=
  zip_with (fun x y => if (x =? y)%Z then 255 else 0)%Z a b.

(** The build of simd.h ([SF_SIMD_PLATFORM]): SSE2 on x86, NEON on ARM64,
    the scalar fallback elsewhere. *)
Inductive simd_platform : Set := SSE2 | NEON | Scalar.

(** The loop of the scalar [sf_simd_movemask_i8] from lane [i] on:
    [if (vec.v[i] & 0x80) mask |= (1U << i)]. *)
Fixpoint movemask_i8_from (i : Z) (lanes : list Z) : Z :=
  match lanes with
  | [] => 0
  | v :: rest =>
      Z.lor (if (Z.land v 128 =? 0)%Z then 0 else Z.shiftl 1 i)
            (movemask_i8_from (i + 1) rest)
  end.

(** The NEON intrinsics of [sf_simd_movemask_i8], on the lists of lanes.
    [vshrq_n_u8]: every byte shifted right. *)
Definition vshrq_n_u8 (a : list Z) (n : Z) : list Z :=
  map (fun x => Z.shiftr x n) a.

(** [vreinterpretq_u16_u8], [vreinterpretq_s16_u8]: sixteen bytes read as
    eight lanes of 16 bits, the low byte first. *)
Fixpoint vreinterpretq_u16_u8 (a : list Z) : list Z :=
  match a with
  | lo :: hi :: rest => (lo + 256 * hi)%Z :: vreinterpretq_u16_u8 rest
  | _ => []
  end.

(** [vshlq_u16]: every lane of [a] shifted left by the signed low byte of
    the same lane of [b] (right for a negative count), 16 bits kept. *)
Definition vshlq_u16 (a b : list Z) : list Z :=
  zip_with (fun x s =>
              let n := (s mod 256)%Z in
              if (n <? 128)%Z then (Z.shiftl x n mod 2 ^ 16)%Z
              else Z.shiftr x (256 - n)) a b.

Definition shift_arr : list Z :=
  [0; 1; 2; 3; 4; 5; 6; 7; 8; 9; 10; 11; 12; 13; 14; 15]%Z.

(** [vgetq_lane_u16(shifted, 0) | (vgetq_lane_u16(shifted, 1) << 1) | ...]
    from lane [i] on. *)
Fixpoint or_shifted_lanes (i : Z) (lanes : list Z) : Z :=
  match lanes with
  | [] => 0
  | x :: rest => Z.lor (Z.shiftl x i) (or_shifted_lanes (i + 1) rest)
  end.

(** [sf_simd_movemask_i8]: on SSE2 [_mm_movemask_epi8], the most
    significant bit of lane [i] in bit [i], which is what the loop of the
    scalar fallback computes; on NEON the shifts of the source. *)
Definition sf_simd_movemask_i8 (platform : simd_platform) (vec : list Z)
    : Z :=
  match platform with
  | NEON =>
      let shift := shift_arr in
      let masked := vshrq_n_u8 vec 7 in
      let shifted :=
        vshlq_u16 (vreinterpretq_u16_u8 masked)
                  (vreinterpretq_u16_u8 shift) in
      or_shifted_lanes 0 shifted
  | SSE2 | Scalar => movemask_i8_from 0 vec
  end.

(** [while ((mask & 1) == 0) { mask >>= 1; count++; }] on a mask of 32
    bits. *)
Fixpoint ctz_loop (left : nat) (mask count : Z) : Z :=
  match left with
  | O => count
  | S left' =>
      if (Z.land mask 1 =? 0)%Z
      then ctz_loop left' (Z.shiftr mask 1) (count + 1)
      else count
  end.

Definition sf_simd_ctz (mask : Z) : Z :=
  if (mask =? 0)%Z then 32 else ctz_loop 32 mask 0.

(** [while (mask != 0) { slot = sf_simd_ctz(mask); mask &= mask - 1;
     if (group->keys[slot] && zend_string_equals(group->keys[slot], key))
       return &group->values[slot]; }]
    Every turn clears a bit of the 32-bit mask: [left] bounds the turns.
    A bit past the sixteenth names no slot of the group (the source reads
    past [keys] there); the scan goes on to the next bit. *)
Fixpoint simd_scan (left : nat) (mask : Z) (k : string)
    (slots : list sf_lookup_slot) : option zval :=
  match left with
  | O => None
  | S left' =>
      if (mask =? 0)%Z then None
      else
        let slot := Z.to_nat (sf_simd_ctz mask) in
        let mask := Z.land mask (mask - 1) in
        match slots !! slot with
        | Some s =>
            match key s with
            | Some k' =>
                if String.eqb k' k then Some (value s)
                else simd_scan left' mask k slots
            | None => simd_scan left' mask k slots
            end
        | None => simd_scan left' mask k slots
        end
  end.

(** The scan of one group on the SIMD path of [sf_fast_lookup_find]. *)
Definition find_in_group_simd (platform : simd_platform) (fingerprint : Z)
    (k : string) (slots : list sf_lookup_slot) : option zval :=
  let ctrl_vec := sf_simd_load_i8x16 (map ctrl slots) in
  let target := sf_simd_set1_i8 fingerprint in
  let cmp := sf_simd_cmpeq_i8 ctrl_vec target in
  let mask := sf_simd_movemask_i8 platform cmp in
  simd_scan 32 mask k slots.

Fixpoint find_probe_simd (platform : simd_platform) (lookup : sf_fast_lookup)
    (fp : Z) (k : string) (left : nat) (g : nat) : option zval :=
  match left with
  | O => None
  | S left' =>
      let g := next_group g (num_groups lookup) in
      match find_in_group_simd platform fp k
              (default [] (groups lookup !! g)) with
      | Some v => Some v
      | None => find_probe_simd platform lookup fp k left' g
      end
  end.

(** [sf_fast_lookup_find] as compiled with [SF_HAS_SIMD], on the given
    platform. *)
Definition sf_fast_lookup_find_simd `{Zend} (platform : simd_platform)
    (lookup : sf_fast_lookup) (k : string) : option zval :=
  let h := ZSTR_H k in
  let fp := SF_HASH_FINGERPRINT h in
  let g := group_index h (num_groups lookup) in
  match find_in_group_simd platform fp k
          (default [] (groups lookup !! g)) with
  | Some v => Some v
  | None => find_probe_simd platform lookup fp k (num_groups lookup - 1) g
  end.

(** The mask of the lanes flagged in [flags], lane 0 in bit 0. *)
Fixpoint mask_of (flags : list bool) : Z :=
  match flags with
  | [] => 0
  | b :: rest => ((if b then 1 else 0) + 2 * mask_of rest)%Z
  end.

(** The class a binding is compiled for: its concrete when that is a
    string and the scope is not Instance. *)
Definition eligible_class (b : sf_binding) : option string :=
  match concrete b, scope b with
  | IS_STRING cls, (SF_SCOPE_TRANSIENT | SF_SCOPE_SINGLETON) => Some cls
  | _, _ => None
  end.

(** The metadata [sf_compiler_compile_all] uses for a class: the cached
    one, or the one it builds. *)
Definition metadata_for (c : sf_container) (cls : string)
    (ce : zend_class_entry) : sf_class_meta :=
  default (sf_cache_build cls ce) (sf_cache_get cls (reflection_cache c)).

Definition singleton_scope (b : sf_binding) : bool :=
  match scope b with SF_SCOPE_SINGLETON => true | _ => false end.

(** ** Vocabulary of the statements *)

(** [alias_hops al n a b]: following the alias map [n] times from [a]
    leads to [b]. *)
Inductive alias_hops (al : gmap string string) : nat -> string -> string -> Prop :=
| alias_hops_O a : alias_hops al O a a
| alias_hops_S n a b c :
    al !! a = Some b -> alias_hops al n b c -> alias_hops al (S n) a c.

(** The entries of a tag resolved one after the other: an entry that is not
    a string is skipped, a string entry whose [make] succeeds contributes
    its instance, one whose [make] fails contributes nothing. *)
Inductive resolves_tagged `{Zend} (fuel : nat)
    : list zval -> world -> list zval -> world -> Prop :=
| resolves_nil w : resolves_tagged fuel [] w [] w
| resolves_skip item rest w result w' :
    is_string item = false ->
    resolves_tagged fuel rest w result w' ->
    resolves_tagged fuel (item :: rest) w result w'
| resolves_success item rest w v w1 result w' :
    sf_container_make fuel w item None None = Some (SUCCESS, v, w1) ->
    resolves_tagged fuel rest w1 result w' ->
    resolves_tagged fuel (IS_STRING item :: rest) w (v :: result) w'
| resolves_failure item rest w v w1 result w' :
    sf_container_make fuel w item None None = Some (FAILURE, v, w1) ->
    resolves_tagged fuel rest w1 result w' ->
    resolves_tagged fuel (IS_STRING item :: rest) w result w'.

(** A group is vacant when every control byte is EMPTY. *)
Definition vacant (slots : list sf_lookup_slot) : Prop :=
  Forall (fun s => ctrl s = SF_CTRL_EMPTY) slots.

(** A table is pristine when all its groups are vacant: the state in which
    [sf_fast_lookup_create] and [sf_fast_lookup_clear] leave it. *)
Definition pristine (lookup : sf_fast_lookup) : Prop :=
  Forall vacant (groups lookup).

(** The pending exception, if any, was not thrown over another one. *)
Definition unchained (w : world) : Prop :=
  match EG_exception w with
  | None => True
  | Some e => exception_previous e = None
  end.

(** A host whose constructors and closures never leave an exception
    pending: every error is then one raised by the engine. *)
Definition host_never_throws `{Zend} : Prop :=
  forall c args ce m, zend_call_function c args <> Threw ce m.

(** The number of slots of a group, and of a table, that hold a key. *)
Definition matches_in (fp : Z) (k : string) (slots : list sf_lookup_slot)
    : nat :=
  length (List.filter (slot_matches fp k) slots).

Definition occupancy `{Zend} (lookup : sf_fast_lookup) (k : string) : nat :=
  list_sum (map (matches_in (SF_HASH_FINGERPRINT (ZSTR_H k)) k)
                (groups lookup)).

(** The scan of [left] groups from group [g] on, in probing order. *)
Fixpoint find_from (lookup : sf_fast_lookup) (fp : Z) (k : string)
    (left : nat) (g : nat) : option zval :=
  match left with
  | O => None
  | S left' =>
      match find_in_group fp k (default [] (groups lookup !! g)) with
      | Some v => Some v
      | None => find_from lookup fp k left' (next_group g (num_groups lookup))
      end
  end.

(** The part of the state that a call of the engine gives back as it
    found it: the frames of the resolution context, the contextual
    bindings, the compilation switch and the alias map. *)
Definition ctxf (w : world) : list (string * Z) := frames (context (cont w)).

Definition stable (w w' : world) : Prop :=
  ctxf w' = ctxf w
  /\ contextual_bindings (cont w') = contextual_bindings (cont w)
  /\ compilation_enabled (cont w') = compilation_enabled (cont w)
  /\ aliases (cont w') = aliases (cont w)
  /\ (compilation_enabled (cont w) = false ->
      compiled_factories (cont w') = compiled_factories (cont w))
  /\ (cache_loaded (cont w) = true -> cache_loaded (cont w') = true)
  /\ (pristine (fast_cache (cont w)) ->
      fast_cache (cont w') = fast_cache (cont w)).

(** The frames a context holds after pushing [names] in order. *)
Definition frames_of `{Zend} (names : list string) : list (string * Z) :=
  map (fun s => (s, uint32 (ZSTR_H s))) names.

(** An exception that is pending stays pending: nothing clears
    [EG(exception)]. *)
Definition still_pending (w w' : world) : Prop :=
  exception_pending w = true -> exception_pending w' = true.





(** *** Compiled states

    The class a name stands for when [make] resolves it through its
    binding, with the singleton flag of that binding: the concrete of a
    Transient or Singleton binding to a class name, and the name itself
    when it has no binding. *)
Definition name_class (c : sf_container) (k : string)
    : option (string * bool) :=
  match bindings c !! k with
  | Some b => (fun cls => (cls, singleton_scope b)) <$> eligible_class b
  | None => Some (k, false)
  end.

(** Every registered factory is the one [sf_compiler_compile_class] gives
    for the class its name stands for, with the singleton flag of the
    binding, and a singleton factory stores under the name it is
    registered under. *)
Definition registered_ok `{Zend} (c : sf_container) : Prop :=
  forall k g,
    compiled_factories c !! k = Some g ->
    factory_fn g <> None ->
    exists cls ce,
      name_class c k = Some (cls, is_singleton g)
      /\ (is_singleton g = true -> f_class_name g = k)
      /\ zend_lookup_class cls = Some ce
      /\ ce_not_instantiable ce = false
      /\ sf_compiler_compile_class (metadata_for c cls ce) ce (is_singleton g)
         = Some g.

(** Autowiring a class may register a factory for it under the class
    name ([jit_compile]).  That is harmless when the name has a factory
    already, or stands for the class itself as a transient, or the class
    is not compilable. *)
Definition safe_to_compile `{Zend} (c : sf_container) (cls : string) : Prop :=
  is_Some (compiled_factories c !! cls)
  \/ name_class c cls = Some (cls, false)
  \/ (forall ce, zend_lookup_class cls = Some ce ->
                 sf_compiler_compile_class (metadata_for c cls ce) ce false
                 = None).

(** Every class named by a binding is safe to compile. *)
Definition bound_classes_ok `{Zend} (c : sf_container) : Prop :=
  forall k b cls,
    bindings c !! k = Some b ->
    concrete b = IS_STRING cls ->
    safe_to_compile c cls.

(** The dependency graph has no cycle below the rank [top]: among the
    names of rank [top] at most, [rk] decreases from a class to the type
    hints of its constructor and does not increase from a name to the
    class it is bound to. *)
Definition acyclic `{Zend} (rk : string -> nat) (top : nat)
    (c : sf_container) : Prop :=
  (forall k b cls,
      bindings c !! k = Some b -> concrete b = IS_STRING cls ->
      (rk k <= top)%nat ->
      (rk cls <= rk k)%nat)
  /\ (forall cls ce p hint,
        zend_lookup_class cls = Some ce ->
        In p (params (metadata_for c cls ce)) ->
        type_hint p = Some hint ->
        (rk cls <= top)%nat ->
        (rk hint < rk cls)%nat).

(** A state whose compiled factories agree with its bindings: no
    contextual binding, no alias, no entry in the fast lookup table. *)
Definition coherent `{Zend} (rk : string -> nat) (top : nat) (w : world)
    : Prop :=
  size (contextual_bindings (cont w)) = 0%nat
  /\ aliases (cont w) = ∅
  /\ pristine (fast_cache (cont w))
  /\ registered_ok (cont w)
  /\ bound_classes_ok (cont w)
  /\ acyclic rk top (cont w).

(** Every name on the resolution stack has rank [bound] at least. *)
Definition above (rk : string -> nat) (bound : nat) (w : world) : Prop :=
  Forall (fun x => (bound <= rk x)%nat) (stack (context (cont w))).

(** Bindings that differ in their [resolved] flags at most. *)
Definition same_bindings (m m' : gmap string sf_binding) : Prop :=
  forall k,
    option_Forall2
      (fun b b' => concrete b = concrete b' /\ scope b = scope b'
                   /\ instance b = instance b')
      (m !! k) (m' !! k).

(** What a call of the engine keeps of the registrations: the bindings up
    to their [resolved] flags, and the metadata of every class of the
    host. *)
Definition keeps `{Zend} (w w' : world) : Prop :=
  same_bindings (bindings (cont w)) (bindings (cont w'))
  /\ (forall cls ce,
        zend_lookup_class cls = Some ce ->
        metadata_for (cont w') cls ce = metadata_for (cont w) cls ce).

(** The states of two runs, one through compiled factories and one through
    autowiring alone, that started from the same state: the same bindings
    up to their [resolved] flags, the same instances, fast lookup table
    and pending exception, the same metadata for every class of the
    host. *)
Definition rel `{Zend} (rk : string -> nat) (top : nat) (wF wA : world)
    : Prop :=
  same_bindings (bindings (cont wF)) (bindings (cont wA))
  /\ instances (cont wF) = instances (cont wA)
  /\ fast_cache (cont wF) = fast_cache (cont wA)
  /\ (forall cls ce,
        zend_lookup_class cls = Some ce ->
        metadata_for (cont wF) cls ce = metadata_for (cont wA) cls ce)
  /\ EG_exception wF = EG_exception wA
  /\ size (contextual_bindings (cont wA)) = 0%nat
  /\ aliases (cont wA) = ∅
  /\ coherent rk top wF.

(** ** Sample hosts and containers for the examples *)

(** The string hash of the host (DJBX33A, never zero: the top bit of the
    [zend_ulong] is set), for a 64-bit and for a 32-bit [zend_ulong]. *)
Fixpoint djbx33a (h : Z) (s : string) : Z :=
  match s with
  | EmptyString => h
  | String c rest =>
      djbx33a ((h * 33 + Z.of_nat (Ascii.nat_of_ascii c)) mod 2 ^ 64)%Z rest
  end.

Definition hash64 (s : string) : Z := Z.lor (djbx33a 5381 s) (2 ^ 63).

Definition hash32 (s : string) : Z :=
  Z.lor (djbx33a 5381 s mod 2 ^ 32) (2 ^ 31).

(** A class whose constructor takes the given parameters
    (name, class type, nullable, has a default). *)
Definition sample_arg (a : string * option string * bool) : zend_arg_info :=
  let '(n, t, nullable) := a in
  {| arg_name := n;
     arg_type_is_set := match t with Some _ => true | None => false end;
     arg_type_name := t;
     arg_type_allow_null := nullable;
     arg_is_variadic := false |}.

Definition sample_class (n : string) (required : nat)
    (args : list (string * option string * bool)) : zend_class_entry :=
  {| ce_name := n;
     ce_not_instantiable := false;
     constructor :=
       match args with
       | [] => None
       | _ => Some {| arg_info := map sample_arg args;
                      required_num_args := required |}
       end |}.

Definition sample_classes (n : string) : option zend_class_entry :=
  if String.eqb n "Logger" then Some (sample_class "Logger" 0 [])
  else if String.eqb n "FileLogger" then Some (sample_class "FileLogger" 0 [])
  else if String.eqb n "Report" then
    Some (sample_class "Report" 1 [("logger", Some "Logger", false)])
  else if String.eqb n "A" then
    Some (sample_class "A" 1 [("b", Some "B", false)])
  else if String.eqb n "B" then
    Some (sample_class "B" 1 [("a", Some "A", false)])
  else if String.eqb n "Mailer" then
    Some (sample_class "Mailer" 1
            [("transport", Some "Transport", true);
             ("queue", Some "Queue", false);
             ("retries", None, false)])
  else if String.eqb n "Job" then
    Some (sample_class "Job" 2
            [("logger", Some "Logger", false); ("payload", None, false)])
  else None.

(** Closure 0 returns the integer 7, closure 1 cannot be called, closure 2
    throws; constructors return normally. *)
Definition sample_call (c : callable) (args : list zval) : call_outcome :=
  match c with
  | CallConstructor _ => Returned IS_NULL
  | CallClosure 0 => Returned (IS_LONG 7)
  | CallClosure 1 => CallFailed
  | CallClosure _ => Threw (zend_ce_throwable "RuntimeException") "boom"
  end.

Definition host64 : Zend :=
  {| ZSTR_H := hash64; SF_HAS_SIMD := true;
     zend_lookup_class := sample_classes;
     object_init_ex := fun _ => SUCCESS;
     zend_call_function := sample_call |}.

Definition host64_scalar : Zend :=
  {| ZSTR_H := hash64; SF_HAS_SIMD := false;
     zend_lookup_class := sample_classes;
     object_init_ex := fun _ => SUCCESS;
     zend_call_function := sample_call |}.

Definition host32 : Zend :=
  {| ZSTR_H := hash32; SF_HAS_SIMD := true;
     zend_lookup_class := sample_classes;
     object_init_ex := fun _ => SUCCESS;
     zend_call_function := sample_call |}.

(** A host on which every call returns normally. *)
Definition host32_quiet : Zend :=
  {| ZSTR_H := hash32; SF_HAS_SIMD := true;
     zend_lookup_class := sample_classes;
     object_init_ex := fun _ => SUCCESS;
     zend_call_function := fun _ _ => Returned IS_NULL |}.

Definition fresh_world : world :=
  {| cont := sf_container_create; EG_exception := None |}.



(** The tag "handlers" registered in two calls; "Missing" is no class and
    the integer entry is dropped at registration. *)
Definition tagged_world : world :=
  {| cont :=
       sf_container_tag
         (sf_container_tag sf_container_create
            [IS_STRING "Logger"; IS_LONG 3; IS_STRING "Missing"] "handlers")
         [IS_STRING "Report"] "handlers";
     EG_exception := None |}.

(** Twelve names chained by eleven aliases: a0 -> a1 -> ... -> a11. *)
Definition long_alias_chain : sf_container :=
  fold_left (fun c '(alias, target) => sf_container_alias c target alias)
    [("a0", "a1"); ("a1", "a2"); ("a2", "a3"); ("a3", "a4"); ("a4", "a5");
     ("a5", "a6"); ("a6", "a7"); ("a7", "a8"); ("a8", "a9"); ("a9", "a10");
     ("a10", "a11")]
    sf_container_create.

(** A fast lookup table of 4 groups at its load limit: every slot starts
    as a tombstone (DELETED), and 56 keys are inserted by the code itself. *)
Fixpoint xs (n : nat) : string :=
  match n with
  | O => ""
  | S m => String "x"%char (xs m)
  end.

Definition tombstone : sf_lookup_slot :=
  {| ctrl := SF_CTRL_DELETED; key := None; value := IS_UNDEF |}.

Definition tombstone_table : sf_fast_lookup :=
  {| groups := repeat (repeat tombstone SF_GROUP_SIZE) 4;
     num_groups := 4; count := 0; capacity := 64 |}.

Definition loaded_table : sf_fast_lookup :=
  fold_left (fun t k => snd (sf_fast_lookup_insert (H := host64) t k IS_NULL))
            (map xs (seq 1 56)) tombstone_table.

(** A container with the class Logger bound to itself as a singleton. *)
Definition logger_singleton : sf_container :=
  sf_container_bind sf_container_create "Logger" (IS_STRING "Logger")
                    SF_SCOPE_SINGLETON.

(** The value 42 bound as a singleton under "answer", in a container whose
    fast lookup table is at its load limit. *)
Definition answer_world : world :=
  {| cont :=
       set_fast_cache loaded_table
         (sf_container_bind sf_container_create "answer" (IS_LONG 42)
                            SF_SCOPE_SINGLETON);
     EG_exception := None |}.

(** The class Logger bound as a singleton under "log", then compiled. *)
Definition compiled_log_world : world :=
  {| cont :=
       fst (sf_compiler_compile_all (H := host64)
              (sf_container_bind sf_container_create "log"
                                 (IS_STRING "Logger") SF_SCOPE_SINGLETON));
     EG_exception := None |}.

(** The class Report and the factory [sf_compiler_compile_class] returns
    for it. *)
Definition report_ce : zend_class_entry :=
  sample_class "Report" 1 [("logger", Some "Logger", false)].

Definition report_factory : sf_factory :=
  {| f_class_name := "Report";
     f_ce := report_ce;
     factory_fn := Some factory_template_1dep_fn;
     dep_names := ["Logger"];
     is_singleton := false;
     has_constructor := true |}.

(** When Report needs a Logger, give it a FileLogger. *)
Definition contextual_report_world : world :=
  {| cont :=
       sf_container_add_contextual_binding sf_container_create
         "Report" "Logger" (IS_STRING "FileLogger");
     EG_exception := None |}.


(** A host whose serializer writes an object without constructor
    arguments as "O:" followed by its class, and nothing else. *)
Definition sample_serialize (v : zval) : list Byte.byte :=
  match v with
  | IS_OBJECT class_name [] => list_byte_of_string ("O:" +:+ class_name)
  | _ => []
  end.

Definition sample_unserialize (bs : list Byte.byte) : option zval :=
  match string_of_list_byte bs with
  | String "O" (String ":" class_name) => Some (IS_OBJECT class_name [])
  | _ => None
  end.

Definition sample_storage : Storage :=
  {| php_var_serialize := sample_serialize;
     php_var_unserialize := sample_unserialize;
     fopen_wb := fun _ => true |}.

(** A singleton bound to a closure that throws. *)
Definition throwing_world : world :=
  {| cont := sf_container_bind sf_container_create "svc"
               (IS_CLOSURE 2) SF_SCOPE_SINGLETON;
     EG_exception := None |}.

(** A class whose constructor takes no parameters, on a host where every
    call throws. *)
Definition guarded_ce : zend_class_entry :=
  {| ce_name := "Guarded";
     ce_not_instantiable := false;
     constructor := Some {| arg_info := []; required_num_args := 0 |} |}.

Definition host_throwing : Zend :=
  {| ZSTR_H := hash64; SF_HAS_SIMD := true;
     zend_lookup_class :=
       fun n => if String.eqb n "Guarded" then Some guarded_ce else None;
     object_init_ex := fun _ => SUCCESS;
     zend_call_function :=
       fun _ _ => Threw (zend_ce_throwable "RuntimeException") "boom" |}.

(** A group whose second slot holds the one entry. *)
Definition neon_group : list sf_lookup_slot :=
  empty_slot
  :: {| ctrl := 5; key := Some "Logger"; value := IS_LONG 1 |}
  :: repeat empty_slot 14.

(** Outer takes a Dep and a parameter without type or default; the
    constructor of Dep throws. *)
Definition dep_ce : zend_class_entry :=
  {| ce_name := "Dep";
     ce_not_instantiable := false;
     constructor := Some {| arg_info := []; required_num_args := 0 |} |}.

Definition outer_ce : zend_class_entry :=
  sample_class "Outer" 2 [("dep", Some "Dep", false); ("label", None, false)].

Definition host_failing_dep : Zend :=
  {| ZSTR_H := hash64; SF_HAS_SIMD := true;
     zend_lookup_class :=
       fun n => if String.eqb n "Dep" then Some dep_ce
                else if String.eqb n "Outer" then Some outer_ce
                else None;
     object_init_ex := fun _ => SUCCESS;
     zend_call_function :=
       fun c _ =>
         match c with
         | CallConstructor ce =>
             if String.eqb (ce_name ce) "Dep"
             then Threw (zend_ce_throwable "RuntimeException") "boom"
             else Returned IS_NULL
         | CallClosure _ => Returned IS_NULL
         end |}.

(** The chain of eleven aliases with an instance cached under the requested
    name, under the name reached after ten hops and under the last name. *)
Definition long_alias_world : world :=
  {| cont := set_instances
               (<["a0" := IS_LONG 0]>
                  (<["a10" := IS_LONG 10]> (<["a11" := IS_LONG 11]> ∅)))
               long_alias_chain;
     EG_exception := None |}.


(** Logger bound to itself as a singleton and Report as a transient, then
    compiled: both have their factory. *)
Definition compiled_services_world : world :=
  {| cont :=
       fst (sf_compiler_compile_all (H := host64)
              (sf_container_bind
                 (sf_container_bind sf_container_create "Logger"
                                    (IS_STRING "Logger") SF_SCOPE_SINGLETON)
                 "Report" (IS_STRING "Report") SF_SCOPE_TRANSIENT));
     EG_exception := None |}.

(** The factory [sf_compiler_compile_all] registers for Logger there. *)
Definition logger_singleton_factory : sf_factory :=
  {| f_class_name := "Logger";
     f_ce := sample_class "Logger" 0 [];
     factory_fn := Some factory_template_0deps_fn;
     dep_names := [];
     is_singleton := true;
     has_constructor := false |}.

(** Logger ranks below Report, every other name above. *)
Definition services_rank (s : string) : nat :=
  if String.eqb s "Report" then 1
  else if String.eqb s "Logger" then 0
  else 2.









(** * Properties *)

(** ** Alias resolution *)

Lemma resolve_alias_loop_hops (al : gmap string string) (left : nat)
    (a : string) :
  exists n, (n <= left)%nat
    /\ alias_hops al n a (resolve_alias_loop al left a)
    /\ ((n < left)%nat -> al !! resolve_alias_loop al left a = None).
Proof.
  revert a. induction left as [|left IH]; intros a.
  - exists O. simpl. destruct (al !! a); repeat split; try constructor; lia.
  - simpl. destruct (al !! a) as [t|] eqn:Ha.
    + destruct (IH t) as (n & Hn & Hhops & Hend).
      exists (S n). repeat split; [lia | econstructor; eauto |].
      intros Hlt. apply Hend. lia.
    + exists O. repeat split; [lia | constructor | auto].
Qed.

Lemma alias_hops_deterministic (al : gmap string string) n a b b' :
  alias_hops al n a b -> alias_hops al n a b' -> b = b'.
Proof.
  intros Hb. revert b'. induction Hb; intros b' Hb'; inversion Hb'; subst.
  - reflexivity.
  - apply IHHb. congruence.
Qed.

Section Alias.
Context `{Zend}.

Lemma make_unfold n w a p r :
  sf_container_make (S n) w a p r
  = sf_container_make_frame (sf_container_make n) (sf_factory_call n)
                            w a p r.
Proof. reflexivity. Qed.

Lemma factory_call_unfold n f w p :
  sf_factory_call (S n) f w p
  = sf_factory_call_frame (sf_container_make n) (sf_factory_call n) f w p.
Proof. reflexivity. Qed.

Lemma make_depends_on_resolved_alias n w a a' p r :
  sf_resolve_alias (cont w) a' = sf_resolve_alias (cont w) a ->
  sf_container_make (S n) w a' p r = sf_container_make (S n) w a p r.
Proof.
  intros Ha. rewrite !make_unfold. unfold sf_container_make_frame.
  cbv zeta.
  change (sf_resolve_alias (cont (on_container (set_cache_loaded true) w)) a')
    with (sf_resolve_alias (cont w) a').
  change (sf_resolve_alias (cont (on_container (set_cache_loaded true) w)) a)
    with (sf_resolve_alias (cont w) a).
  rewrite Ha. reflexivity.
Qed.

End Alias.

(** C6, as stated, fails: over a chain of eleven aliases the rest of the
    resolution uses the name reached after ten hops, here the instance
    cached under "a10", and not the one cached under the requested "a0". *)
Lemma alias_chain_over_bound_uses_tenth_name :
  let w := {| cont := set_instances
                        (<["a0" := IS_LONG 0]> (<["a10" := IS_LONG 10]> ∅))
                        long_alias_chain;
              EG_exception := None |} in
  alias_hops (aliases (cont w)) 11 "a0" "a11"
  /\ instances (cont w) !! "a0" = Some (IS_LONG 0)
  /\ sf_resolve_alias (cont w) "a0" = "a10"
  /\ sf_container_make (H := host64) 1 w "a0" None None
     = Some (SUCCESS, IS_LONG 10, on_container (set_cache_loaded true) w).
Proof.
  intros w. split; [|split; [|split]].
  - repeat (eapply alias_hops_S; [vm_compute; reflexivity|]). constructor.
  - vm_compute. reflexivity.
  - vm_compute. reflexivity.
  - vm_compute. reflexivity.
Qed.

(** ** The fast lookup table *)

Lemma fingerprint_range h : (0 <= SF_HASH_FINGERPRINT h < 128)%Z.
Proof.
  unfold SF_HASH_FINGERPRINT. change 127%Z with (Z.ones 7).
  rewrite Z.land_ones by lia. apply Z.mod_pos_bound. lia.
Qed.

Lemma slot_matches_empty fp k s :
  (0 <= fp < 128)%Z -> ctrl s = SF_CTRL_EMPTY -> slot_matches fp k s = false.
Proof.
  intros Hfp Hs. unfold slot_matches. rewrite Hs.
  replace (SF_CTRL_EMPTY =? fp)%Z with false; [reflexivity|].
  symmetry. apply Z.eqb_neq. unfold SF_CTRL_EMPTY. lia.
Qed.

Lemma insert_in_group_vacant fp k v slots :
  (0 <= fp < 128)%Z -> vacant slots -> insert_in_group fp k v slots = None.
Proof.
  intros Hfp. induction 1 as [|s rest Hs _ IH]; [reflexivity|].
  simpl. rewrite Hs at 1. change (SF_CTRL_DELETED <=? SF_CTRL_EMPTY)%Z with false.
  rewrite slot_matches_empty by assumption. rewrite IH. reflexivity.
Qed.

Lemma find_in_group_vacant fp k slots :
  (0 <= fp < 128)%Z -> vacant slots -> find_in_group fp k slots = None.
Proof.
  intros Hfp. induction 1 as [|s rest Hs _ IH]; [reflexivity|].
  simpl. rewrite slot_matches_empty by assumption. exact IH.
Qed.

Lemma remove_in_group_vacant fp k slots :
  (0 <= fp < 128)%Z -> vacant slots -> remove_in_group fp k slots = None.
Proof.
  intros Hfp. induction 1 as [|s rest Hs _ IH]; [reflexivity|].
  simpl. rewrite slot_matches_empty by assumption. rewrite IH. reflexivity.
Qed.

Lemma pristine_group lookup g :
  pristine lookup -> vacant (default [] (groups lookup !! g)).
Proof.
  intros Hp. destruct (groups lookup !! g) as [slots|] eqn:Hg; simpl.
  - unfold pristine in Hp. rewrite Forall_forall in Hp. apply Hp.
    eapply list_elem_of_lookup_2. exact Hg.
  - constructor.
Qed.

Lemma vacant_repeat n : vacant (repeat empty_slot n).
Proof. induction n; constructor; auto. Qed.

Lemma pristine_create n : pristine (sf_fast_lookup_create n).
Proof.
  unfold pristine, sf_fast_lookup_create. cbn [groups].
  generalize (if (n =? 0)%nat || (SF_MAX_GROUPS <? n)%nat then 4%nat else n).
  intros m. induction m as [|m IH]; cbn [repeat].
  - constructor.
  - constructor; [apply vacant_repeat | exact IH].
Qed.

Lemma pristine_clear lookup : pristine (sf_fast_lookup_clear lookup).
Proof.
  unfold pristine, sf_fast_lookup_clear. simpl.
  induction (groups lookup) as [|slots rest IH]; constructor; auto.
  unfold vacant. induction slots as [|s slots IHs]; constructor; auto.
  destruct (ctrl s <? SF_CTRL_EMPTY)%Z; reflexivity.
Qed.

Lemma insert_probe_pristine lookup fp k v left g :
  (0 <= fp < 128)%Z -> pristine lookup ->
  insert_probe lookup fp k v left g = (FAILURE, lookup).
Proof.
  intros Hfp Hp. revert g. induction left as [|left IH]; intros g.
  - reflexivity.
  - simpl. rewrite insert_in_group_vacant; auto using pristine_group.
Qed.

Lemma find_probe_pristine lookup fp k left g :
  (0 <= fp < 128)%Z -> pristine lookup -> find_probe lookup fp k left g = None.
Proof.
  intros Hfp Hp. revert g. induction left as [|left IH]; intros g.
  - reflexivity.
  - simpl. rewrite find_in_group_vacant; auto using pristine_group.
Qed.

Lemma remove_probe_pristine lookup fp k left g :
  (0 <= fp < 128)%Z -> pristine lookup ->
  remove_probe lookup fp k left g = lookup.
Proof.
  intros Hfp Hp. revert g. induction left as [|left IH]; intros g.
  - reflexivity.
  - simpl. rewrite remove_in_group_vacant; auto using pristine_group.
Qed.

Section FastLookup.
Context `{Zend}.

Lemma insert_pristine lookup k v :
  pristine lookup -> sf_fast_lookup_insert lookup k v = (FAILURE, lookup).
Proof.
  intros Hp. unfold sf_fast_lookup_insert.
  destruct (capacity lookup * 7 / 8 <=? count lookup)%Z; [reflexivity|].
  apply insert_probe_pristine; auto using fingerprint_range.
Qed.

Lemma find_pristine lookup k :
  pristine lookup -> sf_fast_lookup_find lookup k = None.
Proof.
  intros Hp. unfold sf_fast_lookup_find. cbv zeta.
  rewrite find_in_group_vacant;
    auto using pristine_group, fingerprint_range.
  apply find_probe_pristine; auto using fingerprint_range.
Qed.

Lemma remove_pristine lookup k :
  pristine lookup -> sf_fast_lookup_remove lookup k = lookup.
Proof.
  intros Hp. apply remove_probe_pristine; auto using fingerprint_range.
Qed.

(** The parts of C9 that hold: the refusal at 7/8 load, and the fixed size
    of the table. *)
Lemma insert_refused_at_load lookup k v :
  (capacity lookup * 7 / 8 <= count lookup)%Z ->
  sf_fast_lookup_insert lookup k v = (FAILURE, lookup).
Proof.
  intros Hload. unfold sf_fast_lookup_insert.
  apply Z.leb_le in Hload. rewrite Hload. reflexivity.
Qed.

Lemma insert_probe_size lookup fp k v left g :
  num_groups (snd (insert_probe lookup fp k v left g)) = num_groups lookup
  /\ capacity (snd (insert_probe lookup fp k v left g)) = capacity lookup
  /\ length (groups (snd (insert_probe lookup fp k v left g)))
     = length (groups lookup).
Proof.
  revert g. induction left as [|left IH]; intros g; simpl; [auto|].
  destruct (insert_in_group fp k v (default [] (groups lookup !! g)))
    as [[slots fresh]|]; simpl; [|apply IH].
  rewrite length_insert. auto.
Qed.

Lemma insert_never_resizes lookup k v :
  num_groups (snd (sf_fast_lookup_insert lookup k v)) = num_groups lookup
  /\ capacity (snd (sf_fast_lookup_insert lookup k v)) = capacity lookup
  /\ length (groups (snd (sf_fast_lookup_insert lookup k v)))
     = length (groups lookup).
Proof.
  unfold sf_fast_lookup_insert.
  destruct (capacity lookup * 7 / 8 <=? count lookup)%Z; [auto|].
  apply insert_probe_size.
Qed.

(** A slot marked DELETED is taken, first fit. *)
Lemma insert_in_group_takes_deleted fp k v s rest :
  ctrl s = SF_CTRL_DELETED ->
  insert_in_group fp k v (s :: rest)
  = Some ({| ctrl := fp; key := Some k; value := v |} :: rest, true).
Proof. intros Hs. simpl. rewrite Hs. reflexivity. Qed.

(** A slot holding the key is updated in place. *)
Lemma insert_in_group_updates fp k v s rest :
  (ctrl s < SF_CTRL_DELETED)%Z -> slot_matches fp k s = true ->
  insert_in_group fp k v (s :: rest)
  = Some ({| ctrl := ctrl s; key := key s; value := v |} :: rest, false).
Proof.
  intros Hs Hm. simpl. rewrite Hm.
  replace (SF_CTRL_DELETED <=? ctrl s)%Z with false; [reflexivity|].
  symmetry. apply Z.leb_gt. exact Hs.
Qed.

(** C9: the table refuses every insertion into EMPTY slots.  On a table
    as [sf_fast_lookup_create] returns it (load 0, every slot EMPTY), an
    insert of any key finds no slot and reports failure: the test
    [ctrl >= SF_CTRL_DELETED] (0xFE) does not hold of SF_CTRL_EMPTY (0x80),
    so that only a slot freed by a removal is ever taken. *)
Theorem insert_into_fresh_table_refused n k v :
  count (sf_fast_lookup_create n) = 0%Z
  /\ (count (sf_fast_lookup_create n)
      < capacity (sf_fast_lookup_create n) * 7 / 8)%Z
  /\ sf_fast_lookup_insert (sf_fast_lookup_create n) k v
     = (FAILURE, sf_fast_lookup_create n)
  /\ sf_fast_lookup_find (sf_fast_lookup_create n) k = None.
Proof.
  split; [reflexivity|]. split.
  - unfold sf_fast_lookup_create. cbn [count capacity].
    set (m := if (n =? 0)%nat || (SF_MAX_GROUPS <? n)%nat then 4%nat else n).
    assert (1 <= m)%nat as Hm.
    { subst m. destruct (n =? 0)%nat eqn:Hn; simpl; [lia|].
      destruct (SF_MAX_GROUPS <? n)%nat; [lia|].
      apply Nat.eqb_neq in Hn. lia. }
    unfold SF_GROUP_SIZE.
    apply Z.div_str_pos. lia.
  - split; [apply insert_pristine | apply find_pristine];
      apply pristine_create.
Qed.

End FastLookup.

(** ** The resolution context *)

Lemma blocks_ind (P : list (string * Z) -> Prop) :
  (forall fs, (length fs < 4)%nat -> P fs) ->
  (forall f0 f1 f2 f3 rest, P rest -> P (f0 :: f1 :: f2 :: f3 :: rest)) ->
  forall fs, P fs.
Proof.
  intros Hshort Hblock.
  assert (forall n fs, (length fs <= n)%nat -> P fs) as Hall.
  { induction n as [|n IH]; intros fs Hlen.
    - apply Hshort. destruct fs; simpl in *; lia.
    - destruct fs as [|f0 [|f1 [|f2 [|f3 rest]]]];
        try (apply Hshort; simpl; lia).
      apply Hblock. apply IH. simpl in Hlen. lia. }
  intros fs. apply (Hall (length fs)). lia.
Qed.

Lemma has_simd_short h a fs :
  (length fs < 4)%nat -> has_simd h a fs = has_scalar h a fs.
Proof.
  intros Hlen.
  destruct fs as [|f0 [|f1 [|f2 [|f3 rest]]]]; try reflexivity.
  simpl in Hlen. lia.
Qed.

Lemma has_scalar_sound h a fs :
  has_scalar h a fs = true -> In a (map fst fs).
Proof.
  induction fs as [|[s hs] rest IH]; simpl; [discriminate|].
  destruct ((hs =? h)%Z && String.eqb s a) eqn:Hm.
  - apply andb_true_iff in Hm as [_ Hs]. apply String.eqb_eq in Hs. auto.
  - auto.
Qed.

Lemma block_match_sound mask a j block :
  block_match mask a j block = true -> In a (map fst block).
Proof.
  revert j. induction block as [|[s hs] rest IH]; intros j; simpl;
    [discriminate|].
  destruct (negb (Z.land mask (Z.shiftl 15 (j * 4)) =? 0)%Z && String.eqb s a)
    eqn:Hm.
  - apply andb_true_iff in Hm as [_ Hs]. apply String.eqb_eq in Hs. auto.
  - intros Hr. right. eapply IH. exact Hr.
Qed.

Lemma has_simd_sound h a fs :
  has_simd h a fs = true -> In a (map fst fs).
Proof.
  induction fs as [fs Hlen | f0 f1 f2 f3 rest IH] using blocks_ind.
  - rewrite has_simd_short by assumption. apply has_scalar_sound.
  - cbn [has_simd].
    set (block := [f0; f1; f2; f3]).
    set (mask := sf_simd_movemask_i32 _).
    destruct (negb (mask =? 0)%Z && block_match mask a 0 block) eqn:Hm.
    + intros _. apply andb_true_iff in Hm as [_ Hm].
      apply block_match_sound in Hm.
      change (f0 :: f1 :: f2 :: f3 :: rest) with (block ++ rest).
      rewrite map_app. apply in_or_app. auto.
    + intros Hr. apply IH in Hr.
      change (f0 :: f1 :: f2 :: f3 :: rest) with (block ++ rest).
      rewrite map_app. apply in_or_app. auto.
Qed.

Section Context.
Context `{Zend}.

Lemma has_sound ctx a :
  sf_resolution_context_has ctx a = true -> In a (stack ctx).
Proof.
  unfold sf_resolution_context_has, stack.
  destruct (frames ctx) as [|f fs] eqn:Hf; [discriminate|].
  destruct SF_HAS_SIMD; [apply has_simd_sound | apply has_scalar_sound].
Qed.

(** A refused push leaves the context as it was, and is refused only for a
    name that is on the stack (string equality). *)
Lemma push_failure ctx a ctx' :
  sf_resolution_context_push ctx a = (FAILURE, ctx') ->
  ctx' = ctx /\ In a (stack ctx).
Proof.
  unfold sf_resolution_context_push.
  destruct (sf_resolution_context_has ctx a) eqn:Hhas; [|discriminate].
  intros Heq. inversion Heq; subst ctx'. split; [reflexivity|].
  apply has_sound. exact Hhas.
Qed.

Lemma push_success ctx a ctx' :
  sf_resolution_context_push ctx a = (SUCCESS, ctx') ->
  frames ctx' = frames ctx ++ [(a, uint32 (ZSTR_H a))].
Proof.
  unfold sf_resolution_context_push.
  destruct (sf_resolution_context_has ctx a); [discriminate|].
  intros Heq. inversion Heq. reflexivity.
Qed.

Lemma pop_push ctx a ctx' :
  sf_resolution_context_push ctx a = (SUCCESS, ctx') ->
  frames (sf_resolution_context_pop ctx') = frames ctx.
Proof.
  intros Hp. apply push_success in Hp. unfold sf_resolution_context_pop.
  cbn [frames]. rewrite Hp. apply removelast_last.
Qed.

(** When the hash of the name fits the 32 bits of [hashes[i]], the scalar
    comparison finds every occurrence. *)
Lemma has_scalar_complete a names :
  ZSTR_H a = uint32 (ZSTR_H a) ->
  In a names -> has_scalar (ZSTR_H a) a (frames_of names) = true.
Proof.
  intros Hfit. induction names as [|s rest IH]; simpl; [tauto|].
  intros [Hs|Hin].
  - subst s. rewrite <- Hfit. rewrite Z.eqb_refl, String.eqb_refl.
    reflexivity.
  - destruct ((uint32 (ZSTR_H s) =? ZSTR_H a)%Z && String.eqb s a); auto.
Qed.

Lemma block_match_complete a s0 s1 s2 s3 :
  In a [s0; s1; s2; s3] ->
  let block := frames_of [s0; s1; s2; s3] in
  let mask :=
    sf_simd_movemask_i32
      (map (fun f => sf_simd_cmpeq_i32 (snd f) (uint32 (ZSTR_H a))) block) in
  negb (mask =? 0)%Z && block_match mask a 0 block = true.
Proof.
  intros Hin block mask.
  assert (forall s, s = a ->
            (uint32 (ZSTR_H s) =? uint32 (ZSTR_H a))%Z = true) as Heq.
  { intros s ->. apply Z.eqb_refl. }
  subst mask block. unfold frames_of, sf_simd_cmpeq_i32. cbn [map snd fst].
  cbn [block_match].
  destruct (uint32 (ZSTR_H s0) =? uint32 (ZSTR_H a))%Z eqn:E0,
           (uint32 (ZSTR_H s1) =? uint32 (ZSTR_H a))%Z eqn:E1,
           (uint32 (ZSTR_H s2) =? uint32 (ZSTR_H a))%Z eqn:E2,
           (uint32 (ZSTR_H s3) =? uint32 (ZSTR_H a))%Z eqn:E3;
    cbn;
    repeat match goal with
           | |- context [String.eqb ?s a] =>
               let E := fresh "S" in destruct (String.eqb s a) eqn:E
           end;
    try reflexivity;
    repeat match goal with
           | S : String.eqb _ a = true |- _ => apply String.eqb_eq in S
           | S : String.eqb _ a = false |- _ => apply String.eqb_neq in S
           end;
    simpl in Hin; intuition (subst; try congruence);
    repeat match goal with
           | E : (uint32 (ZSTR_H a) =? uint32 (ZSTR_H a))%Z = false |- _ =>
               rewrite Z.eqb_refl in E; discriminate E
           end.
Qed.

Lemma has_simd_complete a names :
  ZSTR_H a = uint32 (ZSTR_H a) ->
  In a names -> has_simd (ZSTR_H a) a (frames_of names) = true.
Proof.
  intros Hfit.
  assert (forall n names, (length names <= n)%nat -> In a names ->
            has_simd (ZSTR_H a) a (frames_of names) = true) as Hall.
  { induction n as [|n IH]; intros l Hlen Hin.
    - destruct l; [destruct Hin | simpl in Hlen; lia].
    - destruct l as [|s0 [|s1 [|s2 [|s3 rest]]]];
        try (rewrite has_simd_short
               by (unfold frames_of; rewrite length_map; simpl; lia);
             apply has_scalar_complete; assumption).
      change (frames_of (s0 :: s1 :: s2 :: s3 :: rest))
        with (frames_of [s0; s1; s2; s3] ++ frames_of rest).
      cbn [frames_of map app has_simd].
      change (In a ([s0; s1; s2; s3] ++ rest)) in Hin.
      apply in_app_or in Hin as [Hin|Hin].
      + pose proof (block_match_complete a s0 s1 s2 s3 Hin) as Hb.
        cbv zeta in Hb. unfold frames_of in Hb. cbn [map] in Hb.
        rewrite Hb. reflexivity.
      + match goal with
        | |- (if ?c then true else _) = true => destruct c; [reflexivity|]
        end.
        apply IH; [simpl in Hlen; lia | exact Hin]. }
  intros Hin. apply (Hall (length names)); [lia | exact Hin].
Qed.

(** On a host whose hashes fit 32 bits the check is exact: a name is
    refused if and only if it is on the stack. *)
Lemma has_exact_on_narrow_hash cap a names :
  ZSTR_H a = uint32 (ZSTR_H a) ->
  sf_resolution_context_has
    {| frames := frames_of names; ctx_capacity := cap |} a = true
  <-> In a names.
Proof.
  intros Hfit. split.
  - intros Hhas. apply has_sound in Hhas. unfold stack in Hhas.
    cbn [frames] in Hhas. unfold frames_of in Hhas.
    rewrite map_map in Hhas. cbn [fst] in Hhas. rewrite map_id in Hhas.
    exact Hhas.
  - intros Hin. unfold sf_resolution_context_has. cbn [frames].
    destruct (frames_of names) eqn:Hf.
    + destruct names; [destruct Hin | discriminate Hf].
    + rewrite <- Hf.
      destruct SF_HAS_SIMD;
        [apply has_simd_complete | apply has_scalar_complete]; assumption.
Qed.

End Context.

(** The message of the circular-dependency error lists the stack from
    bottom to top and ends with the refused name. *)
Lemma append_empty_r (s : string) : s +:+ "" = s.
Proof.
  induction s as [|c s IH]; [reflexivity|].
  change (String c s +:+ "") with (String c (s +:+ "")). f_equal. exact IH.
Qed.

Lemma append_associative (s t u : string) : (s +:+ t) +:+ u = s +:+ t +:+ u.
Proof.
  induction s as [|c s IH]; [reflexivity|].
  change (String c (s +:+ t) +:+ u = String c (s +:+ t +:+ u)).
  change (String c ((s +:+ t) +:+ u) = String c (s +:+ t +:+ u)).
  f_equal. exact IH.
Qed.

Lemma chain_loop_concat x names a :
  (x +:+ chain_loop false names) +:+ " -> " +:+ a
  = String.concat " -> " (x :: names ++ [a]).
Proof.
  revert x. induction names as [|y rest IH]; intros x.
  - simpl. rewrite append_empty_r. reflexivity.
  - cbn [chain_loop app].
    change (String.concat " -> " (x :: y :: rest ++ [a]))
      with (x +:+ " -> " +:+ String.concat " -> " (y :: rest ++ [a])).
    rewrite <- IH. rewrite !append_associative. reflexivity.
Qed.

Lemma circular_dependency_message_chain ctx a :
  stack ctx <> [] ->
  circular_dependency_message ctx a
  = "Circular dependency detected: "
    +:+ String.concat " -> " (stack ctx ++ [a]).
Proof.
  unfold circular_dependency_message. intros Hne.
  destruct (stack ctx) as [|x names]; [congruence|].
  f_equal. cbn [chain_loop].
  change ("" +:+ x +:+ chain_loop false names)
    with (x +:+ chain_loop false names).
  apply chain_loop_concat.
Qed.

Section WideHash.
Context `{Zend}.

(** C2.  On a host whose string hashes do not fit 32 bits (every 64-bit
    build: [zend_ulong] is 64 bits wide and the hash has its top bit set),
    the name that is alone on the stack is pushed a second time: the stored
    [uint32_t] hash is compared with the full [zend_ulong] hash, the
    pre-filter rejects the equal string, and no cycle is reported. *)
Theorem push_accepts_repeated_name_on_wide_hash a cap :
  ZSTR_H a <> uint32 (ZSTR_H a) ->
  sf_resolution_context_push
    {| frames := frames_of [a]; ctx_capacity := cap |} a
  = (SUCCESS,
     {| frames := frames_of [a; a];
        ctx_capacity := if (cap <=? 1)%Z then uint32 (cap * 2) else cap |}).
Proof.
  intros Hwide. unfold sf_resolution_context_push, sf_resolution_context_has.
  cbn [frames frames_of map has_simd has_scalar].
  replace (uint32 (ZSTR_H a) =? ZSTR_H a)%Z with false.
  2:{ symmetry. apply Z.eqb_neq. congruence. }
  cbn [andb]. destruct SF_HAS_SIMD; reflexivity.
Qed.

End WideHash.

Lemma push_accepts_repeated_name_on_wide_hash_witness :
  ZSTR_H (Zend := host64) "A" <> uint32 (ZSTR_H (Zend := host64) "A")
  /\ sf_resolution_context_push (H := host64)
       {| frames := frames_of (H := host64) ["A"]; ctx_capacity := 8 |} "A"
     = (SUCCESS,
        {| frames := frames_of (H := host64) ["A"; "A"];
           ctx_capacity := 8 |}).
Proof.
  assert (ZSTR_H (Zend := host64) "A" <> uint32 (ZSTR_H (Zend := host64) "A"))
    as Hwide by (vm_compute; discriminate).
  split; [exact Hwide|].
  exact (push_accepts_repeated_name_on_wide_hash (H := host64) "A" 8 Hwide).
Defined.

(** The cycle A -> B -> A on the three sample hosts: reported at once with
    32-bit hashes; with 64-bit hashes reported only when the repeated name
    lies in a complete block of four (SIMD build), and not at all by the
    scalar build, where the recursion goes on as deep as the budget. *)
Lemma cycle_reports_on_sample_hosts :
  (exists w,
     sf_container_make (H := host32) 10 fresh_world "A" None None
     = Some (FAILURE, IS_UNDEF, w)
     /\ EG_exception w
        = Some (Exception sf_circular_dependency_exception_ce
                  "Circular dependency detected: A -> B -> A" None))
  /\ (exists w,
        sf_container_make (H := host64) 10 fresh_world "A" None None
        = Some (FAILURE, IS_UNDEF, w)
        /\ EG_exception w
           = Some (Exception sf_circular_dependency_exception_ce
                     "Circular dependency detected: A -> B -> A -> B -> A"
                     None))
  /\ sf_container_make (H := host64_scalar) 40 fresh_world "A" None None
     = None.
Proof.
  split; [|split].
  - eexists. split; vm_compute; reflexivity.
  - eexists. split; vm_compute; reflexivity.
  - vm_compute. reflexivity.
Qed.

(** ** The priority order of [sf_container_make] *)

Ltac norm_state :=
  unfold sf_resolve_alias, compiled_factory_for,
    applicable_contextual_binding, sf_container_get_contextual_binding in *;
  cbn [cont on_container set_cache_loaded set_context fast_cache instances
       bindings context compiled_factories compilation_enabled
       contextual_bindings aliases reflection_cache cache_loaded cache_dirty
       tags EG_exception] in *.

Section Priority.
Context `{Zend}.
Variables (n : nat) (w : world) (a : string) (p : parameters_t)
          (r : option string).

Let w0 : world := on_container (set_cache_loaded true) w.
Let k : string := sf_resolve_alias (cont w) a.

Lemma make_fast_hit v :
  sf_fast_lookup_find (fast_cache (cont w)) k = Some v ->
  sf_container_make (S n) w a p r = Some (SUCCESS, v, w0).
Proof.
  subst w0 k. intros Hf. rewrite make_unfold.
  unfold sf_container_make_frame. cbv zeta. norm_state.
  rewrite Hf. reflexivity.
Qed.

Lemma make_instance_hit v :
  sf_fast_lookup_find (fast_cache (cont w)) k = None ->
  instances (cont w) !! k = Some v ->
  sf_container_make (S n) w a p r = Some (SUCCESS, v, w0).
Proof.
  subst w0 k. intros Hf Hi. rewrite make_unfold.
  unfold sf_container_make_frame. cbv zeta. norm_state.
  rewrite Hf, Hi. reflexivity.
Qed.

Lemma make_compiled f :
  sf_fast_lookup_find (fast_cache (cont w)) k = None ->
  instances (cont w) !! k = None ->
  compiled_factory_for (cont w) k r = Some f ->
  sf_container_make (S n) w a p r = sf_factory_call n f w0 p.
Proof.
  subst w0 k. intros Hf Hi Hc. rewrite make_unfold.
  unfold sf_container_make_frame. cbv zeta. norm_state.
  rewrite Hf, Hi, Hc. reflexivity.
Qed.

Lemma make_cycle ctx' :
  sf_fast_lookup_find (fast_cache (cont w)) k = None ->
  instances (cont w) !! k = None ->
  compiled_factory_for (cont w) k r = None ->
  sf_resolution_context_push (context (cont w)) k = (FAILURE, ctx') ->
  sf_container_make (S n) w a p r
  = Some (FAILURE, IS_UNDEF,
          throw sf_circular_dependency_exception_ce
                (circular_dependency_message (context (cont w)) k) w0).
Proof.
  subst w0 k. intros Hf Hi Hc Hp. rewrite make_unfold.
  unfold sf_container_make_frame. cbv zeta. norm_state.
  rewrite Hf, Hi, Hc, Hp. reflexivity.
Qed.

Lemma make_contextual ctx cb :
  sf_fast_lookup_find (fast_cache (cont w)) k = None ->
  instances (cont w) !! k = None ->
  compiled_factory_for (cont w) k r = None ->
  sf_resolution_context_push (context (cont w)) k = (SUCCESS, ctx) ->
  applicable_contextual_binding (cont w) r k = Some cb ->
  sf_container_make (S n) w a p r
  = pop_and_return
      (sf_resolve_concrete (sf_container_make n)
         (on_container (set_context ctx) w0) k (implementation cb) p r).
Proof.
  subst w0 k. intros Hf Hi Hc Hp Hcb. rewrite make_unfold.
  unfold sf_container_make_frame. cbv zeta. norm_state.
  rewrite Hf, Hi, Hc, Hp. norm_state. rewrite Hcb. reflexivity.
Qed.

Lemma make_bound_instance ctx b :
  sf_fast_lookup_find (fast_cache (cont w)) k = None ->
  instances (cont w) !! k = None ->
  compiled_factory_for (cont w) k r = None ->
  sf_resolution_context_push (context (cont w)) k = (SUCCESS, ctx) ->
  applicable_contextual_binding (cont w) r k = None ->
  bindings (cont w) !! k = Some b ->
  scope b = SF_SCOPE_INSTANCE -> is_undef (instance b) = false ->
  sf_container_make (S n) w a p r
  = Some (SUCCESS, instance b,
          pop_context (on_container (set_context ctx) w0)).
Proof.
  subst w0 k. intros Hf Hi Hc Hp Hcb Hb Hs Hu. rewrite make_unfold.
  unfold sf_container_make_frame. cbv zeta. norm_state.
  rewrite Hf, Hi, Hc, Hp. norm_state. rewrite Hcb, Hb, Hs, Hu. reflexivity.
Qed.

(** What [make] returns from the outcome of resolving the concrete value
    of the binding found. *)
Lemma make_bound ctx b :
  sf_fast_lookup_find (fast_cache (cont w)) k = None ->
  instances (cont w) !! k = None ->
  compiled_factory_for (cont w) k r = None ->
  sf_resolution_context_push (context (cont w)) k = (SUCCESS, ctx) ->
  applicable_contextual_binding (cont w) r k = None ->
  bindings (cont w) !! k = Some b ->
  scope b <> SF_SCOPE_INSTANCE \/ is_undef (instance b) = true ->
  sf_container_make (S n) w a p r
  = match sf_resolve_concrete (sf_container_make n)
            (on_container (set_context ctx) w0) k (concrete b) p r with
    | None => None
    | Some (FAILURE, v, w2) => Some (FAILURE, v, pop_context w2)
    | Some (SUCCESS, v, w2) =>
        match scope b with
        | SF_SCOPE_SINGLETON =>
            Some (SUCCESS, v,
                  pop_context (on_container (cache_singleton k v) w2))
        | _ => Some (SUCCESS, v, pop_context w2)
        end
    end.
Proof.
  subst w0 k. intros Hf Hi Hc Hp Hcb Hb Hs. rewrite make_unfold.
  unfold sf_container_make_frame. cbv zeta. norm_state.
  rewrite Hf, Hi, Hc, Hp. norm_state. rewrite Hcb, Hb.
  destruct (scope b) eqn:Hscope; try reflexivity.
  destruct (is_undef (instance b)) eqn:Hu; [reflexivity|].
  destruct Hs as [Hs|Hs]; congruence.
Qed.

Lemma make_autowire ctx :
  sf_fast_lookup_find (fast_cache (cont w)) k = None ->
  instances (cont w) !! k = None ->
  compiled_factory_for (cont w) k r = None ->
  sf_resolution_context_push (context (cont w)) k = (SUCCESS, ctx) ->
  applicable_contextual_binding (cont w) r k = None ->
  bindings (cont w) !! k = None ->
  sf_container_make (S n) w a p r
  = pop_and_return
      (sf_autowire_resolve (sf_container_make n) k p
                           (on_container (set_context ctx) w0)).
Proof.
  subst w0 k. intros Hf Hi Hc Hp Hcb Hb. rewrite make_unfold.
  unfold sf_container_make_frame. cbv zeta. norm_state.
  rewrite Hf, Hi, Hc, Hp. norm_state. rewrite Hcb, Hb. reflexivity.
Qed.

End Priority.

Section CacheSingleton.
Context `{Zend}.

(** What "Singleton? Cache it for next time" does to the container. *)
Lemma cache_singleton_effect k v c :
  instances (cache_singleton k v c) = <[k := v]> (instances c)
  /\ fast_cache (cache_singleton k v c)
     = snd (sf_fast_lookup_insert (fast_cache c) k v)
  /\ bindings (cache_singleton k v c)
     = alter (set_resolved true) k (bindings c)
  /\ context (cache_singleton k v c) = context c.
Proof. repeat split. Qed.

Lemma compiled_factory_for_spec c k r f :
  compiled_factory_for c k r = Some f
  <-> compilation_enabled c = true /\ r = None
      /\ compiled_factories c !! k = Some f /\ factory_fn f <> None.
Proof.
  unfold compiled_factory_for.
  destruct (compilation_enabled c), r as [q|],
    (compiled_factories c !! k) as [f'|]; try (split; [discriminate|]);
    try (intros (? & ? & ? & ?); congruence).
  destruct (factory_fn f') eqn:Hfn; split.
  - intros Heq. inversion Heq; subst. repeat split; congruence.
  - intros (_ & _ & Heq & _). congruence.
  - discriminate.
  - intros (_ & _ & Heq & Hne). inversion Heq; subst. congruence.
Qed.

Lemma applicable_contextual_binding_spec c r k cb :
  applicable_contextual_binding c r k = Some cb
  <-> exists q, r = Some q /\ contextual_bindings c <> ∅
        /\ contextual_bindings c !! contextual_key q k = Some cb.
Proof.
  unfold applicable_contextual_binding, sf_container_get_contextual_binding.
  destruct r as [q|].
  - destruct (0 <? size (contextual_bindings c))%nat eqn:Hsz.
    + apply Nat.ltb_lt in Hsz. split.
      * intros Hcb. exists q. repeat split; auto.
        intros Hem. rewrite Hem, map_size_empty in Hsz. lia.
      * intros (q' & Hq & _ & Hcb). congruence.
    + apply Nat.ltb_ge in Hsz. split; [discriminate|].
      intros (q' & _ & Hne & _). exfalso. apply Hne.
      apply map_size_empty_iff. lia.
  - split; [discriminate|]. intros (q & Hq & _). discriminate.
Qed.

End CacheSingleton.

Section PriorityOrder.
Context `{Zend}.

(** C1, as amended.  One call [make(abstract, params, requester)] checks,
    in this order: the abstract is resolved through the alias map to [k];
    a hit of [k] in the fast lookup table returns the cached value; else a
    hit in the instance cache returns it; else, when compilation is
    enabled, no requester was given and a compiled factory exists for [k],
    that factory is invoked and its result returned; only then [k] is
    pushed on the resolution context, and a refused push fails with the
    circular-dependency error, the context being left as it was; then
    comes a contextual binding (only with a requester and a non-empty
    contextual store), then an explicit binding (an Instance-scoped binding
    holding a stored instance returns it; otherwise the concrete value is
    resolved and, for a Singleton, the result is stored in the instance
    cache, handed to the insert of the fast lookup table, whose outcome is
    ignored, and the binding is marked resolved), and with no binding the
    class is autowired; each of the paths after the push pops the context
    before it returns. *)
Theorem make_priority_order n w a p r :
  let w0 := on_container (set_cache_loaded true) w in
  let k := sf_resolve_alias (cont w) a in
  let c := cont w in
  let result := sf_container_make (S n) w a p r in
  (forall v, sf_fast_lookup_find (fast_cache c) k = Some v ->
     result = Some (SUCCESS, v, w0))
  /\ (sf_fast_lookup_find (fast_cache c) k = None ->
  (forall v, instances c !! k = Some v -> result = Some (SUCCESS, v, w0))
  /\ (instances c !! k = None ->
  (forall f, compilation_enabled c = true -> r = None ->
     compiled_factories c !! k = Some f -> factory_fn f <> None ->
     result = sf_factory_call n f w0 p)
  /\ (compiled_factory_for c k r = None ->
  (forall ctx', sf_resolution_context_push (context c) k = (FAILURE, ctx') ->
     ctx' = context c
     /\ result
        = Some (FAILURE, IS_UNDEF,
                throw sf_circular_dependency_exception_ce
                      (circular_dependency_message (context c) k) w0))
  /\ (forall ctx, sf_resolution_context_push (context c) k = (SUCCESS, ctx) ->
  let w1 := on_container (set_context ctx) w0 in
  (forall q cb, r = Some q -> contextual_bindings c <> ∅ ->
     contextual_bindings c !! contextual_key q k = Some cb ->
     result
     = pop_and_return
         (sf_resolve_concrete (sf_container_make n) w1 k (implementation cb)
                              p r))
  /\ (applicable_contextual_binding c r k = None ->
  (forall b, bindings c !! k = Some b ->
     (scope b = SF_SCOPE_INSTANCE -> is_undef (instance b) = false ->
      result = Some (SUCCESS, instance b, pop_context w1))
     /\ (scope b <> SF_SCOPE_INSTANCE \/ is_undef (instance b) = true ->
         result
         = match sf_resolve_concrete (sf_container_make n) w1 k (concrete b)
                                     p r with
           | None => None
           | Some (FAILURE, v, w2) => Some (FAILURE, v, pop_context w2)
           | Some (SUCCESS, v, w2) =>
               match scope b with
               | SF_SCOPE_SINGLETON =>
                   Some (SUCCESS, v,
                         pop_context (on_container (cache_singleton k v) w2))
               | _ => Some (SUCCESS, v, pop_context w2)
               end
           end))
  /\ (bindings c !! k = None ->
      result
      = pop_and_return (sf_autowire_resolve (sf_container_make n) k p w1)))))))
  /\ (forall v c',
        instances (cache_singleton k v c') = <[k := v]> (instances c')
        /\ fast_cache (cache_singleton k v c')
           = snd (sf_fast_lookup_insert (fast_cache c') k v)
        /\ bindings (cache_singleton k v c')
           = alter (set_resolved true) k (bindings c')).
Proof.
  intros w0 k c result. split; [|split].
  - intros v Hf. apply make_fast_hit. exact Hf.
  - intros Hf. split.
    + intros v Hi. apply make_instance_hit; assumption.
    + intros Hi. split.
      * intros f He Hr Hc Hfn. apply make_compiled; try assumption.
        apply compiled_factory_for_spec. auto.
      * intros Hc. split.
        -- intros ctx' Hp. split.
           ++ apply push_failure in Hp. apply Hp.
           ++ eapply make_cycle; eassumption.
        -- intros ctx Hp w1. split.
           ++ intros q cb Hr Hne Hcb. apply make_contextual; try assumption.
              apply applicable_contextual_binding_spec. eauto.
           ++ intros Hcb. split.
              ** intros b Hb. split.
                 --- intros Hs Hu. eapply make_bound_instance; eassumption.
                 --- intros Hs. eapply make_bound; eassumption.
              ** intros Hb. apply make_autowire; assumption.
  - intros v c'. repeat split.
Qed.

End PriorityOrder.

Lemma make_priority_order_witness :
  let w := {| cont := logger_singleton; EG_exception := None |} in
  exists w',
    sf_container_make (H := host64) 3 w "Logger" None None
    = Some (SUCCESS, IS_OBJECT "Logger" [], w')
    /\ resolved <$> (bindings (cont w') !! "Logger") = Some true
    /\ frames (context (cont w')) = [].
Proof.
  intros w.
  pose (ctx := snd (sf_resolution_context_push (H := host64)
                      (context (cont w)) "Logger")).
  assert (sf_resolution_context_push (H := host64) (context (cont w))
            "Logger" = (SUCCESS, ctx)) as Hp by (vm_compute; reflexivity).
  pose (b := sf_binding_create "Logger" (IS_STRING "Logger")
                               SF_SCOPE_SINGLETON).
  assert (scope b <> SF_SCOPE_INSTANCE \/ is_undef (instance b) = true)
    as Hs by (left; discriminate).
  pose proof (make_priority_order (H := host64) 2 w "Logger" None None)
    as HT.
  cbv zeta in HT. destruct HT as (_ & HT & _).
  destruct (HT ltac:(vm_compute; reflexivity)) as (_ & HT1).
  destruct (HT1 ltac:(vm_compute; reflexivity)) as (_ & HT2).
  destruct (HT2 ltac:(vm_compute; reflexivity)) as (_ & HT3).
  destruct (HT3 ctx Hp) as (_ & HT4).
  destruct (HT4 ltac:(vm_compute; reflexivity)) as (HT5 & _).
  destruct (HT5 b ltac:(vm_compute; reflexivity)) as (_ & HT6).
  specialize (HT6 Hs).
  eexists. split; [|split].
  - etransitivity; [exact HT6|]. vm_compute. reflexivity.
  - vm_compute. reflexivity.
  - vm_compute. reflexivity.
Defined.

(** C1, as stated, fails on the store into the fast lookup table: after a
    Singleton binding has been resolved, the instance cache holds the
    result and the fast lookup table does not.  First on a table at its
    load limit (56 of 64 slots) whose insert refuses by design, then on the
    table of a new container. *)
Lemma singleton_store_can_miss_fast_lookup :
  (exists w',
     sf_container_make (H := host64) 3
       {| cont := set_fast_cache loaded_table logger_singleton;
          EG_exception := None |} "Logger" None None
     = Some (SUCCESS, IS_OBJECT "Logger" [], w')
     /\ count loaded_table = 56%Z
     /\ instances (cont w') !! "Logger" = Some (IS_OBJECT "Logger" [])
     /\ sf_fast_lookup_find (H := host64) (fast_cache (cont w')) "Logger"
        = None)
  /\ (exists w',
        sf_container_make (H := host64) 3
          {| cont := logger_singleton; EG_exception := None |}
          "Logger" None None
        = Some (SUCCESS, IS_OBJECT "Logger" [], w')
        /\ instances (cont w') !! "Logger" = Some (IS_OBJECT "Logger" [])
        /\ sf_fast_lookup_find (H := host64) (fast_cache (cont w')) "Logger"
           = None).
Proof.
  split.
  - eexists. split; [vm_compute; reflexivity|].
    repeat split; vm_compute; reflexivity.
  - eexists. split; [vm_compute; reflexivity|].
    repeat split; vm_compute; reflexivity.
Qed.

(** ** The name used after alias resolution *)

(** A chain of exactly [left] hops, or a shorter one that ends at a name
    without alias, is what the loop follows. *)
Lemma resolve_alias_loop_reaches al left :
  forall hops a b,
    alias_hops al hops a b ->
    hops = left \/ ((hops < left)%nat /\ al !! b = None) ->
    resolve_alias_loop al left a = b.
Proof.
  induction left as [|left IH]; intros hops a b Hh Hend.
  - assert (hops = O) as -> by (destruct Hend as [|[]]; lia).
    inversion Hh; subst. cbn. destruct (al !! b); reflexivity.
  - inversion Hh as [x|m x y z Hx Hrest]; subst.
    + destruct Hend as [|[_ Hb]]; [discriminate|].
      cbn. rewrite Hb. reflexivity.
    + cbn. rewrite Hx. apply (IH m); [exact Hrest|].
      destruct Hend as [Hm|[Hm Hb]]; [left; lia|right; split; [lia|exact Hb]].
Qed.

Section AliasBound.
Context `{Zend}.

(** C6, as amended.  Let [b] be the name reached from the requested
    abstract by following the alias map for ten hops, or for fewer hops
    when the chain ends before (at a name without alias).  Then [b] is the
    name [make] resolves, whatever aliases [b] has itself, and the name
    every later step uses: the fast lookup table and the instance cache
    are asked for [b], the compiled factory is the one registered for [b],
    [b] is the name pushed on the resolution context and named last by the
    circular-dependency error, the contextual binding is the one for the
    requester and [b], the binding is the one of [b] and its singleton is
    cached under [b], and without a binding the class [b] is autowired.
    The requested name itself is not used again. *)
Theorem alias_chain_followed_for_ten_hops n w a b hops p r :
  let w0 := on_container (set_cache_loaded true) w in
  let c := cont w in
  let result := sf_container_make (S n) w a p r in
  alias_hops (aliases c) hops a b ->
  hops = 10%nat \/ ((hops < 10)%nat /\ aliases c !! b = None) ->
  sf_resolve_alias c a = b
  /\ (forall v, sf_fast_lookup_find (fast_cache c) b = Some v ->
        result = Some (SUCCESS, v, w0))
  /\ (sf_fast_lookup_find (fast_cache c) b = None ->
  (forall v, instances c !! b = Some v -> result = Some (SUCCESS, v, w0))
  /\ (instances c !! b = None ->
  (forall f, compiled_factory_for c b r = Some f ->
     result = sf_factory_call n f w0 p)
  /\ (compiled_factory_for c b r = None ->
  (forall ctx', sf_resolution_context_push (context c) b = (FAILURE, ctx') ->
     result
     = Some (FAILURE, IS_UNDEF,
             throw sf_circular_dependency_exception_ce
                   (circular_dependency_message (context c) b) w0))
  /\ (forall ctx, sf_resolution_context_push (context c) b = (SUCCESS, ctx) ->
  let w1 := on_container (set_context ctx) w0 in
  stack ctx = stack (context c) ++ [b]
  /\ (forall cb, applicable_contextual_binding c r b = Some cb ->
        result
        = pop_and_return
            (sf_resolve_concrete (sf_container_make n) w1 b
                                 (implementation cb) p r))
  /\ (applicable_contextual_binding c r b = None ->
  (forall bnd, bindings c !! b = Some bnd ->
     (scope bnd = SF_SCOPE_INSTANCE -> is_undef (instance bnd) = false ->
      result = Some (SUCCESS, instance bnd, pop_context w1))
     /\ (scope bnd <> SF_SCOPE_INSTANCE \/ is_undef (instance bnd) = true ->
         result
         = match sf_resolve_concrete (sf_container_make n) w1 b
                                     (concrete bnd) p r with
           | None => None
           | Some (FAILURE, v, w2) => Some (FAILURE, v, pop_context w2)
           | Some (SUCCESS, v, w2) =>
               match scope bnd with
               | SF_SCOPE_SINGLETON =>
                   Some (SUCCESS, v,
                         pop_context (on_container (cache_singleton b v) w2))
               | _ => Some (SUCCESS, v, pop_context w2)
               end
           end))
  /\ (bindings c !! b = None ->
      result
      = pop_and_return
          (sf_autowire_resolve (sf_container_make n) b p w1))))))).
Proof.
  intros w0 c result Hh Hend.
  assert (sf_resolve_alias c a = b) as Hk
    by (eapply resolve_alias_loop_reaches; eassumption).
  subst c result w0. split; [exact Hk|]. rewrite <- Hk. split.
  - intros v Hf. apply make_fast_hit. exact Hf.
  - intros Hf. split.
    + intros v Hi. apply make_instance_hit; assumption.
    + intros Hi. split.
      * intros f Hc. apply make_compiled; assumption.
      * intros Hc. split.
        -- intros ctx' Hp. eapply make_cycle; eassumption.
        -- intros ctx Hp w1. split; [|split].
           ++ apply push_success in Hp. unfold stack. rewrite Hp, map_app.
              reflexivity.
           ++ intros cb Hcb. apply make_contextual; assumption.
           ++ intros Hcb. split.
              ** intros bnd Hb. split.
                 --- intros Hs Hu. eapply make_bound_instance; eassumption.
                 --- intros Hs. eapply make_bound; eassumption.
              ** intros Hb. apply make_autowire; assumption.
Qed.

End AliasBound.


Lemma alias_chain_followed_for_ten_hops_witness :
  alias_hops (aliases (cont long_alias_world)) 10 "a0" "a10"
  /\ aliases (cont long_alias_world) !! "a10" = Some "a11"
  /\ sf_resolve_alias (cont long_alias_world) "a0" = "a10"
  /\ sf_container_make (H := host64) 1 long_alias_world "a0" None None
     = Some (SUCCESS, IS_LONG 10,
             on_container (set_cache_loaded true) long_alias_world).
Proof.
  assert (alias_hops (aliases (cont long_alias_world)) 10 "a0" "a10")
    as Hh.
  { repeat (eapply alias_hops_S; [vm_compute; reflexivity|]). constructor. }
  split; [exact Hh|]. split; [vm_compute; reflexivity|].
  destruct (alias_chain_followed_for_ten_hops (H := host64) 0
              long_alias_world "a0" "a10" 10 None None Hh (or_introl eq_refl))
    as (Hk & _ & Hrest).
  split; [exact Hk|].
  destruct (Hrest ltac:(vm_compute; reflexivity)) as (Hinst & _).
  apply Hinst. vm_compute. reflexivity.
Defined.

(** ** Balance of the resolution context *)

Ltac invert H := inversion H; subst; clear H.

Ltac break_match H :=
  match type of H with
  | context [match ?x with _ => _ end] => destruct x eqn:?
  | context [if ?x then _ else _] => destruct x eqn:?
  end.

Lemma stable_refl w : stable w w.
Proof. repeat split; auto. Qed.

Lemma stable_trans w1 w2 w3 : stable w1 w2 -> stable w2 w3 -> stable w1 w3.
Proof.
  unfold stable.
  intros (A1 & A2 & A3 & A4 & A5 & A6 & A7) (B1 & B2 & B3 & B4 & B5 & B6 & B7).
  repeat split; try congruence.
  - intros He. rewrite B5, A5; congruence.
  - auto.
  - intros Hp. rewrite B7, A7; auto. rewrite A7; auto.
Qed.

Lemma stable_throw w w' ce m : stable w w' -> stable w (throw ce m w').
Proof. intros Hs. exact Hs. Qed.

Lemma stable_after_call w w' o : stable w w' -> stable w (after_call o w').
Proof. intros Hs. destruct o; exact Hs. Qed.

Lemma stable_reflection_cache w w' m :
  stable w w' ->
  stable w (on_container (fun c => set_reflection_cache (m c) c) w').
Proof. intros Hs. exact Hs. Qed.

Lemma stable_jit w w' cn meta ce :
  stable w w' -> stable w (on_container (jit_compile cn meta ce) w').
Proof.
  intros Hs. eapply stable_trans; [exact Hs|].
  assert (forall c, context (jit_compile cn meta ce c) = context c
            /\ contextual_bindings (jit_compile cn meta ce c)
               = contextual_bindings c
            /\ compilation_enabled (jit_compile cn meta ce c)
               = compilation_enabled c
            /\ aliases (jit_compile cn meta ce c) = aliases c
            /\ (compilation_enabled c = false ->
                compiled_factories (jit_compile cn meta ce c)
                = compiled_factories c)
            /\ cache_loaded (jit_compile cn meta ce c) = cache_loaded c
            /\ fast_cache (jit_compile cn meta ce c) = fast_cache c) as Hjit.
  { intros c. unfold jit_compile.
    destruct (compilation_enabled c) eqn:He;
      [|repeat split; auto].
    destruct (compiled_factories c !! cn);
      [repeat split; auto; discriminate|].
    destruct (sf_compiler_compile_class meta ce false);
      repeat split; auto; discriminate. }
  destruct (Hjit (cont w')) as (A1 & A2 & A3 & A4 & A5 & A6 & A7).
  unfold stable, ctxf. cbn [on_container cont].
  rewrite A1, A2, A3, A4, A6, A7. repeat split; auto.
Qed.

Lemma stable_cache_if_singleton w w' f v :
  stable w w' -> stable w (cache_if_singleton f v w').
Proof.
  intros Hs. unfold cache_if_singleton. destruct (is_singleton f); exact Hs.
Qed.

Lemma stable_cache_loaded w : stable w (on_container (set_cache_loaded true) w).
Proof. repeat split; auto. Qed.

Lemma stable_cache_singleton `{Zend} w w' k v :
  stable w w' -> stable w (on_container (cache_singleton k v) w').
Proof.
  intros (A1 & A2 & A3 & A4 & A5 & A6 & A7).
  repeat split; try assumption.
  intros Hp.
  change (fast_cache (cont (on_container (cache_singleton k v) w')))
    with (snd (sf_fast_lookup_insert (fast_cache (cont w')) k v)).
  rewrite (A7 Hp). rewrite insert_pristine by exact Hp. reflexivity.
Qed.

(** Popping after a successful push and a stable nested call gives the
    frames back. *)
Lemma stable_pop `{Zend} w k ctx w2 :
  sf_resolution_context_push (context (cont w)) k = (SUCCESS, ctx) ->
  stable (on_container (set_context ctx) w) w2 ->
  stable w (pop_context w2).
Proof.
  intros Hp (A1 & A2 & A3 & A4 & A5 & A6 & A7). apply push_success in Hp.
  unfold stable, ctxf in *. cbn [pop_context on_container cont context
    set_context sf_resolution_context_pop frames contextual_bindings
    compilation_enabled aliases compiled_factories cache_loaded
    fast_cache] in *.
  repeat split; try assumption.
  rewrite A1, Hp. apply removelast_last.
Qed.

Create HintDb stable.

#[local] Hint Resolve stable_refl stable_throw stable_after_call
  stable_reflection_cache stable_jit stable_cache_if_singleton
  stable_cache_loaded : stable.

Section Stable.
Context `{Zend}.
Variable mk : world -> string -> parameters_t -> option string -> outcome.
Variable fc : sf_factory -> world -> parameters_t -> outcome.
Hypothesis mk_stable :
  forall w a p r s v w', mk w a p r = Some (s, v, w') -> stable w w'.
Hypothesis fc_stable :
  forall f w p s v w', fc f w p = Some (s, v, w') -> stable w w'.

Lemma build_args_loop_stable class parameters requester ps :
  forall built w res w',
    build_args_loop mk class parameters requester ps built w = Some (res, w')
    -> stable w w'.
Proof.
  induction ps as [|p0 rest IH]; intros built w res w' Hrun;
    cbn [build_args_loop] in Hrun.
  - invert Hrun. auto with stable.
  - repeat break_match Hrun; try discriminate; try (invert Hrun);
      eauto using stable_trans with stable.
Qed.

Lemma fetch_metadata_stable cn ce w meta w1 :
  fetch_metadata cn ce w = (meta, w1) -> stable w w1.
Proof.
  unfold fetch_metadata. intros Hm.
  destruct (sf_cache_get cn (reflection_cache (cont w))); invert Hm;
    auto with stable.
Qed.

Lemma autowire_construct_stable cn meta ce args w s v w' :
  autowire_construct cn meta ce args w = Some (s, v, w') -> stable w w'.
Proof.
  unfold autowire_construct. intros Hrun.
  destruct (object_init_ex ce); [|invert Hrun; auto with stable].
  destruct (constructor ce); [|invert Hrun; auto with stable].
  destruct (zend_call_function (CallConstructor ce) args) eqn:Ho;
    invert Hrun; auto with stable.
Qed.

Lemma autowire_stable cn parameters w s v w' :
  sf_autowire_resolve mk cn parameters w = Some (s, v, w') -> stable w w'.
Proof.
  unfold sf_autowire_resolve, sf_autowire_build_args_direct. intros Hrun.
  destruct (zend_lookup_class cn) as [ce|]; [|invert Hrun; auto with stable].
  destruct (ce_not_instantiable ce); [invert Hrun; auto with stable|].
  destruct (fetch_metadata cn ce w) as [meta w1] eqn:Hm.
  apply fetch_metadata_stable in Hm.
  destruct (negb (is_instantiable meta)); [invert Hrun; auto with stable|].
  destruct (build_args_loop mk (class_name meta) parameters cn (params meta)
              [] w1) as [[[args|] w2]|] eqn:Hb; try discriminate;
    apply build_args_loop_stable in Hb.
  - apply autowire_construct_stable in Hrun.
    eauto using stable_trans.
  - invert Hrun. eauto using stable_trans.
Qed.

Lemma resolve_dep_fast_stable w d s v w' :
  sf_resolve_dep_fast mk fc w d = Some (s, v, w') -> stable w w'.
Proof.
  unfold sf_resolve_dep_fast. intros Hrun.
  repeat break_match Hrun; try discriminate; try (invert Hrun);
    eauto with stable.
Qed.

Lemma construct_with_stable f deps w s v w' :
  construct_with f deps w = Some (s, v, w') -> stable w w'.
Proof.
  unfold construct_with. intros Hrun.
  repeat break_match Hrun; try discriminate; invert Hrun; auto with stable.
Qed.

Lemma resolve_deps_loop_stable names :
  forall deps w res w',
    resolve_deps_loop mk fc names deps w = Some (res, w') -> stable w w'.
Proof.
  induction names as [|d rest IH]; intros deps w res w' Hrun;
    cbn [resolve_deps_loop] in Hrun.
  - invert Hrun. auto with stable.
  - repeat break_match Hrun; try discriminate; try (invert Hrun);
      repeat match goal with
             | Hd : sf_resolve_dep_fast _ _ _ _ = Some _ |- _ =>
                 apply resolve_dep_fast_stable in Hd
             end;
      eauto using stable_trans with stable.
Qed.

Lemma factory_call_frame_stable f w p s v w' :
  sf_factory_call_frame mk fc f w p = Some (s, v, w') -> stable w w'.
Proof.
  unfold sf_factory_call_frame, factory_template_0deps,
    factory_template_1dep, factory_template_2deps, factory_template_ndeps.
  intros Hrun.
  repeat break_match Hrun; try discriminate; try (invert Hrun);
    repeat match goal with
           | Hd : sf_resolve_dep_fast _ _ _ _ = Some _ |- _ =>
               apply resolve_dep_fast_stable in Hd
           | Hd : resolve_deps_loop _ _ _ _ _ = Some _ |- _ =>
               apply resolve_deps_loop_stable in Hd
           | Hd : construct_with _ _ _ = Some _ |- _ =>
               apply construct_with_stable in Hd
           end;
    eauto using stable_trans with stable.
Qed.

Lemma resolve_concrete_stable w a concrete p r s v w' :
  sf_resolve_concrete mk w a concrete p r = Some (s, v, w') -> stable w w'.
Proof.
  unfold sf_resolve_concrete. intros Hrun.
  destruct concrete; try (invert Hrun; auto with stable; fail).
  - eapply autowire_stable. exact Hrun.
  - repeat break_match Hrun; try discriminate; invert Hrun; auto with stable.
Qed.

Lemma make_frame_stable w a p r s v w' :
  sf_container_make_frame mk fc w a p r = Some (s, v, w') -> stable w w'.
Proof.
  unfold sf_container_make_frame. cbv zeta. intros Hrun.
  set (w0 := on_container (set_cache_loaded true) w) in *.
  assert (stable w w0) as H0 by apply stable_cache_loaded.
  eapply stable_trans; [exact H0|]. clear H0.
  generalize dependent w0. intros w0 Hrun.
  unfold pop_and_return in Hrun.
  repeat break_match Hrun; try discriminate; try (invert Hrun);
    repeat match goal with
           | Hd : sf_resolve_concrete _ _ _ _ _ _ = Some _ |- _ =>
               apply resolve_concrete_stable in Hd
           | Hd : sf_autowire_resolve _ _ _ _ = Some _ |- _ =>
               apply autowire_stable in Hd
           end;
    eauto using stable_pop, stable_cache_singleton with stable.
Qed.

End Stable.

Section Balance.
Context `{Zend}.

Lemma engine_stable n :
  (forall w a p r s v w',
      sf_container_make n w a p r = Some (s, v, w') -> stable w w')
  /\ (forall f w p s v w',
        sf_factory_call n f w p = Some (s, v, w') -> stable w w').
Proof.
  induction n as [|n [IHmk IHfc]].
  - split; intros; discriminate.
  - split.
    + intros w a p r s v w' Hrun. rewrite make_unfold in Hrun.
      eapply make_frame_stable; eauto.
    + intros f w p s v w' Hrun. rewrite factory_call_unfold in Hrun.
      eapply factory_call_frame_stable; eauto.
Qed.

(** C4.  Whatever path a call of [make] takes, and whether it succeeds or
    fails, it returns with the resolution context holding exactly the
    frames it held at the call: same names, same depth.  In particular a
    context that is empty before a top-level call is empty after it.  The
    same holds for a compiled factory invoked by [make]. *)
Theorem make_balances_resolution_context n w a p r s v w' :
  sf_container_make n w a p r = Some (s, v, w') ->
  frames (context (cont w')) = frames (context (cont w))
  /\ stack (context (cont w')) = stack (context (cont w))
  /\ depth (context (cont w')) = depth (context (cont w))
  /\ (depth (context (cont w)) = O -> depth (context (cont w')) = O).
Proof.
  intros Hrun. apply (proj1 (engine_stable n)) in Hrun.
  destruct Hrun as (Hf & _). unfold ctxf in Hf.
  unfold stack, depth. rewrite Hf. auto.
Qed.

End Balance.

Lemma make_balances_resolution_context_witness :
  exists w',
    sf_container_make (H := host32) 10 fresh_world "A" None None
    = Some (FAILURE, IS_UNDEF, w')
    /\ depth (context (cont w')) = O.
Proof.
  eexists. split; [vm_compute; reflexivity|].
  eapply (make_balances_resolution_context (H := host32) 10 fresh_world "A"
            None None FAILURE IS_UNDEF).
  - vm_compute. reflexivity.
  - reflexivity.
Defined.

(** ** Errors while unwinding *)

Lemma not_pending_clean w : exception_pending w = false -> EG_exception w = None.
Proof. unfold exception_pending. destruct (EG_exception w); congruence. Qed.

Lemma clean_unchained w : EG_exception w = None -> unchained w.
Proof. unfold unchained. intros ->. exact I. Qed.

Lemma throw_on_clean_unchained ce m w :
  EG_exception w = None -> unchained (throw ce m w).
Proof. unfold unchained, throw. cbn. intros ->. reflexivity. Qed.

Create HintDb single.

#[local] Hint Resolve clean_unchained throw_on_clean_unchained
  not_pending_clean : single.

Section SingleError.
Context `{Zend}.
Hypothesis host_quiet : host_never_throws.
Variable mk : world -> string -> parameters_t -> option string -> outcome.
Variable fc : sf_factory -> world -> parameters_t -> outcome.
Hypothesis mk_single :
  forall w a p r s v w', EG_exception w = None ->
    mk w a p r = Some (s, v, w') ->
    (s = SUCCESS -> EG_exception w' = None) /\ unchained w'.
Hypothesis fc_single :
  forall f w p s v w', EG_exception w = None ->
    fc f w p = Some (s, v, w') ->
    (s = SUCCESS -> EG_exception w' = None) /\ unchained w'.

Lemma after_call_quiet c args w :
  after_call (zend_call_function c args) w = w.
Proof.
  unfold after_call. destruct (zend_call_function c args) eqn:Ho; auto.
  exfalso. eapply host_quiet. exact Ho.
Qed.

Lemma build_args_loop_single class parameters requester ps :
  forall built w res w', EG_exception w = None ->
    build_args_loop mk class parameters requester ps built w = Some (res, w')
    -> (res <> None -> EG_exception w' = None) /\ unchained w'.
Proof.
  induction ps as [|p0 rest IH]; intros built w res w' Hclean Hrun;
    cbn [build_args_loop] in Hrun.
  - invert Hrun. auto with single.
  - destruct (parameters ≫= _) as [provided|]; [eauto|].
    destruct (type_hint p0) as [hint|].
    + destruct (mk w hint None (Some requester)) as [[[st arg] w1]|] eqn:Hmk;
        [|discriminate].
      destruct (mk_single _ _ _ _ _ _ _ Hclean Hmk) as [Hok Hun].
      destruct st; [eauto|].
      destruct (exception_pending w1) eqn:Hpend.
      { invert Hrun. split; [congruence | assumption]. }
      apply not_pending_clean in Hpend.
      destruct (is_nullable p0); [eauto|].
      destruct (has_default p0); invert Hrun; split;
        auto with single; congruence.
    + destruct (has_default p0); [invert Hrun; auto with single|].
      destruct (is_variadic p0); invert Hrun; split;
        auto with single; congruence.
Qed.

Lemma jit_keeps_exception cn meta ce w :
  EG_exception (on_container (jit_compile cn meta ce) w) = EG_exception w.
Proof. reflexivity. Qed.

Lemma autowire_single cn parameters w s v w' :
  EG_exception w = None ->
  sf_autowire_resolve mk cn parameters w = Some (s, v, w') ->
  (s = SUCCESS -> EG_exception w' = None) /\ unchained w'.
Proof.
  unfold sf_autowire_resolve, sf_autowire_build_args_direct.
  intros Hclean Hrun.
  destruct (zend_lookup_class cn) as [ce|];
    [|invert Hrun; split; [discriminate | auto with single]].
  destruct (ce_not_instantiable ce);
    [invert Hrun; split; [discriminate | auto with single]|].
  destruct (fetch_metadata cn ce w) as [meta w1] eqn:Hm.
  assert (EG_exception w1 = None) as Hclean1.
  { unfold fetch_metadata in Hm.
    destruct (sf_cache_get cn (reflection_cache (cont w))); invert Hm;
      assumption. }
  destruct (negb (is_instantiable meta));
    [invert Hrun; split; [discriminate | auto with single]|].
  destruct (build_args_loop mk (class_name meta) parameters cn (params meta)
              [] w1) as [[[args|] w2]|] eqn:Hb; try discriminate;
    apply build_args_loop_single in Hb; try assumption;
    destruct Hb as [Hok Hun].
  - assert (EG_exception w2 = None) as Hclean2 by (apply Hok; discriminate).
    unfold autowire_construct in Hrun. rewrite after_call_quiet in Hrun.
    destruct (object_init_ex ce);
      [|invert Hrun; split; [discriminate | auto with single]].
    destruct (constructor ce).
    + destruct (zend_call_function (CallConstructor ce) args);
        invert Hrun; split; auto with single; discriminate.
    + invert Hrun. split; auto with single.
  - invert Hrun. split; [discriminate | assumption].
Qed.

Lemma resolve_dep_fast_single w d s v w' :
  EG_exception w = None ->
  sf_resolve_dep_fast mk fc w d = Some (s, v, w') ->
  (s = SUCCESS -> EG_exception w' = None) /\ unchained w'.
Proof.
  unfold sf_resolve_dep_fast. intros Hclean Hrun.
  destruct (instances (cont w) !! d); [invert Hrun; auto with single|].
  destruct (compiled_factories (cont w) !! d) as [f|]; [|eauto].
  destruct (factory_fn f); eauto.
Qed.

Lemma cache_if_singleton_exception f v w :
  EG_exception (cache_if_singleton f v w) = EG_exception w.
Proof. unfold cache_if_singleton. destruct (is_singleton f); reflexivity. Qed.

Lemma construct_with_single f deps w s v w' :
  EG_exception w = None ->
  construct_with f deps w = Some (s, v, w') ->
  (s = SUCCESS -> EG_exception w' = None) /\ unchained w'.
Proof.
  unfold construct_with. intros Hclean Hrun. cbv zeta in Hrun.
  rewrite after_call_quiet in Hrun.
  assert (exception_pending w = false) as Hpend
    by (unfold exception_pending; rewrite Hclean; reflexivity).
  rewrite Hpend in Hrun.
  assert (forall obj, EG_exception (cache_if_singleton f obj w) = None)
    as Hc by (intros; rewrite cache_if_singleton_exception; assumption).
  destruct (object_init_ex (f_ce f)); [|invert Hrun; auto with single].
  destruct (has_constructor f); [|invert Hrun; auto with single].
  destruct (zend_call_function (CallConstructor (f_ce f)) deps);
    invert Hrun; auto with single.
Qed.

Lemma resolve_deps_loop_single names :
  forall deps w res w', EG_exception w = None ->
    resolve_deps_loop mk fc names deps w = Some (res, w') ->
    (res <> None -> EG_exception w' = None) /\ unchained w'.
Proof.
  induction names as [|d rest IH]; intros deps w res w' Hclean Hrun;
    cbn [resolve_deps_loop] in Hrun.
  - invert Hrun. auto with single.
  - destruct (sf_resolve_dep_fast mk fc w d) as [[[st dep] w1]|] eqn:Hd;
      [|discriminate].
    apply resolve_dep_fast_single in Hd; [|assumption].
    destruct Hd as [Hok Hun].
    destruct st; [eauto|]. invert Hrun. split; [congruence | assumption].
Qed.

Lemma factory_call_frame_single f w p s v w' :
  EG_exception w = None ->
  sf_factory_call_frame mk fc f w p = Some (s, v, w') ->
  (s = SUCCESS -> EG_exception w' = None) /\ unchained w'.
Proof.
  unfold sf_factory_call_frame. intros Hclean Hrun.
  destruct (factory_fn f) as [[| | |]|]; [| | | |invert Hrun; auto with single].
  - unfold factory_template_0deps in Hrun. cbv zeta in Hrun.
    rewrite after_call_quiet in Hrun.
    assert (exception_pending w = false) as Hpend
      by (unfold exception_pending; rewrite Hclean; reflexivity).
    rewrite Hpend in Hrun.
    assert (forall obj, EG_exception (cache_if_singleton f obj w) = None)
      as Hc by (intros; rewrite cache_if_singleton_exception; assumption).
    destruct (object_init_ex (f_ce f)); [|invert Hrun; auto with single].
    destruct (has_constructor f); invert Hrun; auto with single.
  - unfold factory_template_1dep in Hrun.
    destruct (dep_names f) as [|d0 ?]; [discriminate|].
    destruct (sf_resolve_dep_fast mk fc w d0) as [[[st dep] w1]|] eqn:Hd;
      [|discriminate].
    apply resolve_dep_fast_single in Hd; [|assumption].
    destruct Hd as [Hok Hun].
    destruct st; [|invert Hrun; split; [discriminate | assumption]].
    eapply construct_with_single; [|exact Hrun]. auto.
  - unfold factory_template_2deps in Hrun.
    destruct (dep_names f) as [|d0 [|d1 ?]]; try discriminate.
    destruct (sf_resolve_dep_fast mk fc w d0) as [[[st dep] w1]|] eqn:Hd;
      [|discriminate].
    apply resolve_dep_fast_single in Hd; [|assumption].
    destruct Hd as [Hok Hun].
    destruct st; [|invert Hrun; split; [discriminate | assumption]].
    destruct (sf_resolve_dep_fast mk fc w1 d1) as [[[st' dep'] w2]|] eqn:Hd';
      [|discriminate].
    apply resolve_dep_fast_single in Hd'; [|auto].
    destruct Hd' as [Hok' Hun'].
    destruct st'; [|invert Hrun; split; [discriminate | assumption]].
    eapply construct_with_single; [|exact Hrun]. auto.
  - unfold factory_template_ndeps in Hrun.
    destruct (resolve_deps_loop mk fc (dep_names f) [] w)
      as [[[deps|] w1]|] eqn:Hl; try discriminate;
      apply resolve_deps_loop_single in Hl; try assumption;
      destruct Hl as [Hok Hun].
    + eapply construct_with_single; [|exact Hrun]. apply Hok. discriminate.
    + invert Hrun. split; [discriminate | assumption].
Qed.

Lemma resolve_concrete_single w a concrete p r s v w' :
  EG_exception w = None ->
  sf_resolve_concrete mk w a concrete p r = Some (s, v, w') ->
  (s = SUCCESS -> EG_exception w' = None) /\ unchained w'.
Proof.
  unfold sf_resolve_concrete. intros Hclean Hrun.
  destruct concrete; try (invert Hrun; auto with single; fail).
  - eapply autowire_single; eassumption.
  - rewrite after_call_quiet in Hrun.
    destruct (zend_call_function _ _); invert Hrun; auto with single.
Qed.

Lemma make_frame_single w a p r s v w' :
  EG_exception w = None ->
  sf_container_make_frame mk fc w a p r = Some (s, v, w') ->
  (s = SUCCESS -> EG_exception w' = None) /\ unchained w'.
Proof.
  unfold sf_container_make_frame. cbv zeta. intros Hclean Hrun.
  set (w0 := on_container (set_cache_loaded true) w) in *.
  assert (EG_exception w0 = None) as Hclean0 by exact Hclean.
  clearbody w0.
  destruct (sf_fast_lookup_find _ _); [invert Hrun; auto with single|].
  destruct (instances (cont w0) !! _); [invert Hrun; auto with single|].
  destruct (compiled_factory_for _ _ _); [eauto|].
  destruct (sf_resolution_context_push _ _) as [[|] ctx];
    [|invert Hrun; split; [discriminate | auto with single]].
  set (w1 := on_container (set_context ctx) w0) in *.
  assert (EG_exception w1 = None) as Hclean1 by exact Hclean0.
  clearbody w1.
  unfold pop_and_return in Hrun.
  destruct (applicable_contextual_binding _ _ _) as [cb|].
  { destruct (sf_resolve_concrete mk w1 _ (implementation cb) p r)
      as [[[st v1] w2]|] eqn:Hc; [|discriminate].
    invert Hrun. apply resolve_concrete_single in Hc; [exact Hc|assumption]. }
  destruct (bindings (cont w1) !! _) as [b|].
  - assert (forall st' v' w2,
              match sf_resolve_concrete mk w1
                      (sf_resolve_alias (cont w0) a) (concrete b) p r with
              | None => None
              | Some (FAILURE, v1, w3) => Some (FAILURE, v1, pop_context w3)
              | Some (SUCCESS, v1, w3) =>
                  match scope b with
                  | SF_SCOPE_SINGLETON =>
                      Some (SUCCESS, v1,
                            pop_context
                              (on_container
                                 (cache_singleton
                                    (sf_resolve_alias (cont w0) a) v1) w3))
                  | _ => Some (SUCCESS, v1, pop_context w3)
                  end
              end = Some (st', v', w2) ->
              (st' = SUCCESS -> EG_exception w2 = None) /\ unchained w2)
      as Hres.
    { intros st' v' w2 Hm.
      destruct (sf_resolve_concrete mk w1 _ (concrete b) p r)
        as [[[st v1] w3]|] eqn:Hc; [|discriminate].
      apply resolve_concrete_single in Hc; [|assumption].
      destruct st; [destruct (scope b)|]; invert Hm; exact Hc. }
    destruct (scope b); try (eapply Hres; exact Hrun).
    destruct (is_undef (instance b)); [eapply Hres; exact Hrun|].
    invert Hrun. auto with single.
  - destruct (sf_autowire_resolve mk _ p w1) as [[[st v1] w2]|] eqn:Hc;
      [|discriminate].
    invert Hrun. apply autowire_single in Hc; [exact Hc|assumption].
Qed.

End SingleError.

Section Unwinding.
Context `{Zend}.

Lemma engine_single n :
  host_never_throws ->
  (forall w a p r s v w', EG_exception w = None ->
      sf_container_make n w a p r = Some (s, v, w') ->
      (s = SUCCESS -> EG_exception w' = None) /\ unchained w')
  /\ (forall f w p s v w', EG_exception w = None ->
        sf_factory_call n f w p = Some (s, v, w') ->
        (s = SUCCESS -> EG_exception w' = None) /\ unchained w').
Proof.
  intros Hq. induction n as [|n [IHmk IHfc]].
  - split; intros; discriminate.
  - split.
    + intros w a p r s v w' Hclean Hrun. rewrite make_unfold in Hrun.
      eapply make_frame_single; eauto.
    + intros f w p s v w' Hclean Hrun. rewrite factory_call_unfold in Hrun.
      eapply factory_call_frame_single; eauto.
Qed.

(** Inside the argument loop: a dependency that fails with an exception
    pending ends the loop with -1 in the very state the dependency left. *)
Lemma build_args_pending_error mk class parameters requester p rest built w
    hint v w1 :
  parameters ≫= (fun arr => zend_hash_find_array arr (name p)) = None ->
  type_hint p = Some hint ->
  mk w hint None (Some requester) = Some (FAILURE, v, w1) ->
  exception_pending w1 = true ->
  build_args_loop mk class parameters requester (p :: rest) built w
  = Some (None, w1).
Proof.
  intros Hprov Hhint Hmk Hpend. cbn [build_args_loop].
  rewrite Hprov, Hhint, Hmk, Hpend. reflexivity.
Qed.

(** Autowiring passes a failed argument build on as it is. *)
Lemma autowire_failed_args mk cn parameters w ce meta w0 w1 :
  zend_lookup_class cn = Some ce -> ce_not_instantiable ce = false ->
  fetch_metadata cn ce w = (meta, w0) -> is_instantiable meta = true ->
  build_args_loop mk (class_name meta) parameters cn (params meta) [] w0
  = Some (None, w1) ->
  sf_autowire_resolve mk cn parameters w = Some (FAILURE, IS_UNDEF, w1).
Proof.
  intros Hce Hinst Hm Hmeta Hb.
  unfold sf_autowire_resolve, sf_autowire_build_args_direct.
  rewrite Hce, Hinst, Hm, Hmeta. cbn [negb]. rewrite Hb. reflexivity.
Qed.

(** The unwinding code keeps a pending error.  (1) When the recursive
    resolution of a type-hinted parameter fails and an exception is
    pending, the argument loop of autowiring returns -1 at once, in the
    state that resolution left: the arguments built so far are given up
    and no NotFound is raised over the pending error.  (2) Autowiring
    hands that failure to its caller in the same state.  (3) [make] hands
    the failure of the autowiring it called to its own caller, only
    popping the context: the pending exception is the same.  (4) Hence,
    on a host whose constructors and closures leave no exception pending,
    a call of [make] entered with none pending returns success with none
    pending, or failure with at most one error pending that was never
    thrown over another one: the error raised deepest is the one that
    arrives. *)
Theorem pending_error_survives_unwinding n :
  (forall class parameters requester p rest built w hint v w1,
      parameters ≫= (fun arr => zend_hash_find_array arr (name p)) = None ->
      type_hint p = Some hint ->
      sf_container_make n w hint None (Some requester)
      = Some (FAILURE, v, w1) ->
      exception_pending w1 = true ->
      build_args_loop (sf_container_make n) class parameters requester
                      (p :: rest) built w
      = Some (None, w1))
  /\ (forall cn parameters w ce meta w0 w1,
        zend_lookup_class cn = Some ce -> ce_not_instantiable ce = false ->
        fetch_metadata cn ce w = (meta, w0) -> is_instantiable meta = true ->
        build_args_loop (sf_container_make n) (class_name meta) parameters cn
                        (params meta) [] w0
        = Some (None, w1) ->
        sf_autowire_resolve (sf_container_make n) cn parameters w
        = Some (FAILURE, IS_UNDEF, w1))
  /\ (forall w a p r ctx v w2,
        let k := sf_resolve_alias (cont w) a in
        sf_fast_lookup_find (fast_cache (cont w)) k = None ->
        instances (cont w) !! k = None ->
        compiled_factory_for (cont w) k r = None ->
        sf_resolution_context_push (context (cont w)) k = (SUCCESS, ctx) ->
        applicable_contextual_binding (cont w) r k = None ->
        bindings (cont w) !! k = None ->
        sf_autowire_resolve (sf_container_make n) k p
          (on_container (set_context ctx)
             (on_container (set_cache_loaded true) w))
        = Some (FAILURE, v, w2) ->
        sf_container_make (S n) w a p r = Some (FAILURE, v, pop_context w2)
        /\ EG_exception (pop_context w2) = EG_exception w2)
  /\ (host_never_throws ->
      forall w a p r s v w',
        EG_exception w = None ->
        sf_container_make n w a p r = Some (s, v, w') ->
        (s = SUCCESS -> EG_exception w' = None)
        /\ (forall e, EG_exception w' = Some e ->
              s = FAILURE /\ exception_previous e = None)).
Proof.
  split; [|split; [|split]].
  - intros. eapply build_args_pending_error; eassumption.
  - intros. eapply autowire_failed_args; eassumption.
  - intros w a p r ctx v w2 k Hf Hi Hc Hp Hcb Hb Ha. split; [|reflexivity].
    rewrite (make_autowire n w a p r ctx Hf Hi Hc Hp Hcb Hb).
    fold k. rewrite Ha. reflexivity.
  - intros Hq w a p r s v w' Hclean Hrun.
    destruct (proj1 (engine_single n Hq) _ _ _ _ _ _ _ Hclean Hrun)
      as [Hok Hun].
    split; [exact Hok|]. intros e He. unfold unchained in Hun.
    rewrite He in Hun. split; [|exact Hun].
    destruct s; [|reflexivity]. rewrite Hok in He by reflexivity.
    discriminate.
Qed.

End Unwinding.

Lemma pending_error_survives_unwinding_witness :
  host_never_throws (H := host32_quiet)
  /\ exists w',
       sf_container_make (H := host32_quiet) 10 fresh_world "A" None None
       = Some (FAILURE, IS_UNDEF, w')
       /\ EG_exception w'
          = Some (Exception sf_circular_dependency_exception_ce
                    "Circular dependency detected: A -> B -> A" None)
       /\ (forall e, EG_exception w' = Some e ->
             FAILURE = FAILURE /\ exception_previous e = None).
Proof.
  assert (host_never_throws (H := host32_quiet)) as Hq
    by (intros c args ce m; discriminate).
  split; [exact Hq|].
  eexists. split; [vm_compute; reflexivity|]. split; [reflexivity|].
  destruct (pending_error_survives_unwinding (H := host32_quiet) 10)
    as (_ & _ & _ & Hsingle).
  refine (proj2 (Hsingle Hq fresh_world "A" None None FAILURE IS_UNDEF _
                         eq_refl _)).
  vm_compute. reflexivity.
Defined.


Section Overridden.
Context `{Zend}.

(** C5.  An error raised deep in the resolution can be replaced while
    unwinding.  When the constructor of a dependency throws, the
    resolution of the dependency reports success with the error pending,
    and the argument loop of autowiring goes on to the next parameter; a
    parameter the loop cannot resolve (no type hint, no default, not
    variadic) then raises NotFound over the pending error.  Autowiring
    fails, and the exception on top is the NotFound of the outer class: the
    error raised first is kept only as its [previous]. *)
Theorem thrown_error_is_overridden n cn ce ctor d x hint w v w1 e :
  let w0 :=
    on_container
      (fun c => set_reflection_cache
                  (sf_cache_put cn (sf_cache_build cn ce)
                                (reflection_cache c)) c) w in
  let message :=
    "Unable to resolve parameter '" +:+ arg_name x +:+ "' of class '"
    +:+ cn +:+ "' (no type hint or default value)" in
  zend_lookup_class cn = Some ce ->
  ce_not_instantiable ce = false ->
  reflection_cache (cont w) !! cn = None ->
  constructor ce = Some ctor ->
  arg_info ctor = [d; x] ->
  required_num_args ctor = 2%nat ->
  arg_type_is_set d = true ->
  arg_type_name d = Some hint ->
  arg_type_is_set x = false ->
  arg_is_variadic x = false ->
  sf_container_make n w0 hint None (Some cn) = Some (SUCCESS, v, w1) ->
  EG_exception w1 = Some e ->
  sf_autowire_resolve (sf_container_make n) cn None w
  = Some (FAILURE, IS_UNDEF, throw sf_not_found_exception_ce message w1)
  /\ EG_exception (throw sf_not_found_exception_ce message w1)
     = Some (Exception sf_not_found_exception_ce message (Some e)).
Proof.
  intros w0 message Hce Hinst Hrc Hctor Hargs Hreq Hd Hh Hx Hvar Hmk He.
  split.
  - assert (is_instantiable (sf_cache_build cn ce) = true
            /\ class_name (sf_cache_build cn ce) = cn
            /\ params (sf_cache_build cn ce)
               = [build_param 2 0 d; build_param 2 1 x])
      as (Hi & Hn & Hps).
    { unfold sf_cache_build. rewrite Hinst, Hctor, Hargs, Hreq.
      repeat split. }
    unfold sf_autowire_resolve. rewrite Hce, Hinst.
    unfold fetch_metadata, sf_cache_get. rewrite Hrc. cbv zeta.
    rewrite Hi. cbn [negb]. unfold sf_autowire_build_args_direct.
    rewrite Hn, Hps.
    cbn [build_args_loop build_param name type_hint has_default is_variadic
         Nat.leb mbind option_bind].
    rewrite Hd, Hx, Hh, Hvar. fold w0. rewrite Hmk. reflexivity.
  - unfold throw, zend_throw_exception. cbn [EG_exception].
    rewrite He. reflexivity.
Qed.

End Overridden.

Lemma thrown_error_is_overridden_witness :
  exists w',
    sf_autowire_resolve (H := host_failing_dep)
      (sf_container_make (H := host_failing_dep) 2) "Outer" None fresh_world
    = Some (FAILURE, IS_UNDEF, w')
    /\ EG_exception w'
       = Some (Exception sf_not_found_exception_ce
                 "Unable to resolve parameter 'label' of class 'Outer' (no type hint or default value)"
                 (Some (Exception (zend_ce_throwable "RuntimeException")
                                  "boom" None)))
    /\ exists w'',
         sf_container_make (H := host_failing_dep) 3 fresh_world "Outer"
                           None None
         = Some (FAILURE, IS_UNDEF, w'')
         /\ EG_exception w'' = EG_exception w'.
Proof.
  assert (exists w1,
             sf_container_make (H := host_failing_dep) 2
               (on_container
                  (fun c => set_reflection_cache
                              (sf_cache_put "Outer"
                                 (sf_cache_build "Outer" outer_ce)
                                 (reflection_cache c)) c) fresh_world)
               "Dep" None (Some "Outer")
             = Some (SUCCESS, IS_OBJECT "Dep" [], w1)
             /\ EG_exception w1
                = Some (Exception (zend_ce_throwable "RuntimeException")
                                  "boom" None)) as (w1 & Hmk & He).
  { eexists. split; [vm_compute; reflexivity|]. reflexivity. }
  destruct (thrown_error_is_overridden (H := host_failing_dep) 2
              "Outer" outer_ce
              {| arg_info := map sample_arg
                               [("dep", Some "Dep", false);
                                ("label", None, false)];
                 required_num_args := 2 |}
              (sample_arg ("dep", Some "Dep", false))
              (sample_arg ("label", None, false))
              "Dep" fresh_world (IS_OBJECT "Dep" []) w1
              (Exception (zend_ce_throwable "RuntimeException") "boom" None)
              eq_refl eq_refl eq_refl eq_refl eq_refl eq_refl eq_refl eq_refl
              eq_refl eq_refl Hmk He) as [Hrun Hpending].
  eexists. split; [exact Hrun|]. split; [exact Hpending|].
  eexists. split; [vm_compute; reflexivity|].
  rewrite Hpending. vm_compute. reflexivity.
Defined.

(** ** The argument rules of autowiring *)

Section Arguments.
Context `{Zend}.
Variable mk : world -> string -> parameters_t -> option string -> outcome.



End Arguments.


(** ** Explicit parameters *)









Section Rules.
Context `{Zend}.
Variable mk : world -> string -> parameters_t -> option string -> outcome.



End Rules.

Section ArgumentRules.
Context `{Zend}.


End ArgumentRules.



(** ** Tags *)

Section Tagged.
Context `{Zend}.

Lemma tagged_loop_resolves fuel items :
  forall result w res w',
    tagged_loop fuel items result w = Some (res, w') ->
    exists more, res = result ++ more /\ resolves_tagged fuel items w more w'.
Proof.
  induction items as [|item rest IH]; intros result w res w' Hrun;
    cbn [tagged_loop] in Hrun.
  - invert Hrun. exists []. rewrite app_nil_r. split; [auto|constructor].
  - assert (is_string item = false ->
            tagged_loop fuel rest result w = Some (res, w') ->
            exists more, res = result ++ more
                         /\ resolves_tagged fuel (item :: rest) w more w')
      as Hskip.
    { intros Hns Hr. apply IH in Hr as (more & -> & Hres).
      exists more. split; [auto|]. apply resolves_skip; assumption. }
    destruct item; try (apply Hskip; [reflexivity | exact Hrun]).
    destruct (sf_container_make fuel w s None None) as [[[st v] w1]|] eqn:Hmk;
      [|discriminate].
    destruct st.
    + apply IH in Hrun as (more & -> & Hres). exists (v :: more).
      rewrite <- app_assoc. split; [reflexivity|].
      eapply resolves_success; eassumption.
    + apply IH in Hrun as (more & -> & Hres). exists more.
      split; [reflexivity|]. eapply resolves_failure; eassumption.
Qed.

Lemma resolves_tagged_loop fuel items w more w' :
  resolves_tagged fuel items w more w' ->
  forall result, tagged_loop fuel items result w = Some (result ++ more, w').
Proof.
  induction 1 as [w | item rest w more w' Hns _ IH
                  | item rest w v w1 more w' Hmk _ IH
                  | item rest w v w1 more w' Hmk _ IH]; intros result.
  - cbn. rewrite app_nil_r. reflexivity.
  - cbn [tagged_loop]. destruct item; try discriminate Hns; apply IH.
  - cbn [tagged_loop]. rewrite Hmk, IH, <- app_assoc. reflexivity.
  - cbn [tagged_loop]. rewrite Hmk. apply IH.
Qed.

Lemma resolves_tagged_length fuel items w more w' :
  resolves_tagged fuel items w more w' ->
  (length more <= length (List.filter is_string items))%nat.
Proof.
  induction 1 as [w | item rest w more w' Hns _ IH
                  | item rest w v w1 more w' Hmk _ IH
                  | item rest w v w1 more w' Hmk _ IH]; simpl.
  - lia.
  - rewrite Hns. exact IH.
  - lia.
  - lia.
Qed.

(** The array of [tagged].  Whenever [tagged(tagName)] returns, it
    reports success, and its array holds, in the order of the entries
    registered under the tag,
    the instance of each string entry whose [make] succeeded, the entries
    whose [make] failed being left out (1); it does return, with that
    array, as soon as the [make] of each entry returns (2); an unknown tag
    gives the empty array (3); and [tag] appends the string entries it is
    given, in their order, after those registered before (4).  The array
    has at most one instance per registered string entry (5). *)
Theorem tagged_resolves_in_registration_order fuel w tag :
  let entries := default [] (tags (cont w) !! tag) in
  (forall s result w',
      sf_container_tagged fuel w tag = Some (s, result, w') ->
      s = SUCCESS /\ resolves_tagged fuel entries w result w')
  /\ (forall result w',
        resolves_tagged fuel entries w result w' ->
        sf_container_tagged fuel w tag = Some (SUCCESS, result, w'))
  /\ (tags (cont w) !! tag = None ->
      sf_container_tagged fuel w tag = Some (SUCCESS, [], w))
  /\ (forall c abstracts,
        tags (sf_container_tag c abstracts tag) !! tag
        = Some (default [] (tags c !! tag) ++ List.filter is_string abstracts))
  /\ (forall result w',
        resolves_tagged fuel entries w result w' ->
        (length result <= length (List.filter is_string entries))%nat).
Proof.
  intros entries. subst entries. unfold sf_container_tagged.
  split; [|split; [|split; [|split]]].
  - intros s result w' Hrun.
    destruct (tags (cont w) !! tag) as [items|];
      cbn [default from_option id].
    + destruct (tagged_loop fuel items [] w) as [[res w1]|] eqn:Hl;
        [|discriminate].
      invert Hrun. split; [reflexivity|].
      apply tagged_loop_resolves in Hl as (more & -> & Hres). exact Hres.
    + invert Hrun. split; [reflexivity | constructor].
  - intros result w' Hres.
    destruct (tags (cont w) !! tag) as [items|];
      cbn [default from_option id] in Hres.
    + rewrite (resolves_tagged_loop _ _ _ _ _ Hres []). reflexivity.
    + invert Hres. reflexivity.
  - intros ->. reflexivity.
  - intros c abstracts. unfold sf_container_tag. cbn [tags set_tags].
    apply lookup_insert_eq.
  - intros result w'. apply resolves_tagged_length.
Qed.

End Tagged.

Lemma tagged_resolves_in_registration_order_witness :
  tags (cont tagged_world) !! "handlers"
  = Some [IS_STRING "Logger"; IS_STRING "Missing"; IS_STRING "Report"]
  /\ exists w',
       sf_container_tagged (H := host64) 5 tagged_world "handlers"
       = Some (SUCCESS,
               [IS_OBJECT "Logger" [];
                IS_OBJECT "Report" [IS_OBJECT "Logger" []]], w')
       /\ SUCCESS = SUCCESS
       /\ resolves_tagged (H := host64) 5
            [IS_STRING "Logger"; IS_STRING "Missing"; IS_STRING "Report"]
            tagged_world
            [IS_OBJECT "Logger" []; IS_OBJECT "Report" [IS_OBJECT "Logger" []]]
            w'.
Proof.
  split; [vm_compute; reflexivity|].
  eexists. split; [vm_compute; reflexivity|].
  refine (proj1 (tagged_resolves_in_registration_order (H := host64) 5
                   tagged_world "handlers")
                SUCCESS _ _ _).
  vm_compute. reflexivity.
Defined.


(** ** Pending exceptions are never cleared *)

Lemma still_pending_refl w : still_pending w w.
Proof. intros Hp. exact Hp. Qed.

Lemma still_pending_trans w1 w2 w3 :
  still_pending w1 w2 -> still_pending w2 w3 -> still_pending w1 w3.
Proof. unfold still_pending. auto. Qed.

Lemma still_pending_throw w w' ce m :
  still_pending w (throw ce m w').
Proof. intros _. reflexivity. Qed.

Lemma still_pending_after_call w w' o :
  still_pending w w' -> still_pending w (after_call o w').
Proof. intros Hs. destruct o; [exact Hs | apply still_pending_throw | exact Hs]. Qed.

Lemma still_pending_on_container w w' f :
  still_pending w w' -> still_pending w (on_container f w').
Proof. intros Hs. exact Hs. Qed.

Lemma still_pending_cache_if_singleton w w' f v :
  still_pending w w' -> still_pending w (cache_if_singleton f v w').
Proof.
  intros Hs. unfold cache_if_singleton. destruct (is_singleton f); exact Hs.
Qed.

Lemma still_pending_pop w w' :
  still_pending w w' -> still_pending w (pop_context w').
Proof. intros Hs. exact Hs. Qed.

Create HintDb pending.

#[local] Hint Resolve still_pending_refl still_pending_throw
  still_pending_after_call still_pending_on_container
  still_pending_cache_if_singleton still_pending_pop : pending.

Section Pending.
Context `{Zend}.
Variable mk : world -> string -> parameters_t -> option string -> outcome.
Variable fc : sf_factory -> world -> parameters_t -> outcome.
Hypothesis mk_pending :
  forall w a p r s v w', mk w a p r = Some (s, v, w') -> still_pending w w'.
Hypothesis fc_pending :
  forall f w p s v w', fc f w p = Some (s, v, w') -> still_pending w w'.

Lemma build_args_loop_pending class parameters requester ps :
  forall built w res w',
    build_args_loop mk class parameters requester ps built w = Some (res, w')
    -> still_pending w w'.
Proof.
  induction ps as [|p0 rest IH]; intros built w res w' Hrun;
    cbn [build_args_loop] in Hrun.
  - invert Hrun. auto with pending.
  - repeat break_match Hrun; try discriminate; try (invert Hrun);
      eauto using still_pending_trans with pending.
Qed.

Lemma fetch_metadata_pending cn ce w meta w1 :
  fetch_metadata cn ce w = (meta, w1) -> still_pending w w1.
Proof.
  unfold fetch_metadata. intros Hm.
  destruct (sf_cache_get cn (reflection_cache (cont w))); invert Hm;
    auto with pending.
Qed.

Lemma autowire_construct_pending cn meta ce args w s v w' :
  autowire_construct cn meta ce args w = Some (s, v, w') -> still_pending w w'.
Proof.
  unfold autowire_construct. intros Hrun.
  destruct (object_init_ex ce); [|invert Hrun; auto with pending].
  destruct (constructor ce); [|invert Hrun; auto with pending].
  destruct (zend_call_function (CallConstructor ce) args) eqn:Ho;
    invert Hrun; auto with pending.
Qed.

Lemma autowire_pending cn parameters w s v w' :
  sf_autowire_resolve mk cn parameters w = Some (s, v, w') ->
  still_pending w w'.
Proof.
  unfold sf_autowire_resolve, sf_autowire_build_args_direct. intros Hrun.
  destruct (zend_lookup_class cn) as [ce|]; [|invert Hrun; auto with pending].
  destruct (ce_not_instantiable ce); [invert Hrun; auto with pending|].
  destruct (fetch_metadata cn ce w) as [meta w1] eqn:Hm.
  apply fetch_metadata_pending in Hm.
  destruct (negb (is_instantiable meta)); [invert Hrun; auto with pending|].
  destruct (build_args_loop mk (class_name meta) parameters cn (params meta)
              [] w1) as [[[args|] w2]|] eqn:Hb; try discriminate;
    apply build_args_loop_pending in Hb.
  - apply autowire_construct_pending in Hrun.
    eauto using still_pending_trans.
  - invert Hrun. eauto using still_pending_trans.
Qed.

Lemma resolve_dep_fast_pending w d s v w' :
  sf_resolve_dep_fast mk fc w d = Some (s, v, w') -> still_pending w w'.
Proof.
  unfold sf_resolve_dep_fast. intros Hrun.
  repeat break_match Hrun; try discriminate; try (invert Hrun);
    eauto with pending.
Qed.

Lemma construct_with_pending f deps w s v w' :
  construct_with f deps w = Some (s, v, w') -> still_pending w w'.
Proof.
  unfold construct_with. intros Hrun.
  repeat break_match Hrun; try discriminate; invert Hrun; auto with pending.
Qed.

Lemma resolve_deps_loop_pending names :
  forall deps w res w',
    resolve_deps_loop mk fc names deps w = Some (res, w') ->
    still_pending w w'.
Proof.
  induction names as [|d rest IH]; intros deps w res w' Hrun;
    cbn [resolve_deps_loop] in Hrun.
  - invert Hrun. auto with pending.
  - repeat break_match Hrun; try discriminate; try (invert Hrun);
      repeat match goal with
             | Hd : sf_resolve_dep_fast _ _ _ _ = Some _ |- _ =>
                 apply resolve_dep_fast_pending in Hd
             end;
      eauto using still_pending_trans with pending.
Qed.

Lemma factory_call_frame_pending f w p s v w' :
  sf_factory_call_frame mk fc f w p = Some (s, v, w') -> still_pending w w'.
Proof.
  unfold sf_factory_call_frame, factory_template_0deps,
    factory_template_1dep, factory_template_2deps, factory_template_ndeps.
  intros Hrun.
  repeat break_match Hrun; try discriminate; try (invert Hrun);
    repeat match goal with
           | Hd : sf_resolve_dep_fast _ _ _ _ = Some _ |- _ =>
               apply resolve_dep_fast_pending in Hd
           | Hd : resolve_deps_loop _ _ _ _ _ = Some _ |- _ =>
               apply resolve_deps_loop_pending in Hd
           | Hd : construct_with _ _ _ = Some _ |- _ =>
               apply construct_with_pending in Hd
           end;
    eauto using still_pending_trans with pending.
Qed.

Lemma resolve_concrete_pending w a concrete p r s v w' :
  sf_resolve_concrete mk w a concrete p r = Some (s, v, w') ->
  still_pending w w'.
Proof.
  unfold sf_resolve_concrete. intros Hrun.
  destruct concrete; try (invert Hrun; auto with pending; fail).
  - eapply autowire_pending. exact Hrun.
  - repeat break_match Hrun; try discriminate; invert Hrun; auto with pending.
Qed.

Lemma make_frame_pending w a p r s v w' :
  sf_container_make_frame mk fc w a p r = Some (s, v, w') ->
  still_pending w w'.
Proof.
  unfold sf_container_make_frame. cbv zeta. intros Hrun.
  set (w0 := on_container (set_cache_loaded true) w) in *.
  assert (still_pending w w0) as H0 by (intros Hp; exact Hp).
  eapply still_pending_trans; [exact H0|]. clear H0.
  generalize dependent w0. intros w0 Hrun.
  unfold pop_and_return in Hrun.
  repeat break_match Hrun; try discriminate; try (invert Hrun);
    repeat match goal with
           | Hd : sf_resolve_concrete _ _ _ _ _ _ = Some _ |- _ =>
               apply resolve_concrete_pending in Hd
           | Hd : sf_autowire_resolve _ _ _ _ = Some _ |- _ =>
               apply autowire_pending in Hd
           end;
    eauto using still_pending_trans with pending.
Qed.

End Pending.

Section TaggedPending.
Context `{Zend}.

Lemma engine_pending n :
  (forall w a p r s v w',
      sf_container_make n w a p r = Some (s, v, w') -> still_pending w w')
  /\ (forall f w p s v w',
        sf_factory_call n f w p = Some (s, v, w') -> still_pending w w').
Proof.
  induction n as [|n [IHmk IHfc]].
  - split; intros; discriminate.
  - split.
    + intros w a p r s v w' Hrun. rewrite make_unfold in Hrun.
      eapply make_frame_pending; eauto.
    + intros f w p s v w' Hrun. rewrite factory_call_unfold in Hrun.
      eapply factory_call_frame_pending; eauto.
Qed.

Lemma resolves_tagged_pending fuel items w result w' :
  resolves_tagged fuel items w result w' -> still_pending w w'.
Proof.
  induction 1 as [w | item rest w more w' Hns _ IH
                  | item rest w v w1 more w' Hmk _ IH
                  | item rest w v w1 more w' Hmk _ IH].
  - apply still_pending_refl.
  - exact IH.
  - eapply still_pending_trans; [|exact IH].
    exact (proj1 (engine_pending fuel) _ _ _ _ _ _ _ Hmk).
  - eapply still_pending_trans; [|exact IH].
    exact (proj1 (engine_pending fuel) _ _ _ _ _ _ _ Hmk).
Qed.

Lemma tagged_loop_app fuel xs ys :
  forall result w,
    tagged_loop fuel (xs ++ ys) result w
    = match tagged_loop fuel xs result w with
      | Some (r, w1) => tagged_loop fuel ys r w1
      | None => None
      end.
Proof.
  induction xs as [|x xs IH]; intros result w; cbn [app tagged_loop].
  - reflexivity.
  - destruct x; try apply IH.
    destruct (sf_container_make fuel w s None None) as [[[[] v] w1]|];
      [apply IH | apply IH | reflexivity].
Qed.

(** C10.  An entry whose [make] fails with an error raised is left out of
    the array and [tagged] goes on and reports success, but not silently:
    the error is still pending when [tagged] returns.  [before] are the
    entries of the tag in front of the failing entry, [r0] their instances
    and [w0] the state they leave; [after] are the entries behind it. *)
Theorem tagged_leaves_failure_pending fuel w tag before item after r0 w0 v w1
    s result w' :
  tags (cont w) !! tag = Some (before ++ IS_STRING item :: after) ->
  resolves_tagged fuel before w r0 w0 ->
  sf_container_make fuel w0 item None None = Some (FAILURE, v, w1) ->
  exception_pending w1 = true ->
  sf_container_tagged fuel w tag = Some (s, result, w') ->
  s = SUCCESS
  /\ (exists rest,
         resolves_tagged fuel after w1 rest w' /\ result = r0 ++ rest)
  /\ exception_pending w' = true.
Proof.
  intros Ht Hb Hmk Hp Hrun. unfold sf_container_tagged in Hrun.
  rewrite Ht in Hrun.
  rewrite tagged_loop_app in Hrun.
  rewrite (resolves_tagged_loop _ _ _ _ _ Hb []) in Hrun.
  cbn [app tagged_loop] in Hrun. rewrite Hmk in Hrun.
  destruct (tagged_loop fuel after r0 w1) as [[res w2]|] eqn:Hl;
    [|discriminate].
  invert Hrun. split; [reflexivity|].
  apply tagged_loop_resolves in Hl as (rest & -> & Hres).
  split; [exists rest; split; [exact Hres|reflexivity]|].
  exact (resolves_tagged_pending _ _ _ _ _ Hres Hp).
Qed.

End TaggedPending.

Lemma tagged_leaves_failure_pending_witness :
  exists w',
    sf_container_tagged (H := host64) 5 tagged_world "handlers"
    = Some (SUCCESS,
            [IS_OBJECT "Logger" [];
             IS_OBJECT "Report" [IS_OBJECT "Logger" []]], w')
    /\ EG_exception w'
       = Some (Exception sf_not_found_exception_ce
                 "Class 'Missing' not found" None)
    /\ exception_pending w' = true.
Proof.
  assert (exists w0 w1,
             resolves_tagged (H := host64) 5 [IS_STRING "Logger"] tagged_world
                             [IS_OBJECT "Logger" []] w0
             /\ sf_container_make (H := host64) 5 w0 "Missing" None None
                = Some (FAILURE, IS_UNDEF, w1)
             /\ exception_pending w1 = true) as (w0 & w1 & Hb & Hmk & Hp).
  { eexists. eexists. split; [|split].
    - eapply resolves_success; [vm_compute; reflexivity|]. apply resolves_nil.
    - vm_compute. reflexivity.
    - reflexivity. }
  eexists. split; [vm_compute; reflexivity|]. split; [reflexivity|].
  refine (proj2 (proj2
    (tagged_leaves_failure_pending (H := host64) 5 tagged_world "handlers"
       [IS_STRING "Logger"] "Missing" [IS_STRING "Report"]
       [IS_OBJECT "Logger" []] w0 IS_UNDEF w1 SUCCESS _ _
       eq_refl Hb Hmk Hp _))).
  vm_compute. reflexivity.
Defined.

(** ** Coherence of the two singleton caches *)

Lemma find_probe_from lookup fp k left g :
  find_probe lookup fp k left g
  = find_from lookup fp k left (next_group g (num_groups lookup)).
Proof.
  revert g. induction left as [|left IH]; intros g; [reflexivity|].
  cbn [find_probe find_from].
  destruct (find_in_group fp k _); [reflexivity | apply IH].
Qed.

Lemma matches_in_none fp k slots :
  matches_in fp k slots = O <-> find_in_group fp k slots = None.
Proof.
  unfold matches_in. induction slots as [|s rest IH]; simpl; [tauto|].
  destruct (slot_matches fp k s); simpl; [|exact IH].
  split; [lia | discriminate].
Qed.

Lemma insert_in_group_none fp k v slots :
  insert_in_group fp k v slots = None -> find_in_group fp k slots = None.
Proof.
  induction slots as [|s rest IH]; simpl; [auto|].
  destruct (SF_CTRL_DELETED <=? ctrl s)%Z; [discriminate|].
  destruct (slot_matches fp k s); [discriminate|].
  destruct (insert_in_group fp k v rest) as [[? ?]|]; [discriminate|auto].
Qed.

Lemma insert_in_group_found fp k v slots slots' fresh :
  insert_in_group fp k v slots = Some (slots', fresh) ->
  find_in_group fp k slots' = Some v.
Proof.
  revert slots' fresh. induction slots as [|s rest IH]; intros slots' fresh;
    simpl; [discriminate|].
  destruct (SF_CTRL_DELETED <=? ctrl s)%Z.
  { intros Hi. invert Hi. simpl. unfold slot_matches. cbn [ctrl key].
    rewrite Z.eqb_refl, String.eqb_refl. reflexivity. }
  destruct (slot_matches fp k s) eqn:Hm.
  { intros Hi. invert Hi. simpl.
    replace (slot_matches fp k {| ctrl := ctrl s; key := key s; value := v |})
      with (slot_matches fp k s) by reflexivity.
    rewrite Hm. reflexivity. }
  destruct (insert_in_group fp k v rest) as [[rest' fresh']|] eqn:Hr;
    [|discriminate].
  intros Hi. invert Hi. simpl. rewrite Hm. eapply IH. reflexivity.
Qed.

Lemma remove_in_group_none fp k slots :
  remove_in_group fp k slots = None -> find_in_group fp k slots = None.
Proof.
  induction slots as [|s rest IH]; simpl; [auto|].
  destruct (slot_matches fp k s); [discriminate|].
  destruct (remove_in_group fp k rest); [discriminate|auto].
Qed.

Lemma remove_in_group_matches fp k slots slots' :
  remove_in_group fp k slots = Some slots' ->
  matches_in fp k slots = S (matches_in fp k slots').
Proof.
  unfold matches_in. revert slots'.
  induction slots as [|s rest IH]; intros slots'; simpl; [discriminate|].
  destruct (slot_matches fp k s) eqn:Hm.
  - intros Hr. invert Hr. simpl. unfold slot_matches at 2. cbn [key].
    rewrite andb_false_r. reflexivity.
  - destruct (remove_in_group fp k rest) as [rest'|]; [|discriminate].
    intros Hr. invert Hr. simpl. rewrite Hm. apply IH. reflexivity.
Qed.

Lemma insert_probe_result lookup fp k v left g lookup' :
  insert_probe lookup fp k v left g = (SUCCESS, lookup') ->
  exists gi slots' fresh,
    insert_in_group fp k v (default [] (groups lookup !! gi))
    = Some (slots', fresh)
    /\ groups lookup' = <[gi := slots']> (groups lookup)
    /\ num_groups lookup' = num_groups lookup.
Proof.
  revert g. induction left as [|left IH]; intros g; simpl; [discriminate|].
  destruct (insert_in_group fp k v (default [] (groups lookup !! g)))
    as [[slots' fresh]|] eqn:Hi; [|apply IH].
  intros Hr. invert Hr. exists g, slots', fresh. auto.
Qed.

Lemma group_after_insert (gs : list (list sf_lookup_slot)) gi slots' g :
  g <> gi -> default [] (<[gi := slots']> gs !! g) = default [] (gs !! g).
Proof. intros Hne. rewrite list_lookup_insert_ne by congruence. reflexivity. Qed.

Lemma group_at_insert (gs : list (list sf_lookup_slot)) gi slots' :
  default [] (gs !! gi) <> [] ->
  default [] (<[gi := slots']> gs !! gi) = slots'.
Proof.
  intros Hne. destruct (gs !! gi) eqn:Hg; [|contradiction].
  rewrite list_lookup_insert_eq; [reflexivity|].
  eapply lookup_lt_Some. exact Hg.
Qed.

(** After an accepted insert the key is found, with the value inserted. *)
Lemma find_from_after_insert lookup fp k v left :
  forall g lookup',
    insert_probe lookup fp k v left g = (SUCCESS, lookup') ->
    find_from lookup' fp k left g = Some v.
Proof.
  induction left as [|left IH]; intros g lookup' Hins; [discriminate|].
  cbn [insert_probe] in Hins. cbn [find_from].
  destruct (insert_in_group fp k v (default [] (groups lookup !! g)))
    as [[slots1 fresh1]|] eqn:Hg.
  - invert Hins. cbn [groups num_groups].
    rewrite group_at_insert.
    + rewrite (insert_in_group_found _ _ _ _ _ _ Hg). reflexivity.
    + intros Hnil. rewrite Hnil in Hg. discriminate.
  - pose proof (insert_probe_result _ _ _ _ _ _ _ Hins)
      as (gi & slots' & fresh & Hgi & Hgroups & Hn).
    assert (g <> gi) as Hne by (intros ->; congruence).
    rewrite Hgroups, Hn.
    rewrite group_after_insert by exact Hne.
    rewrite (insert_in_group_none _ _ _ _ Hg).
    apply IH. exact Hins.
Qed.

Lemma remove_probe_result lookup fp k left g :
  (remove_probe lookup fp k left g = lookup
   /\ find_from lookup fp k left g = None)
  \/ exists gi slots slots',
       groups lookup !! gi = Some slots
       /\ remove_in_group fp k slots = Some slots'
       /\ groups (remove_probe lookup fp k left g)
          = <[gi := slots']> (groups lookup)
       /\ num_groups (remove_probe lookup fp k left g) = num_groups lookup.
Proof.
  revert g. induction left as [|left IH]; intros g; simpl; [auto|].
  destruct (remove_in_group fp k (default [] (groups lookup !! g)))
    as [slots'|] eqn:Hr.
  - right. destruct (groups lookup !! g) as [slots|] eqn:Hg;
      [|discriminate Hr].
    exists g, slots, slots'. auto.
  - rewrite (remove_in_group_none _ _ _ Hr). apply IH.
Qed.

Lemma find_from_vacated lookup fp k left g :
  (forall i slots, groups lookup !! i = Some slots ->
                   matches_in fp k slots = O) ->
  find_from lookup fp k left g = None.
Proof.
  intros Hnone. revert g. induction left as [|left IH]; intros g;
    [reflexivity|].
  cbn [find_from].
  replace (find_in_group fp k (default [] (groups lookup !! g))) with
    (@None zval); [apply IH|].
  symmetry. destruct (groups lookup !! g) as [slots|] eqn:Hg; [|reflexivity].
  apply matches_in_none. eapply Hnone. exact Hg.
Qed.

Lemma list_sum_lookup (l : list nat) i x :
  l !! i = Some x -> (x <= list_sum l)%nat.
Proof.
  revert i. induction l as [|y l IH]; intros [|i]; simpl; try discriminate.
  - intros Hx. invert Hx. lia.
  - intros Hx. apply IH in Hx. lia.
Qed.

Lemma list_sum_two (l : list nat) i j x y :
  i <> j -> l !! i = Some x -> l !! j = Some y -> (x + y <= list_sum l)%nat.
Proof.
  revert i j. induction l as [|z l IH]; intros [|i] [|j] Hne; simpl;
    try discriminate; try congruence.
  - intros Hx Hy. invert Hx. apply list_sum_lookup in Hy. lia.
  - intros Hx Hy. invert Hy. apply list_sum_lookup in Hx. lia.
  - intros Hx Hy. assert (x + y <= list_sum l)%nat; [|lia].
    eapply IH; [|eassumption..]. congruence.
Qed.

Section Coherence.
Context `{Zend}.

Lemma find_as_find_from lookup k :
  (1 <= num_groups lookup)%nat ->
  sf_fast_lookup_find lookup k
  = find_from lookup (SF_HASH_FINGERPRINT (ZSTR_H k)) k (num_groups lookup)
              (group_index (ZSTR_H k) (num_groups lookup)).
Proof.
  intros Hn. unfold sf_fast_lookup_find. cbv zeta.
  destruct (num_groups lookup) as [|m] eqn:Hm; [lia|].
  cbn [find_from]. rewrite Hm.
  destruct (find_in_group _ _ _); [reflexivity|].
  replace (S m - 1)%nat with m by lia.
  rewrite find_probe_from, Hm. reflexivity.
Qed.

(** An accepted insert makes the table report the key. *)
Lemma find_after_insert lookup k v lookup' :
  (1 <= num_groups lookup)%nat ->
  sf_fast_lookup_insert lookup k v = (SUCCESS, lookup') ->
  sf_fast_lookup_find lookup' k = Some v.
Proof.
  intros Hn. unfold sf_fast_lookup_insert.
  destruct (capacity lookup * 7 / 8 <=? count lookup)%Z; [discriminate|].
  intros Hins.
  pose proof (insert_probe_result _ _ _ _ _ _ _ Hins)
    as (_ & _ & _ & _ & _ & Hn').
  rewrite find_as_find_from by lia. rewrite Hn'.
  eapply find_from_after_insert. exact Hins.
Qed.

(** A removal empties the table of a key held by at most one slot. *)
Lemma find_after_remove lookup k :
  (1 <= num_groups lookup)%nat ->
  (occupancy lookup k <= 1)%nat ->
  sf_fast_lookup_find (sf_fast_lookup_remove lookup k) k = None.
Proof.
  intros Hn Hocc. unfold sf_fast_lookup_remove. cbv zeta.
  set (fp := SF_HASH_FINGERPRINT (ZSTR_H k)).
  set (g := group_index (ZSTR_H k) (num_groups lookup)).
  destruct (remove_probe_result lookup fp k (num_groups lookup) g)
    as [[Hsame Hnone] | (gi & slots & slots' & Hgi & Hrem & Hgroups & Hn')].
  - rewrite Hsame. rewrite find_as_find_from by lia. exact Hnone.
  - rewrite find_as_find_from by lia. rewrite Hn'. fold fp.
    apply find_from_vacated. intros i group Hi. rewrite Hgroups in Hi.
    pose proof (remove_in_group_matches _ _ _ _ Hrem) as Hone.
    unfold occupancy in Hocc. fold fp in Hocc.
    assert (map (matches_in fp k) (groups lookup) !! gi
            = Some (matches_in fp k slots)) as Hmgi
      by (rewrite list_lookup_fmap, Hgi; reflexivity).
    destruct (decide (i = gi)) as [->|Hne].
    + rewrite list_lookup_insert_eq in Hi
        by (eapply lookup_lt_Some; exact Hgi).
      invert Hi. apply list_sum_lookup in Hmgi. lia.
    + rewrite list_lookup_insert_ne in Hi by congruence.
      assert (map (matches_in fp k) (groups lookup) !! i
              = Some (matches_in fp k group)) as Hmi
        by (rewrite list_lookup_fmap, Hi; reflexivity).
      pose proof (list_sum_two _ _ _ _ _ Hne Hmi Hmgi). lia.
Qed.

End Coherence.

Section SingletonCaches.
Context `{Zend}.

Lemma insert_probe_failure lookup fp k v left g t :
  insert_probe lookup fp k v left g = (FAILURE, t) -> t = lookup.
Proof.
  revert g. induction left as [|left IH]; intros g; simpl.
  - intros Hr. invert Hr. reflexivity.
  - destruct (insert_in_group fp k v (default [] (groups lookup !! g)))
      as [[slots fresh]|]; [discriminate | apply IH].
Qed.

(** A refused insert leaves the table unchanged. *)
Lemma insert_failure_unchanged lookup k v t :
  sf_fast_lookup_insert lookup k v = (FAILURE, t) -> t = lookup.
Proof.
  unfold sf_fast_lookup_insert.
  destruct (capacity lookup * 7 / 8 <=? count lookup)%Z.
  - intros Hr. invert Hr. reflexivity.
  - apply insert_probe_failure.
Qed.

Lemma forget_instance_effect c a :
  let k := sf_resolve_alias c a in
  let c' := sf_container_forget_instance c a in
  instances c' !! k = None
  /\ fast_cache c' = sf_fast_lookup_remove (fast_cache c) k
  /\ sf_container_resolved c' a = false.
Proof.
  intros k c'. subst k c'.
  unfold sf_container_forget_instance, sf_container_resolved. cbv zeta.
  norm_state. cbn [set_instances set_fast_cache set_bindings instances
                   bindings fast_cache aliases].
  rewrite lookup_delete_eq. repeat split.
  rewrite lookup_alter_eq.
  destruct (bindings c !! resolve_alias_loop (aliases c) 10 a); reflexivity.
Qed.

(** The two caches after a resolution and after [forgetInstance].  When
    [make] resolves an abstract through an explicit binding of Singleton
    scope (no cache hit, no compiled factory taking
    over, no contextual binding), it returns the resolved value and leaves
    it in the instance cache under the alias-resolved key, so that
    [resolved()] answers true; the fast lookup table reports the same
    value under that key when its insert accepted the entry, and is left
    unchanged when it refused.  A [forgetInstance] of the abstract then
    removes the key from the instance cache, a [resolved()] query answers
    false, and the fast lookup table no longer reports the key, which it
    held in at most one slot. *)
Theorem singleton_cached_then_forgotten n w a p r ctx b v w2 :
  let k := sf_resolve_alias (cont w) a in
  let w1 := on_container (set_context ctx)
              (on_container (set_cache_loaded true) w) in
  let w' := pop_context (on_container (cache_singleton k v) w2) in
  let forgotten := sf_container_forget_instance (cont w') a in
  sf_fast_lookup_find (fast_cache (cont w)) k = None ->
  instances (cont w) !! k = None ->
  compiled_factory_for (cont w) k r = None ->
  sf_resolution_context_push (context (cont w)) k = (SUCCESS, ctx) ->
  applicable_contextual_binding (cont w) r k = None ->
  bindings (cont w) !! k = Some b ->
  scope b = SF_SCOPE_SINGLETON ->
  sf_resolve_concrete (sf_container_make n) w1 k (concrete b) p r
  = Some (SUCCESS, v, w2) ->
  sf_container_make (S n) w a p r = Some (SUCCESS, v, w')
  /\ instances (cont w') !! k = Some v
  /\ sf_container_resolved (cont w') a = true
  /\ (forall t,
        sf_fast_lookup_insert (fast_cache (cont w2)) k v = (SUCCESS, t) ->
        (1 <= num_groups (fast_cache (cont w2)))%nat ->
        sf_fast_lookup_find (fast_cache (cont w')) k = Some v)
  /\ (forall t,
        sf_fast_lookup_insert (fast_cache (cont w2)) k v = (FAILURE, t) ->
        fast_cache (cont w') = fast_cache (cont w2))
  /\ instances forgotten !! k = None
  /\ sf_container_resolved forgotten a = false
  /\ ((1 <= num_groups (fast_cache (cont w')))%nat ->
      (occupancy (fast_cache (cont w')) k <= 1)%nat ->
      sf_fast_lookup_find (fast_cache forgotten) k = None).
Proof.
  intros k w1 w' forgotten Hf Hi Hc Hp Hcb Hb Hs Hres.
  assert (aliases (cont w') = aliases (cont w)) as Hal.
  { pose proof (resolve_concrete_stable _ (proj1 (engine_stable n))
                  _ _ _ _ _ _ _ _ Hres) as (_ & _ & _ & Ha & _).
    exact Ha. }
  assert (sf_resolve_alias (cont w') a = k) as Hk
    by (unfold sf_resolve_alias; rewrite Hal; reflexivity).
  assert (instances (cont w') !! k = Some v) as Hinst
    by (subst w'; cbn; apply lookup_insert_eq).
  split; [|split; [|split; [|split; [|split]]]].
  - rewrite (make_bound n w a p r ctx b Hf Hi Hc Hp Hcb Hb)
      by (left; congruence).
    fold k w1. rewrite Hres, Hs. reflexivity.
  - exact Hinst.
  - unfold sf_container_resolved. cbv zeta. rewrite Hk, Hinst. reflexivity.
  - intros t Hins Hn.
    change (fast_cache (cont w'))
      with (snd (sf_fast_lookup_insert (fast_cache (cont w2)) k v)).
    rewrite Hins. cbn [snd]. eapply find_after_insert; eassumption.
  - intros t Hins.
    change (fast_cache (cont w'))
      with (snd (sf_fast_lookup_insert (fast_cache (cont w2)) k v)).
    rewrite Hins. cbn [snd]. eapply insert_failure_unchanged. exact Hins.
  - pose proof (forget_instance_effect (cont w') a) as Hforget.
    cbv zeta in Hforget. rewrite Hk in Hforget.
    destruct Hforget as (Hgone & Hfast & Hunres).
    split; [exact Hgone|]. split; [exact Hunres|].
    intros Hn Hocc. subst forgotten. rewrite Hfast.
    apply find_after_remove; assumption.
Qed.

End SingletonCaches.

Section SingletonMissing.
Context `{Zend}.

(** C7.  In a container whose fast lookup table holds no entry (as
    [sf_container_create] makes it), a [make] that resolves an abstract
    through its binding of Singleton scope returns the value and stores it
    in the instance cache under the alias-resolved key, so that
    [resolved()] answers true, but the fast lookup table is left as it was
    and reports no hit for the key: the two caches do not both report the
    singleton. *)
Theorem singleton_missing_from_fast_lookup n w a p r ctx b v w2 :
  let k := sf_resolve_alias (cont w) a in
  let w1 := on_container (set_context ctx)
              (on_container (set_cache_loaded true) w) in
  let w' := pop_context (on_container (cache_singleton k v) w2) in
  pristine (fast_cache (cont w)) ->
  instances (cont w) !! k = None ->
  compiled_factory_for (cont w) k r = None ->
  sf_resolution_context_push (context (cont w)) k = (SUCCESS, ctx) ->
  applicable_contextual_binding (cont w) r k = None ->
  bindings (cont w) !! k = Some b ->
  scope b = SF_SCOPE_SINGLETON ->
  sf_resolve_concrete (sf_container_make n) w1 k (concrete b) p r
  = Some (SUCCESS, v, w2) ->
  sf_container_make (S n) w a p r = Some (SUCCESS, v, w')
  /\ instances (cont w') !! k = Some v
  /\ sf_container_resolved (cont w') a = true
  /\ sf_fast_lookup_insert (fast_cache (cont w2)) k v
     = (FAILURE, fast_cache (cont w2))
  /\ fast_cache (cont w') = fast_cache (cont w)
  /\ sf_fast_lookup_find (fast_cache (cont w')) k = None.
Proof.
  intros k w1 w' Hpr Hi Hc Hp Hcb Hb Hs Hres.
  pose proof (resolve_concrete_stable _ (proj1 (engine_stable n))
                _ _ _ _ _ _ _ _ Hres) as (_ & _ & _ & Hal & _ & _ & Hfc).
  assert (fast_cache (cont w2) = fast_cache (cont w)) as Hfc2
    by (apply Hfc; exact Hpr).
  assert (pristine (fast_cache (cont w2))) as Hpr2
    by (rewrite Hfc2; exact Hpr).
  assert (sf_resolve_alias (cont w') a = k) as Hk
    by (unfold sf_resolve_alias;
        change (aliases (cont w')) with (aliases (cont w2));
        rewrite Hal; reflexivity).
  assert (instances (cont w') !! k = Some v) as Hinst
    by (subst w'; cbn; apply lookup_insert_eq).
  assert (fast_cache (cont w') = fast_cache (cont w)) as Hsame.
  { change (fast_cache (cont w'))
      with (snd (sf_fast_lookup_insert (fast_cache (cont w2)) k v)).
    rewrite insert_pristine by exact Hpr2. exact Hfc2. }
  split; [|split; [|split; [|split; [|split]]]].
  - rewrite (make_bound n w a p r ctx b (find_pristine _ _ Hpr)
               Hi Hc Hp Hcb Hb)
      by (left; congruence).
    fold k w1. rewrite Hres, Hs. reflexivity.
  - exact Hinst.
  - unfold sf_container_resolved. cbv zeta. rewrite Hk, Hinst. reflexivity.
  - apply insert_pristine. exact Hpr2.
  - exact Hsame.
  - rewrite Hsame. apply find_pristine. exact Hpr.
Qed.

End SingletonMissing.

Lemma singleton_missing_from_fast_lookup_witness :
  exists w',
    sf_container_make (H := host64) 3
      {| cont := logger_singleton; EG_exception := None |} "Logger" None None
    = Some (SUCCESS, IS_OBJECT "Logger" [], w')
    /\ instances (cont w') !! "Logger" = Some (IS_OBJECT "Logger" [])
    /\ sf_container_resolved (cont w') "Logger" = true
    /\ sf_fast_lookup_find (H := host64) (fast_cache (cont w')) "Logger"
       = None.
Proof.
  pose (w := {| cont := logger_singleton; EG_exception := None |}).
  pose (ctx := snd (sf_resolution_context_push (H := host64)
                      (context (cont w)) "Logger")).
  assert (sf_resolution_context_push (H := host64) (context (cont w))
            "Logger" = (SUCCESS, ctx)) as Hp by (vm_compute; reflexivity).
  pose (b := sf_binding_create "Logger" (IS_STRING "Logger")
                               SF_SCOPE_SINGLETON).
  assert (exists w2,
            sf_resolve_concrete (H := host64)
              (sf_container_make (H := host64) 2)
              (on_container (set_context ctx)
                 (on_container (set_cache_loaded true) w))
              "Logger" (concrete b) None None
            = Some (SUCCESS, IS_OBJECT "Logger" [], w2)) as [w2 Hw2]
    by (eexists; vm_compute; reflexivity).
  pose proof (singleton_missing_from_fast_lookup (H := host64) 2 w "Logger"
                None None ctx b (IS_OBJECT "Logger" []) w2) as HT.
  cbv zeta in HT.
  assert (sf_resolve_alias (cont w) "Logger" = "Logger") as Hk
    by (vm_compute; reflexivity).
  rewrite Hk in HT.
  specialize (HT (pristine_create 4)
                 ltac:(vm_compute; reflexivity)
                 ltac:(vm_compute; reflexivity)
                 Hp
                 ltac:(vm_compute; reflexivity)
                 ltac:(vm_compute; reflexivity)
                 eq_refl Hw2).
  destruct HT as (Hm & Hi & Hr & _ & _ & Hf).
  eexists. split; [exact Hm|]. split; [exact Hi|]. split; [exact Hr|].
  exact Hf.
Defined.

(** A singleton resolved through its compiled factory is cached under the
    class name only: neither cache reports the abstract, and [resolved()]
    answers false. *)
Lemma compiled_singleton_cached_under_class_name :
  exists w',
    sf_container_make (H := host64) 3 compiled_log_world "log" None None
    = Some (SUCCESS, IS_OBJECT "Logger" [], w')
    /\ instances (cont w') !! "log" = None
    /\ instances (cont w') !! "Logger" = Some (IS_OBJECT "Logger" [])
    /\ sf_fast_lookup_find (H := host64) (fast_cache (cont w')) "log" = None
    /\ sf_container_resolved (cont w') "log" = false.
Proof.
  eexists. split; [vm_compute; reflexivity|].
  repeat split; vm_compute; reflexivity.
Qed.

(** ** Compiled factories and autowiring *)

(** The templates for one and two dependencies are the generic loop
    unrolled; the template without dependencies tests only the pending
    exception after the constructor call, the generic loop also the status
    of the call. *)
Section Strategies.
Context `{Zend}.
Variable make_rec :
  world -> string -> parameters_t -> option string -> outcome.
Variable factory_call_rec : sf_factory -> world -> parameters_t -> outcome.

Lemma template_1dep_as_loop f w d0 :
  dep_names f = [d0] ->
  factory_template_1dep make_rec factory_call_rec f w
  = factory_template_ndeps make_rec factory_call_rec f w.
Proof.
  intros Hd. unfold factory_template_1dep, factory_template_ndeps.
  rewrite Hd. cbn [resolve_deps_loop app].
  destruct (sf_resolve_dep_fast make_rec factory_call_rec w d0)
    as [[[[] v] w1]|]; reflexivity.
Qed.

Lemma template_2deps_as_loop f w d0 d1 :
  dep_names f = [d0; d1] ->
  factory_template_2deps make_rec factory_call_rec f w
  = factory_template_ndeps make_rec factory_call_rec f w.
Proof.
  intros Hd. unfold factory_template_2deps, factory_template_ndeps.
  rewrite Hd. cbn [resolve_deps_loop app].
  destruct (sf_resolve_dep_fast make_rec factory_call_rec w d0)
    as [[[[] v] w1]|]; try reflexivity.
  destruct (sf_resolve_dep_fast make_rec factory_call_rec w1 d1)
    as [[[[] v'] w2]|]; reflexivity.
Qed.

Lemma template_0deps_as_loop f w :
  dep_names f = [] ->
  zend_call_function (CallConstructor (f_ce f)) [] <> CallFailed ->
  factory_template_0deps f w
  = factory_template_ndeps make_rec factory_call_rec f w.
Proof.
  intros Hd Hcall. unfold factory_template_0deps, factory_template_ndeps.
  rewrite Hd. cbn [resolve_deps_loop]. unfold construct_with.
  destruct (object_init_ex (f_ce f)); [|reflexivity].
  destruct (has_constructor f); [|reflexivity].
  cbv zeta.
  destruct (zend_call_function (CallConstructor (f_ce f)) []) eqn:Ho;
    try reflexivity.
  congruence.
Qed.

Lemma template_0deps_ignores_failed_call f w :
  dep_names f = [] ->
  object_init_ex (f_ce f) = SUCCESS ->
  has_constructor f = true ->
  zend_call_function (CallConstructor (f_ce f)) [] = CallFailed ->
  exception_pending w = false ->
  factory_template_0deps f w
  = Some (SUCCESS, IS_OBJECT (ce_name (f_ce f)) [],
          cache_if_singleton f (IS_OBJECT (ce_name (f_ce f)) []) w)
  /\ factory_template_ndeps make_rec factory_call_rec f w
     = Some (FAILURE, IS_UNDEF, w).
Proof.
  intros Hd Hi Hc Ho He.
  unfold factory_template_0deps, factory_template_ndeps.
  rewrite Hd. cbn [resolve_deps_loop]. unfold construct_with.
  rewrite Hi, Hc. cbv zeta. rewrite Ho. cbn [after_call]. rewrite He.
  split; reflexivity.
Qed.

End Strategies.

Lemma count_deps_names ps k :
  count_deps ps = Some k ->
  length (omap type_hint (take k ps)) = k.
Proof.
  revert k. induction ps as [|p rest IH]; intros k Hk; cbn in Hk.
  - injection Hk as <-. reflexivity.
  - destruct (type_hint p) as [hint|] eqn:Hh.
    + destruct (count_deps rest) as [k'|]; [|discriminate].
      injection Hk as <-. cbn. rewrite Hh. cbn. f_equal. apply IH.
      reflexivity.
    + destruct (has_default p); [|discriminate].
      injection Hk as <-. reflexivity.
Qed.

Lemma resolve_alias_loop_empty n a :
  resolve_alias_loop ∅ n a = a.
Proof. destruct n; cbn; rewrite lookup_empty; reflexivity. Qed.

Section Compiled.
Context `{Zend}.

Lemma make_frame_ignores_requester mk fc w a p r :
  size (contextual_bindings (cont w)) = 0%nat ->
  compilation_enabled (cont w) = false ->
  sf_container_make_frame mk fc w a p (Some r)
  = sf_container_make_frame mk fc w a p None.
Proof.
  intros Hs He. unfold sf_container_make_frame. cbv zeta.
  destruct (sf_fast_lookup_find _ _); [reflexivity|].
  destruct (instances _ !! _); [reflexivity|].
  unfold compiled_factory_for.
  change (compilation_enabled (cont (on_container (set_cache_loaded true) w)))
    with (compilation_enabled (cont w)).
  rewrite He.
  destruct (sf_resolution_context_push _ _) as [[] ctx]; [|reflexivity].
  unfold applicable_contextual_binding.
  change (contextual_bindings
            (cont (on_container (set_context ctx)
                     (on_container (set_cache_loaded true) w))))
    with (contextual_bindings (cont w)).
  rewrite Hs. reflexivity.
Qed.

End Compiled.


(** ** The simulation of compiled factories by autowiring *)

Lemma same_bindings_refl m : same_bindings m m.
Proof.
  intros k. destruct (m !! k); constructor. auto.
Qed.

Lemma same_bindings_trans m1 m2 m3 :
  same_bindings m1 m2 -> same_bindings m2 m3 -> same_bindings m1 m3.
Proof.
  intros H1 H2 k. specialize (H1 k). specialize (H2 k).
  destruct H1 as [b1 b2 (A1 & A2 & A3)|]; inversion H2 as [b2' b3 (B1 & B2 & B3)|];
    subst; constructor.
  repeat split; congruence.
Qed.

Lemma same_bindings_sym m1 m2 : same_bindings m1 m2 -> same_bindings m2 m1.
Proof.
  intros H1 k. specialize (H1 k).
  destruct H1 as [b1 b2 (A1 & A2 & A3)|]; constructor. auto.
Qed.

Lemma same_bindings_alter m k :
  same_bindings m (alter (set_resolved true) k m).
Proof.
  intros k'. destruct (decide (k' = k)) as [->|Hne].
  - rewrite lookup_alter_eq. destruct (m !! k); constructor. auto.
  - rewrite lookup_alter_ne by congruence.
    destruct (m !! k'); constructor. auto.
Qed.

Lemma same_bindings_name_class c c' k :
  same_bindings (bindings c) (bindings c') ->
  name_class c' k = name_class c k.
Proof.
  intros Hs. specialize (Hs k). unfold name_class.
  destruct Hs as [b b' (A1 & A2 & A3)|]; [|reflexivity].
  unfold eligible_class, singleton_scope. rewrite A1, A2. reflexivity.
Qed.

Section Metadata.
Context `{Zend}.

Lemma metadata_for_put c cls0 ce0 cls ce :
  zend_lookup_class cls0 = Some ce0 ->
  zend_lookup_class cls = Some ce ->
  metadata_for
    (set_reflection_cache
       (sf_cache_put cls0 (sf_cache_build cls0 ce0) (reflection_cache c)) c)
    cls ce
  = metadata_for c cls ce.
Proof.
  intros H0 H1. unfold metadata_for, sf_cache_get, sf_cache_put.
  cbn [reflection_cache set_reflection_cache].
  destruct (reflection_cache c !! cls0) eqn:Hc; [reflexivity|].
  destruct (decide (cls = cls0)) as [->|Hne].
  - rewrite lookup_insert_eq, Hc. cbn. congruence.
  - rewrite lookup_insert_ne by congruence. reflexivity.
Qed.

Lemma fetch_metadata_for cls ce w meta w1 :
  zend_lookup_class cls = Some ce ->
  fetch_metadata cls ce w = (meta, w1) ->
  meta = metadata_for (cont w) cls ce
  /\ (w1 = w
      \/ w1 = on_container
                (fun c => set_reflection_cache
                            (sf_cache_put cls (sf_cache_build cls ce)
                                          (reflection_cache c)) c) w).
Proof.
  intros Hce. unfold fetch_metadata, metadata_for.
  destruct (sf_cache_get cls (reflection_cache (cont w))) as [m|];
    intros Hf; injection Hf as <- <-; auto.
Qed.

End Metadata.

Lemma jit_compile_fields `{Zend} cn meta ce c :
  bindings (jit_compile cn meta ce c) = bindings c
  /\ instances (jit_compile cn meta ce c) = instances c
  /\ fast_cache (jit_compile cn meta ce c) = fast_cache c
  /\ reflection_cache (jit_compile cn meta ce c) = reflection_cache c
  /\ contextual_bindings (jit_compile cn meta ce c) = contextual_bindings c
  /\ aliases (jit_compile cn meta ce c) = aliases c
  /\ context (jit_compile cn meta ce c) = context c.
Proof.
  unfold jit_compile.
  destruct (compilation_enabled c); [|repeat split].
  destruct (compiled_factories c !! cn); [repeat split|].
  destruct (sf_compiler_compile_class meta ce false); repeat split.
Qed.

Lemma jit_compile_factories `{Zend} cn meta ce c :
  compiled_factories (jit_compile cn meta ce c) = compiled_factories c
  \/ (exists g,
        compiled_factories c !! cn = None
        /\ sf_compiler_compile_class meta ce false = Some g
        /\ compiled_factories (jit_compile cn meta ce c)
           = <[cn := g]> (compiled_factories c)).
Proof.
  unfold jit_compile.
  destruct (compilation_enabled c); [|left; reflexivity].
  destruct (compiled_factories c !! cn) eqn:Hc; [left; reflexivity|].
  destruct (sf_compiler_compile_class meta ce false) as [g|] eqn:Hg;
    [|left; reflexivity].
  right. exists g. auto.
Qed.

Lemma compile_class_flag meta ce sgl g :
  sf_compiler_compile_class meta ce sgl = Some g -> is_singleton g = sgl.
Proof.
  unfold sf_compiler_compile_class.
  destruct (negb (sf_compiler_can_compile meta)); [discriminate|].
  destruct (count_deps (params meta)); [|discriminate].
  intros Hg. injection Hg as <-. reflexivity.
Qed.

Section Rel.
Context `{Zend}.
Variable rk : string -> nat.
Variable top : nat.

Lemma coherent_transfer w w' :
  coherent rk top w ->
  same_bindings (bindings (cont w)) (bindings (cont w')) ->
  (forall cls ce, zend_lookup_class cls = Some ce ->
                  metadata_for (cont w') cls ce = metadata_for (cont w) cls ce) ->
  compiled_factories (cont w') = compiled_factories (cont w) ->
  contextual_bindings (cont w') = contextual_bindings (cont w) ->
  aliases (cont w') = aliases (cont w) ->
  fast_cache (cont w') = fast_cache (cont w) ->
  coherent rk top w'.
Proof.
  intros (C1 & C2 & C3 & C4 & C5 & C6 & C7) Hb Hm Hf Hx Ha Hfc.
  unfold coherent. rewrite Hx, Ha, Hfc.
  split; [assumption|]. split; [assumption|]. split; [assumption|].
  assert (forall k b' cls,
             bindings (cont w') !! k = Some b' -> concrete b' = IS_STRING cls ->
             exists b, bindings (cont w) !! k = Some b
                       /\ concrete b = IS_STRING cls) as Hback.
  { intros k b' cls Hk Hc. specialize (Hb k). rewrite Hk in Hb.
    inversion Hb as [b b2 (A1 & A2 & A3) Hl|]; subst.
    exists b. split; [reflexivity|congruence]. }
  assert (forall cls, safe_to_compile (cont w) cls ->
                      safe_to_compile (cont w') cls) as Hsafe.
  { intros cls [Hs|[Hs|Hs]].
    - left. rewrite Hf. exact Hs.
    - right. left. rewrite (same_bindings_name_class _ _ _ Hb). exact Hs.
    - right. right. intros ce Hce. rewrite (Hm _ _ Hce). auto. }
  split; [|split].
  - intros k g Hk Hfn. rewrite Hf in Hk.
    destruct (C4 k g Hk Hfn) as (cls & ce & R1 & R2 & R3 & R4 & R5).
    exists cls, ce. rewrite (same_bindings_name_class _ _ _ Hb).
    rewrite (Hm _ _ R3). auto.
  - intros k b' cls Hk Hc.
    destruct (Hback _ _ _ Hk Hc) as (b & Hk0 & Hc0).
    apply Hsafe. exact (C5 _ _ _ Hk0 Hc0).
  - split.
    + intros k b' cls Hk Hc Ht.
      destruct (Hback _ _ _ Hk Hc) as (b & Hk0 & Hc0).
      exact (C6 _ _ _ Hk0 Hc0 Ht).
    + intros cls ce p hint Hce Hin Hh Ht. rewrite (Hm _ _ Hce) in Hin.
      exact (C7 _ _ _ _ Hce Hin Hh Ht).
Qed.

Lemma coherent_jit w cls ce :
  coherent rk top w ->
  zend_lookup_class cls = Some ce ->
  ce_not_instantiable ce = false ->
  safe_to_compile (cont w) cls ->
  coherent rk top (on_container
                 (jit_compile cls (metadata_for (cont w) cls ce) ce) w).
Proof.
  intros Hc Hce Hinst Hsafe.
  pose proof (eq_refl : metadata_for (cont w) cls ce
                        = metadata_for (cont w) cls ce) as Hmeta.
  revert Hmeta. generalize (metadata_for (cont w) cls ce) at 1 3.
  intros meta Hmeta.
  destruct (jit_compile_fields cls meta ce (cont w))
    as (J1 & J2 & J3 & J4 & J5 & J6 & J7).
  destruct (jit_compile_factories cls meta ce
              (cont w)) as [Hsame|(g & Hnone & Hg & Hnew)].
  - apply (coherent_transfer w); cbn [on_container cont]; try assumption.
    + rewrite J1. apply same_bindings_refl.
    + intros cls' ce' _. unfold metadata_for. rewrite J4. reflexivity.
  - destruct Hc as (C1 & C2 & C3 & C4 & C5 & C6 & C7).
    unfold coherent. cbn [on_container cont]. rewrite J5, J6, J3.
    split; [assumption|]. split; [assumption|]. split; [assumption|].
    assert (forall k, name_class (jit_compile cls meta ce (cont w)) k
                      = name_class (cont w) k) as Hnc.
    { intros k. unfold name_class. rewrite J1. reflexivity. }
    assert (forall cls' ce',
               metadata_for (jit_compile cls meta ce (cont w)) cls' ce'
               = metadata_for (cont w) cls' ce') as Hmf.
    { intros cls' ce'. unfold metadata_for. rewrite J4. reflexivity. }
    split; [|split].
    + intros k g0 Hk Hfn. rewrite Hnew in Hk.
      destruct (decide (k = cls)) as [->|Hne].
      * rewrite lookup_insert_eq in Hk. injection Hk as <-.
        pose proof (compile_class_flag _ _ _ _ Hg) as Hflag.
        exists cls, ce. rewrite Hnc, Hmf, Hflag.
        split.
        { destruct Hsafe as [[g' Hs]|[Hs|Hs]].
          - congruence.
          - exact Hs.
          - rewrite Hmeta, (Hs ce Hce) in Hg. discriminate. }
        rewrite <- Hmeta.
        split; [discriminate|]. auto.
      * rewrite lookup_insert_ne in Hk by congruence.
        destruct (C4 k g0 Hk Hfn) as (cls' & ce' & R1 & R2 & R3 & R4 & R5).
        exists cls', ce'. rewrite Hnc, Hmf. auto.
    + intros k b cls' Hk Hcc. rewrite J1 in Hk.
      destruct (C5 _ _ _ Hk Hcc) as [Hs|[Hs|Hs]].
      * left. rewrite Hnew.
        destruct (decide (cls' = cls)) as [->|Hne].
        { rewrite lookup_insert_eq. eauto. }
        { rewrite lookup_insert_ne by congruence. exact Hs. }
      * right. left. rewrite Hnc. exact Hs.
      * right. right. intros ce' Hce'. rewrite Hmf. auto.
    + split.
      * intros k b cls' Hk Hcc Ht. rewrite J1 in Hk. eauto.
      * intros cls' ce' p hint Hce' Hin Hh Ht. rewrite Hmf in Hin. eauto.
Qed.

End Rel.

(** *** What the engine keeps of the registrations *)

Lemma keeps_refl `{Zend} w : keeps w w.
Proof. split; [apply same_bindings_refl|reflexivity]. Qed.

Lemma keeps_trans `{Zend} w1 w2 w3 : keeps w1 w2 -> keeps w2 w3 -> keeps w1 w3.
Proof.
  intros [A1 A2] [B1 B2]. split.
  - eapply same_bindings_trans; eassumption.
  - intros cls ce Hce. rewrite (B2 _ _ Hce). auto.
Qed.

Lemma keeps_throw `{Zend} w w' ce m : keeps w w' -> keeps w (throw ce m w').
Proof. intros Hk. exact Hk. Qed.

Lemma keeps_after_call `{Zend} w w' o : keeps w w' -> keeps w (after_call o w').
Proof. intros Hk. destruct o; exact Hk. Qed.

Lemma keeps_jit `{Zend} w w' cn meta ce :
  keeps w w' -> keeps w (on_container (jit_compile cn meta ce) w').
Proof.
  intros [A1 A2].
  destruct (jit_compile_fields cn meta ce (cont w'))
    as (J1 & J2 & J3 & J4 & J5 & J6 & J7).
  split; cbn [on_container cont].
  - rewrite J1. exact A1.
  - intros cls ce' Hce. unfold metadata_for. rewrite J4. apply (A2 _ _ Hce).
Qed.

Lemma keeps_cache_if_singleton `{Zend} w w' f v :
  keeps w w' -> keeps w (cache_if_singleton f v w').
Proof.
  intros Hk. unfold cache_if_singleton. destruct (is_singleton f); exact Hk.
Qed.

Lemma keeps_cache_loaded `{Zend} w :
  keeps w (on_container (set_cache_loaded true) w).
Proof. exact (keeps_refl w). Qed.

Lemma keeps_context `{Zend} w w' ctx :
  keeps w w' -> keeps w (on_container (set_context ctx) w').
Proof. intros Hk. exact Hk. Qed.

Lemma keeps_pop `{Zend} w w' : keeps w w' -> keeps w (pop_context w').
Proof. intros Hk. exact Hk. Qed.

Lemma keeps_cache_singleton `{Zend} w w' k v :
  keeps w w' -> keeps w (on_container (cache_singleton k v) w').
Proof.
  intros [A1 A2]. split.
  - eapply same_bindings_trans; [exact A1|].
    apply same_bindings_alter.
  - exact A2.
Qed.

Lemma keeps_fetch_metadata `{Zend} cn ce w meta w1 :
  zend_lookup_class cn = Some ce ->
  fetch_metadata cn ce w = (meta, w1) -> keeps w w1.
Proof.
  intros Hce Hf.
  destruct (fetch_metadata_for _ _ _ _ _ Hce Hf) as [_ [->| ->]].
  - apply keeps_refl.
  - split; [apply same_bindings_refl|].
    intros cls ce' Hce'. cbn [on_container cont].
    apply metadata_for_put; assumption.
Qed.

Create HintDb keeps.

#[local] Hint Resolve keeps_refl keeps_throw keeps_after_call keeps_jit
  keeps_cache_if_singleton keeps_cache_loaded keeps_context keeps_pop
  keeps_cache_singleton : keeps.

Section Keeps.
Context `{Zend}.
Variable mk : world -> string -> parameters_t -> option string -> outcome.
Variable fc : sf_factory -> world -> parameters_t -> outcome.
Hypothesis mk_keeps :
  forall w a p r s v w', mk w a p r = Some (s, v, w') -> keeps w w'.
Hypothesis fc_keeps :
  forall f w p s v w', fc f w p = Some (s, v, w') -> keeps w w'.

Lemma build_args_loop_keeps class parameters requester ps :
  forall built w res w',
    build_args_loop mk class parameters requester ps built w = Some (res, w')
    -> keeps w w'.
Proof.
  induction ps as [|p0 rest IH]; intros built w res w' Hrun;
    cbn [build_args_loop] in Hrun.
  - invert Hrun. auto with keeps.
  - repeat break_match Hrun; try discriminate; try (invert Hrun);
      eauto using keeps_trans with keeps.
Qed.

Lemma autowire_construct_keeps cn meta ce args w s v w' :
  autowire_construct cn meta ce args w = Some (s, v, w') -> keeps w w'.
Proof.
  unfold autowire_construct. intros Hrun.
  destruct (object_init_ex ce); [|invert Hrun; auto with keeps].
  destruct (constructor ce); [|invert Hrun; auto with keeps].
  destruct (zend_call_function (CallConstructor ce) args) eqn:Ho;
    invert Hrun; auto with keeps.
Qed.

Lemma autowire_keeps cn parameters w s v w' :
  sf_autowire_resolve mk cn parameters w = Some (s, v, w') -> keeps w w'.
Proof.
  unfold sf_autowire_resolve, sf_autowire_build_args_direct. intros Hrun.
  destruct (zend_lookup_class cn) as [ce|] eqn:Hce;
    [|invert Hrun; auto with keeps].
  destruct (ce_not_instantiable ce); [invert Hrun; auto with keeps|].
  destruct (fetch_metadata cn ce w) as [meta w1] eqn:Hm.
  apply (keeps_fetch_metadata _ _ _ _ _ Hce) in Hm.
  destruct (negb (is_instantiable meta));
    [invert Hrun; eauto using keeps_trans with keeps|].
  destruct (build_args_loop mk (class_name meta) parameters cn (params meta)
              [] w1) as [[[args|] w2]|] eqn:Hb; try discriminate;
    apply build_args_loop_keeps in Hb.
  - apply autowire_construct_keeps in Hrun.
    eauto using keeps_trans.
  - invert Hrun. eauto using keeps_trans.
Qed.

Lemma resolve_dep_fast_keeps w d s v w' :
  sf_resolve_dep_fast mk fc w d = Some (s, v, w') -> keeps w w'.
Proof.
  unfold sf_resolve_dep_fast. intros Hrun.
  repeat break_match Hrun; try discriminate; try (invert Hrun);
    eauto with keeps.
Qed.

Lemma construct_with_keeps f deps w s v w' :
  construct_with f deps w = Some (s, v, w') -> keeps w w'.
Proof.
  unfold construct_with. intros Hrun.
  repeat break_match Hrun; try discriminate; invert Hrun; auto with keeps.
Qed.

Lemma resolve_deps_loop_keeps names :
  forall deps w res w',
    resolve_deps_loop mk fc names deps w = Some (res, w') -> keeps w w'.
Proof.
  induction names as [|d rest IH]; intros deps w res w' Hrun;
    cbn [resolve_deps_loop] in Hrun.
  - invert Hrun. auto with keeps.
  - repeat break_match Hrun; try discriminate; try (invert Hrun);
      repeat match goal with
             | Hd : sf_resolve_dep_fast _ _ _ _ = Some _ |- _ =>
                 apply resolve_dep_fast_keeps in Hd
             end;
      eauto using keeps_trans with keeps.
Qed.

Lemma factory_call_frame_keeps f w p s v w' :
  sf_factory_call_frame mk fc f w p = Some (s, v, w') -> keeps w w'.
Proof.
  unfold sf_factory_call_frame, factory_template_0deps,
    factory_template_1dep, factory_template_2deps, factory_template_ndeps.
  intros Hrun.
  repeat break_match Hrun; try discriminate; try (invert Hrun);
    repeat match goal with
           | Hd : sf_resolve_dep_fast _ _ _ _ = Some _ |- _ =>
               apply resolve_dep_fast_keeps in Hd
           | Hd : resolve_deps_loop _ _ _ _ _ = Some _ |- _ =>
               apply resolve_deps_loop_keeps in Hd
           | Hd : construct_with _ _ _ = Some _ |- _ =>
               apply construct_with_keeps in Hd
           end;
    eauto using keeps_trans with keeps.
Qed.

Lemma resolve_concrete_keeps w a concrete p r s v w' :
  sf_resolve_concrete mk w a concrete p r = Some (s, v, w') -> keeps w w'.
Proof.
  unfold sf_resolve_concrete. intros Hrun.
  destruct concrete; try (invert Hrun; auto with keeps; fail).
  - eapply autowire_keeps. exact Hrun.
  - repeat break_match Hrun; try discriminate; invert Hrun; auto with keeps.
Qed.

Lemma make_frame_keeps w a p r s v w' :
  sf_container_make_frame mk fc w a p r = Some (s, v, w') -> keeps w w'.
Proof.
  unfold sf_container_make_frame. cbv zeta. intros Hrun.
  set (w0 := on_container (set_cache_loaded true) w) in *.
  assert (keeps w w0) as H0 by apply keeps_cache_loaded.
  eapply keeps_trans; [exact H0|]. clear H0.
  generalize dependent w0. intros w0 Hrun.
  unfold pop_and_return in Hrun.
  repeat break_match Hrun; try discriminate; try (invert Hrun);
    repeat match goal with
           | Hd : sf_resolve_concrete _ _ _ _ _ _ = Some _ |- _ =>
               apply resolve_concrete_keeps in Hd
           | Hd : sf_autowire_resolve _ _ _ _ = Some _ |- _ =>
               apply autowire_keeps in Hd
           end;
    eauto 6 with keeps.
Qed.

End Keeps.

Lemma engine_keeps `{Zend} n :
  (forall w a p r s v w',
      sf_container_make n w a p r = Some (s, v, w') -> keeps w w')
  /\ (forall f w p s v w',
        sf_factory_call n f w p = Some (s, v, w') -> keeps w w').
Proof.
  induction n as [|n [IHmk IHfc]].
  - split; intros; discriminate.
  - split.
    + intros w a p r s v w' Hrun. rewrite make_unfold in Hrun.
      eapply make_frame_keeps; eauto.
    + intros f w p s v w' Hrun. rewrite factory_call_unfold in Hrun.
      eapply factory_call_frame_keeps; eauto.
Qed.

(** *** The relation between the two runs, step by step *)

Lemma resolve_alias_none c a : aliases c = ∅ -> sf_resolve_alias c a = a.
Proof. unfold sf_resolve_alias. intros ->. apply resolve_alias_loop_empty. Qed.

Lemma above_mono rk b b' w : (b' <= b)%nat -> above rk b w -> above rk b' w.
Proof.
  intros Hle Ha. unfold above in *.
  eapply Forall_impl; [exact Ha|]. intros x Hx. cbn in Hx. lia.
Qed.

Lemma above_stable rk b w w' : stable w w' -> above rk b w -> above rk b w'.
Proof.
  intros (Hf & _). unfold above, stack, ctxf in *. rewrite Hf. auto.
Qed.

Section Steps.
Context `{Zend}.
Variable rk : string -> nat.
Variable top : nat.

Lemma push_fresh w d :
  above rk (S (rk d)) w ->
  exists ctx,
    sf_resolution_context_push (context (cont w)) d = (SUCCESS, ctx)
    /\ forall b, (b <= rk d)%nat ->
                 above rk b (on_container (set_context ctx) w).
Proof.
  intros Ha.
  destruct (sf_resolution_context_push (context (cont w)) d) as [[] ctx]
    eqn:Hp.
  - exists ctx. split; [reflexivity|]. intros b Hb.
    apply push_success in Hp. unfold above, stack in *.
    cbn [on_container cont set_context context]. rewrite Hp, map_app.
    apply Forall_app. split.
    + eapply Forall_impl; [exact Ha|]. intros x Hx. cbn in Hx. lia.
    + cbn. constructor; [exact Hb|constructor].
  - apply push_failure in Hp as [_ Hin]. exfalso.
    unfold above in Ha. rewrite Forall_forall in Ha.
    apply list_elem_of_In in Hin. specialize (Ha d Hin). lia.
Qed.

(** [make] in a state without aliases, contextual bindings or entries in
    the fast lookup table. *)
Lemma make_plain n w d p r :
  aliases (cont w) = ∅ ->
  pristine (fast_cache (cont w)) ->
  size (contextual_bindings (cont w)) = 0%nat ->
  sf_container_make (S n) w d p r
  = match instances (cont w) !! d with
    | Some cached =>
        Some (SUCCESS, cached, on_container (set_cache_loaded true) w)
    | None =>
    match compiled_factory_for (cont w) d r with
    | Some f => sf_factory_call n f (on_container (set_cache_loaded true) w) p
    | None =>
    match sf_resolution_context_push (context (cont w)) d with
    | (FAILURE, _) =>
        Some (FAILURE, IS_UNDEF,
              throw sf_circular_dependency_exception_ce
                    (circular_dependency_message (context (cont w)) d)
                    (on_container (set_cache_loaded true) w))
    | (SUCCESS, ctx) =>
        match bindings (cont w) !! d with
        | Some binding =>
            match scope binding, is_undef (instance binding) with
            | SF_SCOPE_INSTANCE, false =>
                Some (SUCCESS, instance binding,
                      pop_context
                        (on_container (set_context ctx)
                           (on_container (set_cache_loaded true) w)))
            | _, _ =>
                match sf_resolve_concrete (sf_container_make n)
                        (on_container (set_context ctx)
                           (on_container (set_cache_loaded true) w))
                        d (concrete binding) p r with
                | None => None
                | Some (FAILURE, v, w2) => Some (FAILURE, v, pop_context w2)
                | Some (SUCCESS, v, w2) =>
                    match scope binding with
                    | SF_SCOPE_SINGLETON =>
                        Some (SUCCESS, v,
                              pop_context
                                (on_container (cache_singleton d v) w2))
                    | _ => Some (SUCCESS, v, pop_context w2)
                    end
                end
            end
        | None =>
            pop_and_return
              (sf_autowire_resolve (sf_container_make n) d p
                 (on_container (set_context ctx)
                    (on_container (set_cache_loaded true) w)))
        end
    end end end.
Proof.
  intros Ha Hp Hs. rewrite make_unfold.
  unfold sf_container_make_frame. cbv zeta. norm_state.
  rewrite Ha, resolve_alias_loop_empty, (find_pristine _ _ Hp).
  destruct (instances (cont w) !! d); [reflexivity|].
  destruct (compilation_enabled (cont w)), r;
    try destruct (compiled_factories (cont w) !! d) as [f|];
    try destruct (factory_fn f);
    try reflexivity;
    destruct (sf_resolution_context_push (context (cont w)) d) as [[] ctx];
    try reflexivity; norm_state; rewrite ?Hs; reflexivity.
Qed.

Lemma rel_pending wF wA :
  rel rk top wF wA -> exception_pending wA = exception_pending wF.
Proof.
  intros (_ & _ & _ & _ & R5 & _). unfold exception_pending.
  rewrite R5. reflexivity.
Qed.

Lemma rel_coherent wF wA : rel rk top wF wA -> coherent rk top wF.
Proof. intros (_ & _ & _ & _ & _ & _ & _ & R8). exact R8. Qed.

Lemma rel_throw wF wA ce m :
  rel rk top wF wA -> rel rk top (throw ce m wF) (throw ce m wA).
Proof.
  intros (R1 & R2 & R3 & R4 & R5 & R6 & R7 & R8).
  unfold rel. cbn [throw cont EG_exception]. rewrite R5.
  repeat split; try assumption; apply R8.
Qed.

Lemma rel_after_call wF wA o :
  rel rk top wF wA -> rel rk top (after_call o wF) (after_call o wA).
Proof.
  intros Hr. destruct o; try exact Hr. apply rel_throw. exact Hr.
Qed.

Lemma rel_update wF wA wF' wA' :
  rel rk top wF wA ->
  keeps wF wF' -> keeps wA wA' ->
  compiled_factories (cont wF') = compiled_factories (cont wF) ->
  contextual_bindings (cont wF') = contextual_bindings (cont wF) ->
  contextual_bindings (cont wA') = contextual_bindings (cont wA) ->
  aliases (cont wF') = aliases (cont wF) ->
  aliases (cont wA') = aliases (cont wA) ->
  fast_cache (cont wF') = fast_cache (cont wF) ->
  fast_cache (cont wA') = fast_cache (cont wA) ->
  instances (cont wF') = instances (cont wA') ->
  EG_exception wF' = EG_exception wA' ->
  rel rk top wF' wA'.
Proof.
  intros (R1 & R2 & R3 & R4 & R5 & R6 & R7 & R8) [KF1 KF2] [KA1 KA2]
         Hcf HxF HxA HaF HaA HfF HfA Hi He.
  unfold rel. rewrite HxA, HaA, HfF, HfA.
  split.
  { eapply same_bindings_trans; [apply same_bindings_sym; exact KF1|].
    eapply same_bindings_trans; [exact R1|exact KA1]. }
  split; [exact Hi|]. split; [exact R3|].
  split. { intros cls ce Hce. rewrite (KF2 _ _ Hce), (KA2 _ _ Hce). auto. }
  split; [exact He|]. split; [exact R6|]. split; [exact R7|].
  apply (coherent_transfer rk top wF); assumption.
Qed.

Lemma rel_fetch_r cls ce wF wA meta wA1 :
  rel rk top wF wA ->
  zend_lookup_class cls = Some ce ->
  fetch_metadata cls ce wA = (meta, wA1) ->
  meta = metadata_for (cont wF) cls ce /\ rel rk top wF wA1 /\ stable wA wA1.
Proof.
  intros Hr Hce Hf.
  pose proof (keeps_fetch_metadata _ _ _ _ _ Hce Hf) as Hk.
  pose proof (fetch_metadata_stable _ _ _ _ _ Hf) as Hs.
  destruct (fetch_metadata_for _ _ _ _ _ Hce Hf) as [Hm Hw].
  split.
  { rewrite Hm. symmetry. destruct Hr as (_ & _ & _ & R4 & _). auto. }
  split; [|exact Hs].
  apply (rel_update wF wA); try reflexivity; try assumption.
  - apply keeps_refl.
  - destruct Hw as [-> | ->]; reflexivity.
  - destruct Hw as [-> | ->]; reflexivity.
  - destruct Hw as [-> | ->]; reflexivity.
  - destruct Hw as [-> | ->]; [apply Hr|]. cbn. apply Hr.
  - destruct Hw as [-> | ->]; apply Hr.
Qed.

Lemma rel_fetch cls ce wF wA meta wF1 :
  rel rk top wF wA ->
  zend_lookup_class cls = Some ce ->
  fetch_metadata cls ce wF = (meta, wF1) ->
  exists wA1,
    fetch_metadata cls ce wA = (meta, wA1)
    /\ meta = metadata_for (cont wF) cls ce
    /\ rel rk top wF1 wA1 /\ keeps wF wF1 /\ stable wF wF1 /\ stable wA wA1.
Proof.
  intros Hr Hce Hf.
  destruct (fetch_metadata cls ce wA) as [metaA wA1] eqn:HfA.
  destruct (rel_fetch_r _ _ _ _ _ _ Hr Hce HfA) as (Hm & Hr1 & HsA).
  pose proof (keeps_fetch_metadata _ _ _ _ _ Hce Hf) as Hk.
  pose proof (fetch_metadata_stable _ _ _ _ _ Hf) as Hs.
  destruct (fetch_metadata_for _ _ _ _ _ Hce Hf) as [HmF Hw].
  exists wA1. split; [congruence|]. split; [exact HmF|].
  split; [|auto].
  apply (rel_update wF wA1); try reflexivity; try assumption.
  - apply keeps_refl.
  - destruct Hw as [-> | ->]; reflexivity.
  - destruct Hw as [-> | ->]; reflexivity.
  - destruct Hw as [-> | ->]; reflexivity.
  - destruct Hw as [-> | ->]; reflexivity.
  - destruct Hw as [-> | ->]; [apply Hr1|]. cbn. apply Hr1.
  - destruct Hw as [-> | ->]; apply Hr1.
Qed.

Lemma rel_jit_r wF wA cn meta ce :
  rel rk top wF wA -> rel rk top wF (on_container (jit_compile cn meta ce) wA).
Proof.
  intros (R1 & R2 & R3 & R4 & R5 & R6 & R7 & R8).
  destruct (jit_compile_fields cn meta ce (cont wA))
    as (J1 & J2 & J3 & J4 & J5 & J6 & J7).
  unfold rel, metadata_for. cbn [on_container cont EG_exception].
  rewrite J1, J2, J3, J4, J5, J6. repeat split; try assumption; apply R8.
Qed.

Lemma rel_jit wF wA cls ce :
  rel rk top wF wA ->
  zend_lookup_class cls = Some ce ->
  ce_not_instantiable ce = false ->
  safe_to_compile (cont wF) cls ->
  rel rk top
    (on_container (jit_compile cls (metadata_for (cont wF) cls ce) ce) wF)
    (on_container (jit_compile cls (metadata_for (cont wF) cls ce) ce) wA).
Proof.
  intros Hr Hce Hinst Hsafe.
  pose proof (coherent_jit rk top wF cls ce (rel_coherent _ _ Hr) Hce Hinst Hsafe)
    as Hc.
  revert Hc. generalize (metadata_for (cont wF) cls ce). intros meta Hc.
  apply (rel_jit_r _ wA cls meta ce) in Hr.
  destruct Hr as (R1 & R2 & R3 & R4 & R5 & R6 & R7 & R8).
  destruct (jit_compile_fields cls meta ce (cont wF))
    as (J1 & J2 & J3 & J4 & J5 & J6 & J7).
  unfold rel. unfold metadata_for at 1.
  cbn [on_container cont EG_exception] in *.
  rewrite J1, J2, J3, J4. repeat split; try assumption; apply Hc.
Qed.

Lemma rel_cache_singleton wF wA k v :
  rel rk top wF wA ->
  rel rk top (on_container (cache_singleton k v) wF)
         (on_container (cache_singleton k v) wA).
Proof.
  intros Hr. pose proof Hr as (R1 & R2 & R3 & R4 & R5 & R6 & R7 & R8).
  pose proof R8 as (C1 & C2 & C3 & _).
  apply (rel_update wF wA); try reflexivity; try assumption.
  - apply keeps_cache_singleton, keeps_refl.
  - apply keeps_cache_singleton, keeps_refl.
  - cbn. rewrite insert_pristine by exact C3. reflexivity.
  - cbn. rewrite insert_pristine by (rewrite <- R3; exact C3). reflexivity.
  - cbn. rewrite R2. reflexivity.
Qed.

(** The factory's store of a singleton against the store of [make]. *)
Lemma rel_cache_factory wF wA g k v :
  rel rk top wF wA ->
  f_class_name g = k ->
  is_singleton g = true ->
  rel rk top (cache_if_singleton g v wF) (on_container (cache_singleton k v) wA).
Proof.
  intros Hr Hk Hsg. pose proof Hr as (R1 & R2 & R3 & R4 & R5 & R6 & R7 & R8).
  pose proof R8 as (C1 & C2 & C3 & _).
  unfold cache_if_singleton. rewrite Hsg, Hk.
  apply (rel_update wF wA); try reflexivity; try assumption.
  - exact (keeps_refl wF).
  - apply keeps_cache_singleton, keeps_refl.
  - cbn. rewrite insert_pristine by (rewrite <- R3; exact C3). reflexivity.
  - cbn. rewrite R2. reflexivity.
Qed.

End Steps.

(** *** One level of the simulation *)

Section Simulation.
Context `{Zend}.
Variable rk : string -> nat.
Variable top : nat.
Hypothesis constructors_report :
  forall ce, zend_call_function (CallConstructor ce) [] <> CallFailed.
Variable n : nat.

Hypothesis IHM :
  forall m wF wA d r s v wF',
    (n <= m)%nat -> (rk d <= top)%nat -> rel rk top wF wA ->
    above rk (S (rk d)) wF -> above rk (S (rk d)) wA ->
    sf_container_make n wF d None (Some r) = Some (s, v, wF') ->
    exists wA',
      sf_container_make m wA d None (Some r) = Some (s, v, wA')
      /\ rel rk top wF' wA'.

Hypothesis IHQ :
  forall m wF wA d r v wF',
    (n <= m)%nat -> (rk d <= top)%nat -> rel rk top wF wA ->
    above rk (S (rk d)) wF -> above rk (S (rk d)) wA ->
    sf_container_make n wF d None None = Some (SUCCESS, v, wF') ->
    exists wA',
      sf_container_make m wA d None (Some r) = Some (SUCCESS, v, wA')
      /\ rel rk top wF' wA'.

Hypothesis IHP :
  forall m g cls ce wF wA v wF',
    (n <= m)%nat -> (rk cls <= top)%nat -> rel rk top wF wA ->
    above rk (rk cls) wF -> above rk (rk cls) wA ->
    zend_lookup_class cls = Some ce ->
    ce_not_instantiable ce = false ->
    sf_compiler_compile_class (metadata_for (cont wF) cls ce) ce
                              (is_singleton g) = Some g ->
    sf_factory_call n g wF None = Some (SUCCESS, v, wF') ->
    exists wF0 wA',
      sf_autowire_resolve (sf_container_make m) cls None wA
      = Some (SUCCESS, v, wA')
      /\ wF' = cache_if_singleton g v wF0
      /\ rel rk top wF0 wA'.

Lemma sim_build_args m class cls ps :
  (n <= m)%nat -> (rk cls <= top)%nat ->
  forall built wF wA res wF',
    rel rk top wF wA ->
    above rk (rk cls) wF -> above rk (rk cls) wA ->
    Forall (fun p => forall hint, type_hint p = Some hint ->
                                  (rk hint < rk cls)%nat) ps ->
    build_args_loop (sf_container_make n) class None cls ps built wF
    = Some (res, wF') ->
    exists wA',
      build_args_loop (sf_container_make m) class None cls ps built wA
      = Some (res, wA')
      /\ rel rk top wF' wA'.
Proof.
  intros Hm Htop.
  induction ps as [|p rest IH];
    intros built wF wA res wF' Hr HaF HaA Hrank Hrun;
    cbn [build_args_loop] in *.
  - invert Hrun. eexists; split; [reflexivity|assumption].
  - cbn [mbind option_bind] in *.
    inversion Hrank as [|? ? Hp Hrest]; subst.
    destruct (type_hint p) as [hint|] eqn:Hh.
    + destruct (sf_container_make n wF hint None (Some cls))
        as [[[st arg] wF1]|] eqn:Hmk; [|discriminate].
      assert (rk hint < rk cls)%nat as Hlt by auto.
      assert (rk hint <= top)%nat as Htop' by lia.
      destruct (IHM m wF wA hint cls st arg wF1 Hm Htop' Hr
                  (above_mono rk _ _ _ Hlt HaF) (above_mono rk _ _ _ Hlt HaA)
                  Hmk) as (wA1 & HmkA & Hr1).
      rewrite HmkA.
      pose proof (proj1 (engine_stable n) _ _ _ _ _ _ _ Hmk) as HsF.
      pose proof (proj1 (engine_stable m) _ _ _ _ _ _ _ HmkA) as HsA.
      destruct st.
      * eapply IH; eauto using above_stable.
      * rewrite (rel_pending rk top _ _ Hr1).
        destruct (exception_pending wF1).
        { invert Hrun. eauto. }
        destruct (is_nullable p).
        { eapply IH; eauto using above_stable. }
        destruct (has_default p).
        { invert Hrun. eauto. }
        invert Hrun. eexists; split; [reflexivity|].
        apply rel_throw; assumption.
    + destruct (has_default p); [invert Hrun; eauto|].
      destruct (is_variadic p); [invert Hrun; eauto|].
      invert Hrun. eexists; split; [reflexivity|].
      apply rel_throw; assumption.
Qed.

Lemma sim_construct cls ce args wF wA s v wF' :
  rel rk top wF wA ->
  zend_lookup_class cls = Some ce ->
  ce_not_instantiable ce = false ->
  safe_to_compile (cont wF) cls ->
  autowire_construct cls (metadata_for (cont wF) cls ce) ce args wF
  = Some (s, v, wF') ->
  exists wA',
    autowire_construct cls (metadata_for (cont wF) cls ce) ce args wA
    = Some (s, v, wA')
    /\ rel rk top wF' wA'.
Proof.
  intros Hr Hce Hinst Hsafe. unfold autowire_construct.
  destruct (object_init_ex ce).
  - destruct (constructor ce).
    + cbv zeta.
      destruct (zend_call_function (CallConstructor ce) args)
        as [ret|ce' msg|] eqn:Ho; cbn [after_call]; intros Hrun; invert Hrun.
      * eexists; split; [reflexivity|]. apply rel_jit; assumption.
      * eexists; split; [reflexivity|].
        apply (rel_jit rk top (throw ce' msg wF) (throw ce' msg wA));
          try assumption.
        apply rel_throw; assumption.
      * eexists; split; [reflexivity|assumption].
    + intros Hrun; invert Hrun.
      eexists; split; [reflexivity|]. apply rel_jit; assumption.
  - intros Hrun; invert Hrun.
    eexists; split; [reflexivity|]. apply rel_throw; assumption.
Qed.

Lemma sim_autowire m cls wF wA s v wF' :
  (n <= m)%nat -> (rk cls <= top)%nat -> rel rk top wF wA ->
  above rk (rk cls) wF -> above rk (rk cls) wA ->
  (forall w2, keeps wF w2 -> coherent rk top w2 ->
              safe_to_compile (cont w2) cls) ->
  sf_autowire_resolve (sf_container_make n) cls None wF = Some (s, v, wF') ->
  exists wA',
    sf_autowire_resolve (sf_container_make m) cls None wA = Some (s, v, wA')
    /\ rel rk top wF' wA'.
Proof.
  intros Hm Htop Hr HaF HaA Hsafe.
  unfold sf_autowire_resolve, sf_autowire_build_args_direct.
  destruct (zend_lookup_class cls) as [ce|] eqn:Hce.
  2:{ intros Hrun; invert Hrun. eexists; split; [reflexivity|].
      apply rel_throw; assumption. }
  destruct (ce_not_instantiable ce) eqn:Hinst.
  { intros Hrun; invert Hrun. eexists; split; [reflexivity|].
    apply rel_throw; assumption. }
  destruct (fetch_metadata cls ce wF) as [meta wF1] eqn:HfF.
  destruct (rel_fetch rk top _ _ _ _ _ _ Hr Hce HfF)
    as (wA1 & HfA & Hmeta & Hr1 & Hk1 & HsF1 & HsA1).
  rewrite HfA.
  destruct (negb (is_instantiable meta)).
  { intros Hrun; invert Hrun. eexists; split; [reflexivity|].
    apply rel_throw; assumption. }
  destruct (build_args_loop (sf_container_make n) (class_name meta) None cls
              (params meta) [] wF1) as [[res wF2]|] eqn:Hb; [|discriminate].
  assert (Forall (fun p => forall hint, type_hint p = Some hint ->
                                        (rk hint < rk cls)%nat)
                 (params meta)) as Hrank.
  { apply Forall_forall. intros p Hin hint Hh.
    destruct (rel_coherent rk top _ _ Hr) as (_ & _ & _ & _ & _ & _ & C7).
    apply (C7 cls ce p hint Hce); [|exact Hh|exact Htop].
    rewrite <- Hmeta. apply list_elem_of_In. exact Hin. }
  destruct (sim_build_args m (class_name meta) cls (params meta) Hm Htop []
              wF1 wA1 res wF2 Hr1 (above_stable rk _ _ _ HsF1 HaF)
              (above_stable rk _ _ _ HsA1 HaA) Hrank Hb)
    as (wA2 & HbA & Hr2).
  rewrite HbA.
  destruct res as [args|].
  2:{ intros Hrun; invert Hrun. eexists; split; [reflexivity|assumption]. }
  assert (keeps wF wF2) as Hk2.
  { eapply keeps_trans; [exact Hk1|].
    eapply build_args_loop_keeps; [|exact Hb].
    exact (proj1 (engine_keeps n)). }
  assert (meta = metadata_for (cont wF2) cls ce) as Hmeta2.
  { rewrite Hmeta. symmetry. apply (proj2 Hk2 _ _ Hce). }
  rewrite Hmeta2. apply sim_construct; try assumption.
  apply Hsafe; [exact Hk2|]. exact (rel_coherent rk top _ _ Hr2).
Qed.

Lemma sim_concrete m a c0 rF rA wF wA s v wF' :
  (n <= m)%nat -> rel rk top wF wA ->
  (forall cls, c0 = IS_STRING cls ->
     (rk cls <= top)%nat
     /\ above rk (rk cls) wF /\ above rk (rk cls) wA
     /\ forall w2, keeps wF w2 -> coherent rk top w2 ->
                   safe_to_compile (cont w2) cls) ->
  sf_resolve_concrete (sf_container_make n) wF a c0 None rF
  = Some (s, v, wF') ->
  exists wA',
    sf_resolve_concrete (sf_container_make m) wA a c0 None rA
    = Some (s, v, wA')
    /\ rel rk top wF' wA'.
Proof.
  intros Hm Hr Hcls. unfold sf_resolve_concrete.
  destruct c0;
    try (intros Hrun; invert Hrun; eexists; split; [reflexivity|assumption]).
  - destruct (Hcls _ eq_refl) as (A0 & A1 & A2 & A3). intros Hrun.
    eapply sim_autowire; eassumption.
  - cbv zeta.
    destruct (zend_call_function _ _) as [ret|ce' msg|] eqn:Ho;
      cbn [after_call]; intros Hrun; invert Hrun;
      eexists; (split; [reflexivity|]); try assumption.
    apply rel_throw; assumption.
Qed.

Lemma compiled_factory_for_requester c d r :
  compiled_factory_for c d (Some r) = None.
Proof.
  unfold compiled_factory_for. destruct (compilation_enabled c); reflexivity.
Qed.

(** [make] when no compiled factory is used: the same steps in both
    runs. *)
Lemma sim_tail m wF wA d rF r s v wF' :
  (n <= m)%nat -> (rk d <= top)%nat -> rel rk top wF wA ->
  above rk (S (rk d)) wF -> above rk (S (rk d)) wA ->
  compiled_factory_for (cont wF) d rF = None ->
  sf_container_make (S n) wF d None rF = Some (s, v, wF') ->
  exists wA',
    sf_container_make (S m) wA d None (Some r) = Some (s, v, wA')
    /\ rel rk top wF' wA'.
Proof.
  intros Hm Htop Hr HaF HaA Hnf Hrun.
  pose proof Hr as (R1 & R2 & R3 & R4 & R5 & R6 & R7 & R8).
  pose proof R8 as (C1 & C2 & C3 & C4 & C5 & C6 & C7).
  rewrite make_plain in Hrun by assumption.
  rewrite make_plain by (try assumption; rewrite <- R3; assumption).
  rewrite <- R2.
  destruct (instances (cont wF) !! d) as [cached|] eqn:Hi.
  { invert Hrun. eexists; split; [reflexivity|exact Hr]. }
  rewrite Hnf in Hrun. rewrite compiled_factory_for_requester.
  destruct (push_fresh rk wF d HaF) as (ctxF & HpF & HaF1).
  destruct (push_fresh rk wA d HaA) as (ctxA & HpA & HaA1).
  rewrite HpF in Hrun. rewrite HpA.
  set (wF1 := on_container (set_context ctxF)
                (on_container (set_cache_loaded true) wF)) in *.
  set (wA1 := on_container (set_context ctxA)
                (on_container (set_cache_loaded true) wA)) in *.
  assert (rel rk top wF1 wA1) as Hr1 by exact Hr.
  pose proof (R1 d) as Hd.
  destruct (bindings (cont wF) !! d) as [bF|] eqn:HbF;
    destruct (bindings (cont wA) !! d) as [bA|] eqn:HbA;
    inversion Hd as [? ? (E1 & E2 & E3)|]; subst.
  - rewrite <- E1, <- E2, <- E3.
    assert (forall s v wF2,
               sf_resolve_concrete (sf_container_make n) wF1 d (concrete bF)
                                   None rF = Some (s, v, wF2) ->
               exists wA2,
                 sf_resolve_concrete (sf_container_make m) wA1 d
                                     (concrete bF) None (Some r)
                 = Some (s, v, wA2)
                 /\ rel rk top wF2 wA2) as Hsub.
    { intros s0 v0 wF2 Hc. eapply sim_concrete; try eassumption.
      intros cls Hcc.
      assert (rk cls <= rk d)%nat as Hle by (eapply C6; eauto).
      split; [lia|].
      split; [apply HaF1; assumption|]. split; [apply HaA1; assumption|].
      intros w2 [K1 _] (_ & _ & _ & _ & B & _).
      specialize (K1 d).
      change (bindings (cont wF1)) with (bindings (cont wF)) in K1.
      rewrite HbF in K1.
      inversion K1 as [? b2 (F1 & F2 & F3) Hx Hb2|]; subst.
      symmetry in Hb2. eapply B; [exact Hb2|]. congruence. }
    destruct (scope bF) eqn:Hsc; destruct (is_undef (instance bF)) eqn:Hu;
      cbv beta iota in Hrun |- *;
      try (invert Hrun; eexists; split; [reflexivity|exact Hr1]; fail);
      (destruct (sf_resolve_concrete (sf_container_make n) wF1 d (concrete bF)
                                     None rF)
         as [[[st v0] wF2]|] eqn:Hc in Hrun; [|discriminate];
       destruct (Hsub _ _ _ Hc) as (wA2 & HcA & Hr2);
       rewrite HcA; destruct st; invert Hrun;
       eexists; (split; [reflexivity|]);
       try exact Hr2;
       exact (rel_cache_singleton rk top _ _ _ _ Hr2)).
  - unfold pop_and_return in *.
    destruct (sf_autowire_resolve (sf_container_make n) d None wF1)
      as [[[st v0] wF2]|] eqn:Ha; [|discriminate].
    edestruct (sim_autowire m d wF1 wA1) as (wA2 & HaA2 & Hr2);
      [exact Hm|exact Htop|exact Hr1|exact (HaF1 _ (Nat.le_refl _))
      |exact (HaA1 _ (Nat.le_refl _))| |exact Ha|].
    { intros w2 [K1 _] _. right. left. specialize (K1 d).
      change (bindings (cont wF1)) with (bindings (cont wF)) in K1.
      rewrite HbF in K1. inversion K1 as [|Hx Hb2]. unfold name_class.
      rewrite <- Hb2. reflexivity. }
    rewrite HaA2. invert Hrun. eexists; split; [reflexivity|exact Hr2].
Qed.

Lemma sim_make_requester m wF wA d r s v wF' :
  (n <= m)%nat -> (rk d <= top)%nat -> rel rk top wF wA ->
  above rk (S (rk d)) wF -> above rk (S (rk d)) wA ->
  sf_container_make (S n) wF d None (Some r) = Some (s, v, wF') ->
  exists wA',
    sf_container_make (S m) wA d None (Some r) = Some (s, v, wA')
    /\ rel rk top wF' wA'.
Proof.
  intros Hm Htop Hr HaF HaA. apply sim_tail; try assumption.
  apply compiled_factory_for_requester.
Qed.

(** A registered factory against [make] with a requester: the factory
    builds what the binding of its name gives through autowiring. *)
Lemma sim_registered m wF wA d g r v wF' :
  (n <= m)%nat -> (rk d <= top)%nat -> rel rk top wF wA ->
  above rk (S (rk d)) wF -> above rk (S (rk d)) wA ->
  compiled_factories (cont wF) !! d = Some g ->
  factory_fn g <> None ->
  instances (cont wF) !! d = None ->
  sf_factory_call n g wF None = Some (SUCCESS, v, wF') ->
  exists wA',
    sf_container_make (S m) wA d None (Some r) = Some (SUCCESS, v, wA')
    /\ rel rk top wF' wA'.
Proof.
  intros Hm Htop Hr HaF HaA Hg Hfn Hi Hrun.
  pose proof Hr as (R1 & R2 & R3 & R4 & R5 & R6 & R7 & R8).
  pose proof R8 as (C1 & C2 & C3 & C4 & C5 & C6 & C7).
  destruct (C4 d g Hg Hfn) as (cls & ce & N1 & N2 & N3 & N4 & N5).
  rewrite make_plain by (try assumption; rewrite <- R3; assumption).
  rewrite <- R2, Hi, compiled_factory_for_requester.
  destruct (push_fresh rk wA d HaA) as (ctxA & HpA & HaA1).
  rewrite HpA.
  set (wA1 := on_container (set_context ctxA)
                (on_container (set_cache_loaded true) wA)) in *.
  assert (rel rk top wF wA1) as Hr1 by exact Hr.
  assert (rk cls <= rk d)%nat as Hle.
  { unfold name_class in N1.
    destruct (bindings (cont wF) !! d) as [bF|] eqn:HbF.
    - apply (C6 d bF cls HbF); [|exact Htop]. unfold eligible_class in N1.
      destruct (concrete bF); try discriminate.
      destruct (scope bF); try discriminate; cbn in N1; congruence.
    - injection N1 as <- _. lia. }
  destruct (IHP m g cls ce wF wA1 v wF' Hm (Nat.le_trans _ _ _ Hle Htop) Hr1
              (above_mono rk _ _ _ (Nat.le_trans _ _ _ Hle (Nat.le_succ_diag_r _))
                          HaF)
              (HaA1 _ Hle) N3 N4 N5 Hrun)
    as (wF0 & wA2 & HaA2 & HwF & Hr2).
  pose proof (R1 d) as Hd. unfold name_class in N1.
  destruct (bindings (cont wF) !! d) as [bF|] eqn:HbF;
    destruct (bindings (cont wA) !! d) as [bA|] eqn:HbA;
    inversion Hd as [? ? (E1 & E2 & E3)|]; subst.
  - rewrite <- E1, <- E2, <- E3. unfold eligible_class, singleton_scope in N1.
    destruct (concrete bF) as [| | | | | |] eqn:Hcc; try discriminate.
    all: destruct (scope bF) eqn:Hsc; try discriminate; cbn in N1;
      injection N1 as -> Hsg; cbn [sf_resolve_concrete];
      cbv beta iota; rewrite HaA2.
    + eexists; split; [reflexivity|].
      unfold cache_if_singleton. rewrite <- Hsg. exact Hr2.
    + eexists; split; [reflexivity|].
      apply (rel_cache_factory rk top wF0 (pop_context wA2));
        [exact Hr2|auto|auto].
  - injection N1 as <- Hsg. unfold pop_and_return. rewrite HaA2.
    eexists; split; [reflexivity|].
    unfold cache_if_singleton. rewrite <- Hsg. exact Hr2.
Qed.

Lemma sim_dep m wF wA d r v wF' :
  (n <= m)%nat -> (rk d <= top)%nat -> rel rk top wF wA ->
  above rk (S (rk d)) wF -> above rk (S (rk d)) wA ->
  sf_resolve_dep_fast (sf_container_make n) (sf_factory_call n) wF d
  = Some (SUCCESS, v, wF') ->
  exists wA',
    sf_container_make (S m) wA d None (Some r) = Some (SUCCESS, v, wA')
    /\ rel rk top wF' wA'.
Proof.
  intros Hm Htop Hr HaF HaA. unfold sf_resolve_dep_fast.
  pose proof Hr as (R1 & R2 & R3 & R4 & R5 & R6 & R7 & R8).
  pose proof R8 as (C1 & C2 & C3 & C4 & C5 & C6 & C7).
  destruct (instances (cont wF) !! d) as [cached|] eqn:Hi.
  { intros Hrun; invert Hrun.
    rewrite make_plain by (try assumption; rewrite <- R3; assumption).
    rewrite <- R2, Hi. eexists; split; [reflexivity|exact Hr]. }
  assert (n <= S m)%nat as Hm' by lia.
  destruct (compiled_factories (cont wF) !! d) as [g|] eqn:Hg;
    [|intros Hrun; eapply IHQ; eassumption].
  destruct (factory_fn g) eqn:Hfn;
    [|intros Hrun; eapply IHQ; eassumption].
  intros Hrun. eapply sim_registered; try eassumption. congruence.
Qed.

Lemma sim_deps_loop m class cls ps :
  (n <= m)%nat -> (rk cls <= top)%nat ->
  forall k built wF wA args wF',
    rel rk top wF wA ->
    above rk (rk cls) wF -> above rk (rk cls) wA ->
    Forall (fun p => forall hint, type_hint p = Some hint ->
                                  (rk hint < rk cls)%nat) ps ->
    count_deps ps = Some k ->
    resolve_deps_loop (sf_container_make n) (sf_factory_call n)
                      (omap type_hint (take k ps)) built wF
    = Some (Some args, wF') ->
    exists wA',
      build_args_loop (sf_container_make (S m)) class None cls ps built wA
      = Some (Some args, wA')
      /\ rel rk top wF' wA'.
Proof.
  intros Hm Htop.
  induction ps as [|p rest IH];
    intros k built wF wA args wF' Hr HaF HaA Hrank Hk Hrun; cbn in Hk.
  - injection Hk as <-. cbn in Hrun. invert Hrun.
    eexists; split; [reflexivity|assumption].
  - cbn [build_args_loop]. cbn [mbind option_bind].
    inversion Hrank as [|? ? Hp Hrest]; subst.
    destruct (type_hint p) as [hint|] eqn:Hh.
    + destruct (count_deps rest) as [k'|] eqn:Hk'; [|discriminate].
      injection Hk as <-. cbn in Hrun. rewrite Hh in Hrun.
      cbn [resolve_deps_loop] in Hrun.
      destruct (sf_resolve_dep_fast (sf_container_make n) (sf_factory_call n)
                                    wF hint)
        as [[[[] dep] wF1]|] eqn:Hd; try discriminate.
      assert (rk hint < rk cls)%nat as Hlt by auto.
      assert (rk hint <= top)%nat as Htop' by lia.
      destruct (sim_dep m wF wA hint cls dep wF1 Hm Htop' Hr
                  (above_mono rk _ _ _ Hlt HaF) (above_mono rk _ _ _ Hlt HaA)
                  Hd) as (wA1 & HmkA & Hr1).
      rewrite HmkA.
      pose proof (resolve_dep_fast_stable _ _
                    (proj1 (engine_stable n)) (proj2 (engine_stable n))
                    _ _ _ _ _ Hd) as HsF.
      pose proof (proj1 (engine_stable (S m)) _ _ _ _ _ _ _ HmkA) as HsA.
      eapply IH; eauto using above_stable.
    + destruct (has_default p); [|discriminate].
      injection Hk as <-. cbn in Hrun. invert Hrun.
      eexists; split; [reflexivity|assumption].
Qed.

Lemma sim_construct_with cn meta g args wF wA v wF' :
  rel rk top wF wA ->
  has_constructor g
  = match constructor (f_ce g) with Some _ => true | None => false end ->
  construct_with g args wF = Some (SUCCESS, v, wF') ->
  exists wA',
    autowire_construct cn meta (f_ce g) args wA = Some (SUCCESS, v, wA')
    /\ wF' = cache_if_singleton g v wF
    /\ rel rk top wF wA'.
Proof.
  intros Hr Hc Hrun. unfold construct_with in Hrun.
  unfold autowire_construct.
  destruct (object_init_ex (f_ce g)); [|discriminate].
  rewrite Hc in Hrun.
  destruct (constructor (f_ce g)) as [ctor|].
  - cbv zeta in Hrun |- *.
    destruct (zend_call_function (CallConstructor (f_ce g)) args)
      as [ret|ce' msg|] eqn:Ho; try discriminate.
    cbn [after_call] in *.
    destruct (exception_pending wF); [discriminate|].
    invert Hrun.
    eexists; split; [reflexivity|]. split; [reflexivity|].
    apply rel_jit_r. exact Hr.
  - invert Hrun.
    eexists; split; [reflexivity|]. split; [reflexivity|].
    apply rel_jit_r. exact Hr.
Qed.

(** A compiled factory against autowiring of its class. *)
Lemma sim_factory m g cls ce wF wA v wF' :
  (n <= m)%nat -> (rk cls <= top)%nat -> rel rk top wF wA ->
  above rk (rk cls) wF -> above rk (rk cls) wA ->
  zend_lookup_class cls = Some ce ->
  ce_not_instantiable ce = false ->
  sf_compiler_compile_class (metadata_for (cont wF) cls ce) ce
                            (is_singleton g) = Some g ->
  sf_factory_call (S n) g wF None = Some (SUCCESS, v, wF') ->
  exists wF0 wA',
    sf_autowire_resolve (sf_container_make (S m)) cls None wA
    = Some (SUCCESS, v, wA')
    /\ wF' = cache_if_singleton g v wF0
    /\ rel rk top wF0 wA'.
Proof.
  intros Hm Htop Hr HaF HaA Hce Hinst Hg Hrun.
  set (meta := metadata_for (cont wF) cls ce) in *.
  unfold sf_compiler_compile_class in Hg.
  destruct (sf_compiler_can_compile meta) eqn:Hcan; [|discriminate].
  cbn [negb] in Hg.
  destruct (count_deps (params meta)) as [k|] eqn:Hk; [|discriminate].
  injection Hg as Hg.
  assert (f_ce g = ce) as Gce by (rewrite <- Hg; reflexivity).
  assert (factory_fn g = Some (select_template k)) as Gfn
      by (rewrite <- Hg; reflexivity).
  assert (dep_names g = omap type_hint (take k (params meta))) as Gdn
      by (rewrite <- Hg; reflexivity).
  assert (has_constructor g
          = match constructor (f_ce g) with Some _ => true | None => false end)
    as Ghc by (rewrite <- Hg; reflexivity).
  clear Hg.
  pose proof (count_deps_names _ _ Hk) as Hlen.
  assert (factory_template_ndeps (sf_container_make n) (sf_factory_call n)
            g wF = Some (SUCCESS, v, wF')) as Hnd.
  { rewrite factory_call_unfold in Hrun.
    unfold sf_factory_call_frame in Hrun. rewrite Gfn in Hrun.
    rewrite <- Gdn in Hlen.
    destruct k as [|[|[|k]]]; cbn [select_template] in Hrun.
    - rewrite <- Hrun. symmetry. apply template_0deps_as_loop.
      + destruct (dep_names g); [reflexivity|discriminate].
      + apply constructors_report.
    - rewrite <- Hrun. symmetry.
      destruct (dep_names g) as [|d0 [|]] eqn:Hd; try discriminate.
      apply (template_1dep_as_loop _ _ g wF d0). exact Hd.
    - rewrite <- Hrun. symmetry.
      destruct (dep_names g) as [|d0 [|d1 [|]]] eqn:Hd; try discriminate.
      apply (template_2deps_as_loop _ _ g wF d0 d1). exact Hd.
    - exact Hrun. }
  unfold factory_template_ndeps in Hnd.
  destruct (resolve_deps_loop _ _ (dep_names g) [] wF)
    as [[[args|] wF1]|] eqn:Hl; try discriminate.
  rewrite Gdn in Hl.
  unfold sf_autowire_resolve, sf_autowire_build_args_direct.
  rewrite Hce, Hinst.
  destruct (fetch_metadata cls ce wA) as [metaA wA1] eqn:HfA.
  destruct (rel_fetch_r rk top _ _ _ _ _ _ Hr Hce HfA) as (Hm1 & Hr1 & HsA1).
  fold meta in Hm1. subst metaA.
  unfold sf_compiler_can_compile in Hcan.
  apply andb_prop in Hcan as [Hcan _]. apply andb_prop in Hcan as [Hi _].
  rewrite Hi. cbn [negb].
  assert (Forall (fun p => forall hint, type_hint p = Some hint ->
                                        (rk hint < rk cls)%nat)
                 (params meta)) as Hrank.
  { apply Forall_forall. intros p Hin hint Hh.
    destruct (rel_coherent rk top _ _ Hr) as (_ & _ & _ & _ & _ & _ & C7).
    apply (C7 cls ce p hint Hce); [|exact Hh|exact Htop].
    apply list_elem_of_In. exact Hin. }
  destruct (sim_deps_loop m (class_name meta) cls (params meta) Hm Htop k []
              wF wA1 args wF1 Hr1 HaF (above_stable rk _ _ _ HsA1 HaA)
              Hrank Hk Hl) as (wA2 & HbA & Hr2).
  rewrite HbA. rewrite <- Gce.
  destruct (sim_construct_with cls meta g args wF1 wA2 v wF' Hr2 Ghc Hnd)
    as (wA3 & HcA & HwF & Hr3).
  exists wF1, wA3. auto.
Qed.

(** [make] without a requester, as compiled factories call it, against
    [make] with one. *)
Lemma sim_make m wF wA d r v wF' :
  (n <= m)%nat -> (rk d <= top)%nat -> rel rk top wF wA ->
  above rk (S (rk d)) wF -> above rk (S (rk d)) wA ->
  sf_container_make (S n) wF d None None = Some (SUCCESS, v, wF') ->
  exists wA',
    sf_container_make (S m) wA d None (Some r) = Some (SUCCESS, v, wA')
    /\ rel rk top wF' wA'.
Proof.
  intros Hm Htop Hr HaF HaA Hrun.
  destruct (compiled_factory_for (cont wF) d None) as [g|] eqn:Hcf;
    [|eapply sim_tail; eassumption].
  pose proof Hr as (R1 & R2 & R3 & R4 & R5 & R6 & R7 & R8).
  pose proof R8 as (C1 & C2 & C3 & C4 & C5 & C6 & C7).
  rewrite make_plain in Hrun by assumption.
  destruct (instances (cont wF) !! d) as [cached|] eqn:Hi.
  { invert Hrun.
    rewrite make_plain by (try assumption; rewrite <- R3; assumption).
    rewrite <- R2, Hi. eexists; split; [reflexivity|exact Hr]. }
  rewrite Hcf in Hrun.
  apply compiled_factory_for_spec in Hcf as (_ & _ & Hg & Hfn).
  apply (sim_registered m (on_container (set_cache_loaded true) wF) wA d g r
                        v wF' Hm Htop Hr HaF HaA Hg Hfn Hi Hrun).
Qed.

End Simulation.

(** The simulation at every nesting depth. *)
Lemma simulation `{Zend} (rk : string -> nat) (top : nat) :
  (forall ce, zend_call_function (CallConstructor ce) [] <> CallFailed) ->
  forall n,
    (forall m wF wA d r s v wF',
        (n <= m)%nat -> (rk d <= top)%nat -> rel rk top wF wA ->
        above rk (S (rk d)) wF -> above rk (S (rk d)) wA ->
        sf_container_make n wF d None (Some r) = Some (s, v, wF') ->
        exists wA',
          sf_container_make m wA d None (Some r) = Some (s, v, wA')
          /\ rel rk top wF' wA')
    /\ (forall m wF wA d r v wF',
          (n <= m)%nat -> (rk d <= top)%nat -> rel rk top wF wA ->
          above rk (S (rk d)) wF -> above rk (S (rk d)) wA ->
          sf_container_make n wF d None None = Some (SUCCESS, v, wF') ->
          exists wA',
            sf_container_make m wA d None (Some r) = Some (SUCCESS, v, wA')
            /\ rel rk top wF' wA')
    /\ (forall m g cls ce wF wA v wF',
          (n <= m)%nat -> (rk cls <= top)%nat -> rel rk top wF wA ->
          above rk (rk cls) wF -> above rk (rk cls) wA ->
          zend_lookup_class cls = Some ce ->
          ce_not_instantiable ce = false ->
          sf_compiler_compile_class (metadata_for (cont wF) cls ce) ce
                                    (is_singleton g) = Some g ->
          sf_factory_call n g wF None = Some (SUCCESS, v, wF') ->
          exists wF0 wA',
            sf_autowire_resolve (sf_container_make m) cls None wA
            = Some (SUCCESS, v, wA')
            /\ wF' = cache_if_singleton g v wF0
            /\ rel rk top wF0 wA').
Proof.
  intros Hhost. induction n as [|n (IHM & IHQ & IHP)].
  - repeat split; intros; discriminate.
  - split; [|split].
    + intros [|m] wF wA d r s v wF' Hm; [lia|].
      apply (sim_make_requester rk top n IHM); lia.
    + intros [|m] wF wA d r v wF' Hm; [lia|].
      apply (sim_make rk top n IHM IHP); lia.
    + intros [|m] g cls ce wF wA v wF' Hm; [lia|].
      apply (sim_factory rk top Hhost n IHQ IHP); lia.
Qed.




Lemma services_bindings : bindings (cont compiled_services_world)
          = <["Report" := sf_binding_create "Report" (IS_STRING "Report")
                               SF_SCOPE_TRANSIENT]> (<["Logger" := sf_binding_create "Logger" (IS_STRING "Logger")
                               SF_SCOPE_SINGLETON]> ∅).
Proof. vm_compute. reflexivity. Qed.

Lemma services_factories : compiled_factories (cont compiled_services_world)
             = <["Report" := report_factory]> (<["Logger" := logger_singleton_factory]> ∅).
Proof. vm_compute. reflexivity. Qed.

Lemma services_metadata : reflection_cache (cont compiled_services_world)
             = <["Report" := sf_cache_build "Report" report_ce]> (<["Logger" := sf_cache_build "Logger" (sample_class "Logger" 0 [])]> ∅).
Proof. vm_compute. reflexivity. Qed.

Lemma services_coherent :
  coherent (H := host64) services_rank (services_rank "Report")
           compiled_services_world.
Proof.
  pose proof services_bindings as Hbind.
  pose proof services_factories as Hfact.
  pose proof services_metadata as Hrc.
  split; [vm_compute; reflexivity|]. split; [vm_compute; reflexivity|].
  split; [exact (pristine_create 4)|].
  assert (forall k, name_class (cont compiled_services_world) k
                    = if String.eqb k "Report" then Some ("Report", false)
                      else if String.eqb k "Logger" then Some ("Logger", true)
                      else Some (k, false)) as Hnc.
  { intros k. unfold name_class. rewrite Hbind.
    destruct (String.eqb_spec k "Report") as [->|N1].
    - rewrite lookup_insert_eq. reflexivity.
    - rewrite lookup_insert_ne by congruence.
      destruct (String.eqb_spec k "Logger") as [->|N2].
      + rewrite lookup_insert_eq. reflexivity.
      + rewrite lookup_insert_ne by congruence. rewrite lookup_empty.
        reflexivity. }
  assert (metadata_for (cont compiled_services_world) "Report" report_ce
          = sf_cache_build "Report" report_ce) as HmR.
  { unfold metadata_for, sf_cache_get. rewrite Hrc, lookup_insert_eq.
    reflexivity. }
  assert (metadata_for (cont compiled_services_world) "Logger"
                       (sample_class "Logger" 0 [])
          = sf_cache_build "Logger" (sample_class "Logger" 0 [])) as HmL.
  { unfold metadata_for, sf_cache_get. rewrite Hrc.
    rewrite lookup_insert_ne by discriminate. rewrite lookup_insert_eq.
    reflexivity. }
  split; [|split; [|split]].
  - intros k g Hk Hfn. rewrite Hfact in Hk.
    apply lookup_insert_Some in Hk as [[<- <-]|[_ Hk]].
    + exists "Report", report_ce. rewrite Hnc, HmR.
      repeat split; try discriminate.
    + apply lookup_insert_Some in Hk as [[<- <-]|[_ Hk]].
      * exists "Logger", (sample_class "Logger" 0 []). rewrite Hnc, HmL.
        repeat split.
      * rewrite lookup_empty in Hk. discriminate.
  - intros k b cls Hk Hcc. rewrite Hbind in Hk. left. rewrite Hfact.
    apply lookup_insert_Some in Hk as [[<- <-]|[_ Hk]].
    + injection Hcc as <-. rewrite lookup_insert_eq. eauto.
    + apply lookup_insert_Some in Hk as [[<- <-]|[_ Hk]].
      * injection Hcc as <-. rewrite lookup_insert_ne by discriminate.
        rewrite lookup_insert_eq. eauto.
      * rewrite lookup_empty in Hk. discriminate.
  - intros k b cls Hk Hcc _. rewrite Hbind in Hk.
    apply lookup_insert_Some in Hk as [[<- <-]|[_ Hk]].
    + injection Hcc as <-. reflexivity.
    + apply lookup_insert_Some in Hk as [[<- <-]|[_ Hk]].
      * injection Hcc as <-. reflexivity.
      * rewrite lookup_empty in Hk. discriminate.
  - intros cls ce p hint Hce Hin Hh Ht.
    unfold services_rank in Ht |- *.
    destruct (String.eqb_spec cls "Report") as [->|_].
    + injection Hce as <-. change (sample_class _ _ _) with report_ce in Hin.
      rewrite HmR in Hin. cbn in Hin. destruct Hin as [<-|[]].
      injection Hh as <-. cbn. lia.
    + destruct (String.eqb_spec cls "Logger") as [->|_]; [|cbn in Ht; lia].
      injection Hce as <-. rewrite HmL in Hin. destruct Hin.
Qed.




(** * Further properties of the code *)

(** ** Registration and queries *)

Lemma resolve_alias_loop_unaliased al n a :
  al !! a = None -> resolve_alias_loop al n a = a.
Proof. intros Ha. destruct n; cbn; rewrite Ha; reflexivity. Qed.

Lemma resolve_alias_loop_hop al n name target :
  al !! name = Some target ->
  resolve_alias_loop al (S n) name = resolve_alias_loop al n target.
Proof. intros Ha. cbn. rewrite Ha. reflexivity. Qed.

(** X1.  [bind] registers the binding under the alias-resolved name; it is then
    bound and resolvable, other names are bound as before, and the
    instance cache is left alone: the resolved mark of a replaced binding
    is gone, an instance cached for it is not. *)
Theorem bind_registers_under_resolved_name `{Zend} c a v s :
  let k := sf_resolve_alias c a in
  let c' := sf_container_bind c a v s in
  bindings c' !! k = Some (sf_binding_create k v s)
  /\ sf_container_bound c' a = true
  /\ sf_container_has c' a = true
  /\ (forall a', sf_resolve_alias c a' <> k ->
        sf_container_bound c' a' = sf_container_bound c a')
  /\ sf_container_resolved c' a
     = match instances c !! k with Some _ => true | None => false end.
Proof.
  intros k c'. subst c'. unfold sf_container_bind. fold k.
  unfold sf_container_bound, sf_container_has, sf_container_resolved.
  cbn [bindings set_bindings aliases instances sf_resolve_alias].
  change (resolve_alias_loop (aliases c) 10 a) with k.
  rewrite !lookup_insert_eq.
  repeat split.
  - intros a' Ha. change (resolve_alias_loop (aliases c) 10 a')
      with (sf_resolve_alias c a').
    rewrite lookup_insert_ne by (intros E; apply Ha; symmetry; exact E).
    reflexivity.
Qed.

(** X2.  A cached instance outlives a rebinding: after [bind] replaced the
    binding, [make] still returns the instance cached before. *)
Theorem rebind_keeps_cached_instance `{Zend} n w a v s p r old :
  sf_fast_lookup_find (fast_cache (cont w)) (sf_resolve_alias (cont w) a)
  = None ->
  instances (cont w) !! sf_resolve_alias (cont w) a = Some old ->
  sf_container_make (S n)
    (on_container (fun c => sf_container_bind c a v s) w) a p r
  = Some (SUCCESS, old,
          on_container (set_cache_loaded true)
            (on_container (fun c => sf_container_bind c a v s) w)).
Proof.
  intros Hf Hi. apply make_instance_hit; assumption.
Qed.

Lemma rebind_keeps_cached_instance_witness :
  exists w',
    sf_container_make (H := host64) 1
      (on_container
         (fun c => sf_container_bind c "answer" (IS_LONG 1)
                                     SF_SCOPE_SINGLETON)
         {| cont := set_instances {[ "answer" := IS_LONG 42 ]}
                                  sf_container_create;
            EG_exception := None |})
      "answer" None None
    = Some (SUCCESS, IS_LONG 42, w').
Proof.
  eexists.
  apply (rebind_keeps_cached_instance (H := host64) 0
           {| cont := set_instances {[ "answer" := IS_LONG 42 ]}
                                    sf_container_create;
              EG_exception := None |}
           "answer" (IS_LONG 1) SF_SCOPE_SINGLETON None None (IS_LONG 42)).
  - vm_compute. reflexivity.
  - vm_compute. reflexivity.
Defined.

(** X3.  [instance] makes the given value the result of every later [make] of
    the name, whoever asks and whatever is bound: the instance cache (and
    the fast lookup table when it took the entry) answers before bindings,
    contextual bindings and compiled factories are looked at. *)
Theorem instance_is_returned_by_make `{Zend} n w a v p r :
  let k := sf_resolve_alias (cont w) a in
  let w' := on_container (fun c => sf_container_instance c a v) w in
  (1 <= num_groups (fast_cache (cont w)))%nat ->
  sf_fast_lookup_find (fast_cache (cont w)) k = None
  \/ fst (sf_fast_lookup_insert (fast_cache (cont w)) k v) = SUCCESS ->
  sf_container_make (S n) w' a p r
  = Some (SUCCESS, v, on_container (set_cache_loaded true) w')
  /\ sf_container_resolved (cont w') a = true
  /\ (aliases (cont w) !! k = None -> sf_container_bound (cont w') a = true).
Proof.
  intros k w' Hg Hfast.
  assert (sf_resolve_alias (cont w') a = k) as Hk by reflexivity.
  assert (instances (cont w') !! k = Some v) as Hi.
  { subst w'. unfold sf_container_instance, sf_container_bind. cbn.
    fold k. apply lookup_insert_eq. }
  assert (fast_cache (cont w')
          = snd (sf_fast_lookup_insert (fast_cache (cont w)) k v)) as Hfc
    by reflexivity.
  split; [|split].
  - destruct (sf_fast_lookup_insert (fast_cache (cont w)) k v)
      as [[] t] eqn:Hins; cbn [snd fst] in *.
    + apply make_fast_hit. rewrite Hk, Hfc.
      eapply find_after_insert; eassumption.
    + apply make_instance_hit; rewrite Hk; [|exact Hi].
      rewrite Hfc. apply insert_failure_unchanged in Hins. subst t.
      destruct Hfast as [Hf|Hf]; [exact Hf|discriminate].
  - unfold sf_container_resolved. cbv zeta.
    change (sf_resolve_alias (cont w') a) with k. rewrite Hi. reflexivity.
  - intros Ha. unfold sf_container_bound. cbv zeta.
    change (sf_resolve_alias (cont w') a) with k.
    subst w'. unfold sf_container_instance, sf_container_bind.
    cbn [on_container cont bindings set_bindings aliases set_cache_dirty
         set_fast_cache set_instances]. fold k.
    unfold sf_resolve_alias. cbn [aliases].
    rewrite (resolve_alias_loop_unaliased _ _ _ Ha).
    rewrite lookup_insert_eq. reflexivity.
Qed.

Lemma instance_is_returned_by_make_witness :
  sf_container_make (H := host64) 1
    (on_container
       (fun c => sf_container_instance (H := host64) c "Logger" (IS_LONG 5))
       contextual_report_world)
    "Logger" None (Some "Report")
  = Some (SUCCESS, IS_LONG 5,
          on_container (set_cache_loaded true)
            (on_container
               (fun c => sf_container_instance (H := host64) c "Logger"
                                               (IS_LONG 5))
               contextual_report_world)).
Proof.
  refine (proj1 (instance_is_returned_by_make (H := host64) 0
                   contextual_report_world "Logger" (IS_LONG 5) None
                   (Some "Report") _ _)).
  - vm_compute. lia.
  - left. vm_compute. reflexivity.
Defined.

(** X4.  [forgetInstances] leaves nothing resolved and nothing cached, and
    keeps every binding: each name is bound and resolvable as before, no
    name is resolved, and the next [make] goes past both caches. *)
Theorem forget_instances_resets_resolution `{Zend} c a :
  let c' := sf_container_forget_instances c in
  sf_container_resolved c' a = false
  /\ sf_container_bound c' a = sf_container_bound c a
  /\ sf_container_has c' a = sf_container_has c a
  /\ instances c' !! a = None
  /\ sf_fast_lookup_find (fast_cache c') a = None.
Proof.
  intros c'.
  assert (forall x, sf_resolve_alias c' x = sf_resolve_alias c x) as Hk
    by reflexivity.
  assert (bindings c' = set_resolved false <$> bindings c) as Hb
    by reflexivity.
  assert (instances c' = ∅) as Hi by reflexivity.
  assert (fast_cache c' = sf_fast_lookup_clear (fast_cache c)) as Hf
    by reflexivity.
  unfold sf_container_resolved, sf_container_bound, sf_container_has.
  cbv zeta. rewrite !Hk, Hb, Hi, Hf, !lookup_fmap, !lookup_empty.
  destruct (bindings c !! sf_resolve_alias c a) as [b|];
    cbn [fmap option_fmap option_map set_resolved resolved];
    repeat split; apply find_pristine, pristine_clear.
Qed.

(** X5.  [flush] empties the container: afterwards no name is bound or
    resolved, only instantiable classes are resolvable, no alias, tag,
    contextual binding or compiled factory is left, and compilation is
    off; the resolution context and the cache flags are kept. *)
Theorem flush_empties_container `{Zend} c a :
  let c' := sf_container_flush c in
  sf_container_bound c' a = false
  /\ sf_container_resolved c' a = false
  /\ sf_container_has c' a
     = match zend_lookup_class a with
       | Some ce => negb (ce_not_instantiable ce)
       | None => false
       end
  /\ sf_resolve_alias c' a = a
  /\ sf_fast_lookup_find (fast_cache c') a = None
  /\ sf_container_is_compiled c' = false
  /\ (forall r, sf_container_get_contextual_binding c' r a = None)
  /\ tags c' !! a = None
  /\ context c' = context c.
Proof.
  intros c'. subst c'.
  unfold sf_container_bound, sf_container_resolved, sf_container_has,
    sf_resolve_alias, sf_container_is_compiled,
    sf_container_get_contextual_binding.
  cbn [sf_container_flush aliases bindings instances fast_cache
       compilation_enabled contextual_bindings tags context].
  rewrite resolve_alias_loop_empty, !lookup_empty.
  repeat split.
  - apply find_pristine, pristine_clear.
  - intros [r|]; [apply lookup_empty|reflexivity].
Qed.

(** X6.  Tagging accumulates: the entries of a tag are the string entries of
    all [tag] calls for it, in call order; entries that are not strings
    are dropped, and other tags are not touched. *)
Theorem tag_accumulates_string_entries c xs ys t :
  sf_container_tag (sf_container_tag c xs t) ys t
  = sf_container_tag c (xs ++ ys) t
  /\ tags (sf_container_tag c xs t) !! t
     = Some (default [] (tags c !! t) ++ List.filter is_string xs)
  /\ (forall t', t' <> t ->
        tags (sf_container_tag c xs t) !! t' = tags c !! t').
Proof.
  unfold sf_container_tag. cbn [tags set_tags].
  rewrite lookup_insert_eq. cbn [default from_option id].
  split; [|split].
  - destruct c; unfold set_tags; cbn. f_equal.
    rewrite insert_insert_eq, List.filter_app, app_assoc. reflexivity.
  - reflexivity.
  - intros t' Ht. apply lookup_insert_ne. congruence.
Qed.

(** ** Contextual bindings through the builder *)

Lemma contextual_size_after_add c A B v :
  (0 <? size (contextual_bindings
                (sf_container_add_contextual_binding c A B v)))%nat = true.
Proof.
  unfold sf_container_add_contextual_binding.
  cbn [contextual_bindings set_contextual_bindings].
  apply Nat.ltb_lt.
  assert (size (<[contextual_key A B :=
                    {| cb_concrete := A; cb_abstract := B;
                       implementation := v |}]> (contextual_bindings c))
          <> 0%nat) as Hne.
  { apply map_size_non_empty_iff, insert_non_empty. }
  lia.
Qed.

(** X7.  [when(A)->needs(B)->give(v)] registers [v] for the pair, the last
    [needs] before [give] being the one that counts, and a [make] of [B]
    on behalf of [A] that gets past the caches resolves [v] instead of any
    binding of [B]; [give] without [needs] raises a ContainerException and
    registers nothing. *)
Theorem builder_give_overrides_dependency `{Zend} n w A B0 B v p ctx :
  let builder := ContextualBuilder_needs
                   (ContextualBuilder_needs (Container_when A) B0) B in
  let w' := ContextualBuilder_give builder v w in
  aliases (cont w) !! B = None ->
  sf_fast_lookup_find (fast_cache (cont w)) B = None ->
  instances (cont w) !! B = None ->
  sf_resolution_context_push (context (cont w)) B = (SUCCESS, ctx) ->
  sf_container_get_contextual_binding (cont w') (Some A) B
  = Some {| cb_concrete := A; cb_abstract := B; implementation := v |}
  /\ sf_container_make (S n) w' B p (Some A)
     = pop_and_return
         (sf_resolve_concrete (sf_container_make n)
            (on_container (set_context ctx)
               (on_container (set_cache_loaded true) w'))
            B v p (Some A))
  /\ ContextualBuilder_give (Container_when A) v w
     = throw sf_container_exception_ce
             "needs() must be called before give()" w.
Proof.
  intros builder w' Ha Hf Hi Hp.
  assert (sf_resolve_alias (cont w') B = B) as Hk.
  { unfold sf_resolve_alias. cbn [w' ContextualBuilder_give builder
      ContextualBuilder_needs builder_abstract on_container cont aliases
      sf_container_add_contextual_binding set_contextual_bindings].
    apply resolve_alias_loop_unaliased, Ha. }
  assert (sf_container_get_contextual_binding (cont w') (Some A) B
          = Some {| cb_concrete := A; cb_abstract := B;
                    implementation := v |}) as Hget.
  { cbn. apply lookup_insert_eq. }
  split; [exact Hget|]. split; [|reflexivity].
  rewrite (make_contextual n w' B p (Some A) ctx
             {| cb_concrete := A; cb_abstract := B; implementation := v |});
    rewrite ?Hk.
  - reflexivity.
  - exact Hf.
  - exact Hi.
  - unfold compiled_factory_for.
    destruct (compilation_enabled (cont w')); reflexivity.
  - exact Hp.
  - unfold applicable_contextual_binding.
    change (cont w') with
      (sf_container_add_contextual_binding (cont w) A B v).
    rewrite contextual_size_after_add. exact Hget.
Qed.

Lemma builder_give_overrides_dependency_witness :
  exists w',
    sf_container_make (H := host64) 2
      (ContextualBuilder_give
         (ContextualBuilder_needs
            (ContextualBuilder_needs (Container_when "Report") "Queue")
            "Logger")
         (IS_STRING "FileLogger") fresh_world)
      "Logger" None (Some "Report")
    = Some (SUCCESS, IS_OBJECT "FileLogger" [], w').
Proof.
  destruct (builder_give_overrides_dependency (H := host64) 1 fresh_world
              "Report" "Queue" "Logger" (IS_STRING "FileLogger") None
              (snd (sf_resolution_context_push (H := host64)
                      (context (cont fresh_world)) "Logger"))
              eq_refl ltac:(vm_compute; reflexivity) eq_refl
              ltac:(vm_compute; reflexivity)) as (_ & Hm & _).
  eexists. etransitivity; [exact Hm|]. vm_compute. reflexivity.
Defined.

(** ** Aliases *)

Lemma resolve_alias_loop_self al n a :
  al !! a = Some a -> resolve_alias_loop al n a = a.
Proof.
  intros Ha. induction n as [|n IH]; cbn; rewrite Ha; [reflexivity|exact IH].
Qed.

(** X8.  An alias for a name that has no alias itself resolves to that name,
    also when the alias is the name itself; every query and every [make]
    through the alias is then the one on the name. *)
Theorem alias_stands_for_target `{Zend} c target name :
  aliases c !! target = None ->
  let c' := sf_container_alias c target name in
  sf_resolve_alias c' name = target
  /\ sf_container_bound c' name = sf_container_bound c' target
  /\ sf_container_has c' name = sf_container_has c' target
  /\ sf_container_resolved c' name = sf_container_resolved c' target
  /\ (forall n e p r,
        sf_container_make (S n) {| cont := c'; EG_exception := e |} name p r
        = sf_container_make (S n) {| cont := c'; EG_exception := e |}
                            target p r).
Proof.
  intros Ha c'.
  assert (sf_resolve_alias c' target = target) as Ht.
  { unfold sf_resolve_alias. subst c'. cbn [sf_container_alias aliases
      set_aliases].
    destruct (decide (name = target)) as [->|Hne].
    - apply resolve_alias_loop_self, lookup_insert_eq.
    - apply resolve_alias_loop_unaliased.
      rewrite lookup_insert_ne by exact Hne. exact Ha. }
  assert (sf_resolve_alias c' name = target) as Hn.
  { unfold sf_resolve_alias in *. subst c'. cbn [sf_container_alias aliases
      set_aliases] in *.
    rewrite (resolve_alias_loop_hop _ 9 name target)
      by apply lookup_insert_eq.
    destruct (decide (name = target)) as [->|Hne].
    - apply resolve_alias_loop_self, lookup_insert_eq.
    - apply resolve_alias_loop_unaliased.
      rewrite lookup_insert_ne by exact Hne. exact Ha. }
  split; [exact Hn|].
  unfold sf_container_bound, sf_container_has, sf_container_resolved.
  cbv zeta. rewrite Hn, Ht. repeat split.
  intros n e p r. apply make_depends_on_resolved_alias.
  cbn [cont]. rewrite Hn, Ht. reflexivity.
Qed.

Lemma alias_stands_for_target_witness :
  sf_resolve_alias (sf_container_alias sf_container_create "Logger" "log")
                   "log" = "Logger".
Proof.
  exact (proj1 (alias_stands_for_target (H := host64) sf_container_create
                  "Logger" "log" eq_refl)).
Defined.

(** ** Resolution of unknown names *)

Lemma push_of_absent_name `{Zend} ctx a :
  ~ In a (stack ctx) ->
  exists ctx', sf_resolution_context_push ctx a = (SUCCESS, ctx')
               /\ frames ctx' = frames ctx ++ [(a, uint32 (ZSTR_H a))].
Proof.
  intros Hn.
  destruct (sf_resolution_context_push ctx a) as [[] ctx'] eqn:Hp.
  - exists ctx'. split; [reflexivity|]. eapply push_success, Hp.
  - apply push_failure in Hp as [_ Hin]. contradiction.
Qed.

(** X9.  [Container::make] of a name that nothing registers and that is not a
    class returns null with a NotFoundException "Class '...' not found"
    pending; the resolution stack, the instances and the bindings are as
    before. *)
Theorem make_of_unknown_name_raises_not_found `{Zend} n w a p :
  aliases (cont w) !! a = None ->
  sf_fast_lookup_find (fast_cache (cont w)) a = None ->
  instances (cont w) !! a = None ->
  compiled_factories (cont w) !! a = None ->
  bindings (cont w) !! a = None ->
  ~ In a (stack (context (cont w))) ->
  zend_lookup_class a = None ->
  exists w',
    Container_make (S n) w a p = Some (IS_NULL, w')
    /\ EG_exception w'
       = Some (Exception sf_not_found_exception_ce
                 ("Class '" +:+ a +:+ "' not found") (EG_exception w))
    /\ stack (context (cont w')) = stack (context (cont w))
    /\ instances (cont w') = instances (cont w)
    /\ bindings (cont w') = bindings (cont w).
Proof.
  intros Ha Hf Hi Hc Hb Hs Hl.
  assert (sf_resolve_alias (cont w) a = a) as Hk
    by (apply resolve_alias_loop_unaliased, Ha).
  destruct (push_of_absent_name (context (cont w)) a Hs) as (ctx & Hp & Hfr).
  unfold Container_make.
  rewrite (make_autowire n w a p None ctx); rewrite ?Hk; try assumption.
  - unfold sf_autowire_resolve. rewrite Hl. cbn [pop_and_return].
    eexists. split; [reflexivity|]. cbn.
    repeat split. unfold stack. cbn. rewrite Hfr.
    rewrite removelast_last. reflexivity.
  - unfold compiled_factory_for. rewrite Hc.
    destruct (compilation_enabled (cont w)); reflexivity.
  - reflexivity.
Qed.

Lemma make_of_unknown_name_raises_not_found_witness :
  exists w',
    Container_make (H := host64) 1 fresh_world "Nothing" None
    = Some (IS_NULL, w')
    /\ EG_exception w'
       = Some (Exception sf_not_found_exception_ce
                 "Class 'Nothing' not found" None).
Proof.
  destruct (make_of_unknown_name_raises_not_found (H := host64) 0
              fresh_world "Nothing" None eq_refl
              ltac:(vm_compute; reflexivity) eq_refl eq_refl eq_refl
              ltac:(cbn; tauto) eq_refl) as (w' & Hm & He & _).
  exists w'. split; [exact Hm|exact He].
Defined.

(** ** The fast lookup table in the container *)

(** X10.  A fast lookup table without an entry stays so through every [make]:
    the call returns the table it found. *)
Theorem make_leaves_pristine_table `{Zend} n w a p r s v w' :
  pristine (fast_cache (cont w)) ->
  sf_container_make n w a p r = Some (s, v, w') ->
  fast_cache (cont w') = fast_cache (cont w)
  /\ forall k, sf_fast_lookup_find (fast_cache (cont w')) k = None.
Proof.
  intros Hp Hm.
  destruct (proj1 (engine_stable n) _ _ _ _ _ _ _ Hm)
    as (_ & _ & _ & _ & _ & _ & Hfc).
  split; [exact (Hfc Hp)|].
  intros k. rewrite (Hfc Hp). apply find_pristine, Hp.
Qed.

Lemma make_leaves_pristine_table_witness :
  exists w',
    sf_container_make (H := host64) 3
      {| cont := logger_singleton; EG_exception := None |} "Logger" None None
    = Some (SUCCESS, IS_OBJECT "Logger" [], w')
    /\ fast_cache (cont w') = fast_cache logger_singleton.
Proof.
  assert (exists w',
             sf_container_make (H := host64) 3
               {| cont := logger_singleton; EG_exception := None |}
               "Logger" None None
             = Some (SUCCESS, IS_OBJECT "Logger" [], w')) as [w' Hm].
  { eexists. vm_compute. reflexivity. }
  exists w'. split; [exact Hm|].
  refine (proj1 (make_leaves_pristine_table (H := host64) 3 _ _ _ _ _ _ _
                   _ Hm)).
  apply pristine_create.
Defined.

(** ** The fast lookup table: lookups after insertions and removals *)

Lemma insert_in_group_other fp k v slots slots' fresh fp' k' :
  insert_in_group fp k v slots = Some (slots', fresh) ->
  k' <> k -> (0 <= fp' < 128)%Z ->
  find_in_group fp' k' slots' = find_in_group fp' k' slots.
Proof.
  intros Hi Hk Hfp. revert slots' fresh Hi.
  induction slots as [|s rest IH]; intros slots' fresh; simpl;
    [discriminate|].
  destruct (SF_CTRL_DELETED <=? ctrl s)%Z eqn:Hd.
  { intros Hi. invert Hi. simpl. unfold slot_matches. cbn [ctrl key].
    apply Z.leb_le in Hd. unfold SF_CTRL_DELETED in Hd.
    replace (String.eqb k k') with false
      by (symmetry; apply String.eqb_neq; congruence).
    replace (ctrl s =? fp')%Z with false
      by (symmetry; apply Z.eqb_neq; lia).
    rewrite andb_false_r. reflexivity. }
  destruct (slot_matches fp k s) eqn:Hm.
  { intros Hi. invert Hi. simpl. unfold slot_matches in *. cbn [ctrl key].
    destruct (key s) as [ks|]; [|rewrite andb_false_r in Hm; discriminate].
    apply andb_prop in Hm as [_ Hm]. apply String.eqb_eq in Hm. subst ks.
    replace (String.eqb k k') with false
      by (symmetry; apply String.eqb_neq; congruence).
    rewrite andb_false_r. reflexivity. }
  destruct (insert_in_group fp k v rest) as [[rest' fresh']|] eqn:Hr;
    [|discriminate].
  intros Hi. invert Hi. simpl.
  erewrite IH by reflexivity. reflexivity.
Qed.

Lemma remove_in_group_other fp k slots slots' fp' k' :
  remove_in_group fp k slots = Some slots' ->
  k' <> k ->
  find_in_group fp' k' slots' = find_in_group fp' k' slots.
Proof.
  intros Hr Hk. revert slots' Hr.
  induction slots as [|s rest IH]; intros slots'; simpl; [discriminate|].
  destruct (slot_matches fp k s) eqn:Hm.
  { intros Hr. invert Hr. simpl. unfold slot_matches in *. cbn [ctrl key].
    destruct (key s) as [ks|]; [|rewrite andb_false_r in Hm; discriminate].
    apply andb_prop in Hm as [_ Hm]. apply String.eqb_eq in Hm. subst ks.
    replace (String.eqb k k') with false
      by (symmetry; apply String.eqb_neq; congruence).
    rewrite !andb_false_r. reflexivity. }
  destruct (remove_in_group fp k rest) as [rest'|] eqn:Hrest; [|discriminate].
  intros Hr. invert Hr. simpl. erewrite IH by reflexivity. reflexivity.
Qed.

(** Lookups in two tables that differ in one group, where the group
    answers alike. *)
Lemma find_from_same_answers lookup lookup' gi slots' fp k left g :
  groups lookup' = <[gi := slots']> (groups lookup) ->
  num_groups lookup' = num_groups lookup ->
  find_in_group fp k slots'
  = find_in_group fp k (default [] (groups lookup !! gi)) ->
  find_from lookup' fp k left g = find_from lookup fp k left g.
Proof.
  intros Hg Hn Hsame. revert g.
  induction left as [|left IH]; intros g; [reflexivity|].
  cbn [find_from]. rewrite Hn, IH.
  assert (find_in_group fp k (default [] (groups lookup' !! g))
          = find_in_group fp k (default [] (groups lookup !! g))) as Heq.
  { rewrite Hg. destruct (decide (g = gi)) as [->|Hne].
    - destruct (groups lookup !! gi) as [old|] eqn:Hold.
      + rewrite list_lookup_insert_eq
          by (eapply lookup_lt_Some; exact Hold).
        exact Hsame.
      + rewrite list_insert_ge
          by (apply lookup_ge_None; exact Hold).
        rewrite Hold. reflexivity.
    - rewrite list_lookup_insert_ne by congruence. reflexivity. }
  rewrite Heq. reflexivity.
Qed.

Lemma remove_probe_absent lookup fp k left g :
  find_from lookup fp k left g = None ->
  remove_probe lookup fp k left g = lookup.
Proof.
  revert g. induction left as [|left IH]; intros g; [reflexivity|].
  cbn [find_from remove_probe].
  destruct (find_in_group fp k (default [] (groups lookup !! g))) eqn:Hf;
    [discriminate|].
  intros Hrest.
  destruct (remove_in_group fp k (default [] (groups lookup !! g)))
    as [slots'|] eqn:Hr; [|apply IH, Hrest].
  pose proof (remove_in_group_matches _ _ _ _ Hr) as Hm.
  apply matches_in_none in Hf. lia.
Qed.

Section LookupRoundTrips.
Context `{Zend}.

(** X11.  An accepted insert makes the table answer the key with the value
    inserted, answers every other key as before, and takes at most one
    more slot without resizing. *)
Theorem insert_then_find lookup k v lookup' :
  (1 <= num_groups lookup)%nat ->
  sf_fast_lookup_insert lookup k v = (SUCCESS, lookup') ->
  sf_fast_lookup_find lookup' k = Some v
  /\ (forall k', k' <> k ->
        sf_fast_lookup_find lookup' k' = sf_fast_lookup_find lookup k')
  /\ capacity lookup' = capacity lookup
  /\ (count lookup' = count lookup
      \/ count lookup' = uint32 (count lookup + 1)).
Proof.
  intros Hn Hins. split; [eapply find_after_insert; eassumption|].
  unfold sf_fast_lookup_insert in Hins.
  destruct (capacity lookup * 7 / 8 <=? count lookup)%Z; [discriminate|].
  pose proof (insert_probe_result _ _ _ _ _ _ _ Hins)
    as (gi & slots' & fresh & Hgi & Hgroups & Hn').
  split.
  - intros k' Hk. rewrite !find_as_find_from by lia. rewrite Hn'.
    eapply find_from_same_answers; [exact Hgroups|exact Hn'|].
    eapply insert_in_group_other;
      [exact Hgi|exact Hk|apply fingerprint_range].
  - clear Hgi Hgroups Hn'. revert Hins.
    generalize (group_index (ZSTR_H k) (num_groups lookup)).
    generalize (num_groups lookup) at 1.
    intros left. induction left as [|left IH]; intros g; cbn [insert_probe];
      [discriminate|].
    destruct (insert_in_group _ k v _) as [[slots1 fresh1]|]; [|apply IH].
    intros Hr. invert Hr. cbn [capacity count].
    split; [reflexivity|]. destruct fresh1; auto.
Qed.

(** X12.  A removal makes the table forget a key held by at most one slot and
    answers every other key as before; removing a key that the table does
    not hold changes nothing. *)
Theorem remove_then_find lookup k :
  (1 <= num_groups lookup)%nat ->
  (occupancy lookup k <= 1)%nat ->
  sf_fast_lookup_find (sf_fast_lookup_remove lookup k) k = None
  /\ (forall k', k' <> k ->
        sf_fast_lookup_find (sf_fast_lookup_remove lookup k) k'
        = sf_fast_lookup_find lookup k')
  /\ (sf_fast_lookup_find lookup k = None ->
      sf_fast_lookup_remove lookup k = lookup).
Proof.
  intros Hn Hocc. split; [apply find_after_remove; assumption|].
  split.
  - intros k' Hk. unfold sf_fast_lookup_remove. cbv zeta.
    destruct (remove_probe_result lookup (SF_HASH_FINGERPRINT (ZSTR_H k)) k
                (num_groups lookup)
                (group_index (ZSTR_H k) (num_groups lookup)))
      as [[Hsame _] | (gi & slots & slots' & Hgi & Hrem & Hgroups & Hn')].
    + rewrite Hsame. reflexivity.
    + rewrite !find_as_find_from by lia. rewrite Hn'.
      eapply find_from_same_answers; [exact Hgroups|exact Hn'|].
      rewrite Hgi. cbn [default from_option id].
      eapply remove_in_group_other; [exact Hrem|exact Hk].
  - intros Hf. unfold sf_fast_lookup_remove. cbv zeta.
    apply remove_probe_absent. rewrite <- find_as_find_from by lia.
    exact Hf.
Qed.

End LookupRoundTrips.

Lemma insert_then_find_witness :
  exists lookup',
    sf_fast_lookup_insert (H := host64) tombstone_table "Logger" (IS_LONG 1)
    = (SUCCESS, lookup')
    /\ sf_fast_lookup_find (H := host64) lookup' "Logger" = Some (IS_LONG 1).
Proof.
  assert (exists lookup',
             sf_fast_lookup_insert (H := host64) tombstone_table "Logger"
                                   (IS_LONG 1) = (SUCCESS, lookup'))
    as [lookup' Hins] by (eexists; vm_compute; reflexivity).
  exists lookup'. split; [exact Hins|].
  refine (proj1 (insert_then_find (H := host64) tombstone_table "Logger"
                   (IS_LONG 1) lookup' _ Hins)).
  vm_compute. lia.
Defined.

Lemma remove_then_find_witness :
  sf_fast_lookup_find (H := host64)
    (sf_fast_lookup_remove (H := host64) loaded_table (xs 3)) (xs 3) = None.
Proof.
  refine (proj1 (remove_then_find (H := host64) loaded_table (xs 3) _ _)).
  - vm_compute. lia.
  - vm_compute. lia.
Defined.

(** ** The resolution context as a stack *)

(** X13.  A push is refused only for a name that is on the stack, and then
    changes nothing; an accepted push puts the name on top, doubling the
    capacity when the stack is full, and the pop that follows gives the
    frames back; a pop of the empty stack does nothing. *)
Theorem push_refuses_only_names_on_stack `{Zend} ctx a :
  match sf_resolution_context_push ctx a with
  | (FAILURE, ctx') => ctx' = ctx /\ In a (stack ctx)
  | (SUCCESS, ctx') =>
      stack ctx' = stack ctx ++ [a]
      /\ frames (sf_resolution_context_pop ctx') = frames ctx
      /\ ctx_capacity ctx'
         = (if (ctx_capacity ctx <=? Z.of_nat (depth ctx))%Z
            then uint32 (ctx_capacity ctx * 2) else ctx_capacity ctx)
  end
  /\ sf_resolution_context_pop sf_resolution_context_create
     = sf_resolution_context_create.
Proof.
  split; [|reflexivity].
  destruct (sf_resolution_context_push ctx a) as [[] ctx'] eqn:Hp.
  - split; [|split].
    + unfold stack. rewrite (push_success _ _ _ Hp), map_app. reflexivity.
    + eapply pop_push, Hp.
    + unfold sf_resolution_context_push in Hp.
      destruct (sf_resolution_context_has ctx a); [discriminate|].
      injection Hp as <-. reflexivity.
  - eapply push_failure, Hp.
Qed.

(** X14.  The stack never outgrows its arrays: when the depth is within a
    capacity that can still be doubled in 32 bits, it is within the
    capacity after a push, so that the slot written, [stack[depth]], lies
    inside the array. *)
Theorem push_stays_within_capacity `{Zend} ctx a ctx' :
  (Z.of_nat (depth ctx) <= ctx_capacity ctx)%Z ->
  (1 <= ctx_capacity ctx < 2 ^ 31)%Z ->
  sf_resolution_context_push ctx a = (SUCCESS, ctx') ->
  (Z.of_nat (depth ctx) < ctx_capacity ctx')%Z
  /\ (Z.of_nat (depth ctx') <= ctx_capacity ctx')%Z.
Proof.
  intros Hd Hc Hp.
  pose proof (push_success _ _ _ Hp) as Hf.
  unfold sf_resolution_context_push in Hp.
  destruct (sf_resolution_context_has ctx a); [discriminate|].
  injection Hp as <-. unfold depth in *. cbn [frames ctx_capacity].
  rewrite length_app. cbn [length].
  destruct (ctx_capacity ctx <=? Z.of_nat (length (frames ctx)))%Z eqn:Hfull.
  - apply Z.leb_le in Hfull. unfold uint32.
    rewrite Z.mod_small by lia. lia.
  - apply Z.leb_gt in Hfull. lia.
Qed.

Lemma push_stays_within_capacity_witness :
  let ctx := {| frames := frames_of (H := host64)
                            ["a"; "b"; "c"; "d"; "e"; "f"; "g"; "h"];
                ctx_capacity := 8 |} in
  exists ctx',
    sf_resolution_context_push (H := host64) ctx "i" = (SUCCESS, ctx')
    /\ ctx_capacity ctx' = 16%Z
    /\ (Z.of_nat (depth ctx') <= ctx_capacity ctx')%Z.
Proof.
  intros ctx.
  assert (exists ctx', sf_resolution_context_push (H := host64) ctx "i"
                       = (SUCCESS, ctx') /\ ctx_capacity ctx' = 16%Z)
    as (ctx' & Hp & Hc) by (eexists; split; vm_compute; reflexivity).
  exists ctx'. split; [exact Hp|]. split; [exact Hc|].
  refine (proj2 (push_stays_within_capacity (H := host64) ctx "i" ctx'
                   _ _ Hp)).
  - vm_compute. discriminate.
  - vm_compute. split; [discriminate|reflexivity].
Defined.

(** X15.  Where string hashes fit 32 bits, a push is refused exactly for the
    names that are on the stack. *)
Theorem push_detects_cycles_on_narrow_hash `{Zend} cap a names :
  ZSTR_H a = uint32 (ZSTR_H a) ->
  fst (sf_resolution_context_push
         {| frames := frames_of names; ctx_capacity := cap |} a) = FAILURE
  <-> In a names.
Proof.
  intros Hh. rewrite <- (has_exact_on_narrow_hash cap a names Hh).
  unfold sf_resolution_context_push.
  destruct (sf_resolution_context_has _ a); cbn [fst];
    split; congruence.
Qed.

Lemma push_detects_cycles_on_narrow_hash_witness :
  fst (sf_resolution_context_push (H := host32)
         {| frames := frames_of (H := host32) ["A"; "B"];
            ctx_capacity := 8 |} "A") = FAILURE.
Proof.
  apply (push_detects_cycles_on_narrow_hash (H := host32) 8 "A" ["A"; "B"]).
  - vm_compute. reflexivity.
  - cbn. tauto.
Defined.

(** ** The factory compiler *)

Lemma count_deps_defined ps :
  forallb (fun p => match type_hint p with
                    | Some _ => true
                    | None => has_default p
                    end) ps = true ->
  exists k, count_deps ps = Some k.
Proof.
  induction ps as [|p rest IH]; cbn; [eauto|].
  intros Hall. apply andb_prop in Hall as [Hp Hrest].
  destruct (type_hint p).
  - destruct (IH Hrest) as [k ->]. eauto.
  - rewrite Hp. eauto.
Qed.

Lemma count_deps_prefix ps k :
  count_deps ps = Some k ->
  (k <= length ps)%nat
  /\ map type_hint (take k ps) = map Some (omap type_hint (take k ps))
  /\ (forall p, ps !! k = Some p ->
                type_hint p = None /\ has_default p = true).
Proof.
  revert k. induction ps as [|p rest IH]; intros k Hk; cbn in Hk.
  - injection Hk as <-. split; [cbn; lia|]. split; [reflexivity|].
    intros p Hp. discriminate.
  - destruct (type_hint p) as [hint|] eqn:Hh.
    + destruct (count_deps rest) as [k'|] eqn:Hk'; [|discriminate].
      injection Hk as <-. destruct (IH k' eq_refl) as (Hl & Hm & Hn).
      split; [cbn; lia|]. split.
      * cbn. rewrite Hh. cbn. f_equal. exact Hm.
      * intros q Hq. apply Hn. exact Hq.
    + destruct (has_default p) eqn:Hd; [|discriminate].
      injection Hk as <-. split; [cbn; lia|]. split; [reflexivity|].
      intros q Hq. cbn in Hq. injection Hq as <-. auto.
Qed.

(** X16.  The compiler produces a factory exactly for the classes
    [sf_compiler_can_compile] accepts.  The dependencies of the factory are
    the type hints of the leading type-hinted parameters, at most eight,
    up to the end of the list or to a hint-less parameter with a default;
    the template is the one for their number, and the factory constructs
    the class of the descriptor under the name of the metadata. *)
Theorem compiler_accepts_what_can_compile meta ce sgl :
  (sf_compiler_compile_class meta ce sgl = None
   <-> sf_compiler_can_compile meta = false)
  /\ (forall f,
        sf_compiler_compile_class meta ce sgl = Some f ->
        (dep_count f <= param_count meta)%nat
        /\ (dep_count f <= SF_MAX_COMPILED_DEPS)%nat
        /\ map Some (dep_names f)
           = map type_hint (take (dep_count f) (params meta))
        /\ (forall p, params meta !! dep_count f = Some p ->
                      type_hint p = None /\ has_default p = true)
        /\ factory_fn f = Some (select_template (dep_count f))
        /\ f_class_name f = class_name meta
        /\ f_ce f = ce
        /\ is_singleton f = sgl).
Proof.
  unfold sf_compiler_compile_class.
  destruct (sf_compiler_can_compile meta) eqn:Hcan; cbn [negb].
  - pose proof Hcan as Hcan'. unfold sf_compiler_can_compile in Hcan'.
    apply andb_prop in Hcan' as [Hcan' Hall].
    apply andb_prop in Hcan' as [_ Hmax]. apply Nat.leb_le in Hmax.
    destruct (count_deps_defined _ Hall) as [k Hk]. rewrite Hk.
    split; [split; discriminate|].
    intros f Hf. injection Hf as <-.
    destruct (count_deps_prefix _ _ Hk) as (Hl & Hm & Hn).
    pose proof (count_deps_names _ _ Hk) as Hlen.
    unfold dep_count, param_count in *.
    cbn [dep_names factory_fn f_class_name f_ce is_singleton].
    rewrite Hlen.
    split; [lia|]. split; [lia|]. split; [symmetry; exact Hm|].
    split; [exact Hn|]. repeat split.
  - split; [split; reflexivity|]. intros f Hf. discriminate.
Qed.

(** ** The pool of argument buffers *)

Lemma acquire_from_spec flags i j :
  acquire_from i flags = Some j ->
  (i <= j)%nat /\ flags !! (j - i)%nat = Some false
  /\ (forall m, (m < j - i)%nat -> flags !! m = Some true).
Proof.
  revert i. induction flags as [|used rest IH]; intros i; cbn;
    [discriminate|].
  destruct used.
  - intros Ha. destruct (IH _ Ha) as (Hle & Hj & Hbefore).
    split; [lia|]. replace (j - i)%nat with (S (j - S i)) by lia.
    split; [exact Hj|]. intros [|m] Hm; [reflexivity|].
    cbn. apply Hbefore. lia.
  - intros Ha. injection Ha as <-. rewrite Nat.sub_diag.
    split; [lia|]. split; [reflexivity|]. intros m Hm. lia.
Qed.

Lemma acquire_from_none flags i :
  acquire_from i flags = None <-> Forall (fun used => used = true) flags.
Proof.
  revert i. induction flags as [|used rest IH]; intros i; cbn.
  - split; [constructor|reflexivity].
  - destruct used.
    + rewrite IH. split; [intros Hr; constructor; auto|].
      intros Hr. inversion Hr. assumption.
    + split; [discriminate|]. intros Hr. inversion Hr. discriminate.
Qed.

Lemma pools_sized_init mgr : pools_sized mgr -> pools_sized (sf_pool_init mgr).
Proof.
  unfold pools_sized, sf_pool_init. intros Hs.
  destruct (initialized mgr) eqn:Hi; [rewrite Hi; exact Hs|]. intros _.
  repeat split.
Qed.

Lemma initialized_init mgr : initialized (sf_pool_init mgr) = true.
Proof.
  unfold sf_pool_init. destruct (initialized mgr) eqn:Hi; [exact Hi|].
  reflexivity.
Qed.

Lemma buffer_pool_acquire_spec pool b pool' :
  sf_buffer_pool_acquire pool = (Some b, pool') ->
  exists i, b = Buffer (buffer_size pool) i
            /\ in_use pool !! i = Some false
            /\ in_use pool' = <[i := true]> (in_use pool)
            /\ buffer_size pool' = buffer_size pool.
Proof.
  unfold sf_buffer_pool_acquire.
  destruct (acquire_from 0 (in_use pool)) as [i|] eqn:Ha; [|discriminate].
  intros Hr. injection Hr as <- <-.
  destruct (acquire_from_spec _ _ _ Ha) as (_ & Hi & _).
  rewrite Nat.sub_0_r in Hi. exists i. auto.
Qed.

(** X17.  [sf_pool_acquire] hands out only a block that was not in use, large
    enough for the size asked, and marks it; the flags of all other
    blocks are as in the initialized manager. *)
Theorem pool_acquire_hands_out_free_block mgr size b mgr' :
  pools_sized mgr ->
  sf_pool_acquire mgr size = (Some b, mgr') ->
  in_use_of (sf_pool_init mgr) b = Some false
  /\ in_use_of mgr' b = Some true
  /\ (size <= block_size b)%nat
  /\ (forall b', b' <> b ->
        in_use_of mgr' b' = in_use_of (sf_pool_init mgr) b')
  /\ pools_sized mgr' /\ initialized mgr' = true.
Proof.
  intros Hs Ha. apply pools_sized_init in Hs.
  pose proof (initialized_init mgr) as Hinit.
  destruct (Hs Hinit) as (H8 & H16 & H32).
  unfold sf_pool_acquire in Ha. cbv zeta in Ha.
  set (m := sf_pool_init mgr) in *.
  assert (forall (l : list bool) i, l !! i = Some false ->
            <[i := true]> l !! i = Some true) as Hset.
  { intros l i Hl. apply list_lookup_insert_eq. eapply lookup_lt_Some, Hl. }
  assert (forall (l : list bool) i j, j <> i ->
            <[i := true]> l !! j = l !! j) as Hother.
  { intros l i j Hne. apply list_lookup_insert_ne. congruence. }
  destruct (size <=? 8)%nat eqn:S8;
    [|destruct (size <=? 16)%nat eqn:S16;
      [|destruct (size <=? 32)%nat eqn:S32; [|discriminate]]].
  - destruct (sf_buffer_pool_acquire (pool_8 m)) as [b0 p] eqn:Hp.
    injection Ha as -> <-.
    destruct (buffer_pool_acquire_spec _ _ _ Hp) as (i & -> & Hi & Hu & Hb).
    rewrite H8 in *. apply Nat.leb_le in S8.
    cbn [in_use_of set_pool_8 pool_8 pool_16 pool_32 block_size Nat.eqb
         initialized]. rewrite Hu, (Hset _ _ Hi).
    repeat split; try assumption.
    intros [s j] Hne. cbn [in_use_of].
      cbn [pool_8 pool_16 pool_32 set_pool_8 set_pool_16 set_pool_32].
      destruct (s =? 8)%nat eqn:E8; [|reflexivity].
      apply Nat.eqb_eq in E8. subst s. rewrite Hu. apply Hother.
      congruence.
  - destruct (sf_buffer_pool_acquire (pool_16 m)) as [b0 p] eqn:Hp.
    injection Ha as -> <-.
    destruct (buffer_pool_acquire_spec _ _ _ Hp) as (i & -> & Hi & Hu & Hb).
    rewrite H16 in *. apply Nat.leb_le in S16.
    cbn [in_use_of set_pool_16 pool_8 pool_16 pool_32 block_size Nat.eqb
         initialized].
    rewrite Hu, (Hset _ _ Hi).
    repeat split; try assumption.
    intros [s j] Hne. cbn [in_use_of].
      cbn [pool_8 pool_16 pool_32 set_pool_8 set_pool_16 set_pool_32].
      destruct (s =? 8)%nat eqn:E8; [reflexivity|].
      destruct (s =? 16)%nat eqn:E16; [|reflexivity].
      apply Nat.eqb_eq in E16. subst s. rewrite Hu. apply Hother.
      congruence.
  - destruct (sf_buffer_pool_acquire (pool_32 m)) as [b0 p] eqn:Hp.
    injection Ha as -> <-.
    destruct (buffer_pool_acquire_spec _ _ _ Hp) as (i & -> & Hi & Hu & Hb).
    rewrite H32 in *. apply Nat.leb_le in S32.
    cbn [in_use_of set_pool_32 pool_8 pool_16 pool_32 block_size Nat.eqb
         initialized].
    rewrite Hu, (Hset _ _ Hi).
    repeat split; try assumption.
    intros [s j] Hne. cbn [in_use_of].
      cbn [pool_8 pool_16 pool_32 set_pool_8 set_pool_16 set_pool_32].
      destruct (s =? 8)%nat eqn:E8; [reflexivity|].
      destruct (s =? 16)%nat eqn:E16; [reflexivity|].
      destruct (s =? 32)%nat eqn:E32; [|reflexivity].
      apply Nat.eqb_eq in E32. subst s. rewrite Hu. apply Hother.
      congruence.
Qed.

Lemma set_pool_same mgr :
  set_pool_8 (pool_8 mgr) mgr = mgr
  /\ set_pool_16 (pool_16 mgr) mgr = mgr
  /\ set_pool_32 (pool_32 mgr) mgr = mgr.
Proof. destruct mgr. repeat split. Qed.

Lemma buffer_pool_acquire_none pool :
  fst (sf_buffer_pool_acquire pool) = None
  <-> Forall (fun used => used = true) (in_use pool).
Proof.
  unfold sf_buffer_pool_acquire. rewrite <- (acquire_from_none _ 0).
  destruct (acquire_from 0 (in_use pool)); cbn; split; congruence.
Qed.

Lemma buffer_pool_acquire_none_same pool :
  fst (sf_buffer_pool_acquire pool) = None ->
  snd (sf_buffer_pool_acquire pool) = pool.
Proof.
  unfold sf_buffer_pool_acquire.
  destruct (acquire_from 0 (in_use pool)); cbn; [discriminate|reflexivity].
Qed.

(** X18.  [sf_pool_acquire] returns NULL exactly when the size exceeds 32 or
    every block of the pool for the size is in use, and then leaves the
    (initialized) manager as it is. *)
Theorem pool_acquire_fails_when_exhausted mgr size :
  let m := sf_pool_init mgr in
  (fst (sf_pool_acquire mgr size) = None
   <-> (32 < size)%nat
       \/ ((size <= 8)%nat
           /\ Forall (fun used => used = true) (in_use (pool_8 m)))
       \/ ((8 < size <= 16)%nat
           /\ Forall (fun used => used = true) (in_use (pool_16 m)))
       \/ ((16 < size <= 32)%nat
           /\ Forall (fun used => used = true) (in_use (pool_32 m))))
  /\ (fst (sf_pool_acquire mgr size) = None ->
      snd (sf_pool_acquire mgr size) = m).
Proof.
  intros m. unfold sf_pool_acquire. cbv zeta. fold m.
  destruct (set_pool_same m) as (E8 & E16 & E32).
  destruct (size <=? 8)%nat eqn:S8;
    [|destruct (size <=? 16)%nat eqn:S16;
      [|destruct (size <=? 32)%nat eqn:S32]];
    repeat match goal with
           | Hle : (_ <=? _)%nat = true |- _ => apply Nat.leb_le in Hle
           | Hgt : (_ <=? _)%nat = false |- _ => apply Nat.leb_gt in Hgt
           end.
  - pose proof (buffer_pool_acquire_none (pool_8 m)) as Hn.
    pose proof (buffer_pool_acquire_none_same (pool_8 m)) as Hsame.
    destruct (sf_buffer_pool_acquire (pool_8 m)) as [b p]. cbn [fst snd] in *.
    split.
    + rewrite Hn. split; [intros Hall; right; left; auto|].
      intros [Hgt|[[_ Hall]|[[Hgt _]|[Hgt _]]]]; try lia. exact Hall.
    + intros Hb. rewrite (Hsame Hb). exact E8.
  - pose proof (buffer_pool_acquire_none (pool_16 m)) as Hn.
    pose proof (buffer_pool_acquire_none_same (pool_16 m)) as Hsame.
    destruct (sf_buffer_pool_acquire (pool_16 m)) as [b p].
    cbn [fst snd] in *. split.
    + rewrite Hn. split; [intros Hall; right; right; left; auto with lia|].
      intros [Hgt|[[Hle _]|[[_ Hall]|[Hgt _]]]]; try lia. exact Hall.
    + intros Hb. rewrite (Hsame Hb). exact E16.
  - pose proof (buffer_pool_acquire_none (pool_32 m)) as Hn.
    pose proof (buffer_pool_acquire_none_same (pool_32 m)) as Hsame.
    destruct (sf_buffer_pool_acquire (pool_32 m)) as [b p].
    cbn [fst snd] in *. split.
    + rewrite Hn. split; [intros Hall; right; right; right; auto with lia|].
      intros [Hgt|[[Hle _]|[[Hle _]|[_ Hall]]]]; try lia. exact Hall.
    + intros Hb. rewrite (Hsame Hb). exact E32.
  - cbn [fst snd]. split; [|reflexivity].
    split; [intros _; left; lia|reflexivity].
Qed.

(** X19.  Releasing an acquired block with the size it was acquired for gives
    the manager back as it was (initialized); releasing it with a size of
    another pool, or a size above 32, changes nothing: the block stays in
    use. *)
Theorem pool_release_returns_block mgr size b mgr' :
  pools_sized mgr ->
  sf_pool_acquire mgr size = (Some b, mgr') ->
  sf_pool_release mgr' (Some b) size = sf_pool_init mgr
  /\ (forall size', size_class size' <> size_class size ->
        sf_pool_release mgr' (Some b) size' = mgr'
        /\ in_use_of (sf_pool_release mgr' (Some b) size') b = Some true).
Proof.
  intros Hs Ha.
  destruct (pool_acquire_hands_out_free_block _ _ _ _ Hs Ha)
    as (_ & Hused & _ & _ & Hs' & Hinit').
  destruct (Hs' Hinit') as (H8' & H16' & H32').
  apply pools_sized_init in Hs.
  pose proof (initialized_init mgr) as Hinit.
  destruct (Hs Hinit) as (H8 & H16 & H32).
  unfold sf_pool_acquire in Ha. cbv zeta in Ha.
  set (m := sf_pool_init mgr) in *.
  destruct (set_pool_same m) as (E8 & E16 & E32).
  destruct (set_pool_same mgr') as (E8' & E16' & E32').
  assert (forall (l : list bool) i, l !! i = Some false ->
            (i <? length (<[i := true]> l))%nat = true
            /\ <[i := false]> (<[i := true]> l) = l) as Hback.
  { intros l i Hl. split.
    - apply Nat.ltb_lt. rewrite length_insert. eapply lookup_lt_Some, Hl.
    - rewrite list_insert_insert_eq. apply list_insert_id, Hl. }
  unfold sf_pool_release, size_class. rewrite Hinit'. cbn [negb].
  destruct (size <=? 8)%nat eqn:S8;
    [|destruct (size <=? 16)%nat eqn:S16;
      [|destruct (size <=? 32)%nat eqn:S32; [|discriminate]]].
  - destruct (sf_buffer_pool_acquire (pool_8 m)) as [b0 p] eqn:Hp.
    injection Ha as -> <-.
    destruct (buffer_pool_acquire_spec _ _ _ Hp) as (i & -> & Hi & Hu & Hb).
    destruct (Hback _ _ Hi) as [Hlt Hid]. split.
    + cbn [set_pool_8 pool_8 sf_buffer_pool_release].
      rewrite Hb, Nat.eqb_refl, Hu, Hlt, Hid. cbn [andb].
      destruct m as [[l8 b8] p16 p32 ini]. reflexivity.
    + intros size' Hc.
      assert (sf_pool_release_same :
                (if (size' <=? 8)%nat then set_pool_8
                   (sf_buffer_pool_release (pool_8 (set_pool_8 p m))
                      (Buffer (buffer_size (pool_8 m)) i)) (set_pool_8 p m)
                 else if (size' <=? 16)%nat then set_pool_16
                   (sf_buffer_pool_release (pool_16 (set_pool_8 p m))
                      (Buffer (buffer_size (pool_8 m)) i)) (set_pool_8 p m)
                 else if (size' <=? 32)%nat then set_pool_32
                   (sf_buffer_pool_release (pool_32 (set_pool_8 p m))
                      (Buffer (buffer_size (pool_8 m)) i)) (set_pool_8 p m)
                 else set_pool_8 p m) = set_pool_8 p m).
      { destruct (size' <=? 8)%nat; [congruence|].
        rewrite H8. unfold sf_buffer_pool_release.
        destruct (size' <=? 16)%nat.
        - rewrite H16'. cbn [Nat.eqb andb]. exact E16'.
        - destruct (size' <=? 32)%nat; [|reflexivity].
          rewrite H32'. cbn [Nat.eqb andb]. exact E32'. }
      rewrite sf_pool_release_same. split; [reflexivity|exact Hused].
  - destruct (sf_buffer_pool_acquire (pool_16 m)) as [b0 p] eqn:Hp.
    injection Ha as -> <-.
    destruct (buffer_pool_acquire_spec _ _ _ Hp) as (i & -> & Hi & Hu & Hb).
    destruct (Hback _ _ Hi) as [Hlt Hid]. split.
    + cbn [set_pool_16 pool_16 sf_buffer_pool_release].
      rewrite Hb, Nat.eqb_refl, Hu, Hlt, Hid. cbn [andb].
      destruct m as [p8 [l16 b16] p32 ini]. reflexivity.
    + intros size' Hc.
      assert (sf_pool_release_same :
                (if (size' <=? 8)%nat then set_pool_8
                   (sf_buffer_pool_release (pool_8 (set_pool_16 p m))
                      (Buffer (buffer_size (pool_16 m)) i)) (set_pool_16 p m)
                 else if (size' <=? 16)%nat then set_pool_16
                   (sf_buffer_pool_release (pool_16 (set_pool_16 p m))
                      (Buffer (buffer_size (pool_16 m)) i)) (set_pool_16 p m)
                 else if (size' <=? 32)%nat then set_pool_32
                   (sf_buffer_pool_release (pool_32 (set_pool_16 p m))
                      (Buffer (buffer_size (pool_16 m)) i)) (set_pool_16 p m)
                 else set_pool_16 p m) = set_pool_16 p m).
      { rewrite H16. unfold sf_buffer_pool_release.
        destruct (size' <=? 8)%nat.
        - rewrite H8'. cbn [Nat.eqb andb]. exact E8'.
        - destruct (size' <=? 16)%nat; [congruence|].
          destruct (size' <=? 32)%nat; [|reflexivity].
          rewrite H32'. cbn [Nat.eqb andb]. exact E32'. }
      rewrite sf_pool_release_same. split; [reflexivity|exact Hused].
  - destruct (sf_buffer_pool_acquire (pool_32 m)) as [b0 p] eqn:Hp.
    injection Ha as -> <-.
    destruct (buffer_pool_acquire_spec _ _ _ Hp) as (i & -> & Hi & Hu & Hb).
    destruct (Hback _ _ Hi) as [Hlt Hid]. split.
    + cbn [set_pool_32 pool_32 sf_buffer_pool_release].
      rewrite Hb, Nat.eqb_refl, Hu, Hlt, Hid. cbn [andb].
      destruct m as [p8 p16 [l32 b32] ini]. reflexivity.
    + intros size' Hc.
      assert (sf_pool_release_same :
                (if (size' <=? 8)%nat then set_pool_8
                   (sf_buffer_pool_release (pool_8 (set_pool_32 p m))
                      (Buffer (buffer_size (pool_32 m)) i)) (set_pool_32 p m)
                 else if (size' <=? 16)%nat then set_pool_16
                   (sf_buffer_pool_release (pool_16 (set_pool_32 p m))
                      (Buffer (buffer_size (pool_32 m)) i)) (set_pool_32 p m)
                 else if (size' <=? 32)%nat then set_pool_32
                   (sf_buffer_pool_release (pool_32 (set_pool_32 p m))
                      (Buffer (buffer_size (pool_32 m)) i)) (set_pool_32 p m)
                 else set_pool_32 p m) = set_pool_32 p m).
      { rewrite H32. unfold sf_buffer_pool_release.
        destruct (size' <=? 8)%nat.
        - rewrite H8'. cbn [Nat.eqb andb]. exact E8'.
        - destruct (size' <=? 16)%nat.
          + rewrite H16'. cbn [Nat.eqb andb]. exact E16'.
          + destruct (size' <=? 32)%nat; [congruence|reflexivity]. }
      rewrite sf_pool_release_same. split; [reflexivity|exact Hused].
Qed.

Lemma pools_sized_global : pools_sized sf_global_pool.
Proof. intros Hi. discriminate. Qed.

Lemma pool_acquire_hands_out_free_block_witness :
  exists mgr',
    sf_pool_acquire sf_global_pool 12 = (Some (Buffer 16 0), mgr')
    /\ in_use_of mgr' (Buffer 16 0) = Some true
    /\ in_use_of mgr' (Buffer 16 1) = Some false.
Proof.
  assert (exists mgr', sf_pool_acquire sf_global_pool 12
                       = (Some (Buffer 16 0), mgr')) as [mgr' Ha]
    by (eexists; reflexivity).
  destruct (pool_acquire_hands_out_free_block sf_global_pool 12
              (Buffer 16 0) mgr' pools_sized_global Ha)
    as (_ & Hused & _ & Hother & _).
  exists mgr'. split; [exact Ha|]. split; [exact Hused|].
  rewrite Hother by discriminate. reflexivity.
Defined.

Lemma pool_release_returns_block_witness :
  exists mgr',
    sf_pool_acquire sf_global_pool 12 = (Some (Buffer 16 0), mgr')
    /\ sf_pool_release mgr' (Some (Buffer 16 0)) 12
       = sf_pool_init sf_global_pool
    /\ sf_pool_release mgr' (Some (Buffer 16 0)) 8 = mgr'.
Proof.
  assert (exists mgr', sf_pool_acquire sf_global_pool 12
                       = (Some (Buffer 16 0), mgr')) as [mgr' Ha]
    by (eexists; reflexivity).
  destruct (pool_release_returns_block sf_global_pool 12 (Buffer 16 0) mgr'
              pools_sized_global Ha) as (Hback & Hwrong).
  exists mgr'. split; [exact Ha|]. split; [exact Hback|].
  apply (Hwrong 8%nat). vm_compute. discriminate.
Defined.

(** ** The file of cached singletons *)

Lemma Z_of_byte_of_Z z : Z_of_byte (byte_of_Z z) = (z mod 256)%Z.
Proof.
  unfold Z_of_byte, byte_of_Z.
  assert (0 <= z mod 256 < 256)%Z as Hr by (apply Z.mod_pos_bound; lia).
  destruct (Byte.of_N (Z.to_N (z mod 256))) as [b|] eqn:Hb.
  - cbn [default from_option id]. rewrite (Byte.to_of_N _ Hb). lia.
  - apply Byte.of_N_None_iff in Hb. lia.
Qed.

Lemma uint32_of_uint32_bytes x :
  (0 <= x < 2 ^ 32)%Z -> uint32_of_bytes (uint32_bytes x) = x.
Proof.
  intros Hx. unfold uint32_of_bytes, uint32_bytes. cbn [fold_right].
  rewrite !Z_of_byte_of_Z, !Z.shiftr_div_pow2 by lia.
  change (2 ^ 8)%Z with 256%Z. change (2 ^ 16)%Z with (256 * 256)%Z.
  change (2 ^ 24)%Z with (256 * 256 * 256)%Z.
  change (2 ^ 32)%Z with (256 * 256 * 256 * 256)%Z in Hx.
  rewrite <- !Z.div_div by lia.
  pose proof (Z.div_mod x 256 ltac:(lia)) as H0.
  pose proof (Z.div_mod (x / 256) 256 ltac:(lia)) as H1.
  pose proof (Z.div_mod (x / 256 / 256) 256 ltac:(lia)) as H2.
  assert (x / 256 / 256 / 256 < 256)%Z as H3.
  { repeat (apply Z.div_lt_upper_bound; [lia|]). lia. }
  assert (0 <= x / 256 / 256 / 256)%Z as H3'
    by (repeat (apply Z.div_pos; [|lia]); lia).
  rewrite (Z.mod_small (x / 256 / 256 / 256)) by lia. lia.
Qed.

Lemma fread_item item rest :
  item <> [] -> fread (length item) (item ++ rest) = Some (item, rest).
Proof.
  intros Hne. unfold fread.
  destruct item as [|b item]; [contradiction|].
  cbn [length Nat.eqb].
  replace (length ((b :: item) ++ rest) <? S (length item))%nat with false
    by (symmetry; apply Nat.ltb_ge; rewrite length_app; cbn; lia).
  change (S (length item)) with (length (b :: item)).
  rewrite take_app_length, drop_app_length. reflexivity.
Qed.

Lemma fread_uint32 x rest :
  fread 4 (uint32_bytes x ++ rest) = Some (uint32_bytes x, rest).
Proof. apply (fread_item (uint32_bytes x)). discriminate. Qed.

Lemma length_list_byte_of_string s :
  length (list_byte_of_string s) = String.length s.
Proof. induction s as [|c s IH]; cbn; [reflexivity|]. f_equal. exact IH. Qed.

Lemma zend_hash_add_keeps ht k v k' v' :
  ht !! k' = Some v' -> zend_hash_add ht k v !! k' = Some v'.
Proof.
  intros Hk. unfold zend_hash_add.
  destruct (ht !! k) eqn:Hh; [exact Hk|].
  rewrite lookup_insert_ne by congruence. exact Hk.
Qed.

Section CacheFile.
Context `{Storage}.

Lemma save_services_bytes entries fp :
  Forall storable entries ->
  save_services entries fp = (SUCCESS, fp ++ flat_map service_bytes entries).
Proof.
  intros Hall. revert fp.
  induction Hall as [|[key val] rest He _ IH]; intros fp;
    cbn [save_services flat_map].
  - rewrite app_nil_r. reflexivity.
  - unfold service_bytes at 1. cbn [fst snd].
    destruct (Z_TYPE_is_object val) eqn:Ho; cbn [negb];
      [|rewrite IH; reflexivity].
    destruct (He Ho) as (Hk0 & Hk & Hv0 & Hv & _). cbn [fst snd] in *.
    assert (list_byte_of_string key <> []) as Hkne.
    { intros E. rewrite <- length_list_byte_of_string, E in Hk0.
      cbn in Hk0. lia. }
    assert (php_var_serialize val <> []) as Hvne.
    { intros E. rewrite E in Hv0. cbn in Hv0. lia. }
    unfold uint32. rewrite !Z.mod_small by lia. rewrite !Nat2Z.id.
    rewrite <- !(length_list_byte_of_string key). rewrite !firstn_all.
    unfold fwrite.
    destruct (list_byte_of_string key) as [|kb krest] eqn:Hkey;
      [contradiction|].
    destruct (php_var_serialize val) as [|vb vrest] eqn:Hval;
      [contradiction|].
    cbn [length Nat.eqb uint32_bytes]. rewrite IH.
    f_equal. rewrite <- !app_assoc. reflexivity.
Qed.

Lemma load_services_bytes entries rest instances :
  Forall storable entries ->
  load_services
    (length (List.filter (fun e => Z_TYPE_is_object (snd e)) entries))
    (flat_map service_bytes entries ++ rest) instances
  = (SUCCESS, add_objects entries instances).
Proof.
  intros Hall. revert instances.
  induction Hall as [|[key val] more He _ IH]; intros instances;
    cbn [List.filter flat_map].
  - reflexivity.
  - unfold service_bytes at 1. unfold add_objects. cbn [fst snd List.filter].
    destruct (Z_TYPE_is_object val) eqn:Ho;
      [|cbn [app]; apply IH].
    destruct (He Ho) as (Hk0 & Hk & Hv0 & Hv & Hround). cbn [fst snd] in *.
    cbn [length load_services fold_left fst snd].
    rewrite <- !app_assoc.
    rewrite fread_uint32, uint32_of_uint32_bytes, Nat2Z.id by lia.
    rewrite <- length_list_byte_of_string at 1.
    rewrite fread_item
      by (intros E; rewrite <- length_list_byte_of_string, E in Hk0;
          cbn in Hk0; lia).
    rewrite fread_uint32, uint32_of_uint32_bytes, Nat2Z.id by lia.
    rewrite fread_item by (intros E; rewrite E in Hv0; cbn in Hv0; lia).
    rewrite Hround, string_of_list_byte_of_string.
    apply IH.
Qed.

Lemma add_objects_keeps entries instances k v :
  instances !! k = Some v -> add_objects entries instances !! k = Some v.
Proof.
  unfold add_objects.
  generalize (List.filter (fun e => Z_TYPE_is_object (snd e)) entries).
  intros l. revert instances.
  induction l as [|e l IH]; intros instances Hk; [exact Hk|].
  cbn [fold_left]. apply IH, zend_hash_add_keeps, Hk.
Qed.

Lemma fold_add_lookup (l : list (string * zval)) instances k v :
  NoDup (map fst l) ->
  (forall e, In e l -> instances !! fst e = None) ->
  fold_left (fun ht e => zend_hash_add ht (fst e) (snd e)) l instances !! k
  = Some v
  <-> instances !! k = Some v \/ In (k, v) l.
Proof.
  revert instances. induction l as [|[k0 v0] rest IH];
    intros instances Hnd Hfresh.
  - cbn. tauto.
  - cbn [map fst] in Hnd.
    apply NoDup_cons in Hnd as [Hk0 Hnd]. cbn [fold_left fst snd].
    assert (instances !! k0 = None) as Hnone
      by (apply (Hfresh (k0, v0)); left; reflexivity).
    assert (forall x, In (k0, x) rest -> False) as Hfirst.
    { intros x Hin. apply Hk0. apply list_elem_of_In.
      apply (in_map fst) in Hin. exact Hin. }
    unfold zend_hash_add at 2. rewrite Hnone. rewrite IH.
    + destruct (decide (k = k0)) as [->|Hne].
      * rewrite lookup_insert_eq, Hnone. split.
        -- intros [E|Hin]; [|destruct (Hfirst _ Hin)].
           injection E as <-. right. left. reflexivity.
        -- intros [E|[E|Hin]]; [discriminate| |destruct (Hfirst _ Hin)].
           injection E as <-. left. reflexivity.
      * rewrite lookup_insert_ne by congruence. split.
        -- intros [E|Hin]; [left; exact E|right; right; exact Hin].
        -- intros [E|[E|Hin]]; [left; exact E| |right; exact Hin].
           injection E as -> ->. contradiction.
    + exact Hnd.
    + intros e Hin. rewrite lookup_insert_ne.
      * apply Hfresh. right. exact Hin.
      * intros E. apply Hk0. apply list_elem_of_In.
        rewrite E. apply in_map. exact Hin.
Qed.

Lemma add_objects_lookup entries k v :
  NoDup (map fst entries) ->
  add_objects entries ∅ !! k = Some v
  <-> In (k, v) entries /\ Z_TYPE_is_object v = true.
Proof.
  intros Hnd. unfold add_objects. rewrite fold_add_lookup.
  - rewrite lookup_empty, filter_In. cbn [snd].
    split; [intros [E|E]; [discriminate|exact E]|auto].
  - clear k v. induction entries as [|[k0 v0] rest IH]; [constructor|].
    cbn [map fst] in Hnd.
    apply NoDup_cons in Hnd as [Hk0 Hnd]. cbn [List.filter snd].
    destruct (Z_TYPE_is_object v0); [|apply IH, Hnd].
    cbn [map fst]. apply NoDup_cons. split; [|apply IH, Hnd].
    intros Hin. apply Hk0. apply list_elem_of_In. apply list_elem_of_In in Hin.
    apply in_map_iff in Hin as (e & He & Hin).
    apply filter_In in Hin as [Hin _]. rewrite <- He.
    apply in_map. exact Hin.
  - intros e _. apply lookup_empty.
Qed.

(** X20.  What [sf_cache_save] writes, [sf_cache_load] reads back: for a table
    that is not empty, whose objects are storable, and a file that can be
    opened, the save writes the header and the services of the objects,
    the file is recognized by [sf_cache_exists], and the load adds the
    saved objects to the table it is given, each under its name; loaded
    into an empty table, a table with distinct names gives exactly its
    objects. *)
Theorem cache_file_round_trip path entries fs instances :
  entries <> [] ->
  fopen_wb path = true ->
  Forall storable entries ->
  (Z.of_nat (length (List.filter (fun e => Z_TYPE_is_object (snd e))
                                 entries)) < 2 ^ 32)%Z ->
  let fs' := <[path := cache_file_bytes entries]> fs in
  sf_cache_save path entries fs = (SUCCESS, fs')
  /\ sf_cache_exists fs' path = true
  /\ sf_cache_load path instances fs' = (SUCCESS, add_objects entries instances)
  /\ (NoDup (map fst entries) ->
      forall k v, add_objects entries ∅ !! k = Some v
                  <-> In (k, v) entries /\ Z_TYPE_is_object v = true).
Proof.
  intros Hne Hopen Hall Hcount fs'. split; [|split; [|split]].
  - unfold sf_cache_save. destruct entries as [|e rest]; [contradiction|].
    rewrite Hopen. cbn [negb]. unfold fwrite at 1 2 3.
    cbn [uint32_bytes app].
    rewrite save_services_bytes by exact Hall.
    unfold uint32. rewrite Z.mod_small by lia. reflexivity.
  - unfold sf_cache_exists. subst fs'. rewrite lookup_insert_eq.
    unfold cache_file_bytes. rewrite fread_uint32.
    rewrite uint32_of_uint32_bytes by (unfold SF_CACHE_MAGIC; lia).
    apply Z.eqb_refl.
  - unfold sf_cache_load. subst fs'. rewrite lookup_insert_eq.
    unfold cache_file_bytes.
    rewrite fread_uint32, uint32_of_uint32_bytes
      by (unfold SF_CACHE_MAGIC; lia).
    rewrite Z.eqb_refl. cbn [negb].
    rewrite fread_uint32, uint32_of_uint32_bytes
      by (unfold SF_CACHE_VERSION; lia).
    rewrite Z.eqb_refl. cbn [negb].
    rewrite fread_uint32, uint32_of_uint32_bytes, Nat2Z.id by lia.
    rewrite <- (app_nil_r (flat_map service_bytes entries)).
    apply load_services_bytes, Hall.
  - intros Hnd k v. apply add_objects_lookup, Hnd.
Qed.

Lemma load_services_keeps left fp instances k v :
  instances !! k = Some v ->
  snd (load_services left fp instances) !! k = Some v.
Proof.
  revert fp instances. induction left as [|left IH]; intros fp instances Hk;
    cbn [load_services]; [exact Hk|].
  repeat match goal with
         | |- context [match fread ?n ?s with _ => _ end] =>
             destruct (fread n s) as [[? ?]|]; [|exact Hk]
         end.
  destruct (php_var_unserialize _); [|exact Hk].
  apply IH, zend_hash_add_keeps, Hk.
Qed.

(** X21.  [sf_cache_load] fails on a file that [sf_cache_exists] does not
    recognize (missing, shorter than the magic number, or with another
    magic number) and then adds nothing; whatever the file holds, an entry
    of the table is never replaced or dropped by a load. *)
Theorem cache_load_keeps_table path instances fs :
  (sf_cache_exists fs path = false ->
   sf_cache_load path instances fs = (FAILURE, instances))
  /\ (forall k v, instances !! k = Some v ->
                  snd (sf_cache_load path instances fs) !! k = Some v).
Proof.
  unfold sf_cache_exists, sf_cache_load. split.
  - destruct (fs !! path) as [fp|]; [|reflexivity].
    destruct (fread 4 fp) as [[magic rest]|]; [|reflexivity].
    intros ->. reflexivity.
  - intros k v Hk.
    destruct (fs !! path) as [fp|]; [|exact Hk].
    destruct (fread 4 fp) as [[magic rest]|]; [|exact Hk].
    destruct (negb _); [exact Hk|].
    destruct (fread 4 rest) as [[version rest']|]; [|exact Hk].
    destruct (negb _); [exact Hk|].
    destruct (fread 4 rest') as [[count rest'']|]; [|exact Hk].
    apply load_services_keeps, Hk.
Qed.

End CacheFile.

Lemma cache_file_round_trip_witness :
  let entries := [("log", IS_OBJECT "Logger" []); ("answer", IS_LONG 42)] in
  let fs' := <["/tmp/c.bin" := cache_file_bytes (H := sample_storage) entries]>
               (∅ : gmap string (list Byte.byte)) in
  sf_cache_save (H := sample_storage) "/tmp/c.bin" entries ∅ = (SUCCESS, fs')
  /\ sf_cache_load (H := sample_storage) "/tmp/c.bin" ∅ fs'
     = (SUCCESS, {[ "log" := IS_OBJECT "Logger" [] ]}).
Proof.
  intros entries fs'.
  destruct (cache_file_round_trip (H := sample_storage) "/tmp/c.bin" entries
              ∅ ∅ ltac:(discriminate) eq_refl) as (Hs & _ & Hl & _).
  - constructor; [|constructor; [|constructor]].
    + intros _. cbn [fst snd].
      repeat split; vm_compute; first [lia | reflexivity].
    + intros Ho. discriminate.
  - vm_compute. reflexivity.
  - split; [exact Hs|]. etransitivity; [exact Hl|]. reflexivity.
Defined.

Section CacheFileEdges.
Context `{Storage}.

Lemma save_after_header path e entries fs :
  fopen_wb path = true ->
  sf_cache_save path (e :: entries) fs
  = (fst (save_services (e :: entries)
            (uint32_bytes SF_CACHE_MAGIC ++ uint32_bytes SF_CACHE_VERSION
             ++ uint32_bytes
                  (uint32 (Z.of_nat
                     (length (List.filter
                                (fun e => Z_TYPE_is_object (snd e))
                                (e :: entries))))))),
     <[path := snd (save_services (e :: entries)
            (uint32_bytes SF_CACHE_MAGIC ++ uint32_bytes SF_CACHE_VERSION
             ++ uint32_bytes
                  (uint32 (Z.of_nat
                     (length (List.filter
                                (fun e => Z_TYPE_is_object (snd e))
                                (e :: entries)))))))]> fs).
Proof.
  intros Hopen. unfold sf_cache_save. rewrite Hopen. cbn [negb].
  unfold fwrite at 1 2 3. cbn [uint32_bytes app].
  destruct (save_services _ _). reflexivity.
Qed.

Lemma load_after_header path count body fs instances :
  (0 <= count < 2 ^ 32)%Z ->
  sf_cache_load path instances
    (<[path := uint32_bytes SF_CACHE_MAGIC ++ uint32_bytes SF_CACHE_VERSION
               ++ uint32_bytes count ++ body]> fs)
  = load_services (Z.to_nat count) body instances.
Proof.
  intros Hc. unfold sf_cache_load. rewrite lookup_insert_eq.
  rewrite fread_uint32, uint32_of_uint32_bytes
    by (unfold SF_CACHE_MAGIC; lia).
  rewrite Z.eqb_refl. cbn [negb].
  rewrite fread_uint32, uint32_of_uint32_bytes
    by (unfold SF_CACHE_VERSION; lia).
  rewrite Z.eqb_refl. cbn [negb].
  rewrite fread_uint32, uint32_of_uint32_bytes by lia. reflexivity.
Qed.

(** X22.  [sf_cache_save] of an empty table reports success and touches no
    file; when the file cannot be opened it fails and touches no file;
    when the first object of the table is cached under the empty name it
    fails after the header and the length of the name, and the file it
    leaves is recognized by [sf_cache_exists] and rejected by
    [sf_cache_load], which adds nothing. *)
Theorem cache_save_edge_cases path fs instances :
  sf_cache_save path [] fs = (SUCCESS, fs)
  /\ (forall entries, entries <> [] -> fopen_wb path = false ->
        sf_cache_save path entries fs = (FAILURE, fs))
  /\ (forall v rest,
        Z_TYPE_is_object v = true -> fopen_wb path = true ->
        (Z.of_nat (length (List.filter (fun e => Z_TYPE_is_object (snd e))
                                       (("", v) :: rest))) < 2 ^ 32)%Z ->
        exists fs',
          sf_cache_save path (("", v) :: rest) fs = (FAILURE, fs')
          /\ sf_cache_exists fs' path = true
          /\ sf_cache_load path instances fs' = (FAILURE, instances)).
Proof.
  split; [reflexivity|]. split.
  - intros [|e rest] Hne Hopen; [contradiction|].
    unfold sf_cache_save. rewrite Hopen. reflexivity.
  - intros v rest Ho Hopen Hcount.
    rewrite save_after_header by exact Hopen.
    unfold uint32 at 1 2. rewrite !Z.mod_small by lia.
    set (count := Z.of_nat _) in *.
    assert (forall fp, save_services (("", v) :: rest) fp
                       = (FAILURE, fp ++ uint32_bytes 0)) as Hsave.
    { intros fp. cbn [save_services]. rewrite Ho. reflexivity. }
    rewrite Hsave. cbn [fst snd]. eexists. split; [reflexivity|].
    rewrite <- !app_assoc. split.
    + unfold sf_cache_exists. rewrite lookup_insert_eq, fread_uint32.
      rewrite uint32_of_uint32_bytes by (unfold SF_CACHE_MAGIC; lia).
      apply Z.eqb_refl.
    + rewrite load_after_header by lia.
      assert (exists n, Z.to_nat count = S n) as [n ->].
      { subst count. cbn [List.filter snd]. rewrite Ho. cbn [length].
        rewrite Nat2Z.id. eauto. }
      cbn [load_services].
      rewrite <- (app_nil_r (uint32_bytes 0)), fread_uint32.
      rewrite uint32_of_uint32_bytes by lia. reflexivity.
Qed.

End CacheFileEdges.

(** ** The SIMD scan of a group *)

Lemma mask_of_nonneg flags : (0 <= mask_of flags)%Z.
Proof. induction flags as [|[] rest IH]; cbn [mask_of]; lia. Qed.

Lemma lor_1_even m : Z.lor 1 (2 * m) = (1 + 2 * m)%Z.
Proof.
  assert (Z.land 1 (2 * m) = 0%Z) as Hd.
  { apply Z.bits_inj'. intros n Hn. rewrite Z.land_spec, Z.bits_0.
    destruct (Z.eq_dec n 0%Z) as [->|Hne].
    - rewrite Z.testbit_even_0. apply andb_false_r.
    - replace n with (Z.succ (n - 1))%Z by lia.
      change 1%Z with (2 * 0 + 1)%Z at 1.
      rewrite Z.testbit_odd_succ, Z.bits_0 by lia. reflexivity. }
  rewrite Z.add_nocarry_lxor, Z.lxor_lor by exact Hd. reflexivity.
Qed.

Lemma movemask_i8_from_mask i lanes :
  (0 <= i)%Z ->
  movemask_i8_from i lanes
  = (2 ^ i * mask_of (map (fun v => negb (Z.land v 128 =? 0)%Z) lanes))%Z.
Proof.
  revert i. induction lanes as [|v rest IH]; intros i Hi;
    cbn [movemask_i8_from map mask_of]; [lia|].
  rewrite IH by lia. rewrite Z.pow_add_r by lia. change (2 ^ 1)%Z with 2%Z.
  set (m := mask_of _).
  destruct (Z.land v 128 =? 0)%Z; cbn [negb].
  - rewrite Z.lor_0_l. lia.
  - rewrite Z.shiftl_1_l.
    replace (2 ^ i * 2 * m)%Z with (Z.shiftl (2 * m) i)
      by (rewrite Z.shiftl_mul_pow2 by lia; lia).
    replace (2 ^ i)%Z with (Z.shiftl 1 i) at 1
      by (rewrite Z.shiftl_1_l; reflexivity).
    rewrite <- Z.shiftl_lor, lor_1_even, Z.shiftl_mul_pow2 by lia. lia.
Qed.

Lemma cmpeq_i8_flags (ctrls : list Z) fp n :
  map (fun v => negb (Z.land v 128 =? 0)%Z)
      (sf_simd_cmpeq_i8 (take n ctrls) (repeat fp n))
  = map (fun c => (c =? fp)%Z) (take n ctrls).
Proof.
  unfold sf_simd_cmpeq_i8. revert ctrls.
  induction n as [|n IH]; intros [|c ctrls]; cbn; try reflexivity.
  rewrite IH. f_equal. destruct (c =? fp)%Z; reflexivity.
Qed.

Lemma land_even_odd a b : Z.land (2 * a) (2 * b + 1) = (2 * Z.land a b)%Z.
Proof.
  apply Z.bits_inj'. intros n Hn. rewrite Z.land_spec.
  destruct (Z.eq_dec n 0%Z) as [->|Hne].
  - rewrite !Z.testbit_even_0. reflexivity.
  - replace n with (Z.succ (n - 1))%Z by lia.
    rewrite !Z.testbit_even_succ, Z.testbit_odd_succ, Z.land_spec by lia.
    reflexivity.
Qed.

Lemma land_odd_even a : Z.land (1 + 2 * a) (2 * a) = (2 * a)%Z.
Proof.
  apply Z.bits_inj'. intros n Hn. rewrite Z.land_spec.
  destruct (Z.eq_dec n 0%Z) as [->|Hne].
  - rewrite Z.testbit_even_0. apply andb_false_r.
  - replace n with (Z.succ (n - 1))%Z by lia.
    rewrite (Z.add_comm 1), Z.testbit_even_succ, Z.testbit_odd_succ by lia.
    apply andb_diag.
Qed.

(** Clearing the lowest set bit: [mask & (mask - 1)]. *)
Lemma clear_lowest_bit (i : nat) q :
  (0 <= q)%Z ->
  Z.land (2 ^ Z.of_nat i * (1 + 2 * q))
         (2 ^ Z.of_nat i * (1 + 2 * q) - 1)
  = (2 ^ Z.of_nat (S i) * q)%Z.
Proof.
  intros Hq. induction i as [|i IH].
  - change (2 ^ Z.of_nat 0)%Z with 1%Z. change (2 ^ Z.of_nat 1)%Z with 2%Z.
    rewrite !Z.mul_1_l. replace (1 + 2 * q - 1)%Z with (2 * q)%Z by lia.
    apply land_odd_even.
  - rewrite !Nat2Z.inj_succ, !Z.pow_succ_r in * by lia.
    set (A := (2 ^ Z.of_nat i * (1 + 2 * q))%Z) in *.
    assert (1 <= A)%Z as HA by (subst A; nia).
    replace (2 * 2 ^ Z.of_nat i * (1 + 2 * q))%Z with (2 * A)%Z
      by (subst A; lia).
    replace (2 * A - 1)%Z with (2 * (A - 1) + 1)%Z by lia.
    rewrite land_even_odd, IH. lia.
Qed.

Lemma ctz_loop_lowest_bit (i : nat) q left count :
  (0 <= q)%Z -> (i < left)%nat ->
  ctz_loop left (2 ^ Z.of_nat i * (1 + 2 * q)) count
  = (count + Z.of_nat i)%Z.
Proof.
  intros Hq. revert left count. induction i as [|i IH]; intros left count Hl;
    (destruct left as [|left]; [lia|]); cbn [ctz_loop].
  - change (2 ^ Z.of_nat 0)%Z with 1%Z. rewrite Z.mul_1_l.
    change 1%Z with (Z.ones 1) at 2. rewrite Z.land_ones by lia.
    replace ((1 + 2 * q) mod 2 ^ 1)%Z with 1%Z
      by (change (2 ^ 1)%Z with 2%Z; rewrite (Z.mul_comm 2 q),
          Z_mod_plus_full; reflexivity).
    cbn. lia.
  - rewrite Nat2Z.inj_succ, Z.pow_succ_r by lia.
    set (A := (2 ^ Z.of_nat i * (1 + 2 * q))%Z).
    replace (2 * 2 ^ Z.of_nat i * (1 + 2 * q))%Z with (2 * A)%Z
      by (subst A; lia).
    change 1%Z with (Z.ones 1) at 1. rewrite Z.land_ones by lia.
    replace ((2 * A) mod 2 ^ 1)%Z with 0%Z
      by (change (2 ^ 1)%Z with 2%Z; rewrite (Z.mul_comm 2 A), Z_mod_mult;
          reflexivity).
    cbn [Z.eqb]. rewrite Z.shiftr_div_pow2 by lia.
    change (2 ^ 1)%Z with 2%Z.
    replace (2 * A / 2)%Z with A
      by (rewrite (Z.mul_comm 2 A), Z.div_mul by lia; reflexivity).
    subst A. rewrite IH by lia. lia.
Qed.

Lemma simd_scan_suffix fp k suffix :
  forall prefix left,
    (length prefix + length suffix <= 32)%nat ->
    (length suffix <= left)%nat ->
    simd_scan left
      (2 ^ Z.of_nat (length prefix)
       * mask_of (map (fun s => (ctrl s =? fp)%Z) suffix))%Z
      k (prefix ++ suffix)
    = find_in_group fp k suffix.
Proof.
  induction suffix as [|s rest IH]; intros prefix left Hlen Hleft.
  - cbn [map mask_of find_in_group]. rewrite Z.mul_0_r.
    destruct left; reflexivity.
  - cbn [map mask_of find_in_group length] in *.
    pose proof (mask_of_nonneg (map (fun s => (ctrl s =? fp)%Z) rest)) as Hq.
    set (q := mask_of _) in *.
    assert (forall l, simd_scan l (2 ^ Z.of_nat (S (length prefix)) * q)%Z k
                        (prefix ++ s :: rest)
                      = simd_scan l
                          (2 ^ Z.of_nat (length (prefix ++ [s])) * q)%Z k
                          ((prefix ++ [s]) ++ rest)) as Hshift.
    { intros l. rewrite length_app, <- app_assoc. cbn [length app].
      replace (length prefix + 1)%nat with (S (length prefix)) by lia.
      reflexivity. }
    unfold slot_matches. destruct (ctrl s =? fp)%Z eqn:Hc; cbn [andb].
    + destruct left as [|left]; [lia|]. cbn [simd_scan].
      assert (2 ^ Z.of_nat (length prefix) * (1 + 2 * q) <> 0)%Z as Hnz
        by (pose proof (Z.pow_pos_nonneg 2 (Z.of_nat (length prefix)));
            nia).
      apply Z.eqb_neq in Hnz. rewrite Hnz.
      unfold sf_simd_ctz. rewrite Hnz.
      rewrite ctz_loop_lowest_bit by lia.
      rewrite Z.add_0_l, Nat2Z.id, clear_lowest_bit by lia.
      rewrite list_lookup_middle by reflexivity.
      rewrite Hshift, IH
        by (rewrite ?length_app; cbn [length]; lia).
      destruct (key s) as [k'|]; [|reflexivity].
      destruct (String.eqb k' k); reflexivity.
    + replace (2 ^ Z.of_nat (length prefix) * (0 + 2 * q))%Z
        with (2 ^ Z.of_nat (S (length prefix)) * q)%Z
        by (rewrite Nat2Z.inj_succ, Z.pow_succ_r by lia; lia).
      rewrite Hshift. apply IH; rewrite ?length_app; cbn [length]; lia.
Qed.

(** Where the mask has the bit of every matching lane at the place of the
    lane (SSE2, and the scalar fallback), the SIMD scan of a group of at
    most sixteen slots finds what the scalar scan finds. *)
Lemma find_in_group_simd_scalar platform fp k slots :
  platform <> NEON ->
  (length slots <= 16)%nat ->
  find_in_group_simd platform fp k slots = find_in_group fp k slots.
Proof.
  intros Hp Hlen. unfold find_in_group_simd. cbv zeta.
  replace (sf_simd_movemask_i8 platform) with (movemask_i8_from 0)
    by (destruct platform; [reflexivity | congruence | reflexivity]).
  unfold sf_simd_load_i8x16, sf_simd_set1_i8.
  rewrite movemask_i8_from_mask by lia.
  rewrite cmpeq_i8_flags.
  rewrite firstn_all2 by (rewrite length_map; exact Hlen).
  rewrite map_map.
  apply (simd_scan_suffix fp k slots [] 32); cbn [length]; lia.
Qed.

Lemma group_within_bound lookup g :
  Forall (fun group => length group <= 16)%nat (groups lookup) ->
  (length (default [] (groups lookup !! g)) <= 16)%nat.
Proof.
  intros Hwf. destruct (groups lookup !! g) as [group|] eqn:Hg;
    cbn [default from_option id length]; [|lia].
  eapply Forall_forall in Hwf; [exact Hwf|].
  eapply list_elem_of_lookup_2, Hg.
Qed.

Lemma find_probe_simd_scalar platform lookup fp k left g :
  platform <> NEON ->
  Forall (fun group => length group <= 16)%nat (groups lookup) ->
  find_probe_simd platform lookup fp k left g = find_probe lookup fp k left g.
Proof.
  intros Hp Hwf. revert g. induction left as [|left IH]; intros g;
    [reflexivity|].
  cbn [find_probe_simd find_probe].
  rewrite find_in_group_simd_scalar
    by (try exact Hp; apply group_within_bound, Hwf).
  rewrite IH. reflexivity.
Qed.

(** X23.  On a build whose mask of the matching control bytes is the one of
    SSE2 (bit [i] for lane [i], as the scalar fallback of simd.h computes
    it too), the lookup compiled with the SIMD scan (a comparison of the
    sixteen control bytes at once, then the matching slots taken lowest
    bit first) returns what the scalar lookup returns, on every table whose
    groups hold at most sixteen slots.  The NEON build is excluded: its
    mask is another one. *)
Theorem simd_find_agrees_with_scalar `{Zend} platform lookup k :
  platform <> NEON ->
  Forall (fun group => length group <= 16)%nat (groups lookup) ->
  sf_fast_lookup_find_simd platform lookup k = sf_fast_lookup_find lookup k.
Proof.
  intros Hp Hwf. unfold sf_fast_lookup_find_simd, sf_fast_lookup_find.
  cbv zeta.
  rewrite find_in_group_simd_scalar
    by (try exact Hp; apply group_within_bound, Hwf).
  rewrite find_probe_simd_scalar by assumption. reflexivity.
Qed.

Lemma simd_find_agrees_with_scalar_witness :
  sf_fast_lookup_find_simd (H := host64) SSE2 loaded_table (xs 3)
  = sf_fast_lookup_find (H := host64) loaded_table (xs 3).
Proof.
  apply (simd_find_agrees_with_scalar (H := host64) SSE2 loaded_table (xs 3)).
  - discriminate.
  - assert (forallb (fun group => (length group <=? 16)%nat)
                    (groups loaded_table) = true) as Hb
      by (vm_compute; reflexivity).
    apply Forall_forall. intros group Hin. apply list_elem_of_In in Hin.
    rewrite forallb_forall in Hb. apply Nat.leb_le, Hb, Hin.
Defined.

(** ** The mask of the NEON build *)

Lemma find_in_group_single fp k before s after :
  ctrl s = fp -> key s = Some k ->
  Forall (fun s' => ctrl s' <> fp /\ key s' <> Some k) before ->
  find_in_group fp k (before ++ s :: after) = Some (value s).
Proof.
  intros Hc Hk Hb. induction Hb as [|s' before [Hs' _] _ IH];
    cbn [app find_in_group]; unfold slot_matches.
  - rewrite Hc, Hk, Z.eqb_refl, String.eqb_refl. reflexivity.
  - apply Z.eqb_neq in Hs'. rewrite Hs'. exact IH.
Qed.

Lemma cmpeq_i8_single fp before s after :
  ctrl s = fp ->
  Forall (fun s' => ctrl s' <> fp) (before ++ after) ->
  length (before ++ s :: after) = 16%nat ->
  sf_simd_cmpeq_i8 (sf_simd_load_i8x16 (map ctrl (before ++ s :: after)))
                   (sf_simd_set1_i8 fp)
  = repeat 0%Z (length before) ++ 255%Z :: repeat 0%Z (length after).
Proof.
  intros Hc Hne Hlen.
  unfold sf_simd_load_i8x16, sf_simd_set1_i8, sf_simd_cmpeq_i8.
  rewrite firstn_all2 by (rewrite length_map; lia).
  rewrite <- Hlen. clear Hlen.
  apply Forall_app in Hne as [Hb Ha].
  induction Hb as [|s' before Hs' _ IH].
  - cbn [app length map repeat zip_with]. rewrite Hc, Z.eqb_refl. f_equal.
    clear Hc. induction Ha as [|s' after Hs' _ IH];
      cbn [length map repeat zip_with]; [reflexivity|].
    apply Z.eqb_neq in Hs'. rewrite Hs', IH. reflexivity.
  - cbn [app length map repeat zip_with].
    apply Z.eqb_neq in Hs'. rewrite Hs', IH. reflexivity.
Qed.

Lemma lookup_other_slot {A} (P : A -> Prop) (before : list A) s after j s' :
  Forall P (before ++ after) ->
  j <> length before ->
  (before ++ s :: after) !! j = Some s' -> P s'.
Proof.
  intros HP Hj Hl. apply Forall_app in HP as [Hb Ha].
  destruct (decide (j < length before)%nat) as [Hlt|Hge].
  - rewrite lookup_app_l in Hl by exact Hlt.
    exact (proj1 (Forall_lookup P before) Hb j s' Hl).
  - rewrite lookup_app_r in Hl by lia.
    destruct (j - length before)%nat as [|j'] eqn:Hd; [lia|].
    cbn in Hl. exact (proj1 (Forall_lookup P after) Ha j' s' Hl).
Qed.

(** One turn of the scan on a mask of one bit: the slot named by the bit
    holds another key, and nothing is left to visit. *)
Lemma simd_scan_one_bit left k slots pos s' :
  (pos < 32)%nat ->
  slots !! pos = Some s' -> key s' <> Some k ->
  simd_scan (S (S left)) (2 ^ Z.of_nat pos) k slots = None.
Proof.
  intros Hpos Hl Hk. cbn [simd_scan].
  assert (2 ^ Z.of_nat pos <> 0)%Z as Hnz
    by (pose proof (Z.pow_pos_nonneg 2 (Z.of_nat pos)); lia).
  apply Z.eqb_neq in Hnz. rewrite Hnz. cbv zeta.
  unfold sf_simd_ctz. rewrite Hnz.
  replace (2 ^ Z.of_nat pos)%Z with (2 ^ Z.of_nat pos * (1 + 2 * 0))%Z by lia.
  rewrite ctz_loop_lowest_bit by lia.
  rewrite clear_lowest_bit by lia. rewrite Z.mul_0_r, Z.add_0_l, Nat2Z.id, Hl.
  destruct (key s') as [k'|]; [|reflexivity].
  destruct (String.eqb_spec k' k) as [->|_]; [congruence|reflexivity].
Qed.


(** X27.  On a NEON build the mask does not carry lane [i] in bit [i].  In a
    group of sixteen slots of which only slot [i] carries the fingerprint
    and holds the key, for [i] one of 1 to 6, 8 to 11, 13 and 15, the
    scalar scan and the scan of an SSE2 build return the value of the
    slot, and the scan of a NEON build misses it: the bit of the lane is
    lost, or names another slot of the group. *)
Theorem neon_scan_misses_entry fp k before s after :
  length (before ++ s :: after) = 16%nat ->
  In (length before) [1; 2; 3; 4; 5; 6; 8; 9; 10; 11; 13; 15]%nat ->
  ctrl s = fp -> key s = Some k ->
  Forall (fun s' => ctrl s' <> fp /\ key s' <> Some k) (before ++ after) ->
  find_in_group fp k (before ++ s :: after) = Some (value s)
  /\ find_in_group_simd SSE2 fp k (before ++ s :: after) = Some (value s)
  /\ find_in_group_simd NEON fp k (before ++ s :: after) = None.
Proof.
  intros Hlen Hin Hc Hk Hothers.
  assert (find_in_group fp k (before ++ s :: after) = Some (value s))
    as Hscalar.
  { apply find_in_group_single; [assumption..|].
    apply Forall_app in Hothers as [Hb _]. exact Hb. }
  split; [exact Hscalar|]. split.
  { rewrite find_in_group_simd_scalar by (try discriminate; lia).
    exact Hscalar. }
  unfold find_in_group_simd. cbv zeta.
  rewrite cmpeq_i8_single;
    [|exact Hc
     |eapply Forall_impl; [exact Hothers|]; intros ? [? _]; assumption
     |exact Hlen].
  assert (length after = (15 - length before)%nat) as Ha
    by (rewrite length_app in Hlen; cbn [length] in Hlen; lia).
  rewrite Ha.
  assert (forall pos, (pos < 16)%nat -> pos <> length before ->
            simd_scan 32 (2 ^ Z.of_nat pos) k (before ++ s :: after) = None)
    as Hvisit.
  { intros pos Hpos Hne.
    destruct (lookup_lt_is_Some_2 (before ++ s :: after) pos) as [s' Hs'];
      [lia|].
    apply (simd_scan_one_bit 30 k _ pos s'); [lia|exact Hs'|].
    exact (proj2 (lookup_other_slot _ before s after pos s' Hothers Hne Hs')). }
  cbn [In] in Hin.
  repeat (destruct Hin as [Hi|Hin]); try contradiction; rewrite <- Hi;
    match goal with
    | |- simd_scan 32 ?m k _ = None =>
        let v := eval vm_compute in m in
        change m with v;
        lazymatch v with
        | 0%Z => reflexivity
        | _ => idtac
        end
    end.
  - apply (Hvisit 8%nat); lia.
  - apply (Hvisit 3%nat); lia.
  - apply (Hvisit 11%nat); lia.
  - apply (Hvisit 6%nat); lia.
  - apply (Hvisit 14%nat); lia.
  - apply (Hvisit 9%nat); lia.
  - apply (Hvisit 12%nat); lia.
  - apply (Hvisit 15%nat); lia.
Qed.

Lemma neon_scan_misses_entry_witness :
  find_in_group 5 "Logger" neon_group = Some (IS_LONG 1)
  /\ find_in_group_simd SSE2 5 "Logger" neon_group = Some (IS_LONG 1)
  /\ find_in_group_simd NEON 5 "Logger" neon_group = None.
Proof.
  apply (neon_scan_misses_entry 5 "Logger" [empty_slot]
           {| ctrl := 5; key := Some "Logger"; value := IS_LONG 1 |}
           (repeat empty_slot 14)).
  - reflexivity.
  - cbn. tauto.
  - reflexivity.
  - reflexivity.
  - cbn [app]. apply Forall_forall. intros s' Hs'.
    assert (s' = empty_slot) as ->.
    { apply list_elem_of_In in Hs'. destruct Hs' as [<-|Hs']; [reflexivity|].
      apply repeat_spec in Hs'. exact Hs'. }
    split; discriminate.
Defined.

(** ** Exceptions raised by user code *)

(** X24.  A closure bound as a singleton that throws is not a failure of
    [make]: the call reports success with an undefined result and the
    exception pending, the undefined value is stored as the singleton,
    and every later [make] of the name returns it as a success without
    calling the closure again. *)
Theorem throwing_singleton_closure_is_cached `{Zend} n w a p ctx b id ce msg :
  let k := sf_resolve_alias (cont w) a in
  (1 <= num_groups (fast_cache (cont w)))%nat ->
  sf_fast_lookup_find (fast_cache (cont w)) k = None ->
  instances (cont w) !! k = None ->
  compiled_factory_for (cont w) k None = None ->
  sf_resolution_context_push (context (cont w)) k = (SUCCESS, ctx) ->
  bindings (cont w) !! k = Some b ->
  concrete b = IS_CLOSURE id ->
  scope b = SF_SCOPE_SINGLETON ->
  zend_call_function (CallClosure id)
    [IS_OBJECT sf_container_ce_name []; IS_ARRAY (default [] p)]
  = Threw ce msg ->
  exists w1,
    sf_container_make (S n) w a p None = Some (SUCCESS, IS_UNDEF, w1)
    /\ EG_exception w1 = Some (Exception ce msg (EG_exception w))
    /\ instances (cont w1) !! k = Some IS_UNDEF
    /\ (forall m p' r',
          sf_container_make (S m) w1 a p' r'
          = Some (SUCCESS, IS_UNDEF, on_container (set_cache_loaded true) w1)).
Proof.
  intros k Hg Hf Hi Hc Hp Hb Hcl Hsc Hcall.
  rewrite (make_bound n w a p None ctx b Hf Hi Hc Hp eq_refl Hb)
    by (left; rewrite Hsc; discriminate).
  rewrite Hcl, Hsc. cbn [sf_resolve_concrete]. cbv zeta. rewrite Hcall.
  eexists. split; [reflexivity|].
  set (w1 := pop_context _).
  assert (instances (cont w1) !! k = Some IS_UNDEF) as Hi1.
  { subst w1. cbn. apply lookup_insert_eq. }
  assert (sf_resolve_alias (cont w1) a = k) as Hk1 by reflexivity.
  split; [reflexivity|]. split; [exact Hi1|].
  intros m p' r'.
  assert (fast_cache (cont w1)
          = snd (sf_fast_lookup_insert (fast_cache (cont w)) k IS_UNDEF))
    as Hfc by reflexivity.
  destruct (sf_fast_lookup_insert (fast_cache (cont w)) k IS_UNDEF)
    as [[] t] eqn:Hins; cbn [snd] in Hfc.
  - apply make_fast_hit. rewrite Hk1, Hfc.
    eapply find_after_insert; eassumption.
  - apply make_instance_hit; rewrite Hk1; [|exact Hi1].
    rewrite Hfc. apply insert_failure_unchanged in Hins. subst t. exact Hf.
Qed.

Lemma throwing_singleton_closure_is_cached_witness :
  exists w1,
    sf_container_make (H := host64) 1 throwing_world "svc" None None
    = Some (SUCCESS, IS_UNDEF, w1)
    /\ sf_container_make (H := host64) 1 w1 "svc" None None
       = Some (SUCCESS, IS_UNDEF, on_container (set_cache_loaded true) w1).
Proof.
  assert (1 <= num_groups (fast_cache (cont throwing_world)))%nat as H1
    by (vm_compute; lia).
  assert (sf_fast_lookup_find (H := host64)
            (fast_cache (cont throwing_world)) "svc" = None) as H2
    by (vm_compute; reflexivity).
  assert (sf_resolution_context_push (H := host64)
            (context (cont throwing_world)) "svc"
          = (SUCCESS, snd (sf_resolution_context_push (H := host64)
                             (context (cont throwing_world)) "svc"))) as H3
    by (vm_compute; reflexivity).
  destruct (throwing_singleton_closure_is_cached (H := host64) 0
              throwing_world "svc" None _
              (sf_binding_create "svc" (IS_CLOSURE 2) SF_SCOPE_SINGLETON)
              2 (zend_ce_throwable "RuntimeException") "boom"
              H1 H2 eq_refl eq_refl H3 eq_refl eq_refl eq_refl eq_refl)
    as (w1 & Hm & _ & _ & Hagain).
  exists w1. split; [exact Hm|]. apply Hagain.
Defined.

(** X25.  A constructor that throws is not a failure of autowiring: for a
    class whose constructor takes no parameters, [sf_autowire_resolve]
    reports success with the object and leaves the exception pending. *)
Theorem throwing_constructor_is_not_a_failure `{Zend} mk cls p w ce ctor e msg :
  zend_lookup_class cls = Some ce ->
  ce_not_instantiable ce = false ->
  constructor ce = Some ctor ->
  arg_info ctor = [] ->
  reflection_cache (cont w) !! cls = None ->
  object_init_ex ce = SUCCESS ->
  zend_call_function (CallConstructor ce) [] = Threw e msg ->
  exists w',
    sf_autowire_resolve mk cls p w
    = Some (SUCCESS, IS_OBJECT (ce_name ce) [], w')
    /\ EG_exception w' = Some (Exception e msg (EG_exception w)).
Proof.
  intros Hl Hinst Hctor Hargs Hrc Hobj Hcall.
  unfold sf_autowire_resolve. rewrite Hl, Hinst.
  unfold fetch_metadata, sf_cache_get. rewrite Hrc.
  unfold sf_cache_build. rewrite Hinst, Hctor, Hargs.
  cbn [imap is_instantiable negb sf_autowire_build_args_direct params
       build_args_loop class_name].
  unfold sf_autowire_build_args_direct. cbn [params build_args_loop].
  unfold autowire_construct. rewrite Hobj, Hctor. cbv zeta. rewrite Hcall.
  eexists. split; [reflexivity|]. reflexivity.
Qed.

Lemma throwing_constructor_is_not_a_failure_witness :
  exists w',
    sf_autowire_resolve (H := host_throwing)
      (sf_container_make (H := host_throwing) 0) "Guarded" None fresh_world
    = Some (SUCCESS, IS_OBJECT "Guarded" [], w')
    /\ EG_exception w'
       = Some (Exception (zend_ce_throwable "RuntimeException") "boom" None).
Proof.
  exact (throwing_constructor_is_not_a_failure (H := host_throwing)
           (sf_container_make (H := host_throwing) 0) "Guarded" None
           fresh_world guarded_ce
           {| arg_info := []; required_num_args := 0 |}
           (zend_ce_throwable "RuntimeException") "boom"
           eq_refl eq_refl eq_refl eq_refl eq_refl eq_refl eq_refl).
Defined.

(** ** [sf_compiler_compile_all] *)

Lemma compile_class_instantiable meta ce sgl f :
  sf_compiler_compile_class meta ce sgl = Some f -> is_instantiable meta = true.
Proof.
  unfold sf_compiler_compile_class.
  destruct (sf_compiler_can_compile meta) eqn:Hcan; [|discriminate].
  intros _. unfold sf_compiler_can_compile in Hcan.
  apply andb_prop in Hcan as [Hcan _]. apply andb_prop in Hcan as [Hi _].
  exact Hi.
Qed.

Section CompileAll.
Context `{Zend}.

(** One turn of the loop, by cases. *)
Lemma compile_binding_cases a b c n :
  compile_binding a b (c, n)
  = match eligible_class b with
    | None => (c, n)
    | Some cls =>
        match zend_lookup_class cls with
        | None => (c, n)
        | Some ce =>
            let meta := metadata_for c cls ce in
            let c1 :=
              set_reflection_cache
                (sf_cache_put cls meta (reflection_cache c)) c in
            match sf_compiler_compile_class meta ce (singleton_scope b) with
            | Some f =>
                (set_compiled_factories
                   (<[a := f]> (compiled_factories c)) c1, S n)
            | None => (c1, n)
            end
        end
    end.
Proof.
  unfold compile_binding, eligible_class, metadata_for, singleton_scope,
    sf_cache_get, sf_cache_put.
  destruct (concrete b); try reflexivity.
  destruct (scope b); try reflexivity;
    (destruct (zend_lookup_class s) as [ce|]; [|reflexivity]);
    destruct c as [fc ins bnd ctx rc cf ce_on cl cd cb al tg];
    cbn [reflection_cache];
    (destruct (rc !! s) as [meta|] eqn:Hrc;
     cbn [default from_option id]; cbv zeta;
     cbn [reflection_cache set_reflection_cache compiled_factories
          set_compiled_factories]; rewrite ?Hrc);
    match goal with
    | |- context [sf_compiler_compile_class ?m ?e ?g] =>
        destruct (sf_compiler_compile_class m e g) as [f|] eqn:Hc;
        [rewrite (compile_class_instantiable _ _ _ _ Hc); cbn [negb];
         reflexivity
        |destruct (is_instantiable m); cbn [negb]; reflexivity]
    end.
Qed.

Lemma compile_fold_spec c0 (m : gmap string sf_binding) :
  let r := map_fold compile_binding (c0, O) m in
  (fast_cache (fst r) = fast_cache c0
   /\ instances (fst r) = instances c0
   /\ bindings (fst r) = bindings c0
   /\ context (fst r) = context c0
   /\ compilation_enabled (fst r) = compilation_enabled c0
   /\ cache_loaded (fst r) = cache_loaded c0
   /\ cache_dirty (fst r) = cache_dirty c0
   /\ contextual_bindings (fst r) = contextual_bindings c0
   /\ aliases (fst r) = aliases c0
   /\ tags (fst r) = tags c0)
  /\ (snd r <= size m)%nat
  /\ (forall cls ce, zend_lookup_class cls = Some ce ->
        metadata_for (fst r) cls ce = metadata_for c0 cls ce)
  /\ (forall a, m !! a = None ->
        compiled_factories (fst r) !! a = compiled_factories c0 !! a)
  /\ (forall a b cls ce f,
        m !! a = Some b -> eligible_class b = Some cls ->
        zend_lookup_class cls = Some ce ->
        sf_compiler_compile_class (metadata_for c0 cls ce) ce
                                  (singleton_scope b) = Some f ->
        compiled_factories (fst r) !! a = Some f)
  /\ (forall a f,
        compiled_factories (fst r) !! a = Some f ->
        compiled_factories c0 !! a = Some f
        \/ exists b cls,
             m !! a = Some b /\ eligible_class b = Some cls
             /\ zend_lookup_class cls = Some (f_ce f)).
Proof.
  cbv zeta.
  apply (map_fold_weak_ind
           (fun r m =>
              (fast_cache (fst r) = fast_cache c0
               /\ instances (fst r) = instances c0
               /\ bindings (fst r) = bindings c0
               /\ context (fst r) = context c0
               /\ compilation_enabled (fst r) = compilation_enabled c0
               /\ cache_loaded (fst r) = cache_loaded c0
               /\ cache_dirty (fst r) = cache_dirty c0
               /\ contextual_bindings (fst r) = contextual_bindings c0
               /\ aliases (fst r) = aliases c0
               /\ tags (fst r) = tags c0)
              /\ (snd r <= size m)%nat
              /\ (forall cls ce, zend_lookup_class cls = Some ce ->
                    metadata_for (fst r) cls ce = metadata_for c0 cls ce)
              /\ (forall a, m !! a = None ->
                    compiled_factories (fst r) !! a
                    = compiled_factories c0 !! a)
              /\ (forall a b cls ce f,
                    m !! a = Some b -> eligible_class b = Some cls ->
                    zend_lookup_class cls = Some ce ->
                    sf_compiler_compile_class (metadata_for c0 cls ce) ce
                                              (singleton_scope b) = Some f ->
                    compiled_factories (fst r) !! a = Some f)
              /\ (forall a f,
                    compiled_factories (fst r) !! a = Some f ->
                    compiled_factories c0 !! a = Some f
                    \/ exists b cls,
                         m !! a = Some b /\ eligible_class b = Some cls
                         /\ zend_lookup_class cls = Some (f_ce f)))).
  - cbn [fst snd]. split; [repeat split|]. split; [lia|].
    split; [reflexivity|]. split; [reflexivity|].
    split; [intros a b cls ce f Ha; rewrite lookup_empty in Ha;
            discriminate|].
    intros a f Hf. left. exact Hf.
  - intros i x m0 [c n] Hi (Hsame & Hn & Hmeta & Hframe & Hdone & Hfrom).
    cbn [fst snd] in *. rewrite compile_binding_cases.
    rewrite map_size_insert_None by exact Hi.
    assert (forall a b cls ce f,
               <[i := x]> m0 !! a = Some b -> a <> i ->
               eligible_class b = Some cls ->
               zend_lookup_class cls = Some ce ->
               sf_compiler_compile_class (metadata_for c0 cls ce) ce
                                         (singleton_scope b) = Some f ->
               compiled_factories c !! a = Some f) as Hold.
    { intros a b cls ce f Ha Hne. rewrite lookup_insert_ne in Ha by congruence.
      apply Hdone. exact Ha. }
    assert (forall a f,
               compiled_factories c !! a = Some f ->
               compiled_factories c0 !! a = Some f
               \/ exists b cls,
                    <[i := x]> m0 !! a = Some b
                    /\ eligible_class b = Some cls
                    /\ zend_lookup_class cls = Some (f_ce f)) as Hfrom'.
    { intros a f Hf. destruct (Hfrom a f Hf) as [Hl|(b & cls & Hb & He & Hc)];
        [left; exact Hl|right].
      exists b, cls. split; [|auto].
      rewrite lookup_insert_ne; [exact Hb|]. intros ->. congruence. }
    assert (forall a, <[i := x]> m0 !! a = None ->
                      compiled_factories c !! a = compiled_factories c0 !! a)
      as Hframe'.
    { intros a Ha. apply Hframe.
      destruct (decide (a = i)) as [->|Hne].
      - rewrite lookup_insert_eq in Ha. discriminate.
      - rewrite lookup_insert_ne in Ha by congruence. exact Ha. }
    destruct (eligible_class x) as [cls|] eqn:Hel.
    2:{ cbn [fst snd]. split; [exact Hsame|]. split; [lia|].
        split; [exact Hmeta|]. split; [exact Hframe'|].
        split; [|exact Hfrom'].
        intros a b cls ce f Ha. destruct (decide (a = i)) as [->|Hne].
        - rewrite lookup_insert_eq in Ha. injection Ha as <-. congruence.
        - eapply Hold; eassumption. }
    destruct (zend_lookup_class cls) as [ce|] eqn:Hce.
    2:{ cbn [fst snd]. split; [exact Hsame|]. split; [lia|].
        split; [exact Hmeta|]. split; [exact Hframe'|].
        split; [|exact Hfrom'].
        intros a b cls' ce' f Ha. destruct (decide (a = i)) as [->|Hne].
        - rewrite lookup_insert_eq in Ha. injection Ha as <-.
          intros He Hc'. congruence.
        - eapply Hold; eassumption. }
    cbv zeta. rewrite (Hmeta cls ce Hce).
    set (meta := metadata_for c0 cls ce).
    set (c1 := set_reflection_cache
                 (sf_cache_put cls meta (reflection_cache c)) c).
    assert (forall cls' ce', zend_lookup_class cls' = Some ce' ->
              metadata_for c1 cls' ce' = metadata_for c0 cls' ce') as Hmeta1.
    { intros cls' ce' Hce'. rewrite <- (Hmeta cls' ce' Hce').
      unfold metadata_for, sf_cache_get, c1, sf_cache_put.
      cbn [reflection_cache set_reflection_cache].
      destruct (reflection_cache c !! cls) as [old|] eqn:Hrc; [reflexivity|].
      destruct (decide (cls' = cls)) as [->|Hne].
      - rewrite lookup_insert_eq, Hrc. cbn [default from_option id].
        subst meta. rewrite <- (Hmeta cls ce Hce).
        unfold metadata_for, sf_cache_get. rewrite Hrc.
        cbn [default from_option id]. congruence.
      - rewrite lookup_insert_ne by congruence. reflexivity. }
    destruct (sf_compiler_compile_class meta ce (singleton_scope x))
      as [f|] eqn:Hcc; cbn [fst snd].
    + split; [exact Hsame|]. split; [lia|]. split; [exact Hmeta1|].
      cbn [compiled_factories set_compiled_factories].
      split; [|split].
      * intros a Ha. destruct (decide (a = i)) as [->|Hne].
        -- rewrite lookup_insert_eq in Ha. discriminate.
        -- rewrite lookup_insert_ne by congruence. apply Hframe'. exact Ha.
      * intros a b cls' ce' f' Ha He' Hce' Hc'.
        destruct (decide (a = i)) as [->|Hne].
        -- rewrite lookup_insert_eq in Ha. injection Ha as <-.
           rewrite lookup_insert_eq.
           assert (cls' = cls) by congruence. subst cls'.
           assert (ce' = ce) by congruence. subst ce'.
           fold meta in Hc'. congruence.
        -- rewrite lookup_insert_ne by congruence.
           eapply Hold; eassumption.
      * intros a f' Hf'. destruct (decide (a = i)) as [->|Hne].
        -- rewrite lookup_insert_eq in Hf'. injection Hf' as <-.
           right. exists x, cls. rewrite lookup_insert_eq.
           split; [reflexivity|]. split; [exact Hel|].
           unfold sf_compiler_compile_class in Hcc.
           destruct (negb _); [discriminate|].
           destruct (count_deps _); [|discriminate].
           injection Hcc as <-. exact Hce.
        -- rewrite lookup_insert_ne in Hf' by congruence.
           apply Hfrom'. exact Hf'.
    + split; [exact Hsame|]. split; [lia|]. split; [exact Hmeta1|].
      split; [exact Hframe'|]. split; [|exact Hfrom'].
      intros a b cls' ce' f' Ha He' Hce' Hc'.
      destruct (decide (a = i)) as [->|Hne].
      * rewrite lookup_insert_eq in Ha. injection Ha as <-.
        assert (cls' = cls) by congruence. subst cls'.
        assert (ce' = ce) by congruence. subst ce'.
        fold meta in Hc'. congruence.
      * eapply Hold; eassumption.
Qed.

(** X26.  [compile] turns compilation on and compiles the bindings of classes:
    every binding whose concrete is a class name of the host, with a
    scope other than Instance, and whose metadata (the cached one, or the
    one built) the compiler accepts, gets its factory under the abstract
    name, as a singleton factory for a singleton binding; every factory
    present afterwards was there before or belongs to such a binding; the
    count returned is at most the number of bindings; nothing else of the
    container changes but the metadata cache, and [clearCompiled] drops
    the factories and turns compilation off again. *)
Theorem compile_all_compiles_class_bindings c :
  let c' := fst (sf_compiler_compile_all c) in
  sf_container_is_compiled c' = true
  /\ (snd (sf_compiler_compile_all c) <= size (bindings c))%nat
  /\ (bindings c' = bindings c /\ instances c' = instances c
      /\ fast_cache c' = fast_cache c /\ aliases c' = aliases c
      /\ contextual_bindings c' = contextual_bindings c
      /\ tags c' = tags c /\ context c' = context c)
  /\ (forall a b cls ce f,
        bindings c !! a = Some b -> eligible_class b = Some cls ->
        zend_lookup_class cls = Some ce ->
        sf_compiler_compile_class (metadata_for c cls ce) ce
                                  (singleton_scope b) = Some f ->
        compiled_factories c' !! a = Some f)
  /\ (forall a f,
        compiled_factories c' !! a = Some f ->
        compiled_factories c !! a = Some f
        \/ exists b cls,
             bindings c !! a = Some b /\ eligible_class b = Some cls
             /\ zend_lookup_class cls = Some (f_ce f))
  /\ sf_container_is_compiled (sf_container_clear_compiled c') = false
  /\ compiled_factories (sf_container_clear_compiled c') = ∅.
Proof.
  intros c'. subst c'. unfold sf_compiler_compile_all.
  pose proof (compile_fold_spec c (bindings c)) as Hspec. cbv zeta in Hspec.
  destruct (map_fold compile_binding (c, O) (bindings c)) as [c1 n].
  cbn [fst snd] in *.
  destruct Hspec as (Hsame & Hn & _ & _ & Hdone & Hfrom).
  destruct Hsame as (S1 & S2 & S3 & S4 & S5 & S6 & S7 & S8 & S9 & S10).
  split; [reflexivity|]. split; [exact Hn|].
  split; [cbn; repeat split; assumption|].
  split; [exact Hdone|]. split; [exact Hfrom|]. split; reflexivity.
Qed.
End CompileAll.

(** ** The state [compile] leaves *)

Section CompiledStates.
Context `{Zend}.

(** Where a factory found after the loop of [sf_compiler_compile_all]
    comes from. *)
Lemma compile_fold_origin c0 (m : gmap string sf_binding) :
  let r := map_fold compile_binding (c0, O) m in
  (forall cls ce, zend_lookup_class cls = Some ce ->
     metadata_for (fst r) cls ce = metadata_for c0 cls ce)
  /\ (forall a f,
        compiled_factories (fst r) !! a = Some f ->
        compiled_factories c0 !! a = Some f
        \/ exists b cls ce,
             m !! a = Some b /\ eligible_class b = Some cls
             /\ zend_lookup_class cls = Some ce
             /\ sf_compiler_compile_class (metadata_for c0 cls ce) ce
                                          (singleton_scope b) = Some f).
Proof.
  cbv zeta.
  apply (map_fold_weak_ind
           (fun r m =>
              (forall cls ce, zend_lookup_class cls = Some ce ->
                 metadata_for (fst r) cls ce = metadata_for c0 cls ce)
              /\ (forall a f,
                    compiled_factories (fst r) !! a = Some f ->
                    compiled_factories c0 !! a = Some f
                    \/ exists b cls ce,
                         m !! a = Some b /\ eligible_class b = Some cls
                         /\ zend_lookup_class cls = Some ce
                         /\ sf_compiler_compile_class
                              (metadata_for c0 cls ce) ce (singleton_scope b)
                            = Some f))).
  - cbn [fst]. split; [reflexivity|]. intros a f Hf. left. exact Hf.
  - intros i x m0 [c n] Hi (Hmeta & Hfrom).
    cbn [fst snd] in *. rewrite compile_binding_cases.
    assert (forall a f,
               compiled_factories c !! a = Some f ->
               compiled_factories c0 !! a = Some f
               \/ exists b cls ce,
                    <[i := x]> m0 !! a = Some b
                    /\ eligible_class b = Some cls
                    /\ zend_lookup_class cls = Some ce
                    /\ sf_compiler_compile_class
                         (metadata_for c0 cls ce) ce (singleton_scope b)
                       = Some f) as Hfrom'.
    { intros a f Hf.
      destruct (Hfrom a f Hf) as [Hl|(b & cls & ce & Hb & He)];
        [left; exact Hl|right].
      exists b, cls, ce. split; [|exact He].
      rewrite lookup_insert_ne; [exact Hb|]. intros ->. congruence. }
    destruct (eligible_class x) as [cls|] eqn:Hel; [|split; assumption].
    destruct (zend_lookup_class cls) as [ce|] eqn:Hce; [|split; assumption].
    cbv zeta. rewrite (Hmeta cls ce Hce).
    set (meta := metadata_for c0 cls ce).
    set (c1 := set_reflection_cache
                 (sf_cache_put cls meta (reflection_cache c)) c).
    assert (forall cls' ce', zend_lookup_class cls' = Some ce' ->
              metadata_for c1 cls' ce' = metadata_for c0 cls' ce') as Hmeta1.
    { intros cls' ce' Hce'. rewrite <- (Hmeta cls' ce' Hce').
      unfold metadata_for, sf_cache_get, c1, sf_cache_put.
      cbn [reflection_cache set_reflection_cache].
      destruct (reflection_cache c !! cls) as [old|] eqn:Hrc; [reflexivity|].
      destruct (decide (cls' = cls)) as [->|Hne].
      - rewrite lookup_insert_eq, Hrc. cbn [default from_option id].
        subst meta. rewrite <- (Hmeta cls ce Hce).
        unfold metadata_for, sf_cache_get. rewrite Hrc.
        cbn [default from_option id]. congruence.
      - rewrite lookup_insert_ne by congruence. reflexivity. }
    destruct (sf_compiler_compile_class meta ce (singleton_scope x))
      as [f|] eqn:Hcc; cbn [fst snd]; (split; [exact Hmeta1|]);
      [|exact Hfrom'].
    cbn [compiled_factories set_compiled_factories].
    intros a f' Hf'. destruct (decide (a = i)) as [->|Hne].
    + rewrite lookup_insert_eq in Hf'. injection Hf' as <-.
      right. exists x, cls, ce. rewrite lookup_insert_eq. auto.
    + rewrite lookup_insert_ne in Hf' by congruence.
      apply Hfrom'. exact Hf'.
Qed.

Lemma compile_class_without_flag meta ce sgl sgl' :
  sf_compiler_compile_class meta ce sgl = None ->
  sf_compiler_compile_class meta ce sgl' = None.
Proof.
  unfold sf_compiler_compile_class.
  destruct (negb (sf_compiler_can_compile meta)); [reflexivity|].
  destruct (count_deps (params meta)); [discriminate|reflexivity].
Qed.

(** X29.  What [compile] leaves is a state of registered factories that
    agree with the bindings.  Take a container without compiled factories,
    whose cached metadata is that of the classes of the host, in which
    every class bound as a singleton is bound under its own name and
    every class a binding names is, under its own name, unbound or bound
    to itself.  After [sf_compiler_compile_all], every registered factory
    is the one the compiler gives for the class its name is bound to,
    with the singleton flag of the binding, a singleton factory stores
    under the name it is registered under, and every class a binding names
    is safe to compile under its own name. *)
Theorem compile_all_registers_coherent_factories c :
  let c' := fst (sf_compiler_compile_all c) in
  compiled_factories c = ∅ ->
  (forall cls m, reflection_cache c !! cls = Some m ->
     exists ce, zend_lookup_class cls = Some ce /\ m = sf_cache_build cls ce) ->
  (forall k b cls,
      bindings c !! k = Some b -> eligible_class b = Some cls ->
      singleton_scope b = true -> cls = k) ->
  (forall k b cls,
      bindings c !! k = Some b -> concrete b = IS_STRING cls ->
      bindings c !! cls = None
      \/ exists b', bindings c !! cls = Some b'
                    /\ eligible_class b' = Some cls) ->
  registered_ok c' /\ bound_classes_ok c'.
Proof.
  intros c' Hnone Hsound Hsingle Hown. subst c'.
  unfold sf_compiler_compile_all.
  pose proof (compile_fold_spec c (bindings c)) as Hspec.
  pose proof (compile_fold_origin c (bindings c)) as Horigin.
  cbv zeta in Hspec, Horigin.
  destruct (map_fold compile_binding (c, O) (bindings c)) as [c1 n].
  cbn [fst snd] in *.
  destruct Hspec as (Hsame & _ & Hmeta & _ & Hdone & _).
  destruct Hsame as (_ & _ & Hb & _).
  destruct Horigin as (_ & Hfrom).
  assert (forall cls ce, zend_lookup_class cls = Some ce ->
            metadata_for c cls ce = sf_cache_build cls ce) as Hbuilt.
  { intros cls ce Hce. unfold metadata_for, sf_cache_get.
    destruct (reflection_cache c !! cls) as [m|] eqn:Hm; [|reflexivity].
    destruct (Hsound _ _ Hm) as (ce' & Hce' & ->). cbn. congruence. }
  assert (forall k, name_class (set_compilation_enabled true c1) k
                    = name_class c k) as Hnc.
  { intros k. unfold name_class. cbn [bindings set_compilation_enabled].
    rewrite Hb. reflexivity. }
  assert (forall cls ce, zend_lookup_class cls = Some ce ->
            metadata_for (set_compilation_enabled true c1) cls ce
            = metadata_for c cls ce) as Hmeta'.
  { intros cls ce Hce. rewrite <- (Hmeta cls ce Hce). reflexivity. }
  split.
  - intros k g Hk Hfn. cbn [compiled_factories set_compilation_enabled] in Hk.
    destruct (Hfrom k g Hk) as [Hold|(b & cls & ce & Hkb & Hel & Hce & Hg)].
    { rewrite Hnone, lookup_empty in Hold. discriminate. }
    pose proof (compile_class_flag _ _ _ _ Hg) as Hflag.
    exists cls, ce. rewrite Hnc, (Hmeta' _ _ Hce), Hflag.
    split; [unfold name_class; rewrite Hkb, Hel; reflexivity|].
    pose proof Hg as Hg'. rewrite (Hbuilt _ _ Hce) in Hg'.
    unfold sf_compiler_compile_class in Hg'.
    destruct (sf_compiler_can_compile (sf_cache_build cls ce)) eqn:Hcan;
      [|discriminate].
    cbn [negb] in Hg'.
    destruct (count_deps (params (sf_cache_build cls ce))); [|discriminate].
    injection Hg' as Hg'.
    split.
    { intros Hsg. rewrite <- Hg'. cbn [f_class_name].
      rewrite (Hsingle k b cls Hkb Hel Hsg).
      unfold sf_cache_build.
      destruct (ce_not_instantiable ce); [reflexivity|].
      destruct (constructor ce); reflexivity. }
    split; [exact Hce|]. split; [|exact Hg].
    unfold sf_compiler_can_compile in Hcan.
    apply andb_prop in Hcan as [Hcan _]. apply andb_prop in Hcan as [Hi _].
    unfold sf_cache_build in Hi.
    destruct (ce_not_instantiable ce); [discriminate|reflexivity].
  - intros k b cls Hk Hcc. cbn [bindings set_compilation_enabled] in Hk.
    rewrite Hb in Hk. unfold safe_to_compile. rewrite Hnc.
    cbn [compiled_factories set_compilation_enabled].
    destruct (Hown k b cls Hk Hcc) as [Hun|(b' & Hb' & Hel')].
    { right. left. unfold name_class. rewrite Hun. reflexivity. }
    destruct (singleton_scope b') eqn:Hsg.
    2:{ right. left. unfold name_class. rewrite Hb', Hel'. cbn.
        rewrite Hsg. reflexivity. }
    destruct (zend_lookup_class cls) as [ce|] eqn:Hce.
    2:{ right. right. intros ce Hce'. discriminate. }
    destruct (sf_compiler_compile_class (metadata_for c cls ce) ce
                                        (singleton_scope b'))
      as [f|] eqn:Hf.
    + left. rewrite (Hdone cls b' cls ce f Hb' Hel' Hce Hf). eauto.
    + right. right. intros ce' Hce'. injection Hce' as <-.
      rewrite (Hmeta' _ _ Hce).
      eapply compile_class_without_flag. exact Hf.
Qed.

End CompiledStates.

Lemma compile_all_registers_coherent_factories_witness :
  registered_ok (H := host64) (cont compiled_services_world)
  /\ bound_classes_ok (H := host64) (cont compiled_services_world).
Proof.
  set (c := sf_container_bind
              (sf_container_bind sf_container_create "Logger"
                                 (IS_STRING "Logger") SF_SCOPE_SINGLETON)
              "Report" (IS_STRING "Report") SF_SCOPE_TRANSIENT).
  assert (bindings c
          = <["Report" := sf_binding_create "Report" (IS_STRING "Report")
                                            SF_SCOPE_TRANSIENT]>
              (<["Logger" := sf_binding_create "Logger" (IS_STRING "Logger")
                                               SF_SCOPE_SINGLETON]> ∅))
    as Hbind by (vm_compute; reflexivity).
  apply (compile_all_registers_coherent_factories (H := host64) c).
  - reflexivity.
  - intros cls m Hm. discriminate.
  - intros k b cls Hk Hel Hsg. rewrite Hbind in Hk.
    apply lookup_insert_Some in Hk as [[<- <-]|[_ Hk]]; [discriminate|].
    apply lookup_insert_Some in Hk as [[<- <-]|[_ Hk]].
    + injection Hel as <-. reflexivity.
    + rewrite lookup_empty in Hk. discriminate.
  - intros k b cls Hk Hcc. right. rewrite Hbind in Hk |- *.
    apply lookup_insert_Some in Hk as [[<- <-]|[_ Hk]].
    + injection Hcc as <-. rewrite lookup_insert_eq. eauto.
    + apply lookup_insert_Some in Hk as [[<- <-]|[_ Hk]].
      * injection Hcc as <-. rewrite lookup_insert_ne by discriminate.
        rewrite lookup_insert_eq. eauto.
      * rewrite lookup_empty in Hk. discriminate.
Defined.

(** ** Resolution with and without compiled factories *)

(** X28.  Resolution through compiled factories against resolution with
    compilation switched off.  In a state without contextual bindings,
    aliases or entries in the fast lookup table, whose registered
    factories agree with its bindings and whose dependency graph has no
    cycle from the requested name down, on a host whose constructor calls
    without arguments do not report a failure: whenever [make] without
    explicit parameters yields an instance, going through the compiled
    factories it finds, [make] with compilation switched off yields the
    same instance from the same state, and both leave the same instances,
    the same pending exception and the same bindings up to their
    [resolved] flags. *)
Theorem compiled_make_agrees_with_plain_make `{Zend} rk n d w v w' :
  coherent rk (rk d) w ->
  above rk (S (rk d)) w ->
  (forall ce, zend_call_function (CallConstructor ce) [] <> CallFailed) ->
  sf_container_make n w d None None = Some (SUCCESS, v, w') ->
  exists w'',
    sf_container_make n (on_container (set_compilation_enabled false) w)
                      d None None
    = Some (SUCCESS, v, w'')
    /\ instances (cont w') = instances (cont w'')
    /\ EG_exception w' = EG_exception w''
    /\ same_bindings (bindings (cont w')) (bindings (cont w'')).
Proof.
  intros Hc Ha Hhost Hrun.
  set (wA := on_container (set_compilation_enabled false) w).
  assert (rel rk (rk d) w wA) as Hr.
  { pose proof Hc as (C1 & C2 & C3 & _).
    unfold rel. repeat split; auto using same_bindings_refl; apply Hc. }
  destruct (simulation rk (rk d) Hhost n) as (_ & HQ & _).
  destruct (HQ n w wA d d v w' (Nat.le_refl _) (Nat.le_refl _) Hr Ha Ha Hrun)
    as (w'' & HA & Hr').
  exists w''. destruct Hr' as (R1 & R2 & _ & _ & R5 & _).
  split; [|auto].
  destruct n as [|n]; [discriminate|].
  rewrite make_unfold in HA |- *.
  rewrite make_frame_ignores_requester in HA; [exact HA| |reflexivity].
  apply Hc.
Qed.

Lemma compiled_make_agrees_with_plain_make_witness :
  exists w'',
    sf_container_make (H := host64) 3
      (on_container (set_compilation_enabled false) compiled_services_world)
      "Report" None None
    = Some (SUCCESS, IS_OBJECT "Report" [IS_OBJECT "Logger" []], w'')
    /\ instances (cont w'') !! "Logger" = Some (IS_OBJECT "Logger" []).
Proof.
  assert (exists w',
             sf_container_make (H := host64) 3 compiled_services_world
                               "Report" None None
             = Some (SUCCESS, IS_OBJECT "Report" [IS_OBJECT "Logger" []], w')
             /\ instances (cont w') !! "Logger"
                = Some (IS_OBJECT "Logger" []))
    as (w' & Hrun & Hlog).
  { eexists. split; vm_compute; reflexivity. }
  assert (above services_rank (S (services_rank "Report"))
                compiled_services_world) as Ha.
  { unfold above.
    replace (stack (context (cont compiled_services_world)))
      with (@nil string) by (vm_compute; reflexivity).
    constructor. }
  destruct (compiled_make_agrees_with_plain_make (H := host64)
              services_rank 3 "Report" compiled_services_world _ w'
              services_coherent Ha ltac:(intros ce; discriminate) Hrun)
    as (w'' & HA & Hi & _).
  exists w''. split; [exact HA|]. rewrite <- Hi. exact Hlog.
Defined.
